(* ===== verification/_CoqProject ===== *)
-Q . S2P
Prelude.v
CppString.v
Doubles.v
EventBuilder.v
Resync.v
SpscQueue.v
StorageUtils.v
Threads.v
Config.v
Json.v
DataHandler.v
DriverGlue.v
Pcie.v
PcieGlue.v
Wire.v
HwConsts.v
HardwareDevice.v
TriggerControl.v
XmitControl.v
ChargeFem.v
LightFem.v
Status.v
SlowReadout.v
DmaReadout.v
Pipeline.v
TriggerReadout.v
Controller.v
ControllerFacts.v
ControllerLife.v
Shell.v
RunSetup.v
MirrorMeta.v
MirrorQueue.v
MirrorState.v
MirrorWatch.v
MirrorCopy.v
MirrorWorker.v
MirrorRate.v
MirrorRun.v
Journal.v
Services.v
Orchestrator.v
DaqOrchestrator.v
ComputerStatus.v
