(* ===== verification/Prelude.v ===== *)
(** * GramsReadout: a verification development for the Nevis readout DAQ

    The program reads out the GRAMS detector: a controller takes commands from a
    hub, configures the boards of a crate through two PCIe cards, and runs the
    threads that move the data from the cards to disk; daemons beside it mirror the
    files to backup disks and supervise the processes. This file opens the library:
    after this overview, the notations, machine integers, monads and tactics that
    every file uses.

    ** The parts

    The data path of a run, in the order the data takes:
    - Pcie, Wire: the cards (src/lib/pcie_driver/pcie_interface.cpp). A call is the
      sequence of operations it makes on the vendor's driver, which is a parameter
      ([driver]); Wire reads off what the card transmits. DriverGlue: the library
      between the two (src/lib/pcie_driver/gramsreadout_lib.c), over the vendor's WDC
      calls. PcieGlue puts the cards on it.
    - DmaReadout: ReadoutDMARead of src/src/data/data_handler.cpp, which programs
      transfers and puts the blocks on the queue.
    - SpscQueue: the queue between the two threads
      (src/lib/folly/ProducerConsumerQueue.h), as functions and as interleaved steps.
    - EventBuilder: DataWrite, which cuts the blocks into events and writes chunks
      of them; Resync puts it against the read thread's recovery from lost transfers,
      and Pipeline (CollectData) runs both threads and the queue together.
    - TriggerReadout: TriggerDMARead and PollTriggerPPS, which record the triggers
      and the time stamps of the pulse per second.
    - SlowReadout: the read-out through the controller board and the write thread
      without event building, which nothing calls.
    - DataHandler: the object these threads share, its files, disks, flags,
      [Configure], [Reset], [GetMetrics]. It implements the interface [WriterEnv] the
      write thread is proved against.
    - StorageUtils: src/src/data/storage_utils.cpp, the choice of a disk.

    The configuration of the crate, a script of commands for each device:
    - HwConsts, HardwareDevice: the constants, the buffers, firmware loading and what
      it is for packets to follow a script.
    - TriggerControl, XmitControl, ChargeFem, LightFem: one file for each source file
      of src/src/hardware. Status: src/src/status/status.cpp.

    The control of a run:
    - Controller: the handlers of commands, the status pass and the automatic stop
      (src/src/control). ControllerFacts and RunSetup have its properties. ControllerLife:
      its constructor, its loop of commands, its destructor, and the thread of the
      service that runs them. Shell: the interactive front end, src/main.cpp.
    - Config, Json: configuration documents, as the devices read them and as the
      controller edits them.

    The mirror daemon (src/daemon/mirror_engine.cpp, data_mirror.cpp):
    - MirrorMeta: what a file name says; MirrorQueue: which file is next;
      MirrorCopy: the copy of one file, MirrorRate: how it is paced; MirrorWorker: the
      loop around it, and [Run]; MirrorRun: what holds over a whole [Run].
    - MirrorState: the state file and the settings; MirrorWatch: the directory scan of
      a start and the inotify loop, which find the files.

    The processes:
    - Services: what runs the controller, the data monitor and the time-of-flight
      controller as services (src/daemon/tpc_daq.cpp, data_monitor.cpp, tof_daq.cpp): a
      thread that constructs, runs and destroys the object, and the [main] that stops it.
    - Journal: the thread of tof_daq.cpp that sends on the lines of the journal.
    - Orchestrator (src/daemon/orchestrator.cpp): the commands that start and stop the
      services. ComputerStatus: its status packets.
    - DaqOrchestrator (src/daemon/daq_orchestrator.cpp): the older one, which runs the
      threads of Services in its own process.

    CppString has the string functions of the C++ library that are used, Doubles its
    floating-point numbers; Threads the
    triples for a thread that runs against others, and fair schedules.

    ** How the code is modelled

    An object is a record, a method a function on it, in one of two monads: [st] for
    code that returns, [st_err] for code that may throw (the state it reached is
    kept). [r <| f := v |>] assigns a field. Integers are [Z] or [N] and wrapped where
    the code's types wrap ([u8] to [u64], [i32]). What is outside the repository
    answers as a parameter: the driver of the cards ([driver]), the operating system
    ([os], [kernel], [host]), the classes of the networking submodule. A thread that
    shares state reads it through a numbered clock ([world] in DmaReadout, [shared] in
    TriggerReadout, [kernel] and [others] in the mirror), and the theorems hold for
    all answers, which covers every scheduling of the others; SpscQueue, Resync,
    ControllerFacts and MirrorQueue use step relations, and Pipeline, Services and
    DaqOrchestrator machines that take the turns of a schedule, one that cannot move
    letting its turn pass: the theorems quantify over the schedule.

    ** What the theorems show

    - No event is lost, cut or invented: DataWrite writes exactly the complete events
      of the blocks it is given, in whole chunks and within its buffer; the queue is a
      FIFO under every interleaving; after a lost transfer the halves of two events
      are never joined, provided no second one is lost before the first is handled,
      and Resync gives the interleaving in which it is.
    - End to end, under every schedule of the read and the write thread: the file holds
      the complete events of the blocks that were transferred, in order, and the write
      thread ends once the read thread has.
    - A stopped thread returns, whatever the hardware answers, with every trigger or
      PPS record it took written once and in order to a file of its run, or dropped
      when that file could not be opened.
    - Each device receives exactly its script, firmware included; the status checks
      are comparisons under a mask.
    - The state machine: over any interleaving of commands, status passes and steps of
      the data threads the threads only run while the state is Running, a command
      makes exactly its transition or none, a full disk has the effect of a Stop. A
      service that ends leaves the cards closed, and is terminated exactly in a run.
    - Runs: run numbers are used once in 2^32 runs and two runs share no file; a run
      starts only on a disk with room; the configuration reads back what was sent.
    - The mirror: a file is queued or copied at most once; the next file is the best
      of the run whose turn it is; a copy is atomic for any answers of the system
      calls; the worker ends when it is told to; a name is parsed back to the run and
      segment it was built from; the state file reads back what was recorded, so that a
      restarted daemon waits for exactly the files that were not copied; inotify hands
      over what it should and drops nothing it was told. Over a whole [Run] every file
      of the backup disks is the one that was there, a whole copy of its source, or a
      partial file, and when no call fails every file of the backlog is settled.
    - The orchestrator starts the TPC read-out only right after a disk with room was
      written to the disk file, keeps at most one status thread and ends with a stop
      of every data service; each status packet is made from what was read just before.
    - The services end when they are told to once they are up, and not when they are told
      earlier; the in-process orchestrator ends in 22 rounds, its pointers follow its
      threads, and a thread that ended by itself cannot be restarted.
    - The glue of the driver refines a table of users and served handlers, whatever is
      called in whatever order, and the cards leave it as they found it, but on one
      failure. The shell asks the controller for what was typed, and
      the forwarder of the journal sends its lines in order, once each.
    - Errors and bounds: what each failure of a file switch, of opening the cards or of
      a transfer leaves behind; polls are bounded; accepted DMA sizes fit.

    ** Fuel

    The event builder, the queue and the hardware scripts are structural. Loops that
    wait on other threads take fuel and are proved to return: [stop < fuel] suffices
    where the running flag falls at clock [stop] (every pass reads it), the 20000
    polls of a transfer are the code's own bound, and the mirror's copy needs more
    fuel than the calls that may be interrupted plus the bytes of the source. The
    directory scan goes down one level for each unit of fuel and is given PATH_MAX, which
    no path it can look at exceeds. Liveness is counted in rounds, in each of which every
    thread has a turn: 5 for a service, 15 for the journal, 22 for the orchestrator, a bound on the work
    left.

    ** Not modelled

    Sleeps, log output and the decoding of words only to print them; the weak-memory
    behaviour of the atomics (accesses are sequentially consistent) and data races on
    plain members, noted as findings; the parsed trigger file, disabled at compile
    time; the threads that only run the event loop of the networking library, and what
    pthread_cancel does to a thread that is not inside [catch (...)]; the set-up of the
    logging and of the signal handlers, whose effect is a turn of the machines; the
    vendored JSON library (Json has what the code relies on) and the vendor's driver; the
    networking submodule, whose sources are not in the repository: the connections, the
    monitor objects, the data monitor and the time-of-flight controller are parameters,
    or appear as the calls made on them. *)
From stdpp Require Import base tactics list numbers option.

(** ** Records updated in place

    The C++ objects are records; a method assigns some of their fields. A
    record type declares its eta-expansion once ([RecordEta]) and
    [r <| f := v |>] then assigns one field. *)
Class RecordEta (R : Type) := record_eta : R → R.
Class FieldUpdate {R E : Type} (proj : R → E) := update_field : (E → E) → R → R.
Arguments update_field {R E} proj {_} _ _ /.

Ltac derive_field_update R proj :=
  let eta := constr:(_ : RecordEta R) in
  let body := eval hnf in eta in
  exact (fun g r =>
    ltac:(let whole := eval cbv beta in (body r) in
          let p := eval pattern (proj r) in whole in
          lazymatch p with
          | ?ctx _ => let t := eval cbv beta in (ctx (g (proj r))) in exact t
          end)).
#[export] Hint Extern 1 (@FieldUpdate ?R _ ?proj) =>
  derive_field_update R proj : typeclass_instances.

Declare Scope readout_scope.
Delimit Scope readout_scope with readout.
Open Scope readout_scope.
Notation "r <| f ::= g |>" := (update_field f g r)
  (at level 1, left associativity, f at level 9) : readout_scope.
Notation "r <| f := v |>" := (update_field f (λ _, v) r)
  (at level 1, left associativity, f at level 9) : readout_scope.

(** ** Machine integers: a [w]-bit unsigned word is a [Z], wrapped explicitly *)
Definition u8 (z : Z) : Z := (z `mod` 2 ^ 8)%Z.
Definition u16 (z : Z) : Z := (z `mod` 2 ^ 16)%Z.
Definition u32 (z : Z) : Z := (z `mod` 2 ^ 32)%Z.
Definition u64 (z : Z) : Z := (z `mod` 2 ^ 64)%Z.
(** Two's complement reading of the low 32 bits: what a conversion to [int] gives. *)
Definition i32 (z : Z) : Z :=
  let w := u32 z in if decide (w < 2 ^ 31)%Z then w else (w - 2 ^ 32)%Z.

Abbreviation zlen l := (Z.of_nat (length l)).

(** ** Code that updates an object, in the order of its calls *)
Definition st (S A : Type) : Type := S → S * A.
#[export] Instance st_mret S : MRet (st S) := λ A a s, (s, a).
#[export] Instance st_mbind S : MBind (st S) := λ A B k c s, let '(s, a) := c s in k a s.
Definition st_update {S} (f : S → S) : st S () := λ s, (f s, ()).
Definition st_read {S A} (f : S → A) : st S A := λ s, (s, f s).

(** ** Code that may throw while it updates an object: the state reached when
    it throws is kept. *)
Definition st_err (S A : Type) : Type := S → S * option A.
Definition st_ret {S A} (a : A) : st_err S A := λ s, (s, Some a).
Definition st_bind {S A B} (c : st_err S A) (k : A → st_err S B) : st_err S B := λ s,
  match c s with
  | (s, Some a) => k a s
  | (s, None) => (s, None)
  end.
Definition st_modify {S} (f : S → S) : st_err S unit := λ s, (f s, Some tt).
(** A call that throws when it has no value. *)
Definition st_get {S A} (o : option A) : st_err S A := λ s, (s, o).
Notation "x <~ c ;; k" := (st_bind c (λ x, k))
  (at level 100, c at next level, right associativity) : readout_scope.
Notation "c ;;~ k" := (st_bind c (λ _, k)) (at level 100, right associativity) : readout_scope.

(** ** Shared automation *)
Create HintDb readout.
Ltac split_and_all := repeat match goal with |- _ ∧ _ => split end.
(** Case analysis on every [if]/[match] of the goal, discarding the impossible ones. *)
Ltac break := repeat (case_match; simplify_eq/=).
Ltac break_all := repeat (case_match; simplify_eq/=); try done.

(** ** Runs of throwing code that did not throw *)
Lemma st_bind_ok {S A B} (c : st_err S A) (k : A → st_err S B) s s' b :
  st_bind c k s = (s', Some b) → ∃ s1 a, c s = (s1, Some a) ∧ k a s1 = (s', Some b).
Proof. unfold st_bind. destruct (c s) as [s1 [a|]]; [eauto|done]. Qed.
Lemma st_get_ok {S A} (o : option A) (s s' : S) a :
  st_get o s = (s', Some a) → s' = s ∧ o = Some a.
Proof. unfold st_get. by intros [= -> ->]. Qed.
Lemma st_modify_ok {S} (f : S → S) s s' u : st_modify f s = (s', Some u) → s' = f s.
Proof. unfold st_modify. by intros [= -> _]. Qed.
(** Takes a run apart, naming the states by the updates that reach them. *)
Ltac st_inv :=
  repeat match goal with
  | H : st_bind _ _ _ = (_, Some _) |- _ => apply st_bind_ok in H as (? & ? & ? & ?)
  | H : st_get _ _ = (_, Some _) |- _ => apply st_get_ok in H as [? ?]; subst
  | H : st_modify _ _ = (_, Some _) |- _ => apply st_modify_ok in H; subst
  end.

(** ** Lists *)
Section lists.
Context {A : Type}.
Implicit Types l k : list A.

Lemma take_S_insert l i x :
  i < length l → take (S i) (<[i:=x]> l) = take i l ++ [x].
Proof.
  intros Hi. rewrite (take_S_r _ _ x) by by apply list_lookup_insert_eq.
  by rewrite take_insert_ge by lia.
Qed.

Lemma take_take_le l i j : i ≤ j → take i (take j l) = take i l.
Proof. intros. rewrite take_take. f_equal. lia. Qed.

Lemma length_take_le l i : i ≤ length l → length (take i l) = i.
Proof. intros. rewrite length_take. lia. Qed.

Lemma concat_snoc (ls : list (list A)) l : concat (ls ++ [l]) = concat ls ++ l.
Proof. rewrite concat_app. simpl. by rewrite app_nil_r. Qed.

Lemma length_concat_le (ls : list (list A)) w :
  Forall (λ l, length l ≤ w) ls → length (concat ls) ≤ length ls * w.
Proof. induction 1; simpl; rewrite ?length_app; lia. Qed.
End lists.
