(* ===== verification/CppString.v ===== *)
(** * Strings as the C++ code uses them

    The [std::string] and [<cstdlib>] operations the readout calls, on Rocq's
    strings: searching, cutting, decimal printing ([std::to_string]) and
    decimal parsing ([strtoull], digit loops), with the lemmas that relate them. *)
From Stdlib Require Import Ascii String Lia NArith.
From stdpp Require Import base tactics list numbers option strings.
From S2P Require Import Prelude.
Local Open Scope string_scope.
#[global] Arguments String.append !_ _ /.

(** ** Searching and cutting *)
Definition slash : ascii := "/"%char.
Definition newline : ascii := "010"%char.

(** [s.find(needle)]; [None] is [npos]. *)
Definition find (needle s : string) : option nat := String.index 0 needle s.

(** [s.find_last_of(c)] *)
Fixpoint find_last_of (c : ascii) (s : string) : option nat :=
  match s with
  | EmptyString => None
  | String a s =>
      match find_last_of c s with
      | Some i => Some (S i)
      | None => if Ascii.eqb a c then Some 0 else None
      end
  end.

(** [s.substr(pos)], for [pos <= s.size()] *)
Fixpoint drop_string (n : nat) (s : string) : string :=
  match n, s with
  | S n, String _ s => drop_string n s
  | _, _ => s
  end.
(** [s.substr(0, n)] *)
Fixpoint take_string (n : nat) (s : string) : string :=
  match n, s with
  | S n, String a s => String a (take_string n s)
  | _, _ => EmptyString
  end.
(** [s[i]] *)
Definition char_at (s : string) (i : nat) : option ascii := String.get i s.

Fixpoint string_has (c : ascii) (s : string) : bool :=
  match s with
  | EmptyString => false
  | String a s => Ascii.eqb a c || string_has c s
  end.

(** ** Decimal numbers *)
Definition digit_char (d : N) : ascii := ascii_of_N (48 + d).
Definition digit_val (a : ascii) : N := (N_of_ascii a - 48)%N.
Definition is_digit (a : ascii) : bool :=
  (48 <=? N_of_ascii a)%N && (N_of_ascii a <=? 57)%N.

Fixpoint to_string_aux (fuel : nat) (n : N) : string :=
  match fuel with
  | O => ""
  | S fuel =>
      if (n <? 10)%N then String (digit_char n) ""
      else to_string_aux fuel (n / 10) ++ String (digit_char (n mod 10)) ""
  end.
(** [std::to_string]; a number has at most [log2 n + 1] decimal digits. *)
Definition to_string (n : N) : string := to_string_aux (S (N.to_nat (N.log2 n))) n.
(** [stream << n] for [int64_t n] *)
Definition print_i64 (z : Z) : string :=
  if (z <? 0)%Z then String "-" (to_string (Z.to_N (- z))) else to_string (Z.to_N z).

(** The digits at the head of a string: their value, continued from [acc], how
    many they are, and the rest. *)
Fixpoint span_digits (acc : N) (s : string) : N * nat * string :=
  match s with
  | String a s' =>
      if is_digit a
      then let '(v, k, r) := span_digits (acc * 10 + digit_val a) s' in (v, S k, r)
      else (acc, 0, s)
  | EmptyString => (acc, 0, EmptyString)
  end.

Definition is_space (a : ascii) : bool :=
  let n := N_of_ascii a in (n =? 32)%N || ((9 <=? n)%N && (n <=? 13)%N).
Fixpoint skip_spaces (s : string) : string :=
  match s with
  | String a s' => if is_space a then skip_spaces s' else s
  | EmptyString => EmptyString
  end.
(** A sign and digits: negative, the value, the rest; None without digits. *)
Definition read_number (s : string) : option (bool * N * string) :=
  let s := skip_spaces s in
  let '(neg, s) := match s with
                   | String a s' => if Ascii.eqb a "-" then (true, s')
                                    else if Ascii.eqb a "+" then (false, s') else (false, s)
                   | EmptyString => (false, s)
                   end in
  let '(v, k, r) := span_digits 0 s in
  match k with O => None | _ => Some (neg, v, r) end.
Definition ULLONG_MAX : N := 2 ^ 64 - 1.
(** [strtoull(s, &end, 10)]; [None] when nothing was converted ([end == s]). *)
Definition strtoull (s : string) : option N :=
  let s := skip_spaces s in
  let '(neg, s) := match s with
                   | String a s' => if Ascii.eqb a "-" then (true, s')
                                    else if Ascii.eqb a "+" then (false, s') else (false, s)
                   | EmptyString => (false, s)
                   end in
  let '(v, k, _) := span_digits 0 s in
  match k with
  | O => None
  | _ => Some (if (ULLONG_MAX <? v)%N then ULLONG_MAX
               else if neg then (2 ^ 64 - v) mod 2 ^ 64 else v)%N
  end.

(** ** Lemmas *)
Lemma append_nil_r s : s ++ "" = s.
Proof. induction s; simpl; congruence. Qed.

Lemma append_assoc s t u : (s ++ t) ++ u = s ++ (t ++ u).
Proof. induction s; simpl; congruence. Qed.

Lemma length_append s t : String.length (s ++ t) = String.length s + String.length t.
Proof. induction s; simpl; congruence. Qed.

Lemma append_inj_l s t u : s ++ t = s ++ u → t = u.
Proof. induction s; simpl; [done|]. intros [= ?]. auto. Qed.

Lemma append_inj s t s' t' :
  String.length s = String.length s' → s ++ t = s' ++ t' → s = s' ∧ t = t'.
Proof.
  revert s'. induction s as [|a s IH]; intros [|b s'] Hl; simplify_eq/=; [done|].
  intros [= -> E]. destruct (IH s' Hl E). by subst.
Qed.

Lemma drop_string_append s t : drop_string (String.length s) (s ++ t) = t.
Proof. induction s; simpl; [by destruct t|done]. Qed.

Lemma take_string_append s t : take_string (String.length s) (s ++ t) = s.
Proof. induction s; simpl; [by destruct t|congruence]. Qed.

Lemma char_at_append s t : char_at (s ++ t) (String.length s) = char_at t 0.
Proof. unfold char_at. by induction s. Qed.

Lemma char_at_0 s a : char_at s 0 = Some a ↔ ∃ t, s = String a t.
Proof. unfold char_at. destruct s as [|b s]; simpl; naive_solver. Qed.

Lemma prefix_append s t : String.prefix s (s ++ t) = true.
Proof. induction s as [|a s IH]; [by destruct t|]. simpl. by destruct (ascii_dec a a). Qed.

Lemma prefix_inv s t : String.prefix s t = true → ∃ u, t = s ++ u.
Proof.
  revert t. induction s as [|a s IH]; intros t; [by exists t|].
  destruct t as [|b t]; simpl; [done|]. destruct (ascii_dec a b) as [->|]; [|done].
  intros [u ->]%IH. by exists u.
Qed.

Lemma string_has_append c s t : string_has c (s ++ t) = string_has c s || string_has c t.
Proof. induction s as [|a s IH]; simpl; [done|]. by rewrite IH, orb_assoc. Qed.

Lemma find_last_of_absent c s : string_has c s = false → find_last_of c s = None.
Proof.
  induction s as [|a s IH]; simpl; [done|]. intros [Ha Hs]%orb_false_iff. by rewrite IH, Ha.
Qed.

Lemma find_last_of_last c s t :
  string_has c t = false → find_last_of c (s ++ String c t) = Some (String.length s).
Proof.
  intros Ht. induction s as [|a s IH]; simpl.
  - by rewrite find_last_of_absent, Ascii.eqb_refl.
  - by rewrite IH.
Qed.

Lemma find_last_of_split c s i :
  find_last_of c s = Some i →
  ∃ t u, s = t ++ String c u ∧ String.length t = i ∧ string_has c u = false.
Proof.
  assert (∀ s, find_last_of c s = None → string_has c s = false) as Hnone.
  { clear. induction s as [|a s IH]; simpl; [done|].
    destruct (find_last_of c s); [done|]. destruct (Ascii.eqb a c); [done|]. auto. }
  revert i. induction s as [|a s IH]; intros i; simpl; [done|].
  destruct (find_last_of c s) as [j|] eqn:E.
  - intros [= <-]. destruct (IH j eq_refl) as (t & u & -> & <- & Hu). by exists (String a t), u.
  - destruct (Ascii.eqb_spec a c) as [->|]; [|done]. intros [= <-].
    exists "", s. auto.
Qed.

Lemma find_last_of_some c s t : find_last_of c (s ++ String c t) ≠ None.
Proof.
  induction s as [|a s IH]; simpl.
  - destruct (find_last_of c t); [done|]. by rewrite Ascii.eqb_refl.
  - by destruct (find_last_of c (s ++ String c t)).
Qed.
(** A [c] of the string is the last one, or before it. *)
Lemma append_before_last c t u s rest :
  string_has c u = false → t ++ String c u = s ++ String c rest →
  ∃ rest', t = s ++ rest' ∧ (rest' = "" ∨ ∃ r, rest' = String c r).
Proof.
  intros Hu. revert s. induction t as [|a t IH]; intros [|b s] E; simpl in *.
  - exists "". auto.
  - injection E as <- ->. rewrite string_has_append in Hu. simpl in Hu.
    rewrite Ascii.eqb_refl, orb_true_r in Hu. done.
  - injection E as -> E. eexists. split; [done|]. right. by exists t.
  - injection E as -> E. destruct (IH s E) as (rest' & -> & H). by exists rest'.
Qed.

(** Two strings cut at their first [c]. *)
Lemma append_cut_inj c s t s' t' :
  string_has c s = false → string_has c s' = false →
  s ++ String c t = s' ++ String c t' → s = s' ∧ t = t'.
Proof.
  revert s'. induction s as [|a s IH]; intros [|b s']; simpl.
  - by intros _ _ [= ->].
  - intros _ Hb [= -> _]. by rewrite Ascii.eqb_refl in Hb.
  - intros Ha _ [= -> _]. by rewrite Ascii.eqb_refl in Ha.
  - intros [_ Hs]%orb_false_iff [_ Hs']%orb_false_iff [= -> E].
    by destruct (IH s' Hs Hs' E) as [-> ->].
Qed.

(** *** Decimal round trip *)
Lemma N_of_digit d : (d < 10)%N → N_of_ascii (digit_char d) = (48 + d)%N.
Proof. intros. unfold digit_char. apply N_ascii_embedding. lia. Qed.

Lemma digit_char_digit d : (d < 10)%N → is_digit (digit_char d) = true.
Proof.
  intros. unfold is_digit. rewrite N_of_digit by done. apply andb_true_iff.
  split; apply N.leb_le; lia.
Qed.

Lemma digit_val_char d : (d < 10)%N → digit_val (digit_char d) = d.
Proof. intros. unfold digit_val. rewrite N_of_digit by done. lia. Qed.

(** [s] is the decimal writing of [n]: reading it back adds [n] below [acc]. *)
Definition writes (s : string) (n : N) : Prop :=
  ∀ acc rest, ∃ w : N,
    span_digits acc (s ++ rest) =
      (let '(v, k, r) := span_digits (acc * 10 ^ w + n) rest in
       (v, (String.length s + k)%nat, r)).

Lemma to_string_aux_writes fuel n :
  (N.log2 n < N.of_nat fuel)%N → writes (to_string_aux fuel n) n ∧
    (0 < String.length (to_string_aux fuel n))%nat.
Proof.
  revert n. induction fuel as [|fuel IH]; intros n Hn; [lia|]. simpl.
  destruct (N.ltb_spec n 10) as [Hlt|Hge].
  - split; [|simpl; lia]. intros acc rest. exists 1%N. simpl.
    rewrite digit_char_digit, digit_val_char by done.
    by destruct (span_digits _ rest) as [[v k] r].
  - assert (N.log2 (n / 10) < N.log2 n)%N as Hlog.
    { destruct (N.eq_dec (n / 10)%N 0%N) as [->|].
      - apply N.log2_pos. lia.
      - apply N.le_lt_trans with (N.log2 (n / 2)).
        + apply N.log2_le_mono, N.div_le_compat_l. lia.
        + rewrite <-N.div2_div, N.div2_spec, N.log2_shiftr. pose proof (N.log2_pos n). lia. }
    destruct (IH (n / 10)%N) as [Hw _]; [lia|].
    pose proof (N.mod_lt n 10 ltac:(lia)) as Hmod.
    split; [|rewrite length_append; simpl; lia]. intros acc rest.
    destruct (Hw acc (String (digit_char (n mod 10)) rest)) as [w Hsp].
    exists (w + 1)%N. rewrite append_assoc. simpl. rewrite Hsp. simpl.
    rewrite digit_char_digit, digit_val_char by done.
    replace (acc * 10 ^ (w + 1) + n)%N with ((acc * 10 ^ w + n / 10) * 10 + n mod 10)%N;
      [destruct (span_digits _ rest) as [[v k] r]; rewrite length_append; simpl; do 2 f_equal; lia|].
    rewrite N.pow_add_r, N.pow_1_r. pose proof (N.div_mod n 10 ltac:(lia)). lia.
Qed.

Lemma to_string_nonempty n : (0 < String.length (to_string n))%nat.
Proof. apply to_string_aux_writes. lia. Qed.

(** A decimal number followed by anything but a digit reads back. *)
Lemma span_digits_to_string n rest :
  match rest with String a _ => is_digit a = false | EmptyString => True end →
  span_digits 0 (to_string n ++ rest) = (n, String.length (to_string n), rest).
Proof.
  intros Hrest. destruct (to_string_aux_writes (S (N.to_nat (N.log2 n))) n) as [Hw _]; [lia|].
  destruct (Hw 0%N rest) as [w Hsp]. fold (to_string n) in Hsp. rewrite Hsp, N.mul_0_l, N.add_0_l.
  destruct rest as [|a rest]; simpl; [by rewrite Nat.add_0_r|]. by rewrite Hrest, Nat.add_0_r.
Qed.

Lemma to_string_inj n m : to_string n = to_string m → n = m.
Proof.
  intros E. pose proof (span_digits_to_string n "" I) as Hn.
  rewrite E, (span_digits_to_string m "" I) in Hn. congruence.
Qed.

Lemma to_string_digits c n : is_digit c = false → string_has c (to_string n) = false.
Proof.
  unfold to_string. generalize (S (N.to_nat (N.log2 n))) as fuel. intros fuel Hc. revert n.
  assert (∀ d, (d < 10)%N → Ascii.eqb (digit_char d) c = false) as Hd.
  { intros d Hd. apply Ascii.eqb_neq. intros E. apply digit_char_digit in Hd. by rewrite E, Hc in Hd. }
  induction fuel as [|fuel IH]; intros n; simpl; [done|].
  destruct (N.ltb_spec n 10); simpl; [by rewrite Hd|].
  rewrite string_has_append, IH. simpl. rewrite Hd; [done|]. apply N.mod_lt. lia.
Qed.
Lemma to_string_no_slash n : string_has slash (to_string n) = false.
Proof. by apply to_string_digits. Qed.

Lemma strtoull_to_string n : (n < 2 ^ 64)%N → strtoull (to_string n) = Some n.
Proof.
  intros Hn. unfold strtoull.
  assert (∃ a s, to_string n = String a s ∧ is_digit a = true) as (a & s & E & Ha).
  { pose proof (to_string_nonempty n) as Hl. pose proof (span_digits_to_string n "" I) as Hs.
    rewrite append_nil_r in Hs. destruct (to_string n) as [|a s]; simpl in *; [lia|].
    exists a, s. split; [done|]. by destruct (is_digit a). }
  pose proof (span_digits_to_string n "" I) as Hs. rewrite append_nil_r in Hs.
  rewrite E in *. unfold is_digit in Ha. apply andb_true_iff in Ha as [H1%N.leb_le H2%N.leb_le].
  simpl skip_spaces.
  assert (is_space a = false) as ->.
  { unfold is_space. apply orb_false_iff. split; [apply N.eqb_neq; lia|].
    apply andb_false_iff. right. apply N.leb_gt. lia. }
  assert (Ascii.eqb a "-" = false) as ->.
  { apply Ascii.eqb_neq. intros ->. change (N_of_ascii "-") with 45%N in *. lia. }
  assert (Ascii.eqb a "+" = false) as ->.
  { apply Ascii.eqb_neq. intros ->. change (N_of_ascii "+") with 43%N in *. lia. }
  rewrite Hs. simpl. unfold ULLONG_MAX. destruct (N.ltb_spec (2 ^ 64 - 1) n); [lia|done].
Qed.

(** ** Searching from the left *)
Lemma find_head needle s : find needle (needle ++ s) = Some 0.
Proof.
  unfold find. pose proof (prefix_append needle s) as Hp. destruct (needle ++ s) as [|a t] eqn:E.
  - by destruct needle.
  - cbn [String.index]. by rewrite Hp.
Qed.

Lemma find_absent_char c needle s :
  string_has c needle = true → string_has c s = false → find needle s = None.
Proof.
  intros Hn. unfold find. induction s as [|a s IH]; intros Hs; [by destruct needle|]. cbn [String.index].
  assert (String.prefix needle (String a s) = false) as ->.
  { destruct (String.prefix needle (String a s)) eqn:E; [|done]. apply prefix_inv in E as [u E].
    rewrite E, string_has_append, Hn in Hs. done. }
  cbn in Hs. apply orb_false_iff in Hs as [_ Hs]. by rewrite IH.
Qed.

(** A needle without the character [c] lies before or after the first [c]. *)
Lemma prefix_before_char c needle a b :
  string_has c needle = false → String.prefix needle (a ++ String c b) = String.prefix needle a.
Proof.
  revert needle. induction a as [|x a IH]; intros needle Hn.
  - destruct needle as [|y n]; [done|]. cbn in Hn |- *. apply orb_false_iff in Hn as [Hy _].
    destruct (ascii_dec y c) as [->|]; [by rewrite Ascii.eqb_refl in Hy|done].
  - destruct needle as [|y n]; [done|]. cbn. destruct (ascii_dec y x); [|done].
    apply IH. cbn in Hn. by apply orb_false_iff in Hn as [_ ?].
Qed.
Lemma find_before_char c needle a b :
  string_has c needle = false → needle ≠ "" →
  find needle (a ++ String c b) =
  match find needle a with Some n => Some n | None => (λ n, S (String.length a + n)) <$> find needle b end.
Proof.
  intros Hn Hne. unfold find. induction a as [|x a IH].
  - cbn [append String.index]. pose proof (prefix_before_char c needle "" b Hn) as Hp. cbn [append] in Hp.
    rewrite Hp. destruct needle as [|y n]; [done|]. cbn. by destruct (String.index 0 (String y n) b).
  - cbn [append String.index]. change (String x (a ++ String c b)) with (String x a ++ String c b).
    rewrite prefix_before_char by done. destruct (String.prefix needle (String x a)); [done|].
    rewrite IH. destruct (String.index 0 needle a); [done|].
    by destruct (String.index 0 needle b).
Qed.
