(* ===== verification/Doubles.v ===== *)
(** * Doubles

    The C++ [double] is the Standard Library's binary64 ([SpecFloat]), rounded to
    nearest; conversions from and to integers as [static_cast] makes them. *)
From Stdlib Require Import ZArith SpecFloat.
Definition double_of (n : Z) : spec_float := binary_normalize 53 1024 n 0 false.
Definition fmul := SFmul 53 1024.
Definition fdiv := SFdiv 53 1024.
Definition fadd := SFadd 53 1024.
Definition fsub := SFsub 53 1024.
Definition positive_double (f : spec_float) : bool := SFltb (double_of 0) f.
(** Truncation to an integer type in which it fits. *)
Definition trunc (f : spec_float) : Z :=
  match f with
  | S754_finite s m e =>
      let a := (if 0 <=? e then Z.pos m * 2 ^ e else Z.pos m / 2 ^ (- e))%Z in if s then (- a)%Z else a
  | _ => 0%Z
  end.

(** [static_cast<uint32_t>]: undefined in C++ for what does not fit, NaN and infinities
    included; [undefined] is what the machine makes of it. *)
Definition fits_uint32 (f : spec_float) : bool :=
  match f with
  | S754_zero _ => true
  | S754_finite _ _ _ => (0 <=? trunc f)%Z && (trunc f <? 2 ^ 32)%Z
  | _ => false
  end.
Definition to_uint32 (undefined : spec_float -> Z) (f : spec_float) : Z :=
  if fits_uint32 f then trunc f else undefined f.
