(* ===== verification/EventBuilder.v ===== *)
(** * The write thread: [DataHandler::DataWrite] (src/src/data/data_handler.cpp)

    The write thread pops DMA blocks from the read/write queue, cuts the word
    stream into events (a start word, a body, an end word), gathers
    [EVENTCHUNK] events in one buffer and hands the buffer to [write].
    The disk and the run flags it shares with the rest of the data handler are
    behind the interface [WriterEnv]; DataHandler.v implements it.

    [Spec] is the reference: what the complete events of a word stream are. *)
From stdpp Require Import base tactics list numbers option.
From S2P Require Import Prelude.
Local Open Scope nat_scope.

(** ** Constants and markers (data_handler.h) *)
Definition isEventStart (word : Z) : bool := Z.eqb (Z.land word 0xFFFFFFFF) 0xFFFFFFFF.
Definition isEventEnd (word : Z) : bool := Z.eqb (Z.land word 0xFFFFFFFF) 0xE0000000.

Definition EVENTCHUNK : nat := 10.
Definition EVENTSIZE : N := 600300.
Definition DATABUFFSIZE : N := EVENTSIZE / 4.
Definition EVENTBUFFSIZE : N := DATABUFFSIZE * N.of_nat EVENTCHUNK.
(** [static_cast<size_t>(-1)] *)
Definition kNoResync : N := 2 ^ 64 - 1.

(** ** The disk, as the write thread sees it *)
Inductive write_result :=
  | Written (bytes : N)
  | WriteFailed (is_enospc : bool).
Inductive open_result :=
  | Opened
  | OpenFailed (is_enospc : bool).

(** [env_handed] is a ghost trace: the payloads handed to [write], in order. *)
Class WriterEnv (D : Type) := {
  env_open_current : D → D * open_result;
  env_flag_open_error : D → D;
  env_write : D → list Z → D * write_result;
  env_flag_failed_write : D → D;
  env_request_disk_stop : D → D;
  env_switch_file : D → D * bool;
  env_set_stop_write : D → D;
  env_stop_write : D → bool;
  env_close : D → D;
  env_store_event_count : N → D → D;
  env_handed : D → list (list Z)
}.

Class WriterEnvLaws (D : Type) `{WriterEnv D} := {
  handed_open d : env_handed (env_open_current d).1 = env_handed d;
  handed_flag_open_error d : env_handed (env_flag_open_error d) = env_handed d;
  handed_write d ws : env_handed (env_write d ws).1 = env_handed d ++ [ws];
  handed_flag_failed_write d : env_handed (env_flag_failed_write d) = env_handed d;
  handed_request_disk_stop d : env_handed (env_request_disk_stop d) = env_handed d;
  handed_switch_file d : env_handed (env_switch_file d).1 = env_handed d;
  handed_set_stop_write d : env_handed (env_set_stop_write d) = env_handed d;
  handed_close d : env_handed (env_close d) = env_handed d;
  handed_store_event_count n d : env_handed (env_store_event_count n d) = env_handed d
}.

(** ** The thread's state: its locals and the counters only it stores to *)
Record wstate (D : Type) := WState {
  w_buf : list Z;
  event_start : bool;
  num_words : nat;
  event_words : nat;
  event_chunk : nat;
  event_start_count : N;
  event_end_count : N;
  num_recv_bytes : N;
  local_event_count : N;
  event_begin : nat;
  blocks_read : N;
  dropped_partial : N;
  event_count : N;
  event_start_markers : N;
  event_end_markers : N;
  num_recv_mB : N;
  num_event_chunk_words : N;
  resync_at_block : N; (** shared: the read thread stores requests in it *)
  w_oob : bool; (** ghost: a store past the end of the buffer happened *)
  w_env : D
}.
Arguments WState {D}.
Arguments w_buf {D}. Arguments event_start {D}. Arguments num_words {D}.
Arguments event_words {D}. Arguments event_chunk {D}. Arguments event_start_count {D}.
Arguments event_end_count {D}. Arguments num_recv_bytes {D}.
Arguments local_event_count {D}. Arguments event_begin {D}. Arguments blocks_read {D}.
Arguments dropped_partial {D}. Arguments event_count {D}.
Arguments event_start_markers {D}. Arguments event_end_markers {D}.
Arguments resync_at_block {D}. Arguments num_recv_mB {D}. Arguments num_event_chunk_words {D}. Arguments w_oob {D}. Arguments w_env {D}.
#[export] Instance wstate_eta {D} : RecordEta (wstate D) := λ s,
  WState (w_buf s) (event_start s) (num_words s) (event_words s) (event_chunk s)
    (event_start_count s) (event_end_count s) (num_recv_bytes s) (local_event_count s)
    (event_begin s) (blocks_read s) (dropped_partial s) (event_count s)
    (event_start_markers s) (event_end_markers s) (num_recv_mB s)
    (num_event_chunk_words s) (resync_at_block s) (w_oob s) (w_env s).

Section DataWrite.
Context {D : Type} `{WriterEnv D}.
(** [word_arr_write->size()], EVENTCHUNK and DMABUFFSIZE / 4. *)
Context (bufsize chunk words_per_block : nat).
Implicit Types (s : wstate D) (d : D) (w : Z).

(** [if (num_words >= event_buffer_size)] *)
Definition check_overflow s : wstate D :=
  if bufsize <=? num_words s
  then s <| num_words := event_begin s |> <| event_start := false |>
         <| dropped_partial ::= N.succ |>
  else s.

(** [if (isEventStart(word))] *)
Definition mark_start s : wstate D :=
  let s := if event_start s
           then s <| num_words := event_begin s |> <| dropped_partial ::= N.succ |>
           else s in
  s <| event_begin := num_words s |> <| event_start := true |>
    <| event_start_count ::= N.succ |> <| event_start_markers ::= N.succ |>.

(** [else if (isEventEnd(word))] *)
Definition mark_end s : wstate D :=
  let s := s <| event_end_count ::= N.succ |> <| event_start := false |>
             <| event_end_markers ::= N.succ |> <| event_chunk ::= S |>
             <| local_event_count ::= N.succ |> in
  s <| event_count := local_event_count s |>
    <| w_env ::= env_store_event_count (local_event_count s) |>
    <| event_words := S (num_words s) |>.

(** [event_buffer_ptr[num_words] = word; num_words++;] A store past the end
    is undefined in C++: here it changes nothing and is remembered in [w_oob]. *)
Definition store_word w s : wstate D :=
  s <| w_buf ::= <[num_words s := w]> |> <| w_oob ::= orb (bufsize <=? num_words s) |>
    <| num_words ::= S |>.

(** The chunk write and what follows its result. *)
Definition write_chunk s : wstate D :=
  let '(d, r) := env_write (w_env s) (take (num_words s) (w_buf s)) in
  match r with
  | WriteFailed enospc =>
      let d := env_flag_failed_write d in
      s <| w_env := if enospc then env_request_disk_stop d else d |>
  | Written n => s <| w_env := d |> <| num_recv_bytes ::= N.add n |>
  end.

(** Every 5000 events the file is switched; a failed switch stops the run. *)
Definition maybe_switch_file s : wstate D :=
  if (0 <? local_event_count s)%N && (local_event_count s `mod` 5000 =? 0)%N
  then let '(d, ok) := env_switch_file (w_env s) in
       s <| w_env := if ok then d else env_set_stop_write d |>
  else s.

Definition flush_chunk s : wstate D :=
  if event_chunk s =? chunk
  then let s := maybe_switch_file (write_chunk s) in
       s <| num_recv_mB := (num_recv_bytes s / 1000000)%N |>
         <| num_event_chunk_words := (N.of_nat (num_words s) / N.of_nat chunk)%N |>
         <| event_start := false |> <| num_words := 0 |> <| event_words := 0 |>
         <| event_chunk := 0 |>
  else s.

(** One turn of the word loop. *)
Definition process_word w s : wstate D :=
  let s := check_overflow s in
  if isEventStart w then flush_chunk (store_word w (mark_start s))
  else if negb (event_start s) then s
  else if isEventEnd w then flush_chunk (store_word w (mark_end s))
  else flush_chunk (store_word w s).

Definition process_words (ws : list Z) s : wstate D :=
  foldl (λ s w, process_word w s) s ws.

(** The read thread's stores to [resync_at_block_] since the last look at
    it: [Some r] when there were some, the last one being [r]. *)
Definition resync_store (store : option N) s : wstate D :=
  s <| resync_at_block ::= λ old, default old store |>.

(** [if (blocks_read >= resync_at_block_.load())]: consume the request and
    drop the half-built event. *)
Definition resync_check s : wstate D :=
  if (resync_at_block s <=? blocks_read s)%N
  then let s := s <| resync_at_block := kNoResync |> in
       if event_start s
       then s <| num_words := event_begin s |> <| event_start := false |>
              <| dropped_partial ::= N.succ |>
       else s
  else s.

(** One block popped from the queue, with the resync requests that reached
    the thread before it looked. *)
Definition process_block (b : option N * list Z) s : wstate D :=
  let s := (resync_check (resync_store b.1 s)) <| blocks_read ::= N.succ |> in
  process_words (take words_per_block b.2) s.

Definition process_blocks (bs : list (option N * list Z)) s : wstate D :=
  foldl (λ s b, process_block b s) s bs.

(** [while (!stop_write_.load()) { while (data_queue_.read(word_arr)) ... }]:
    one element per turn of the outer loop, the stop flag as other threads
    left it and the blocks the inner loop pops before the queue is empty. *)
Fixpoint run_loop (rounds : list (bool * list (option N * list Z))) s : wstate D :=
  match rounds with
  | [] => s
  | (stop, bs) :: rounds =>
      if stop || env_stop_write (w_env s) then s
      else run_loop rounds (process_blocks bs s)
  end.

(** The prologue: open the first file and zero the locals. *)
Definition open_first_file d : D :=
  let '(d, r) := env_open_current d in
  match r with
  | Opened => d
  | OpenFailed enospc =>
      let d := env_flag_open_error d in
      if enospc then env_request_disk_stop d else d
  end.

Definition init_writer d : wstate D :=
  {| w_buf := replicate bufsize 0%Z; event_start := false; num_words := 0;
     event_words := 0; event_chunk := 0; event_start_count := 0;
     event_end_count := 0; num_recv_bytes := 0; local_event_count := 0;
     event_begin := 0; blocks_read := 0; dropped_partial := 0; event_count := 0;
     event_start_markers := 0; event_end_markers := 0; num_recv_mB := 0;
     num_event_chunk_words := 0; resync_at_block := kNoResync;
     w_oob := false; w_env := env_store_event_count 0 d |}%N.

(** The epilogue: the complete events left in the buffer, then fsync and close. *)
Definition final_flush s : wstate D :=
  let '(d, r) := env_write (w_env s) (take (event_words s) (w_buf s)) in
  match r with
  | WriteFailed _ => s <| w_env := env_close d |>
  | Written n => s <| w_env := env_close d |> <| num_recv_bytes ::= N.add n |>
  end.

Definition DataWrite (rounds : list (bool * list (option N * list Z))) d : wstate D :=
  final_flush (run_loop rounds (init_writer (open_first_file d))).
End DataWrite.

(** ** The reference: the complete events of a word stream *)
Module Spec.
(** [cur] is the event being read. A start word begins an event, whatever
    came before; words outside an event are nobody's. *)
Definition scan_word (cur : option (list Z)) (w : Z) : option (list Z) * list (list Z) :=
  if isEventStart w then (Some [w], [])
  else match cur with
       | None => (None, [])
       | Some c => if isEventEnd w then (None, [c ++ [w]]) else (Some (c ++ [w]), [])
       end.

Fixpoint scan (cur : option (list Z)) (ws : list Z) : option (list Z) * list (list Z) :=
  match ws with
  | [] => (cur, [])
  | w :: ws =>
      let '(cur, evs) := scan_word cur w in
      let '(cur, evs') := scan cur ws in (cur, evs ++ evs')
  end.

(** The request pending when block [idx] is reached, and whether it cuts the
    stream there. *)
Definition cut_before (idx : N) (pending : N) (store : option N) : N * bool :=
  let req := default pending store in
  if (req <=? idx)%N then (kNoResync, true) else (req, false).

(** Blocks, the first [n] words of each, cut where a resync request says. *)
Fixpoint scan_blocks (n : nat) (idx req : N) (cur : option (list Z))
    (bs : list (option N * list Z)) : option (list Z) * list (list Z) :=
  match bs with
  | [] => (cur, [])
  | (store, ws) :: bs =>
      let '(req, cut) := cut_before idx req store in
      let '(cur, evs) := scan (if cut then None else cur) (take n ws) in
      let '(cur, evs') := scan_blocks n (N.succ idx) req cur bs in (cur, evs ++ evs')
  end.

(** No event, complete or not, is longer than [width] words. *)
Fixpoint fits (width : nat) (cur : option (list Z)) (ws : list Z) : bool :=
  match ws with
  | [] => true
  | w :: ws =>
      let '(cur, evs) := scan_word cur w in
      forallb (λ e, length e <=? width) (option_list cur ++ evs) && fits width cur ws
  end.

Fixpoint blocks_fit (width n : nat) (idx req : N) (cur : option (list Z))
    (bs : list (option N * list Z)) : bool :=
  match bs with
  | [] => true
  | (store, ws) :: bs =>
      let '(req, cut) := cut_before idx req store in
      let cur := if cut then None else cur in
      fits width cur (take n ws) &&
      blocks_fit width n (N.succ idx) req (scan cur (take n ws)).1 bs
  end.

(** A whole event: one start word, one end word, neither in between. *)
Definition whole_event (e : list Z) : Prop :=
  ∃ b body l, e = b :: body ++ [l] ∧ isEventStart b = true ∧ isEventEnd l = true ∧
    Forall (λ w, isEventStart w = false ∧ isEventEnd w = false) body.
Definition open_event (c : list Z) : Prop :=
  ∃ b body, c = b :: body ∧ isEventStart b = true ∧
    Forall (λ w, isEventStart w = false ∧ isEventEnd w = false) body.
(** A run of whole events and nothing else. *)
Definition whole_events (l : list Z) : Prop :=
  ∃ evs, l = concat evs ∧ Forall whole_event evs.
End Spec.

(** ** Facts about the reference *)
Section spec_facts.
Import Spec.

Lemma marker_disjoint w : isEventStart w = true → isEventEnd w = false.
Proof. unfold isEventStart, isEventEnd. intros ->%Z.eqb_eq. done. Qed.

Lemma whole_events_nil : whole_events [].
Proof. by exists []. Qed.

Lemma whole_events_snoc l e : whole_events l → whole_event e → whole_events (l ++ e).
Proof.
  intros (evs & -> & Hevs) He. exists (evs ++ [e]). rewrite concat_snoc. split; [done|].
  apply Forall_app. auto.
Qed.

Lemma open_event_start w : isEventStart w = true → open_event [w].
Proof. intros. by exists w, []. Qed.

Lemma open_event_snoc c w :
  open_event c → isEventStart w = false → isEventEnd w = false → open_event (c ++ [w]).
Proof.
  intros (b & body & -> & Hb & Hbody) Hs He. exists b, (body ++ [w]).
  repeat split; [done|]. apply Forall_app. auto.
Qed.

Lemma open_event_end c w : open_event c → isEventEnd w = true → whole_event (c ++ [w]).
Proof. intros (b & body & -> & Hb & Hbody) He. exists b, body, w. auto. Qed.

Lemma scan_app cur ws1 ws2 :
  scan cur (ws1 ++ ws2) =
    (let '(cur1, e1) := scan cur ws1 in let '(cur2, e2) := scan cur1 ws2 in (cur2, e1 ++ e2)).
Proof.
  revert cur. induction ws1 as [|w ws1 IH]; intros cur; simpl.
  { by destruct (scan cur ws2). }
  destruct (scan_word cur w) as [cur' e]. rewrite IH.
  destruct (scan cur' ws1) as [cur1 e1]. destruct (scan cur1 ws2). by rewrite app_assoc.
Qed.

(** Everything the reference calls an event is a whole event. *)
Lemma scan_whole cur ws cur' evs :
  (∀ c, cur = Some c → open_event c) → scan cur ws = (cur', evs) →
  (∀ c, cur' = Some c → open_event c) ∧ Forall whole_event evs.
Proof.
  revert cur cur' evs. induction ws as [|w ws IH]; intros cur cur' evs Hcur Hscan; simplify_eq/=.
  { auto. }
  destruct (scan_word cur w) as [cur1 e1] eqn:Hw.
  destruct (scan cur1 ws) as [cur2 e2] eqn:Hws. simplify_eq/=.
  assert ((∀ c, cur1 = Some c → open_event c) ∧ Forall whole_event e1) as [Hopen He1].
  { unfold scan_word in Hw. destruct (isEventStart w) eqn:Hs; [|destruct cur as [c|]; [|]].
    - simplify_eq. split; [|done]. intros c [= <-]. by apply open_event_start.
    - destruct (isEventEnd w) eqn:He; simplify_eq.
      + split; [done|]. apply Forall_singleton, open_event_end; auto.
      + split; [|done]. intros c' [= <-]. apply open_event_snoc; auto.
    - by simplify_eq. }
  destruct (IH _ _ _ Hopen Hws). split; [done|]. apply Forall_app. auto.
Qed.
End spec_facts.

(** ** What the steps leave alone *)
Section frames.
Context {D : Type} `{WriterEnvLaws D}.
Implicit Types s : wstate D.

Lemma flush_counters s :
  let s' := maybe_switch_file (write_chunk s) in
  event_end_count s' = event_end_count s ∧ local_event_count s' = local_event_count s ∧
  event_count s' = event_count s ∧ dropped_partial s' = dropped_partial s ∧
  event_start_count s' = event_start_count s ∧
  env_handed (w_env s') = env_handed (w_env s) ++ [take (num_words s) (w_buf s)].
Proof.
  assert (env_handed (w_env (write_chunk s)) =
          env_handed (w_env s) ++ [take (num_words s) (w_buf s)]) as Hw.
  { unfold write_chunk. pose proof (handed_write (w_env s) (take (num_words s) (w_buf s))) as Hw.
    destruct (env_write _ _) as [d []]; cbn in *; [done|].
    case_match; by rewrite ?handed_request_disk_stop, handed_flag_failed_write. }
  assert (env_handed (w_env (maybe_switch_file (write_chunk s))) =
          env_handed (w_env (write_chunk s))) as Hsw.
  { unfold maybe_switch_file. case_match; [|done].
    pose proof (handed_switch_file (w_env (write_chunk s))) as Hsw.
    destruct (env_switch_file _) as [d []]; cbn in *; by rewrite ?handed_set_stop_write. }
  cbn. rewrite Hsw, Hw. clear. unfold maybe_switch_file, write_chunk.
  destruct (env_write _ _) as [? []]; cbn;
    (case_match; [destruct (env_switch_file _); cbn|]); done.
Qed.

Lemma flush_frame s :
  let s' := maybe_switch_file (write_chunk s) in
  w_buf s' = w_buf s ∧ w_oob s' = w_oob s ∧ event_begin s' = event_begin s ∧
  num_words s' = num_words s.
Proof.
  unfold maybe_switch_file, write_chunk. destruct (env_write _ _) as [? []]; cbn;
    (case_match; [destruct (env_switch_file _); cbn|]); done.
Qed.

Lemma flush_chunk_id chunk s : event_chunk s < chunk → flush_chunk chunk s = s.
Proof. intros. unfold flush_chunk. destruct (Nat.eqb_spec (event_chunk s) chunk); [lia|done]. Qed.

(** A start word begins the event at the first free position, which is the
    beginning of the event it cuts short, if any. *)
Lemma mark_start_frame s :
  let k := if event_start s then event_begin s else num_words s in
  let s' := mark_start s in
  (num_words s' = k ∧ event_begin s' = k ∧ event_start s' = true ∧
   dropped_partial s' = (dropped_partial s + if event_start s then 1 else 0)%N ∧
   event_start_count s' = N.succ (event_start_count s)) ∧
  (w_buf s' = w_buf s ∧ w_oob s' = w_oob s ∧ event_chunk s' = event_chunk s ∧
   event_words s' = event_words s ∧ w_env s' = w_env s) ∧
  (event_end_count s' = event_end_count s ∧ local_event_count s' = local_event_count s ∧
   event_count s' = event_count s).
Proof. unfold mark_start. destruct (event_start s); cbn; split_and!; (done || lia). Qed.

Lemma mark_start_env s : w_env (mark_start s) = w_env s.
Proof. unfold mark_start. by case_match. Qed.
End frames.

(** ** The buffer invariant, for any stream *)
Section buffer_invariant.
Import Spec.
Context {D : Type} `{WriterEnvLaws D}.
Context (bufsize chunk n : nat).
Implicit Types (s : wstate D) (d : D) (w : Z).

(** What [write] has been handed beyond [log0] is whole events. *)
Definition handed_whole (log0 : list (list Z)) d : Prop :=
  ∃ chunks, env_handed d = log0 ++ chunks ∧ Forall whole_events chunks.

Record buffer_ok (log0 : list (list Z)) s : Prop := BufferOk {
  ok_size : length (w_buf s) = bufsize;
  ok_oob : w_oob s = false;
  ok_begin : event_begin s < bufsize;
  ok_words : num_words s ≤ bufsize;
  ok_chunk : event_chunk s < chunk;
  ok_handed : handed_whole log0 (w_env s);
  ok_open : event_start s = true →
    event_begin s ≤ num_words s ∧ whole_events (take (event_begin s) (w_buf s)) ∧
    ∃ c, open_event c ∧
      take (num_words s) (w_buf s) = take (event_begin s) (w_buf s) ++ c;
  ok_closed : event_start s = false →
    whole_events (take (num_words s) (w_buf s)) ∧
    (num_words s = 0 ∨
     event_begin s ≤ num_words s ∧ whole_events (take (event_begin s) (w_buf s)))
}.

Lemma not_oob k : k < bufsize → (bufsize <=? k) || false = false.
Proof. rewrite orb_false_r. apply Nat.leb_gt. Qed.

(** Any buffer whose stored prefix is whole events, with no event open. *)
Lemma closed_ok log0 s :
  buffer_ok log0 s → event_start s = true →
  buffer_ok log0 (s <| num_words := event_begin s |> <| event_start := false |>
                    <| dropped_partial ::= N.succ |>).
Proof.
  intros [] He. destruct (ok_open0 He) as (? & ? & _).
  split; cbn; try done; [lia|]. intros _. auto.
Qed.

Lemma check_overflow_ok log0 s :
  buffer_ok log0 s →
  buffer_ok log0 (check_overflow bufsize s) ∧ num_words (check_overflow bufsize s) < bufsize.
Proof.
  intros Hok. unfold check_overflow. destruct (Nat.leb_spec bufsize (num_words s)); [|done].
  split; [|by destruct Hok].
  destruct (event_start s) eqn:He; [by apply closed_ok|].
  destruct Hok. destruct (ok_closed0 He) as [? [?|[? ?]]]; [lia|].
  split; cbn; try done; [lia|]. intros _. auto.
Qed.

Lemma mark_start_ok log0 w s :
  buffer_ok log0 s → num_words s < bufsize → isEventStart w = true →
  buffer_ok log0 (store_word bufsize w (mark_start s)).
Proof.
  intros Hok Hlt Hw.
  destruct (mark_start_frame s) as ((En & Eb & Es & _) & (F1 & F2 & F3 & _ & F5) & _).
  destruct Hok.
  assert (num_words (mark_start s) < bufsize ∧
          whole_events (take (num_words (mark_start s)) (w_buf s))) as [Hk Hwhole].
  { rewrite En. destruct (event_start s) eqn:He.
    - by destruct (ok_open0 eq_refl) as (? & ? & _).
    - by destruct (ok_closed0 eq_refl). }
  rewrite <-En in Eb. clear En. revert Eb Es F1 F2 F3 F5 Hk Hwhole.
  generalize (mark_start s) as m. intros m Eb Es F1 F2 F3 F5 Hk Hwhole.
  split; cbn; rewrite ?Es, ?Eb, ?F1, ?F2, ?F3, ?F5, ?length_insert; try done.
  - rewrite ok_oob0. by apply not_oob.
  - intros _. rewrite take_S_insert, take_insert_ge by lia.
    repeat split; [lia|done|]. exists [w]. split; [by apply open_event_start|done].
Qed.

Lemma store_body_ok log0 w s :
  buffer_ok log0 s → num_words s < bufsize → event_start s = true →
  isEventStart w = false → isEventEnd w = false →
  buffer_ok log0 (store_word bufsize w s).
Proof.
  intros [] Hlt He Hs Hend. destruct (ok_open0 He) as (? & ? & c & ? & Hc).
  split; cbn; rewrite ?length_insert, ?He; try done.
  - rewrite ok_oob0. by apply not_oob.
  - intros _. rewrite take_S_insert, take_insert_ge by lia.
    repeat split; [lia|done|]. exists (c ++ [w]).
    split; [by apply open_event_snoc|]. by rewrite Hc, app_assoc.
Qed.

Lemma write_chunk_handed log0 s :
  whole_events (take (num_words s) (w_buf s)) → handed_whole log0 (w_env s) →
  handed_whole log0 (w_env (maybe_switch_file (write_chunk s))).
Proof.
  intros Hwhole (chunks & Hd & Hall). exists (chunks ++ [take (num_words s) (w_buf s)]).
  destruct (flush_counters s) as (_ & _ & _ & _ & _ & ->).
  rewrite Hd, app_assoc. split; [done|]. apply Forall_app. auto.
Qed.

Lemma store_end_ok log0 w s :
  0 < bufsize → buffer_ok log0 s → num_words s < bufsize → event_start s = true →
  isEventStart w = false → isEventEnd w = true → 0 < chunk →
  buffer_ok log0 (flush_chunk chunk (store_word bufsize w (mark_end s))).
Proof.
  intros Hpos [] Hlt He Hs Hend Hchunk. destruct (ok_open0 He) as (? & ? & c & ? & Hc).
  set (s' := store_word bufsize w (mark_end s)).
  assert (whole_events (take (num_words s') (w_buf s'))) as Hwhole.
  { cbn. rewrite take_S_insert, Hc, <-app_assoc by lia.
    by apply whole_events_snoc, open_event_end. }
  assert (w_oob s' = false) as Hoob.
  { cbn. rewrite ok_oob0. by apply not_oob. }
  assert (handed_whole log0 (w_env s')) as Henv.
  { destruct ok_handed0 as (chunks & Hd & ?). exists chunks. cbn.
    by rewrite handed_store_event_count. }
  unfold flush_chunk. destruct (Nat.eqb_spec (event_chunk s') chunk).
  - destruct (flush_frame s') as (E1 & E2 & E3 & E4).
    split; cbn; rewrite ?E1, ?E2, ?E3; cbn; rewrite ?length_insert, ?take_0; try done; try lia.
    + by apply write_chunk_handed.
    + intros _. split; [apply whole_events_nil|by left].
  - split; try done; cbn in *; rewrite ?length_insert; try done; try lia.
    intros _. split; [done|]. right. rewrite take_insert_ge by lia. split; [lia|done].
Qed.

Lemma process_word_ok log0 w s :
  0 < bufsize → 0 < chunk → buffer_ok log0 s → buffer_ok log0 (process_word bufsize chunk w s).
Proof.
  intros Hb Hc Hok. unfold process_word.
  destruct (check_overflow_ok _ _ Hok) as [Hok' Hlt]. set (s' := check_overflow _ _) in *.
  destruct (isEventStart w) eqn:Hs.
  { rewrite flush_chunk_id; [by apply mark_start_ok|].
    eapply ok_chunk, (mark_start_ok log0 w); done. }
  destruct (event_start s') eqn:He; simpl; [|done].
  destruct (isEventEnd w) eqn:Hend; [by apply store_end_ok|].
  rewrite flush_chunk_id; [by apply store_body_ok|].
  eapply ok_chunk, (store_body_ok log0 w); done.
Qed.

Lemma process_words_ok log0 ws s :
  0 < bufsize → 0 < chunk → buffer_ok log0 s → buffer_ok log0 (process_words bufsize chunk ws s).
Proof.
  intros Hb Hc. revert s. induction ws as [|w ws IH]; intros s Hok; [done|].
  cbn. by apply IH, process_word_ok.
Qed.

Lemma process_block_ok log0 b s :
  0 < bufsize → 0 < chunk → buffer_ok log0 s → buffer_ok log0 (process_block bufsize chunk n b s).
Proof.
  intros Hb Hc Hok. unfold process_block. apply process_words_ok; [done..|].
  assert (buffer_ok log0 (resync_store b.1 s)) as Hs by (destruct Hok; by split).
  assert (buffer_ok log0 (resync_check (resync_store b.1 s))) as [].
  { revert Hs. generalize (resync_store b.1 s) as m. intros m Hm. unfold resync_check.
    case_match; [|done].
    assert (buffer_ok log0 (m <| resync_at_block := kNoResync |>)) by (destruct Hm; by split).
    case_match; [by apply closed_ok|done]. }
  by split.
Qed.

Lemma process_blocks_ok log0 bs s :
  0 < bufsize → 0 < chunk → buffer_ok log0 s → buffer_ok log0 (process_blocks bufsize chunk n bs s).
Proof.
  intros Hb Hc. revert s. induction bs as [|b bs IH]; intros s Hok; [done|].
  by apply IH, process_block_ok.
Qed.

Lemma run_loop_ok log0 rounds s :
  0 < bufsize → 0 < chunk → buffer_ok log0 s → buffer_ok log0 (run_loop bufsize chunk n rounds s).
Proof.
  intros Hb Hc. revert s. induction rounds as [|[stop bs] rounds IH]; intros s Hok; cbn; [done|].
  case_match; [done|]. by apply IH, process_blocks_ok.
Qed.

Lemma init_writer_ok d :
  0 < bufsize → 0 < chunk → buffer_ok (env_handed d) (init_writer bufsize d).
Proof.
  intros Hb Hc. split; cbn; rewrite ?length_replicate, ?take_0; try done; try lia.
  - exists []. by rewrite app_nil_r, handed_store_event_count.
  - intros _. split; [apply whole_events_nil|by left].
Qed.
End buffer_invariant.

(** ** The write thread implements the reference *)
Section refinement.
Import Spec.
Context {D : Type} `{WriterEnvLaws D}.
Context (bufsize chunk n width : nat).
Implicit Types (s : wstate D) (d : D) (w : Z).

(** The thread, having scanned a stream whose complete events are [evs] with
    [cur] open: the written chunks are [chunk] events each, the buffer holds
    the rest and the open event. *)
Record simulates (log0 : list (list Z)) s (cur : option (list Z)) (evs : list (list Z)) : Prop :=
  Simulates {
  sim_groups : ∃ groups pending,
    evs = concat groups ++ pending ∧ Forall (λ g, length g = chunk) groups ∧
    env_handed (w_env s) = log0 ++ map (λ g, concat g) groups ∧
    length pending = event_chunk s ∧ Forall (λ e, length e ≤ width) pending ∧
    event_words s = length (concat pending) ∧
    take (event_words s) (w_buf s) = concat pending ∧
    num_words s = event_words s + length (default [] cur) ∧
    take (num_words s) (w_buf s) = concat pending ++ default [] cur;
  sim_size : length (w_buf s) = bufsize;
  sim_chunk : event_chunk s < chunk;
  sim_start : event_start s = bool_decide (is_Some cur);
  sim_begin : is_Some cur → event_begin s = event_words s;
  sim_width : length (default [] cur) ≤ width;
  sim_ends : event_end_count s = N.of_nat (length evs) ∧
             local_event_count s = N.of_nat (length evs) ∧
             event_count s = N.of_nat (length evs);
  sim_starts : event_start_count s =
    (event_end_count s + dropped_partial s + N.of_nat (length (option_list cur)))%N
}.

Context (Hroom : chunk * width ≤ bufsize) (Hchunk : 0 < chunk) (Hwidth : 0 < width).

Lemma sim_pending_bound log0 s cur evs :
  simulates log0 s cur evs → event_words s + width ≤ bufsize.
Proof.
  intros []. destruct sim_groups0 as (gs & ps & _ & _ & _ & Hlen & Hw & -> & _).
  apply length_concat_le in Hw. nia.
Qed.

Lemma sim_room log0 s cur evs :
  simulates log0 s cur evs → length (default [] cur) < width → num_words s < bufsize.
Proof.
  intros Hsim ?. pose proof (sim_pending_bound _ _ _ _ Hsim).
  destruct Hsim, sim_groups0 as (? & ? & ?). destruct_and!. lia.
Qed.

Lemma check_overflow_id s : num_words s < bufsize → check_overflow bufsize s = s.
Proof. intros. unfold check_overflow. destruct (Nat.leb_spec bufsize (num_words s)); [lia|done]. Qed.

(** An event that fills the buffer is dropped either way by a new start word. *)
Lemma mark_start_overflow s :
  event_start s = true → mark_start (check_overflow bufsize s) = mark_start s.
Proof.
  intros He. unfold check_overflow, mark_start.
  destruct (Nat.leb_spec bufsize (num_words s)); [|done]. by rewrite He.
Qed.

Lemma sim_start_word log0 w s cur evs :
  simulates log0 s cur evs → isEventStart w = true →
  simulates log0 (process_word bufsize chunk w s) (Some [w]) evs.
Proof.
  intros Hsim Hw. pose proof (sim_pending_bound _ _ _ _ Hsim) as Hbound.
  unfold process_word. rewrite Hw.
  assert (mark_start (check_overflow bufsize s) = mark_start s) as ->.
  { destruct cur as [c|].
    - apply mark_start_overflow. by rewrite (sim_start _ _ _ _ Hsim).
    - rewrite check_overflow_id; [done|]. eapply sim_room; [done|]. simpl. lia. }
  destruct Hsim, sim_groups0 as (gs & ps & ?). destruct_and!.
  destruct (mark_start_frame s) as
    ((En & Eb & Es & Ed & Ec) & (F1 & F2 & F3 & F4 & F5) & G1 & G2 & G3).
  assert (num_words (mark_start s) = event_words s ∧
    dropped_partial (mark_start s) = (dropped_partial s + N.of_nat (length (option_list cur)))%N)
    as [En' Ed'].
  { rewrite En, Ed, sim_start0. destruct cur as [c|]; cbn in *; split; try done; [|lia].
    by apply sim_begin0. }
  rewrite <-En in Eb. clear En Ed. revert Eb Es Ec F1 F2 F3 F4 F5 G1 G2 G3 En' Ed'.
  generalize (mark_start s) as m. intros m Eb Es Ec F1 F2 F3 F4 F5 G1 G2 G3 En' Ed'.
  rewrite flush_chunk_id by (cbn; lia).
  split; cbn; rewrite ?Eb, ?Es, ?Ec, ?F1, ?F3, ?F4, ?F5, ?G1, ?G2, ?G3, ?En', ?Ed', ?length_insert;
    try done; try lia.
  exists gs, ps. rewrite take_insert_ge, take_S_insert by lia.
  split_and!; try done; [lia|congruence].
Qed.

Lemma sim_body_word log0 w s c evs :
  simulates log0 s (Some c) evs → isEventStart w = false → isEventEnd w = false →
  length (c ++ [w]) ≤ width →
  simulates log0 (process_word bufsize chunk w s) (Some (c ++ [w])) evs.
Proof.
  intros Hsim Hs He Hlen. rewrite length_app in Hlen. simpl in Hlen.
  unfold process_word. rewrite check_overflow_id by (eapply sim_room; [done|]; simpl; lia).
  pose proof (sim_room _ _ _ _ Hsim ltac:(simpl; lia)) as Hn.
  destruct Hsim, sim_groups0 as (gs & ps & ?). destruct_and!. cbn in *.
  rewrite Hs, He, sim_start0. simpl. rewrite flush_chunk_id by done.
  split; cbn; rewrite ?length_insert; try done;
    [|by intros _; apply sim_begin0|rewrite length_app; simpl; lia].
  exists gs, ps. rewrite take_insert_ge, take_S_insert, app_assoc by lia.
  split_and!; try done; [rewrite length_app; simpl; lia|congruence].
Qed.

(** The end word: the event joins the pending ones, and [chunk] of them are written. *)
Lemma sim_end_word log0 w s c evs :
  simulates log0 s (Some c) evs → isEventStart w = false → isEventEnd w = true →
  length (c ++ [w]) ≤ width →
  simulates log0 (process_word bufsize chunk w s) None (evs ++ [c ++ [w]]).
Proof.
  intros Hsim Hs He Hlen. pose proof Hlen as Hlen'. rewrite length_app in Hlen'. simpl in Hlen'.
  unfold process_word. rewrite check_overflow_id by (eapply sim_room; [done|]; simpl; lia).
  pose proof (sim_room _ _ _ _ Hsim ltac:(simpl; lia)) as Hn.
  destruct Hsim, sim_groups0 as (gs & ps & ?). destruct_and!. cbn in *.
  rewrite Hs, He, sim_start0. simpl.
  set (s' := store_word bufsize w (mark_end s)).
  assert (take (num_words s') (w_buf s') = concat (ps ++ [c ++ [w]])) as Htake.
  { cbn. rewrite take_S_insert, concat_snoc by lia. rewrite app_assoc. congruence. }
  assert (length (concat (ps ++ [c ++ [w]])) = S (num_words s)) as Hlc.
  { rewrite concat_snoc, !length_app. simpl. lia. }
  assert (N.of_nat (length (evs ++ [c ++ [w]])) = N.succ (N.of_nat (length evs))) as Hlevs.
  { rewrite length_app. simpl. lia. }
  assert (env_handed (w_env s') = env_handed (w_env s)) as Henv
    by (cbn; by rewrite handed_store_event_count).
  unfold flush_chunk. destruct (Nat.eqb_spec (event_chunk s') chunk) as [Hfull|Hnot].
  - destruct (flush_frame s') as (E1 & E2 & E3 & E4).
    destruct (flush_counters s') as (G1 & G2 & G3 & G4 & G5 & G6).
    split; cbn -[s'];
      rewrite ?E1, ?G1, ?G2, ?G3, ?G4, ?G5, ?Hlevs; try done; cbn;
      rewrite ?length_insert; try done; try lia.
    exists (gs ++ [ps ++ [c ++ [w]]]), [].
    cbn in Hfull. rewrite G6, Henv. split_and!; try done.
    + rewrite app_nil_r, concat_snoc, app_assoc. congruence.
    + apply Forall_app. split; [done|]. apply Forall_singleton. rewrite length_app. simpl. lia.
    + rewrite Htake, map_app, app_assoc. by f_equal.
  - split; cbn; rewrite ?length_insert, ?Hlevs; try done; try (cbn in Hnot; lia).
    exists gs, (ps ++ [c ++ [w]]). rewrite app_nil_r, length_app, Hlc. cbn in Htake, Henv. rewrite Henv.
    split_and!; try done; try (simpl; lia).
    + rewrite app_assoc. congruence.
    + apply Forall_app. auto.
Qed.

Lemma sim_word log0 w s cur evs cur' e :
  simulates log0 s cur evs → scan_word cur w = (cur', e) →
  Forall (λ l, length l ≤ width) (option_list cur' ++ e) →
  simulates log0 (process_word bufsize chunk w s) cur' (evs ++ e).
Proof.
  intros Hsim Hscan Hfit. unfold scan_word in Hscan.
  destruct (isEventStart w) eqn:Hs; simplify_eq.
  { rewrite app_nil_r. by apply sim_start_word with cur. }
  destruct cur as [c|]; [destruct (isEventEnd w) eqn:He|]; simplify_eq; rewrite ?app_nil_r.
  - apply sim_end_word; try done. by apply Forall_inv in Hfit.
  - apply sim_body_word; try done. by apply Forall_inv in Hfit.
  - unfold process_word. rewrite check_overflow_id by (by eapply sim_room).
    by rewrite Hs, (sim_start _ _ _ _ Hsim).
Qed.

Lemma sim_words log0 ws s cur evs cur' e :
  simulates log0 s cur evs → scan cur ws = (cur', e) → fits width cur ws = true →
  simulates log0 (process_words bufsize chunk ws s) cur' (evs ++ e).
Proof.
  revert s cur evs e. induction ws as [|w ws IH]; intros s cur evs e Hsim Hscan Hfit;
    simplify_eq/=; [by rewrite app_nil_r|].
  destruct (scan_word cur w) as [cur1 e1] eqn:Hw.
  destruct (scan cur1 ws) as [cur2 e2] eqn:Hws. simplify_eq.
  apply andb_true_iff in Hfit as [Hw1 Hfit].
  rewrite app_assoc. eapply IH; [|done..]. eapply sim_word; [done..|].
  apply Is_true_true, forallb_True in Hw1. eapply Forall_impl; [|exact Hw1].
  intros l ?%Is_true_true. by apply Nat.leb_le.
Qed.

Lemma sim_resync log0 store s cur evs :
  simulates log0 s cur evs →
  let s' := resync_check (resync_store store s) in
  let '(req, cut) := cut_before (blocks_read s) (resync_at_block s) store in
  simulates log0 s' (if cut then None else cur) evs ∧
  resync_at_block s' = req ∧ blocks_read s' = blocks_read s.
Proof.
  intros Hsim. unfold cut_before, resync_check. cbn.
  destruct (default _ store <=? blocks_read s)%N; cbn; [|split_and!; try done; by destruct Hsim].
  destruct cur as [c|]; rewrite (sim_start _ _ _ _ Hsim); cbn; split_and!; try done;
    [|by destruct Hsim].
  destruct Hsim, sim_groups0 as (gs & ps & ?). destruct_and!. cbn in *.
  split; cbn; try done; try lia. exists gs, ps. rewrite app_nil_r, sim_begin0 by done.
  split_and!; (done || lia).
Qed.

Lemma process_words_resync ws s :
  let s' := process_words bufsize chunk ws s in
  blocks_read s' = blocks_read s ∧ resync_at_block s' = resync_at_block s.
Proof.
  revert s. induction ws as [|w ws IH]; intros s; [done|]. cbn in *. unfold process_words in IH.
  destruct (IH (process_word bufsize chunk w s)) as [-> ->]. clear.
  unfold process_word, flush_chunk, maybe_switch_file, write_chunk, mark_end.
  assert (blocks_read (check_overflow bufsize s) = blocks_read s ∧
          resync_at_block (check_overflow bufsize s) = resync_at_block s) as [<- <-]
    by (unfold check_overflow; by case_match).
  generalize (check_overflow bufsize s) as s'. clear. intros s'.
  assert (blocks_read (mark_start s') = blocks_read s' ∧
          resync_at_block (mark_start s') = resync_at_block s') as Hm
    by (unfold mark_start; by case_match).
  revert Hm. generalize (mark_start s') as m. intros m [Hm Hm'].
  repeat case_match; cbn in *; split; congruence.
Qed.

Lemma sim_blocks log0 bs s cur evs cur' e :
  simulates log0 s cur evs →
  scan_blocks n (blocks_read s) (resync_at_block s) cur bs = (cur', e) →
  blocks_fit width n (blocks_read s) (resync_at_block s) cur bs = true →
  simulates log0 (process_blocks bufsize chunk n bs s) cur' (evs ++ e).
Proof.
  revert s cur evs e. induction bs as [|[store ws] bs IH]; intros s cur evs e Hsim Hscan Hfit;
    simplify_eq/=; [by rewrite app_nil_r|].
  apply (sim_resync _ store) in Hsim. cbn zeta in Hsim.
  destruct (cut_before _ _ store) as [req cut]. destruct Hsim as (Hsim & Hreq & Hidx).
  set (cur0 := if cut then None else cur) in *. apply andb_true_iff in Hfit as [Hws Hfit].
  destruct (scan cur0 (take n ws)) as [cur1 e1] eqn:Hscan1.
  destruct (scan_blocks n _ req cur1 bs) as [cur2 e2] eqn:Hscan2. injection Hscan as <- <-.
  assert (blocks_read (process_block bufsize chunk n (store, ws) s) = N.succ (blocks_read s) ∧
    resync_at_block (process_block bufsize chunk n (store, ws) s) = req) as [Hidx' Hreq'].
  { unfold process_block. destruct (process_words_resync (take n (store, ws).2)
      ((resync_check (resync_store (store, ws).1 s)) <| blocks_read ::= N.succ |>)) as [-> ->].
    cbn. by rewrite Hidx, Hreq. }
  rewrite app_assoc. eapply IH; [|by rewrite Hidx', Hreq'..].
  unfold process_block. eapply sim_words; [|done..].
  by destruct Hsim.
Qed.

Lemma sim_init d : simulates (env_handed d) (init_writer bufsize d) None [].
Proof.
  split; cbn; rewrite ?length_replicate; try done; try lia.
  exists [], []. cbn. rewrite app_nil_r, take_0, handed_store_event_count. by split_and!.
Qed.
End refinement.

(** The outer loop processes a prefix of the rounds, and leaves early only on a stop. *)
Lemma run_loop_prefix {D} `{WriterEnv D} bufsize chunk n rounds (s : wstate D) :
  ∃ k, let s' := process_blocks bufsize chunk n (concat (map snd (take k rounds))) s in
    run_loop bufsize chunk n rounds s = s' ∧
    (take k rounds = rounds ∨
     ∃ stop bs, rounds !! k = Some (stop, bs) ∧ (stop = true ∨ env_stop_write (w_env s') = true)).
Proof.
  revert s. induction rounds as [|[stop bs] rounds IH]; intros s; cbn.
  { exists 0. auto. }
  destruct (stop || env_stop_write (w_env s)) eqn:Hstop.
  - exists 0. cbn. split; [done|]. right. exists stop, bs. split; [done|].
    by apply orb_true_iff in Hstop.
  - destruct (IH (process_blocks bufsize chunk n bs s)) as (k & -> & Hend).
    exists (S k). cbn. unfold process_blocks in *. rewrite foldl_app. split; [done|].
    destruct Hend as [->|?]; [by left|by right].
Qed.

Lemma blocks_fit_prefix width n idx req cur bs1 bs2 :
  Spec.blocks_fit width n idx req cur (bs1 ++ bs2) = true →
  Spec.blocks_fit width n idx req cur bs1 = true.
Proof.
  revert idx req cur. induction bs1 as [|[r ws] bs1 IH]; intros idx req cur; cbn; [done|].
  destruct (Spec.cut_before idx req r). rewrite !andb_true_iff. intros [? ?%IH]. done.
Qed.

Lemma open_first_file_handed {D} `{WriterEnvLaws D} (d : D) :
  env_handed (open_first_file d) = env_handed d.
Proof.
  unfold open_first_file. pose proof (handed_open d) as Hd.
  destruct (env_open_current d) as [d' []]; cbn in *; [done|].
  case_match; by rewrite ?handed_request_disk_stop, handed_flag_open_error.
Qed.

Lemma final_flush_frame {D} `{WriterEnvLaws D} (s : wstate D) :
  env_handed (w_env (final_flush s)) =
    env_handed (w_env s) ++ [take (event_words s) (w_buf s)] ∧
  event_count (final_flush s) = event_count s ∧
  event_start_count (final_flush s) = event_start_count s ∧
  event_end_count (final_flush s) = event_end_count s ∧
  dropped_partial (final_flush s) = dropped_partial s ∧ w_oob (final_flush s) = w_oob s.
Proof.
  unfold final_flush. pose proof (handed_write (w_env s) (take (event_words s) (w_buf s))) as Hw.
  destruct (env_write _ _) as [d []]; cbn in *; by rewrite handed_close, Hw.
Qed.

(** The whole thread, for any sizes: its writes are the reference's events, grouped. *)
Lemma DataWrite_refines {D} `{WriterEnvLaws D} bufsize chunk n width
    (Hroom : chunk * width ≤ bufsize) (Hchunk : 0 < chunk) (Hwidth : 0 < width)
    rounds (d : D) :
  Spec.blocks_fit width n 0 kNoResync None (concat (map snd rounds)) = true →
  ∃ k groups pending,
    let s := DataWrite bufsize chunk n rounds d in
    let blocks := concat (map snd (take k rounds)) in
    let run := process_blocks bufsize chunk n blocks (init_writer bufsize (open_first_file d)) in
    let '(cur, evs) := Spec.scan_blocks n 0 kNoResync None blocks in
    evs = concat groups ++ pending ∧
    Forall (λ g, length g = chunk) groups ∧ length pending < chunk ∧
    env_handed (w_env s) = env_handed d ++ map (λ g, concat g) groups ++ [concat pending] ∧
    event_count s = N.of_nat (length evs) ∧ event_end_count s = N.of_nat (length evs) ∧
    event_start_count s =
      (event_end_count s + dropped_partial s + N.of_nat (length (option_list cur)))%N ∧
    s = final_flush run ∧
    (take k rounds = rounds ∨
     ∃ stop bs, rounds !! k = Some (stop, bs) ∧
       (stop = true ∨ env_stop_write (w_env run) = true)).
Proof.
  intros Hfit. set (s0 := init_writer bufsize (open_first_file d)).
  destruct (run_loop_prefix bufsize chunk n rounds s0) as (k & Hrun & Hend).
  rewrite <-(take_drop k rounds), map_app, concat_app in Hfit.
  apply blocks_fit_prefix in Hfit.
  destruct (Spec.scan_blocks n 0 kNoResync None (concat (map snd (take k rounds)))) as [cur evs] eqn:Hscan.
  assert (simulates bufsize chunk width (env_handed (open_first_file d))
    (process_blocks bufsize chunk n (concat (map snd (take k rounds))) s0) cur ([] ++ evs)) as Hsim.
  { eapply sim_blocks; eauto using sim_init. }
  rewrite <-Hrun in Hsim. destruct Hsim, sim_groups0 as (gs & ps & ?). destruct_and!.
  exists k, gs, ps. cbn zeta. rewrite Hscan. unfold DataWrite. fold s0. rewrite <-Hrun.
  destruct (final_flush_frame (run_loop bufsize chunk n rounds s0)) as (-> & -> & -> & -> & -> & _).
  rewrite open_first_file_handed in *. cbn in *.
  split_and!; try done; try congruence.
  - rewrite app_assoc. congruence.
  - by rewrite Hrun.
Qed.

(** *** What every call to the disk keeps true, the whole thread does *)
Record env_invariant {D} `{WriterEnv D} (P : D → Prop) : Prop := EnvInvariant {
  inv_flag_open_error d : P d → P (env_flag_open_error d);
  inv_write d ws : P d → P (env_write d ws).1;
  inv_flag_failed_write d : P d → P (env_flag_failed_write d);
  inv_request_disk_stop d : P d → P (env_request_disk_stop d);
  inv_switch_file d : P d → P (env_switch_file d).1;
  inv_set_stop_write d : P d → P (env_set_stop_write d);
  inv_close d : P d → P (env_close d);
  inv_store_event_count n d : P d → P (env_store_event_count n d)
}.

Section env_preservation.
Context {D : Type} `{WriterEnv D} (P : D → Prop) (HP : env_invariant P).
Context (bufsize chunk n : nat).
Implicit Types s : wstate D.

Lemma write_chunk_env s : P (w_env s) → P (w_env (write_chunk s)).
Proof.
  intros Hs. unfold write_chunk.
  pose proof (inv_write P HP _ (take (num_words s) (w_buf s)) Hs) as Hw.
  destruct (env_write _ _) as [d []]; cbn in *; [done|].
  case_match; [apply (inv_request_disk_stop P HP)|]; by apply (inv_flag_failed_write P HP).
Qed.

Lemma maybe_switch_file_env s : P (w_env s) → P (w_env (maybe_switch_file s)).
Proof.
  intros Hs. unfold maybe_switch_file. case_match; [|done].
  pose proof (inv_switch_file P HP _ Hs) as Hsw. destruct (env_switch_file _) as [d []]; cbn in *;
    [done|by apply (inv_set_stop_write P HP)].
Qed.

Lemma flush_chunk_env s : P (w_env s) → P (w_env (flush_chunk chunk s)).
Proof.
  intros Hs. unfold flush_chunk. case_match; [|done]. cbn.
  by apply maybe_switch_file_env, write_chunk_env.
Qed.

Lemma process_word_env w s : P (w_env s) → P (w_env (process_word bufsize chunk w s)).
Proof.
  intros Hs. unfold process_word.
  assert (P (w_env (check_overflow bufsize s))) as Ho by (unfold check_overflow; by case_match).
  revert Ho. generalize (check_overflow bufsize s) as m. intros m Hm.
  case_match; [apply flush_chunk_env; change (P (w_env (mark_start m))); by rewrite mark_start_env|].
  case_match; [done|]. case_match; apply flush_chunk_env; cbn; [|done].
  by apply (inv_store_event_count P HP).
Qed.

Lemma process_words_env ws s : P (w_env s) → P (w_env (process_words bufsize chunk ws s)).
Proof.
  revert s. induction ws as [|w ws IH]; intros s Hs; [done|]. by apply IH, process_word_env.
Qed.

Lemma process_blocks_env bs s : P (w_env s) → P (w_env (process_blocks bufsize chunk n bs s)).
Proof.
  revert s. induction bs as [|[r ws] bs IH]; intros s Hs; [done|]. apply IH. cbn.
  unfold process_block. cbn.
  assert (P (w_env (resync_check (resync_store r s)))) as Hr
    by (unfold resync_check; by repeat case_match).
  by apply process_words_env.
Qed.

Lemma DataWrite_env rounds d :
  P (open_first_file d) → P (w_env (DataWrite bufsize chunk n rounds d)).
Proof.
  intros Hd. unfold DataWrite.
  assert (P (w_env (init_writer bufsize (open_first_file d)))) as Hi
    by (cbn; by apply (inv_store_event_count P HP)).
  destruct (run_loop_prefix bufsize chunk n rounds (init_writer bufsize (open_first_file d)))
    as (k & -> & _).
  apply (process_blocks_env (concat (map snd (take k rounds)))) in Hi. revert Hi.
  generalize (process_blocks bufsize chunk n (concat (map snd (take k rounds)))
    (init_writer bufsize (open_first_file d))) as s. intros s Hs.
  unfold final_flush. pose proof (inv_write P HP _ (take (event_words s) (w_buf s)) Hs) as Hw.
  destruct (env_write _ _) as [d' []]; cbn in *; by apply (inv_close P HP).
Qed.
End env_preservation.

Lemma buffer_holds_chunk_events :
  EVENTCHUNK * N.to_nat DATABUFFSIZE ≤ N.to_nat EVENTBUFFSIZE.
Proof. unfold EVENTBUFFSIZE. rewrite N2Nat.inj_mul, Nat2N.id, Nat.mul_comm. done. Qed.

Lemma chunk_pos : 0 < EVENTCHUNK.
Proof. unfold EVENTCHUNK. lia. Qed.

Lemma buffer_nonempty : 0 < N.to_nat EVENTBUFFSIZE ∧ 0 < N.to_nat DATABUFFSIZE.
Proof.
  assert (EVENTBUFFSIZE = 1500750%N) as -> by reflexivity.
  assert (DATABUFFSIZE = 150075%N) as -> by reflexivity. lia.
Qed.

(** A disk that accepts every write, for evaluating the thread on concrete input. *)
#[export] Instance list_env : WriterEnv (list (list Z)) := {|
  env_open_current d := (d, Opened);
  env_flag_open_error d := d;
  env_write d ws := (d ++ [ws], Written (4 * N.of_nat (length ws)));
  env_flag_failed_write d := d;
  env_request_disk_stop d := d;
  env_switch_file d := (d, true);
  env_set_stop_write d := d;
  env_stop_write d := false;
  env_close d := d;
  env_store_event_count n d := d;
  env_handed d := d
|}.
#[export] Instance list_env_laws : WriterEnvLaws (list (list Z)).
Proof. by split. Qed.

(** The write thread with the sizes of data_handler.h; [dma_bytes] is DMABUFFSIZE. *)
Definition write_thread {D} `{WriterEnv D} (dma_bytes : N)
    (rounds : list (bool * list (option N * list Z))) (d : D) : wstate D :=
  DataWrite (N.to_nat EVENTBUFFSIZE) EVENTCHUNK (N.to_nat (dma_bytes / 4)) rounds d.

Section properties.
Context {D : Type} `{WriterEnvLaws D}.
Implicit Types (d : D) (rounds : list (bool * list (option N * list Z))).

(** C1. As long as no event is longer than a DATABUFFSIZE block, the payloads
    the write thread hands to [write], over a whole run, are exactly the
    complete events of the blocks it popped (cut at the resync requests):
    [EVENTCHUNK] whole events per chunk, in order, and the remaining complete
    events in the final write; nothing is lost, torn, duplicated or glued.
    The event counter counts them, and every start marker is an end marker, a
    dropped partial event or the one event still open. The thread processes
    the rounds up to the first one that sees a stop flag. *)
Theorem DataWrite_writes_complete_events dma_bytes rounds d :
  Spec.blocks_fit (N.to_nat DATABUFFSIZE) (N.to_nat (dma_bytes / 4)) 0 kNoResync None
    (concat (map snd rounds)) = true →
  ∃ k groups pending,
    let s := write_thread dma_bytes rounds d in
    let blocks := concat (map snd (take k rounds)) in
    let run := process_blocks (N.to_nat EVENTBUFFSIZE) EVENTCHUNK (N.to_nat (dma_bytes / 4))
                 blocks (init_writer (N.to_nat EVENTBUFFSIZE) (open_first_file d)) in
    let '(cur, evs) := Spec.scan_blocks (N.to_nat (dma_bytes / 4)) 0 kNoResync None blocks in
    evs = concat groups ++ pending ∧
    Forall (λ g, length g = EVENTCHUNK) groups ∧ length pending < EVENTCHUNK ∧
    env_handed (w_env s) = env_handed d ++ map (λ g, concat g) groups ++ [concat pending] ∧
    event_count s = N.of_nat (length evs) ∧ event_end_count s = N.of_nat (length evs) ∧
    event_start_count s =
      (event_end_count s + dropped_partial s + N.of_nat (length (option_list cur)))%N ∧
    s = final_flush run ∧
    (take k rounds = rounds ∨
     ∃ stop bs, rounds !! k = Some (stop, bs) ∧
       (stop = true ∨ env_stop_write (w_env run) = true)).
Proof.
  intros Hfit. destruct buffer_nonempty as [_ Hw].
  by apply (DataWrite_refines _ _ _ _ buffer_holds_chunk_events chunk_pos Hw).
Qed.

(** C34. Whatever the stream, the write thread never stores outside the event
    buffer: not for an event longer than the buffer, not across resyncs,
    failed writes or file switches. *)
Theorem DataWrite_stores_in_bounds dma_bytes rounds d :
  w_oob (write_thread dma_bytes rounds d) = false.
Proof.
  destruct buffer_nonempty as [Hb _]. unfold write_thread, DataWrite.
  edestruct @final_flush_frame as (_ & _ & _ & _ & _ & ->); [done|].
  eapply ok_oob, run_loop_ok, init_writer_ok; by auto using chunk_pos.
Qed.

(** Whatever the stream, events longer than the buffer included, every
    chunk written while the run lasts is a sequence of whole events. *)
Theorem DataWrite_chunks_are_whole_events dma_bytes rounds d :
  let s := run_loop (N.to_nat EVENTBUFFSIZE) EVENTCHUNK (N.to_nat (dma_bytes / 4)) rounds
             (init_writer (N.to_nat EVENTBUFFSIZE) (open_first_file d)) in
  ∃ chunks, env_handed (w_env s) = env_handed d ++ chunks ∧ Forall Spec.whole_events chunks.
Proof.
  destruct buffer_nonempty as [Hb _]. cbn zeta. rewrite <-(open_first_file_handed d).
  eapply ok_handed, run_loop_ok, init_writer_ok; by auto using chunk_pos.
Qed.
End properties.

(** Two events cut over three blocks, a resync request before the third. *)
Definition demo_rounds : list (bool * list (option N * list Z)) :=
  [(false, [(None, [0xFFFFFFFF; 1; 2; 0xE0000000; 7; 0xFFFFFFFF]%Z)]);
   (false, [(Some 2%N, [3; 0xE0000000; 0xFFFFFFFF; 4; 5; 6]%Z)]); (false, []);
   (false, [(None, [8; 0xE0000000; 0xFFFFFFFF; 9; 0xE0000000; 0]%Z)]); (true, [])].

Lemma DataWrite_writes_complete_events_witness :
  Spec.blocks_fit (N.to_nat DATABUFFSIZE) (N.to_nat (24 / 4)) 0 kNoResync None
    (concat (map snd demo_rounds)) = true ∧
  ∃ k groups pending,
    let s := write_thread 24 demo_rounds [] in
    let blocks := concat (map snd (take k demo_rounds)) in
    let run := process_blocks (N.to_nat EVENTBUFFSIZE) EVENTCHUNK (N.to_nat (24 / 4))
                 blocks (init_writer (N.to_nat EVENTBUFFSIZE) (open_first_file [])) in
    let '(cur, evs) := Spec.scan_blocks (N.to_nat (24 / 4)) 0 kNoResync None blocks in
    evs = concat groups ++ pending ∧
    Forall (λ g, length g = EVENTCHUNK) groups ∧ length pending < EVENTCHUNK ∧
    env_handed (w_env s) = env_handed [] ++ map (λ g, concat g) groups ++ [concat pending] ∧
    event_count s = N.of_nat (length evs) ∧ event_end_count s = N.of_nat (length evs) ∧
    event_start_count s =
      (event_end_count s + dropped_partial s + N.of_nat (length (option_list cur)))%N ∧
    s = final_flush run ∧
    (take k demo_rounds = demo_rounds ∨
     ∃ stop bs, demo_rounds !! k = Some (stop, bs) ∧
       (stop = true ∨ env_stop_write (w_env run) = true)).
Proof.
  assert (Spec.blocks_fit (N.to_nat DATABUFFSIZE) (N.to_nat (24 / 4)) 0 kNoResync None
    (concat (map snd demo_rounds)) = true) as Hfit by (vm_compute; reflexivity).
  split; [exact Hfit|]. exact (DataWrite_writes_complete_events 24 demo_rounds [] Hfit).
Defined.

Lemma DataWrite_stores_in_bounds_witness :
  w_oob (write_thread (D := list (list Z)) 24 demo_rounds []) = false.
Proof. exact (DataWrite_stores_in_bounds 24 demo_rounds []). Defined.

Lemma DataWrite_chunks_are_whole_events_witness :
  ∃ chunks,
    env_handed (w_env (run_loop (N.to_nat EVENTBUFFSIZE) EVENTCHUNK (N.to_nat (24 / 4)) demo_rounds
      (init_writer (N.to_nat EVENTBUFFSIZE) (open_first_file (D := list (list Z)) [])))) =
      env_handed (D := list (list Z)) [] ++ chunks ∧ Forall Spec.whole_events chunks.
Proof. exact (DataWrite_chunks_are_whole_events 24 demo_rounds []). Defined.

(** The same run with a small buffer, evaluated: three whole events. *)
Example demo_run :
  env_handed (w_env (DataWrite 40 EVENTCHUNK 6 demo_rounds [])) =
    [[0xFFFFFFFF; 1; 2; 0xE0000000; 0xFFFFFFFF; 3; 0xE0000000; 0xFFFFFFFF; 9; 0xE0000000]%Z].
Proof. vm_compute. reflexivity. Qed.

(** The room is needed: a complete event that ends exactly at the end of the
    buffer, the chunk not being full, is rolled over by the next word, and the
    final write glues the head of the next event to its tail. *)
Lemma DataWrite_exact_fill_glues :
  env_handed (w_env (DataWrite 4 EVENTCHUNK 6
    [(false, [(None, [0xFFFFFFFF; 1; 2; 0xE0000000; 0xFFFFFFFF; 9]%Z)])] [])) =
  [[0xFFFFFFFF; 9; 2; 0xE0000000]%Z].
Proof. vm_compute. reflexivity. Qed.
