(* ===== verification/Resync.v ===== *)
(** * Resynchronisation after a DMA recovery

    When a DMA transfer times out or a block is dropped, the read thread
    (ReadoutDMARead) stores the index of the next block it will enqueue in
    [resync_at_block_]; the write thread (DataWrite) drops its half-built event
    when it reaches that block. The two threads share the queue and one atomic.
    This file puts the two sides together, for any interleaving of the read
    thread's operations with the write thread's checks. *)
From Stdlib Require Import Lia NArith.
From stdpp Require Import base tactics list numbers option.
From S2P Require Import Prelude EventBuilder.
Local Open Scope N_scope.

(** ** The interleaved operations *)
Inductive action :=
  | Enqueue (ws : list Z)  (** read thread: data_queue_.write succeeded, blocks_enqueued++ *)
  | Request                (** read thread: resync_at_block_.store(blocks_enqueued) *)
  | PopCheck.              (** write thread: read() and the resync check of one block *)

(** What the write thread sees: each block it pops, with the last request stored
    since its previous check. *)
Fixpoint observe (acts : list action) (queue : list (list Z)) (enqueued : N) (store : option N) :
    list (option N * list Z) :=
  match acts with
  | [] => []
  | Enqueue ws :: acts => observe acts (queue ++ [ws]) (N.succ enqueued) store
  | Request :: acts => observe acts queue enqueued (Some enqueued)
  | PopCheck :: acts =>
      match queue with
      | [] => observe acts queue enqueued store
      | ws :: queue => (store, ws) :: observe acts queue enqueued None
      end
  end.

(** The blocks left in the queue. *)
Fixpoint left_over (acts : list action) (queue : list (list Z)) : list (list Z) :=
  match acts with
  | [] => queue
  | Enqueue ws :: acts => left_over acts (queue ++ [ws])
  | Request :: acts => left_over acts queue
  | PopCheck :: acts => left_over acts (tail queue)
  end.

(** What is wanted, for any way [F] of reading a block with an event open: the
    stream in the order it was enqueued, cut at every request. *)
Section outputs.
Context {E : Type} (F : option (list Z) → list Z → option (list Z) * list E).
Fixpoint outputs (acts : list action) (cur : option (list Z)) : list E :=
  match acts with
  | [] => []
  | Enqueue ws :: acts => let '(cur, evs) := F cur ws in (evs ++ outputs acts cur)%list
  | Request :: acts => outputs acts None
  | PopCheck :: acts => outputs acts cur
  end.
End outputs.

(** The complete events of the first [n] words of a block, and whether every
    event, complete or not, has at most [width] words. *)
Definition block_events (n : nat) (cur : option (list Z)) (ws : list Z) :=
  Spec.scan cur (take n ws).
Definition block_fits (width n : nat) (cur : option (list Z)) (ws : list Z) : option (list Z) * list bool :=
  ((Spec.scan cur (take n ws)).1, [Spec.fits width cur (take n ws)]).
Definition intended (n : nat) : list action → option (list Z) → list (list Z) :=
  outputs (block_events n).
Definition intended_fit (width n : nat) (acts : list action) : Prop :=
  Forall (eq true) (outputs (block_fits width n) acts None).

(** One request at a time: a new one is stored only when the previous one has
    been consumed, or names the same block. *)
Fixpoint one_at_a_time (acts : list action) (enqueued popped : N) (pending : option N) : Prop :=
  match acts with
  | [] => True
  | Enqueue ws :: acts => one_at_a_time acts (N.succ enqueued) popped pending
  | Request :: acts =>
      (pending = None ∨ pending = Some enqueued) ∧ one_at_a_time acts enqueued popped (Some enqueued)
  | PopCheck :: acts =>
      if decide (popped < enqueued)
      then one_at_a_time acts enqueued (N.succ popped)
             (if decide (pending = Some popped) then None else pending)
      else one_at_a_time acts enqueued popped pending
  end.

(** ** The queue with the cuts that are due *)
Section marked.
Context {E : Type} (F : option (list Z) → list Z → option (list Z) * list E).
Implicit Types (q : list (list Z)) (cur : option (list Z)) (pending : option N).

(** The events of the queued blocks, [p] being the index of the first one, then
    of the operations to come, with the pending cut in its place. *)
Fixpoint due (q : list (list Z)) (p : N) pending (acts : list action) cur : list E :=
  let cur := if decide (pending = Some p) then None else cur in
  match q with
  | [] => outputs F acts cur
  | ws :: q => let '(cur, evs) := F cur ws in (evs ++ due q (N.succ p) pending acts cur)%list
  end.

Lemma due_enqueue q p pending ws acts cur :
  (∀ k, pending = Some k → k ≤ p + N.of_nat (length q)) →
  due (q ++ [ws]) p pending acts cur = due q p pending (Enqueue ws :: acts) cur.
Proof.
  revert p cur. induction q as [|w q IH]; intros p cur Hk; cbn [app due].
  - cbn [outputs]. destruct (decide (pending = Some (N.succ p))) as [Hq|_].
    + apply Hk in Hq. cbn in Hq. lia.
    + done.
  - destruct (F _ _) as [cur' evs]. rewrite IH; [done|].
    intros k Hq. apply Hk in Hq. cbn [length] in Hq. lia.
Qed.

Lemma due_request q p pending acts cur :
  pending = None ∨ pending = Some (p + N.of_nat (length q)) →
  due q p (Some (p + N.of_nat (length q))) acts cur = due q p pending (Request :: acts) cur.
Proof.
  revert p cur. induction q as [|w q IH]; intros p cur Hk; cbn [due].
  - rewrite decide_True by (f_equal; cbn; lia). done.
  - cbn [length] in *.
    assert (p + N.of_nat (S (length q)) = N.succ p + N.of_nat (length q)) as Hq by lia.
    rewrite !Hq in *. rewrite decide_False by (intros [= ?]; lia).
    rewrite (decide_False (P := pending = Some p))
      by (destruct Hk as [->| ->]; [done|intros [= ?]; lia]).
    destruct (F _ _) as [cur' evs]. by rewrite IH.
Qed.

Lemma due_popcheck q p pending acts cur :
  due q p pending (PopCheck :: acts) cur = due q p pending acts cur.
Proof.
  revert p cur. induction q as [|w q IH]; intros p cur; cbn [due]; [done|].
  destruct (F _ _). by rewrite IH.
Qed.

(** A cut that is already behind does not count. *)
Lemma due_past q p k acts cur : k < p → due q p (Some k) acts cur = due q p None acts cur.
Proof.
  revert p cur. induction q as [|w q IH]; intros p cur Hk; cbn [due];
    rewrite (decide_False (P := Some k = Some p)) by (intros [= ?]; lia); [done|].
  destruct (F _ _). rewrite IH; [done|lia].
Qed.
End marked.

(** ** The write thread takes the cuts that are due *)
Section observed.
Context (n : nat).
Implicit Types (q : list (list Z)) (cur : option (list Z)) (pending : option N).

(** The value in the atomic, and the one the write thread will look at. *)
Definition request_of pending (req : N) (store : option N) : Prop :=
  default req store = default kNoResync pending.

Lemma observe_due acts q p pending req store cur :
  p + N.of_nat (length q) + N.of_nat (length acts) < kNoResync →
  (∀ k, pending = Some k → p ≤ k ≤ p + N.of_nat (length q)) →
  request_of pending req store →
  one_at_a_time acts (p + N.of_nat (length q)) p pending → left_over acts q = [] →
  (Spec.scan_blocks n p req cur (observe acts q (p + N.of_nat (length q)) store)).2 =
    due (block_events n) q p pending acts cur.
Proof.
  revert q p pending req store cur.
  induction acts as [|[ws| |] acts IH]; intros q p pending req store cur Hlen Hpend Hreq Hone Hleft;
    cbn [observe left_over one_at_a_time length] in *.
  - subst q. cbn. by destruct (decide (pending = Some p)).
  - assert (N.succ (p + N.of_nat (length q)) = p + N.of_nat (length (q ++ [ws]))) as E
      by (rewrite length_app; cbn; lia).
    rewrite E in *. rewrite (IH _ _ pending); try done; [|lia|].
    + apply due_enqueue. intros k Hk. apply Hpend in Hk. lia.
    + intros k Hk. apply Hpend in Hk. lia.
  - destruct Hone as [Hp Hone]. rewrite (IH _ _ (Some (p + N.of_nat (length q)))); try done; [|lia|].
    + by apply due_request.
    + intros k [= <-]. lia.
  - destruct q as [|ws q].
    { rewrite decide_False in Hone by (cbn; lia). rewrite due_popcheck. apply IH; try done. cbn in *. lia. }
    rewrite decide_True in Hone by (cbn; lia). cbn [tail length Spec.scan_blocks due] in *. unfold block_events at 1.
    unfold request_of in Hreq. unfold Spec.cut_before. rewrite Hreq.
    assert (p + N.of_nat (S (length q)) = N.succ p + N.of_nat (length q)) as Hq by lia.
    rewrite Hq in *.
    assert ((default kNoResync pending <=? p) = bool_decide (pending = Some p)) as ->.
    { destruct pending as [k|]; cbn.
      - destruct (Hpend k eq_refl). case_bool_decide; simplify_eq; [apply N.leb_le|apply N.leb_gt];
          [lia|]. assert (k ≠ p) by congruence. lia.
      - rewrite bool_decide_eq_false_2 by done. apply N.leb_gt. lia. }
    destruct (decide (pending = Some p)) as [Hcut|Hcut]; case_bool_decide; try done.
    + destruct (Spec.scan None (take n ws)) as [cur' evs].
      specialize (IH q (N.succ p) None kNoResync None cur').
      destruct (Spec.scan_blocks _ _ _ _ _) as [cur'' evs''] eqn:Es. cbn [snd] in *.
      rewrite IH; try done; [|lia]. by rewrite Hcut, due_popcheck, due_past by lia.
    + destruct (Spec.scan cur (take n ws)) as [cur' evs].
      specialize (IH q (N.succ p) pending (default kNoResync pending) None cur').
      destruct (Spec.scan_blocks _ _ _ _ _) as [cur'' evs''] eqn:Es. cbn [snd] in *.
      rewrite IH; try done; [by rewrite due_popcheck|lia|]. intros k Hk. destruct (Hpend k Hk).
      assert (k ≠ p) by congruence. lia.
Qed.
End observed.

(** However the two threads interleave, if the read thread stores a resync
    request only when the previous one has been consumed, the events the write
    thread finds in the blocks it pops are those of the enqueued stream cut at
    every request: no event is glued across a DMA recovery, and none is lost
    but the ones cut. *)
Theorem resync_one_at_a_time n acts :
  N.of_nat (length acts) < kNoResync → one_at_a_time acts 0 0 None → left_over acts [] = [] →
  (Spec.scan_blocks n 0 kNoResync None (observe acts [] 0 None)).2 = intended n acts None.
Proof.
  intros Hlen Hone Hleft.
  by apply (observe_due n acts [] 0 None kNoResync None None).
Qed.

(** The condition is needed: with two recoveries before the write thread
    reaches the first one, the later request replaces the earlier one, and the
    head of an event cut by the first recovery is glued to the tail of another. *)
Theorem resync_lost_request :
  ∃ n acts, left_over acts [] = [] ∧ N.of_nat (length acts) < kNoResync ∧
    intended n acts None = [] ∧
    (Spec.scan_blocks n 0 kNoResync None (observe acts [] 0 None)).2 =
      [[0xFFFFFFFF; 1; 2; 0xE0000000]%Z].
Proof.
  exists 4%nat, [Enqueue [0xFFFFFFFF; 1]%Z; Request; Enqueue [2; 0xE0000000]%Z; Request;
                 Enqueue [3]%Z; PopCheck; PopCheck; PopCheck].
  by vm_compute.
Qed.

Definition demo_actions : list action :=
  [Enqueue [0xFFFFFFFF; 1]%Z; Request; PopCheck; Enqueue [2; 0xE0000000]%Z; PopCheck;
   Enqueue [0xFFFFFFFF; 3; 0xE0000000]%Z; Request; PopCheck].

Lemma resync_one_at_a_time_witness :
  one_at_a_time demo_actions 0 0 None ∧
  (Spec.scan_blocks 4 0 kNoResync None (observe demo_actions [] 0 None)).2 =
    intended 4 demo_actions None ∧
  intended 4 demo_actions None = [[0xFFFFFFFF; 3; 0xE0000000]%Z].
Proof.
  assert (one_at_a_time demo_actions 0 0 None) as H by (vm_compute; auto).
  split; [exact H|]. split; [|reflexivity].
  apply (resync_one_at_a_time 4 demo_actions); [reflexivity|exact H|reflexivity].
Defined.
