(* ===== verification/SpscQueue.v ===== *)
(** * The read/write queue: [folly::ProducerConsumerQueue]
    (src/lib/folly/ProducerConsumerQueue.h)

    A ring of [size_] slots between one producer (the DMA thread) and one
    consumer (the write thread). The operations are modelled twice: as functions
    on the queue, and as the steps of two threads that interleave at each access
    of the shared indices and slots. Both are proved against a bounded FIFO of
    [size_ - 1] records, the class [FifoLaws] the clients are proved against. *)
From stdpp Require Import base tactics list numbers option.
From Stdlib Require Import Lia.
From S2P Require Import Prelude.
Local Open Scope Z_scope.

(** ** The queue: a slot is [None] when its record is not constructed *)
Record queue (A : Type) := Queue {
  size_ : Z;
  records_ : list (option A);
  readIndex_ : Z;
  writeIndex_ : Z
}.
Arguments Queue {A}. Arguments size_ {A}. Arguments records_ {A}.
Arguments readIndex_ {A}. Arguments writeIndex_ {A}.
#[export] Instance queue_eta {A} : RecordEta (queue A) := λ q,
  Queue (size_ q) (records_ q) (readIndex_ q) (writeIndex_ q).

(** The producer inside [write], the consumer inside [read]. *)
Inductive producer (A : Type) :=
  | PIdle
  | PChecked (v : A) (currentWrite nextRecord : Z)
  | PConstructed (v : A) (nextRecord : Z).
Inductive consumer (A : Type) :=
  | CIdle
  | CChecked (currentRead nextRecord : Z)
  | CTaken (x : option A) (nextRecord : Z).
Arguments PIdle {A}. Arguments PChecked {A}. Arguments PConstructed {A}.
Arguments CIdle {A}. Arguments CChecked {A}. Arguments CTaken {A}.

Section operations.
Context {A : Type}.
Implicit Types (q : queue A) (v : A).

Definition new_queue (size : Z) : queue A :=
  Queue size (replicate (Z.to_nat size) None) 0 0.

(** [auto nextRecord = current + 1; if (nextRecord == size_) nextRecord = 0;] *)
Definition nextRecord_of q (current : Z) : Z :=
  let next := u32 (current + 1) in if next =? size_ q then 0 else next.

Definition slot q (i : Z) : option A := records_ q !! Z.to_nat i ≫= id.
Definition construct (i : Z) v q : queue A := q <| records_ ::= <[Z.to_nat i := Some v]> |>.
Definition destroy (i : Z) q : queue A := q <| records_ ::= <[Z.to_nat i := None]> |>.

(** *** The steps of [write] *)
Definition write_check v q : producer A :=
  let currentWrite := writeIndex_ q in
  let nextRecord := nextRecord_of q currentWrite in
  if negb (nextRecord =? readIndex_ q) then PChecked v currentWrite nextRecord else PIdle.
Definition write_construct (p : producer A) q : queue A * producer A :=
  match p with
  | PChecked v i next => (construct i v q, PConstructed v next)
  | p => (q, p)
  end.
Definition write_publish (p : producer A) q : queue A * producer A :=
  match p with
  | PConstructed _ next => (q <| writeIndex_ := next |>, PIdle)
  | p => (q, p)
  end.
Definition write v q : queue A * bool :=
  match write_check v q with
  | PIdle => (q, false)
  | p => let '(q, p) := write_construct p q in
         let '(q, _) := write_publish p q in (q, true)
  end.

(** *** The steps of [read] *)
Definition read_check q : consumer A :=
  let currentRead := readIndex_ q in
  if currentRead =? writeIndex_ q then CIdle
  else CChecked currentRead (nextRecord_of q currentRead).
Definition read_take (c : consumer A) q : queue A * consumer A :=
  match c with
  | CChecked i next => (destroy i q, CTaken (slot q i) next)
  | c => (q, c)
  end.
Definition read_publish (c : consumer A) q : queue A * consumer A :=
  match c with
  | CTaken _ next => (q <| readIndex_ := next |>, CIdle)
  | c => (q, c)
  end.
(** [Some x]: read returned true, [x] being what the slot held. *)
Definition read q : queue A * option (option A) :=
  match read_check q with
  | CIdle => (q, None)
  | c => let '(q, c) := read_take c q in
         let x := match c with CTaken x _ => x | _ => None end in
         let '(q, _) := read_publish c q in (q, Some x)
  end.

Definition frontPtr q : option (option A) :=
  if readIndex_ q =? writeIndex_ q then None else Some (slot q (readIndex_ q)).
Definition popFront q : queue A :=
  let currentRead := readIndex_ q in
  let next := nextRecord_of q currentRead in
  (destroy currentRead q) <| readIndex_ := next |>.
Definition isEmpty q : bool := readIndex_ q =? writeIndex_ q.
Definition isFull q : bool := nextRecord_of q (writeIndex_ q) =? readIndex_ q.
(** [int ret = writeIndex - readIndex; if (ret < 0) ret += size_;] returned as size_t *)
Definition sizeGuess q : Z :=
  let ret := i32 (writeIndex_ q - readIndex_ q) in
  u64 (if ret <? 0 then i32 (ret + size_ q) else ret).
Definition capacity q : Z := size_ q - 1.
(** The destructor's loop; it runs only when the records have a destructor. *)
Fixpoint destructor_loop (fuel : nat) q (readIndex endIndex : Z) : queue A :=
  match fuel with
  | O => q
  | S fuel =>
      if readIndex =? endIndex then q
      else destructor_loop fuel (destroy readIndex q) (nextRecord_of q readIndex) endIndex
  end.
Definition destructor (is_trivially_destructible : bool) q : queue A :=
  if is_trivially_destructible then q
  else destructor_loop (Z.to_nat (size_ q)) q (readIndex_ q) (writeIndex_ q).
End operations.

(** ** The interface: a FIFO that holds at most [fifo_capacity] records *)
Class Fifo (Q A : Type) := {
  fifo_rep : Q → list A → Prop;
  fifo_capacity : Q → Z;
  fifo_write : A → Q → Q * bool;
  fifo_read : Q → Q * option A;
  fifo_isEmpty : Q → bool;
  fifo_popFront : Q → Q
}.
Class FifoLaws (Q A : Type) `{Fifo Q A} := {
  fifo_write_room q l v :
    fifo_rep q l → zlen l < fifo_capacity q →
    (fifo_write v q).2 = true ∧ fifo_rep (fifo_write v q).1 (l ++ [v]);
  fifo_write_full q l v :
    fifo_rep q l → zlen l = fifo_capacity q → fifo_write v q = (q, false);
  fifo_bounded q l : fifo_rep q l → zlen l ≤ fifo_capacity q;
  fifo_read_empty q : fifo_rep q [] → fifo_read q = (q, None);
  fifo_read_head q v l :
    fifo_rep q (v :: l) → (fifo_read q).2 = Some v ∧ fifo_rep (fifo_read q).1 l;
  fifo_isEmpty_spec q l : fifo_rep q l → fifo_isEmpty q = bool_decide (l = []);
  fifo_popFront_head q v l : fifo_rep q (v :: l) → fifo_rep (fifo_popFront q) l;
  fifo_capacity_write q v : fifo_capacity (fifo_write v q).1 = fifo_capacity q;
  fifo_capacity_read q : fifo_capacity (fifo_read q).1 = fifo_capacity q
}.

(** ** What the two threads keep true *)
Section invariant.
Context {A : Type}.
Implicit Types (q : queue A) (v : A) (l : list A) (p : producer A) (c : consumer A).

Definition offset q (i : Z) : Z := (readIndex_ q + i) `mod` size_ q.

(** The slot [i] places after [readIndex_], when the queue holds [l]: the head
    is gone once the consumer took it, the next free slot is filled before the
    producer publishes it. *)
Definition held p c l (i : Z) : option A :=
  match c with
  | CTaken _ _ => if i =? 0 then None
                  else match p with
                       | PConstructed v _ => (l ++ [v]) !! Z.to_nat i
                       | _ => l !! Z.to_nat i
                       end
  | _ => match p with
         | PConstructed v _ => (l ++ [v]) !! Z.to_nat i
         | _ => l !! Z.to_nat i
         end
  end.

Definition producer_ok q l p : Prop :=
  match p with
  | PIdle => True
  | PChecked _ i next => i = offset q (zlen l) ∧ next = offset q (zlen l + 1) ∧
                         zlen l < capacity q
  | PConstructed _ next => next = offset q (zlen l + 1) ∧ zlen l < capacity q
  end.
Definition consumer_ok q l c : Prop :=
  match c with
  | CIdle => True
  | CChecked i next => i = offset q 0 ∧ next = offset q 1 ∧ l ≠ []
  | CTaken x next => next = offset q 1 ∧ l ≠ [] ∧ x = head l
  end.

Record represents q p c l : Prop := Represents {
  rep_size : 2 ≤ size_ q < 2 ^ 32;
  rep_records : zlen (records_ q) = size_ q;
  rep_read : 0 ≤ readIndex_ q < size_ q;
  rep_bound : zlen l ≤ capacity q;
  rep_write : writeIndex_ q = offset q (zlen l);
  rep_producer : producer_ok q l p;
  rep_consumer : consumer_ok q l c;
  rep_slots i : 0 ≤ i < size_ q → slot q (offset q i) = held p c l i
}.

Lemma offset_wrap q i :
  0 ≤ readIndex_ q < size_ q → 0 ≤ i ≤ size_ q →
  offset q i = if readIndex_ q + i <? size_ q then readIndex_ q + i
               else readIndex_ q + i - size_ q.
Proof.
  intros Hr Hi. unfold offset. destruct (Z.ltb_spec (readIndex_ q + i) (size_ q)).
  - by rewrite Z.mod_small by lia.
  - symmetry. apply Z.mod_unique_pos with 1; lia.
Qed.

Lemma offset_range q i :
  0 ≤ readIndex_ q < size_ q → 0 ≤ i ≤ size_ q → 0 ≤ offset q i < size_ q.
Proof. intros Hr Hi. unfold offset. apply Z.mod_pos_bound. lia. Qed.

Lemma offset_inj q i j :
  0 ≤ readIndex_ q < size_ q → 0 ≤ i < size_ q → 0 ≤ j < size_ q →
  offset q i = offset q j → i = j.
Proof.
  intros Hr Hi Hj. rewrite !offset_wrap by lia.
  destruct (Z.ltb_spec (readIndex_ q + i) (size_ q)), (Z.ltb_spec (readIndex_ q + j) (size_ q)); lia.
Qed.

Lemma nextRecord_offset q i :
  2 ≤ size_ q < 2 ^ 32 → 0 ≤ readIndex_ q < size_ q → 0 ≤ i < size_ q →
  nextRecord_of q (offset q i) = offset q (i + 1).
Proof.
  intros Hs Hr Hi. pose proof (offset_range q i Hr ltac:(lia)). unfold nextRecord_of, u32.
  rewrite Z.mod_small by lia. rewrite !offset_wrap by lia.
  repeat match goal with |- context [?a <? ?b] => destruct (Z.ltb_spec a b) end;
  repeat match goal with |- context [?a =? ?b] => destruct (Z.eqb_spec a b) end; lia.
Qed.

Lemma offset_next q q' i :
  readIndex_ q' = offset q 1 → size_ q' = size_ q → 0 < size_ q → 0 ≤ readIndex_ q →
  offset q' i = offset q (i + 1).
Proof.
  intros Hr Hs Hpos Hr0. unfold offset in *. rewrite Hr, Hs, Zplus_mod_idemp_l. f_equal. lia.
Qed.

Lemma slot_construct q i j v :
  0 ≤ i < zlen (records_ q) → 0 ≤ j →
  slot (construct i v q) j = if j =? i then Some v else slot q j.
Proof.
  intros Hi Hj. unfold slot, construct. cbn. destruct (Z.eqb_spec j i) as [->|Hne].
  - by rewrite list_lookup_insert_eq by lia.
  - by rewrite list_lookup_insert_ne by lia.
Qed.

Lemma slot_destroy q i j :
  0 ≤ i < zlen (records_ q) → 0 ≤ j →
  slot (destroy i q) j = if j =? i then None else slot q j.
Proof.
  intros Hi Hj. unfold slot, destroy. cbn. destruct (Z.eqb_spec j i) as [->|Hne].
  - by rewrite list_lookup_insert_eq by lia.
  - by rewrite list_lookup_insert_ne by lia.
Qed.

Lemma offset_construct q i j v : offset (construct i v q) j = offset q j.
Proof. done. Qed.
Lemma offset_destroy q i j : offset (destroy i q) j = offset q j.
Proof. done. Qed.

Lemma new_queue_represents size :
  2 ≤ size < 2 ^ 32 → represents (new_queue size) PIdle CIdle [].
Proof.
  intros. split; cbn -[Z.modulo offset]; try done; rewrite ?length_replicate; try lia.
  - unfold capacity. cbn. lia.
  - intros i Hi. unfold slot, offset. cbn -[Z.modulo].
    rewrite lookup_replicate_2; [by rewrite lookup_nil|]. rewrite Z.mod_small; lia.
Qed.

(** *** Each step keeps the representation *)
Lemma write_check_spec q c l v :
  represents q PIdle c l →
  represents q (write_check v q) c l ∧ (write_check v q = PIdle ↔ zlen l = capacity q).
Proof.
  intros [Hs Hlen Hr Hb Hw _ Hc Hslots]. unfold write_check. rewrite Hw.
  unfold capacity in *. rewrite nextRecord_offset by lia.
  assert (offset q (zlen l + 1) = readIndex_ q ↔ zlen l = size_ q - 1) as Hfull.
  { rewrite offset_wrap by lia. destruct (Z.ltb_spec (readIndex_ q + (zlen l + 1)) (size_ q)); lia. }
  destruct (Z.eqb_spec (offset q (zlen l + 1)) (readIndex_ q)) as [E|E]; simpl.
  - split; [|naive_solver]. by split.
  - split; [|naive_solver]. split; try done. simpl. unfold capacity. naive_solver lia.
Qed.

Lemma write_construct_spec q p c l :
  represents q p c l →
  let '(q', p') := write_construct p q in represents q' p' c l.
Proof.
  intros Hrep. destruct p as [|v i next|]; simpl; try done.
  destruct Hrep as [Hs Hlen Hr Hb Hw [-> [-> Hroom]] Hc Hslots].
  unfold capacity in *.
  split; try done; cbn -[offset]; rewrite ?length_insert; try done.
  intros j Hj. rewrite offset_construct.
  pose proof (offset_range q (zlen l) Hr ltac:(lia)).
  rewrite slot_construct by (pose proof (offset_range q j Hr ltac:(lia)); lia).
  destruct (Z.eqb_spec (offset q j) (offset q (zlen l))) as [E|E].
  - apply offset_inj in E as ->; [|lia..]. unfold held. rewrite Nat2Z.id.
    destruct c; rewrite ?list_lookup_middle; try done.
    simpl in Hc. destruct l; [naive_solver|]. done.
  - rewrite Hslots by done. assert (j ≠ zlen l) by naive_solver.
    assert (l !! Z.to_nat j = (l ++ [v]) !! Z.to_nat j) as El.
    { destruct (decide (Z.to_nat j < length l)%nat); [by rewrite lookup_app_l|].
      rewrite !lookup_ge_None_2; rewrite ?length_app; simpl; [done|lia..]. }
    unfold held. destruct c; by rewrite ?El.
Qed.

Lemma write_publish_spec q v next c l :
  represents q (PConstructed v next) c l →
  represents (write_publish (PConstructed v next) q).1 PIdle c (l ++ [v]).
Proof.
  intros [Hs Hlen Hr Hb Hw [-> Hroom] Hc Hslots]. unfold capacity in *.
  assert (zlen (l ++ [v]) = zlen l + 1) as Hl by (rewrite length_app; simpl; lia).
  split; try done; cbn -[offset]; rewrite ?Hl; try done.
  - unfold capacity. cbn. lia.
  - unfold consumer_ok in *. destruct c; [done| |].
    + destruct Hc as (? & ? & ?). split_and!; try done. by destruct l.
    + destruct Hc as (? & ? & ->). split_and!; try done; by destruct l.
Qed.

Lemma read_check_spec q p l :
  represents q p CIdle l →
  represents q p (read_check q) l ∧ (read_check q = CIdle ↔ l = []).
Proof.
  intros [Hs Hlen Hr Hb Hw Hp _ Hslots]. unfold read_check, capacity in *. rewrite Hw.
  assert (readIndex_ q = offset q 0) as Hr0 by (rewrite offset_wrap, Z.add_0_r by lia;
    destruct (Z.ltb_spec (readIndex_ q) (size_ q)); lia).
  destruct (Z.eqb_spec (readIndex_ q) (offset q (zlen l))) as [E|E].
  - rewrite Hr0 in E. apply offset_inj in E; [|lia..].
    split; [by split|]. destruct l; naive_solver lia.
  - assert (l ≠ []) by (intros ->; done). split; [|naive_solver]. split; try done. simpl.
    rewrite Hr0 at 2. rewrite nextRecord_offset by lia. naive_solver.
Qed.

Lemma read_take_spec q p c l :
  represents q p c l → let '(q', c') := read_take c q in represents q' p c' l.
Proof.
  intros Hrep. destruct c as [|i next|]; simpl; try done.
  destruct Hrep as [Hs Hlen Hr Hb Hw Hp (-> & -> & Hl) Hslots]. unfold capacity in *.
  assert (held p (CChecked (offset q 0) (offset q 1)) l 0 = head l) as Hhead.
  { unfold held. destruct l as [|x l]; [done|]. by destruct p. }
  pose proof (offset_range q 0 Hr ltac:(lia)).
  split; try done; cbn -[offset]; rewrite ?length_insert; try done.
  - by rewrite Hslots by lia.
  - intros j Hj. rewrite offset_destroy.
    rewrite slot_destroy by (pose proof (offset_range q j Hr ltac:(lia)); lia).
    destruct (Z.eqb_spec j 0) as [->|Hj0]; [by rewrite Z.eqb_refl|].
    destruct (Z.eqb_spec (offset q j) (offset q 0)) as [E|E].
    { apply offset_inj in E; lia. }
    by rewrite Hslots by done.
Qed.

Lemma read_publish_spec q p x next l :
  represents q p (CTaken x next) l →
  x = head l ∧ represents (read_publish (CTaken x next) q).1 p CIdle (tail l).
Proof.
  intros [Hs Hlen Hr Hb Hw Hp (-> & Hl & ->) Hslots]. split; [done|].
  destruct l as [|x l]; [done|]. clear Hl. unfold capacity in *. cbn [tail].
  set (q' := (read_publish (CTaken (head (x :: l)) (offset q 1)) q).1).
  assert (∀ i, offset q' i = offset q (i + 1)) as Hoff.
  { intros i. apply offset_next; cbn -[offset]; try done; lia. }
  assert (zlen (x :: l) = zlen l + 1) as Hl by (simpl length; lia).
  split; try done.
  - change (0 ≤ offset q 1 < size_ q). apply offset_range; lia.
  - unfold capacity, q'. cbn. lia.
  - rewrite Hoff, <-Hl. done.
  - unfold producer_ok in *. destruct p; [done|..]; rewrite ?Hoff, <-?Z.add_assoc;
      rewrite Hl, <-?Z.add_assoc in Hp; unfold capacity in *; cbn -[offset]; naive_solver lia.
  - intros i Hi. change (size_ q') with (size_ q) in Hi. change (slot q') with (slot q).
    rewrite Hoff. destruct (decide (i + 1 = size_ q)) as [E|E].
    + replace (offset q (i + 1)) with (offset q 0)
        by (rewrite E; unfold offset; rewrite Z.add_0_r, <-(Z_mod_plus_full _ 1); f_equal; lia).
      rewrite Hslots by lia. cbn -[offset Z.to_nat].
      assert (∀ k : list A, (length k ≤ length l + 1)%nat → k !! Z.to_nat i = None) as Hnone.
      { intros k Hk. apply lookup_ge_None_2. lia. }
      destruct p as [| |v n]; simpl; rewrite Hnone; try done; rewrite ?length_app; simpl; try lia.
    + rewrite Hslots by lia. unfold held. destruct (Z.eqb_spec (i + 1) 0); [lia|].
      replace (Z.to_nat (i + 1)) with (S (Z.to_nat i)) by lia. by destruct p.
Qed.
End invariant.

(** ** The functions on the queue, one thread at a time *)
Section sequential.
Context {A : Type}.
Implicit Types (q : queue A) (v : A) (l : list A).

Definition rep q l : Prop := represents q PIdle CIdle l.

Lemma rep_bound_capacity q l : rep q l → zlen l ≤ capacity q.
Proof. by destruct 1. Qed.

Lemma write_room q l v :
  rep q l → zlen l < capacity q → (write v q).2 = true ∧ rep (write v q).1 (l ++ [v]).
Proof.
  intros Hrep Hroom. destruct (write_check_spec q CIdle l v Hrep) as [Hp Hfull].
  unfold write. destruct (write_check v q) as [|v' i next|v' next] eqn:E.
  - naive_solver lia.
  - unfold write_check in E. case_match; simplify_eq.
    apply write_construct_spec in Hp. cbn in Hp. by apply write_publish_spec in Hp.
  - unfold write_check in E. by case_match.
Qed.

Lemma write_full q l v : rep q l → zlen l = capacity q → write v q = (q, false).
Proof.
  intros Hrep Hfull. destruct (write_check_spec q CIdle l v Hrep) as [_ Hiff].
  unfold write. by rewrite (proj2 Hiff Hfull).
Qed.

Lemma read_empty q : rep q [] → read q = (q, None).
Proof.
  intros Hrep. destruct (read_check_spec q PIdle [] Hrep) as [_ Hiff].
  unfold read. by rewrite (proj2 Hiff eq_refl).
Qed.

Lemma read_head q v l :
  rep q (v :: l) → (read q).2 = Some (Some v) ∧ rep (read q).1 l.
Proof.
  intros Hrep. destruct (read_check_spec q PIdle _ Hrep) as [Hc Hiff].
  unfold read. destruct (read_check q) as [|i next|] eqn:E.
  - naive_solver.
  - apply read_take_spec in Hc. cbn in Hc. apply read_publish_spec in Hc as [Hx Hc]. cbn in *. by rewrite Hx.
  - unfold read_check in E. by case_match.
Qed.

Lemma isEmpty_spec q l : rep q l → isEmpty q = bool_decide (l = []).
Proof.
  intros Hrep. destruct (read_check_spec q PIdle l Hrep) as [_ Hiff].
  unfold isEmpty. unfold read_check in Hiff.
  destruct (readIndex_ q =? writeIndex_ q); symmetry;
    [apply bool_decide_eq_true_2|apply bool_decide_eq_false_2]; naive_solver.
Qed.

Lemma isFull_spec q l : rep q l → isFull q = bool_decide (zlen l = capacity q).
Proof.
  intros Hrep. unfold isFull. symmetry.
  assert (∀ v : A, write_check v q = PIdle ↔ zlen l = capacity q) as Hiff
    by (intros v; by apply (write_check_spec q CIdle l v)).
  destruct Hrep as [Hs Hlen Hr Hb Hw _ _ _]. unfold capacity in *.
  rewrite Hw, nextRecord_offset, offset_wrap by lia.
  destruct (Z.ltb_spec (readIndex_ q + (zlen l + 1)) (size_ q)) as [E|E].
  - rewrite bool_decide_eq_false_2 by lia. symmetry. apply Z.eqb_neq. lia.
  - destruct (decide (zlen l = size_ q - 1)).
    + rewrite bool_decide_eq_true_2 by done. symmetry. apply Z.eqb_eq. lia.
    + rewrite bool_decide_eq_false_2 by done. symmetry. apply Z.eqb_neq. lia.
Qed.

(** [popFront] is [read] without the copy. *)
Lemma popFront_read q : readIndex_ q ≠ writeIndex_ q → popFront q = (read q).1.
Proof. intros Hne. unfold popFront, read, read_check. by rewrite (proj2 (Z.eqb_neq _ _) Hne). Qed.

Lemma popFront_head q v l : rep q (v :: l) → rep (popFront q) l.
Proof.
  intros Hrep. rewrite popFront_read; [by apply read_head in Hrep as [_ ?]|].
  apply isEmpty_spec in Hrep. rewrite bool_decide_eq_false_2 in Hrep by done.
  by apply Z.eqb_neq.
Qed.

Lemma frontPtr_spec q l : rep q l → frontPtr q = Some <$> head l.
Proof.
  intros Hrep. pose proof (isEmpty_spec q l Hrep) as He. unfold isEmpty in He.
  unfold frontPtr. rewrite He. destruct l as [|v l]; [done|]. simpl.
  destruct Hrep as [Hs Hlen Hr Hb Hw _ _ Hslots]. specialize (Hslots 0 ltac:(lia)).
  unfold offset in Hslots. rewrite Z.add_0_r, Z.mod_small in Hslots by lia. by rewrite Hslots.
Qed.

(** The size estimate is exact when nothing runs concurrently. *)
Lemma sizeGuess_spec q l : size_ q < 2 ^ 31 → rep q l → sizeGuess q = zlen l.
Proof.
  intros H31 [Hs Hlen Hr Hb Hw _ _ _]. unfold sizeGuess, capacity in *. rewrite Hw.
  assert (∀ z, - 2 ^ 31 ≤ z < 2 ^ 31 → i32 z = z) as Hi32.
  { intros z Hz. unfold i32, u32. case_decide as Hd.
    - destruct (decide (0 ≤ z)); [by rewrite Z.mod_small by lia|].
      rewrite <-(Z_mod_plus_full z 1), Z.mod_small in Hd by lia. lia.
    - destruct (decide (0 ≤ z)); [rewrite Z.mod_small in Hd by lia; lia|].
      rewrite <-(Z_mod_plus_full z 1), Z.mod_small by lia. lia. }
  rewrite offset_wrap by lia.
  assert (∀ z, 0 ≤ z < 2 ^ 31 → u64 z = z) as Hu64 by (intros; unfold u64; rewrite Z.mod_small; lia).
  destruct (Z.ltb_spec (readIndex_ q + zlen l) (size_ q)) as [E|E]; rewrite Hi32 by lia;
    match goal with |- context [?a <? 0] => destruct (Z.ltb_spec a 0) end;
    rewrite ?Hi32, Hu64 by lia; lia.
Qed.
End sequential.

#[export] Instance spsc_fifo {A} : Fifo (queue A) A := {|
  fifo_rep := rep;
  fifo_capacity := capacity;
  fifo_write := write;
  fifo_read q := let '(q, x) := read q in (q, mjoin x);
  fifo_isEmpty := isEmpty;
  fifo_popFront := popFront
|}.
#[export] Instance spsc_fifo_laws {A} : FifoLaws (queue A) A.
Proof.
  split; cbn.
  - apply write_room.
  - apply write_full.
  - apply rep_bound_capacity.
  - intros q Hq. by rewrite (read_empty _ Hq).
  - intros q v l Hq. destruct (read_head _ _ _ Hq). destruct (read q) as [q' []]; naive_solver.
  - apply isEmpty_spec.
  - apply popFront_head.
  - intros q v. unfold write, write_check. by case_match; cbn.
  - intros q. unfold read, read_check. by destruct (readIndex_ q =? writeIndex_ q).
Qed.

(** ** Two threads *)
Section concurrent.
Context {A : Type}.
Implicit Types (q : queue A) (v : A) (l : list A).

Record system := System { s_queue : queue A; s_producer : producer A; s_consumer : consumer A }.

(** What a step shows to the callers. *)
Inductive event :=
  | Accepted (v : A)
  | Rejected (v : A)
  | Delivered (x : option A)
  | FoundEmpty
  | Internal.

Inductive step : system → event → system → Prop :=
  | step_write_check q c v :
      step (System q PIdle c)
        (match write_check v q with PIdle => Rejected v | _ => Internal end)
        (System q (write_check v q) c)
  | step_write_construct q c v i next :
      step (System q (PChecked v i next) c) Internal
        (System (write_construct (PChecked v i next) q).1
                (write_construct (PChecked v i next) q).2 c)
  | step_write_publish q c v next :
      step (System q (PConstructed v next) c) (Accepted v)
        (System (write_publish (PConstructed v next) q).1
                (write_publish (PConstructed v next) q).2 c)
  | step_read_check q p :
      step (System q p CIdle)
        (match read_check q with CIdle => FoundEmpty | _ => Internal end)
        (System q p (read_check q))
  | step_read_take q p i next :
      step (System q p (CChecked i next)) Internal
        (System (read_take (CChecked i next) q).1 p (read_take (CChecked i next) q).2)
  | step_read_publish q p x next :
      step (System q p (CTaken x next)) (Delivered x)
        (System (read_publish (CTaken x next) q).1 p (read_publish (CTaken x next) q).2).

Inductive runs : system → list event → system → Prop :=
  | runs_nil s : runs s [] s
  | runs_snoc s tr s' e s'' : runs s tr s' → step s' e s'' → runs s (tr ++ [e]) s''.

Definition accepted (tr : list event) : list A :=
  omap (λ e, match e with Accepted v => Some v | _ => None end) tr.
Definition delivered (tr : list event) : list (option A) :=
  omap (λ e, match e with Delivered x => Some x | _ => None end) tr.

(** The trace is a FIFO's and the state holds what was accepted and not delivered. *)
Definition fifo_trace (s : system) (tr : list event) : Prop :=
  ∃ l, represents (s_queue s) (s_producer s) (s_consumer s) l ∧
       Some <$> accepted tr = delivered tr ++ (Some <$> l).

Lemma step_fifo s tr e s' : fifo_trace s tr → step s e s' → fifo_trace s' (tr ++ [e]).
Proof.
  intros (l & Hrep & Htr) Hstep. unfold fifo_trace, accepted, delivered in *.
  destruct Hstep; cbn [s_queue s_producer s_consumer] in *; rewrite !omap_app.
  - exists l. split; [by apply write_check_spec|]. by destruct (write_check v q); simpl; rewrite !app_nil_r.
  - exists l. split; [by apply write_construct_spec in Hrep|]. by rewrite !app_nil_r.
  - exists (l ++ [v]). split; [by eapply write_publish_spec|].
    cbn. rewrite !fmap_app, app_nil_r, Htr. by rewrite app_assoc.
  - exists l. split; [by apply read_check_spec|]. by destruct (read_check q); simpl; rewrite !app_nil_r.
  - exists l. split; [by apply read_take_spec in Hrep|]. by rewrite !app_nil_r.
  - exists (tail l). pose proof (rep_consumer _ _ _ _ Hrep) as (_ & Hne & _).
    apply read_publish_spec in Hrep as [-> Hrep]. split; [done|]. cbn.
    rewrite app_nil_r, Htr, <-app_assoc. by destruct l.
Qed.

Lemma runs_fifo size tr s :
  2 ≤ size < 2 ^ 32 → runs (System (new_queue size) PIdle CIdle) tr s → fifo_trace s tr.
Proof.
  intros Hsize Hruns. remember (System _ _ _) as s0 eqn:Hs0. induction Hruns; subst.
  - exists []. split; [by apply new_queue_represents|done].
  - eapply step_fifo; eauto.
Qed.
End concurrent.

(** ** Draining and destruction *)
Section drain.
Context {Q A : Type} `{FifoLaws Q A}.

(** [while (!queue.isEmpty()) queue.popFront();] (DataHandler::Reset) *)
Fixpoint drain (fuel : nat) (q : Q) : Q :=
  match fuel with
  | O => q
  | S fuel => if fifo_isEmpty q then q else drain fuel (fifo_popFront q)
  end.

Lemma drain_empty fuel q l : fifo_rep q l → (length l ≤ fuel)%nat → fifo_rep (drain fuel q) [].
Proof.
  revert q l. induction fuel as [|fuel IH]; intros q l Hq Hl; simpl.
  { by destruct l; [|simpl in Hl; lia]. }
  rewrite (fifo_isEmpty_spec _ _ Hq). destruct l as [|v l]; case_bool_decide; try done.
  apply (IH _ l); [by eapply fifo_popFront_head|simpl in Hl; lia].
Qed.
End drain.

Section destruction.
Context {A : Type}.
Implicit Types (q : queue A) (l : list A).

Lemma nextRecord_size q q' i : size_ q' = size_ q → nextRecord_of q' i = nextRecord_of q i.
Proof. unfold nextRecord_of. by intros ->. Qed.

Lemma destructor_loop_drains fuel q0 q l :
  rep q l → (length l ≤ fuel)%nat → size_ q0 = size_ q → records_ q0 = records_ q →
  ∃ q', rep q' [] ∧ size_ q' = size_ q ∧
    records_ (destructor_loop fuel q0 (readIndex_ q) (writeIndex_ q)) = records_ q'.
Proof.
  revert q0 q l. induction fuel as [|fuel IH]; intros q0 q l Hq Hl Hs Hr; simpl.
  { exists q. destruct l; [done|simpl in Hl; lia]. }
  pose proof (isEmpty_spec _ _ Hq) as He. unfold isEmpty in He. rewrite He.
  destruct l as [|v l]; case_bool_decide; try done; [by exists q|].
  apply popFront_head in Hq as Hpop. rewrite (nextRecord_size q) by done.
  destruct (IH (destroy (readIndex_ q) q0) (popFront q) l) as (q' & ? & ? & Hrec);
    [done|simpl in Hl; lia|done|by unfold destroy; cbn; rewrite Hr|].
  exists q'. split_and!; try done.
Qed.

Lemma rep_nil_slots q i : rep q [] → 0 ≤ i < size_ q → slot q i = None.
Proof.
  intros [Hs Hlen Hr _ _ _ _ Hslots] Hi. specialize (Hslots ((i - readIndex_ q) `mod` size_ q)).
  unfold offset in Hslots. rewrite Zplus_mod_idemp_r in Hslots.
  replace (readIndex_ q + (i - readIndex_ q)) with i in Hslots by lia.
  rewrite (Z.mod_small i) in Hslots by lia. rewrite Hslots; [done|]. apply Z.mod_pos_bound. lia.
Qed.

(** No constructed record is left behind. *)
Lemma destructor_destroys q l i :
  rep q l → 0 ≤ i < size_ q → slot (destructor false q) i = None.
Proof.
  intros Hq Hi.
  assert (length l ≤ Z.to_nat (size_ q))%nat
    by (apply rep_bound_capacity in Hq; unfold capacity in Hq; lia).
  destruct (destructor_loop_drains (Z.to_nat (size_ q)) q q l) as (q' & Hq' & Hs & Hrec); try done.
  unfold slot, destructor. rewrite Hrec. apply (rep_nil_slots q'); [done|by rewrite Hs].
Qed.
End destruction.

(** ** Properties *)
Section properties.
Context {A : Type}.
Implicit Types (v : A) (s : @system A) (tr : list (@event A)).

Lemma step_size s e s' : step s e s' → size_ (s_queue s') = size_ (s_queue s).
Proof. by destruct 1. Qed.

Lemma runs_size s tr s' : runs s tr s' → size_ (s_queue s') = size_ (s_queue s).
Proof. induction 1; [done|]. erewrite step_size by done. done. Qed.

(** C5. Whatever the interleaving of the two threads, the records [read]
    returned are the records [write] accepted, in order, none lost or repeated;
    at most [size - 1] are in flight; [write] refuses a record exactly when
    [size - 1] are in flight when it looks, and [read] finds the queue empty
    exactly when none is. *)
Theorem spsc_is_fifo size tr s :
  2 ≤ size < 2 ^ 32 → runs (System (new_queue size) PIdle CIdle) tr s →
  ∃ l, Some <$> accepted tr = delivered tr ++ (Some <$> l) ∧ zlen l ≤ size - 1 ∧
    (∀ v, s_producer s = PIdle → write_check v (s_queue s) = PIdle ↔ zlen l = size - 1) ∧
    (s_consumer s = CIdle → read_check (s_queue s) = CIdle ↔ l = []).
Proof.
  intros Hsize Hruns. apply runs_size in Hruns as Hs. cbn in Hs.
  destruct (runs_fifo _ _ _ Hsize Hruns) as (l & Hrep & Htr). exists l.
  assert (capacity (s_queue s) = size - 1) as <- by (unfold capacity; lia).
  split_and!; [done|by destruct Hrep| |].
  - intros v Hp. rewrite Hp in Hrep. by eapply write_check_spec.
  - intros Hc. rewrite Hc in Hrep. by eapply read_check_spec.
Qed.

(** C38. The two threads never touch the same slot: the slot the producer is
    about to construct is dead and is not the one the consumer is about to move
    out of, and that one holds a constructed record. *)
Theorem spsc_no_slot_race size tr s :
  2 ≤ size < 2 ^ 32 → runs (System (new_queue size) PIdle CIdle) tr s →
  (∀ v i next, s_producer s = PChecked v i next →
     slot (s_queue s) i = None ∧ ∀ j next', s_consumer s = CChecked j next' → i ≠ j) ∧
  (∀ j next, s_consumer s = CChecked j next → is_Some (slot (s_queue s) j)).
Proof.
  intros Hsize Hruns. destruct (runs_fifo _ _ _ Hsize Hruns) as (l & Hrep & _).
  destruct Hrep as [Hs Hlen Hr Hb Hw Hp Hc Hslots]. unfold capacity in *. split.
  - intros v i next E. rewrite E in *. destruct Hp as (-> & _ & ?). unfold capacity in *. split.
    + rewrite Hslots by lia. unfold held. rewrite Nat2Z.id.
      assert (l !! length l = None) as -> by by apply lookup_ge_None_2.
      by repeat case_match.
    + intros j next' E'. rewrite E' in *. destruct Hc as (-> & _ & Hl).
      intros Heq. apply offset_inj in Heq; [|lia..]. destruct l; [done|]. simpl in Heq. lia.
  - intros j next E. rewrite E in *. destruct Hc as (-> & _ & Hl).
    rewrite Hslots by lia. unfold held. destruct l as [|x l]; [done|]. cbn.
    by destruct (s_producer s).
Qed.

(** Run by one thread at a time, the operations are a FIFO of [size - 1]
    records: each is what the same operation does to the list it represents, and
    a refused [write] changes nothing. *)
Theorem spsc_sequential (q : queue A) l v :
  rep q l →
  (if decide (zlen l < capacity q)
   then (write v q).2 = true ∧ rep (write v q).1 (l ++ [v])
   else write v q = (q, false)) ∧
  match l with
  | [] => read q = (q, None)
  | x :: l' => (read q).2 = Some (Some x) ∧ rep (read q).1 l' ∧ rep (popFront q) l'
  end ∧
  frontPtr q = Some <$> head l ∧
  isEmpty q = bool_decide (l = []) ∧ isFull q = bool_decide (zlen l = capacity q) ∧
  (size_ q < 2 ^ 31 → sizeGuess q = zlen l).
Proof.
  intros Hrep. split_and!.
  - case_decide; [by apply write_room|]. apply (write_full _ l); [done|].
    apply rep_bound_capacity in Hrep. lia.
  - destruct l as [|x l]; [by apply read_empty|].
    destruct (read_head _ _ _ Hrep). split_and!; try done. by eapply popFront_head.
  - by apply frontPtr_spec.
  - by apply isEmpty_spec.
  - by apply isFull_spec.
  - intros. by apply sizeGuess_spec.
Qed.
End properties.

(** A full queue of three slots, its second record read. *)
Definition demo_queue : queue Z :=
  (write 4 (write 3 (read (write 2 (write 1 (new_queue 3)).1).1).1).1).1.

Lemma demo_queue_rep : rep demo_queue [2; 3].
Proof.
  pose proof (new_queue_represents (A := Z) 3 ltac:(lia)) as H0.
  apply (write_room _ _ 1) in H0 as [_ H0]; [|done].
  apply (write_room _ _ 2) in H0 as [_ H0]; [|done].
  apply read_head in H0 as [_ H0].
  apply (write_room _ _ 3) in H0 as [_ H0]; [|done].
  unfold demo_queue. by rewrite (write_full _ _ 4 H0).
Qed.

Definition demo_trace : list (@event Z) := [Internal; Internal; Accepted 7; Internal].
Definition demo_system : @system Z :=
  System (Queue 2 [Some 7; None] 0 1) PIdle (CChecked 0 1).

Lemma demo_runs : runs (System (new_queue 2) PIdle CIdle) demo_trace demo_system.
Proof.
  apply (runs_snoc _ [Internal; Internal; Accepted 7] (System (Queue 2 [Some 7; None] 0 1) PIdle CIdle));
    [|by apply (step_read_check (Queue 2 [Some 7; None] 0 1) PIdle)].
  apply (runs_snoc _ [Internal; Internal] (System (Queue 2 [Some 7; None] 0 0) (PConstructed 7 1) CIdle));
    [|by apply step_write_publish].
  apply (runs_snoc _ [Internal] (System (new_queue 2) (PChecked 7 0 1) CIdle));
    [|exact (step_write_construct (new_queue 2) CIdle 7 0 1)].
  apply (runs_snoc _ [] (System (new_queue 2) PIdle CIdle)); [apply runs_nil|].
  by apply (step_write_check (new_queue 2) CIdle 7).
Qed.

Lemma spsc_is_fifo_witness :
  2 ≤ 2 < 2 ^ 32 ∧ ∃ l, Some <$> accepted demo_trace = delivered demo_trace ++ (Some <$> l) ∧
    zlen l ≤ 2 - 1 ∧
    (∀ v, s_producer demo_system = PIdle →
       write_check v (s_queue demo_system) = PIdle ↔ zlen l = 2 - 1) ∧
    (s_consumer demo_system = CIdle → read_check (s_queue demo_system) = CIdle ↔ l = []).
Proof. split; [lia|]. apply (spsc_is_fifo 2); [lia|apply demo_runs]. Defined.

Lemma spsc_no_slot_race_witness :
  (∀ v i next, s_producer demo_system = PChecked v i next →
     slot (s_queue demo_system) i = None ∧
     ∀ j next', s_consumer demo_system = CChecked j next' → i ≠ j) ∧
  (∀ j next, s_consumer demo_system = CChecked j next → is_Some (slot (s_queue demo_system) j)).
Proof. apply (spsc_no_slot_race 2 demo_trace); [lia|apply demo_runs]. Defined.

Lemma spsc_sequential_witness :
  rep demo_queue [2; 3] ∧ (read demo_queue).2 = Some (Some 2) ∧ isFull demo_queue = true.
Proof.
  pose proof (spsc_sequential demo_queue [2; 3] 5 demo_queue_rep) as (_ & (Hr & _) & _ & _ & Hf & _).
  split; [exact demo_queue_rep|]. split; [exact Hr|exact Hf].
Defined.
