(* ===== verification/StorageUtils.v ===== *)
(** * Storage selection: [storage_utils] (src/src/data/storage_utils.cpp, .h)

    Which NVMe disk a run writes to, whether there is room, and where the mirror
    copies a file. The functions only read the environment and the file system:
    [os] is a snapshot of both. *)
From Stdlib Require Import Ascii String Lia NArith.
From stdpp Require Import base tactics list numbers option strings sets.
From S2P Require Import Prelude CppString.
Local Open Scope string_scope.

(** ** What the functions ask the system *)
Record statvfs_info := StatvfsInfo { f_bavail : N; f_frsize : N }.
Record stat_info := StatInfo { st_size : N; st_mtime : Z; st_isreg : bool; st_isdir : bool }.
(** [os_statvfs path k]: the answer to the [k]-th attempt, or errno. *)
Record os := Os {
  os_getenv : string → option string;
  os_statvfs : string → nat → statvfs_info + Z;
  os_access_rwx : string → bool;
  os_access_exists : string → bool;
  os_stat : string → option stat_info
}.
Definition EINTR : Z := 4.

(** ** Constants *)
Definition kDefaultNvmeSsd0 : string := "/write_data_nvme_ssd0".
Definition kDefaultNvmeSsd1 : string := "/write_data_nvme_ssd1".
Definition kDefaultBackupSsd0 : string := "/backup_data_sata_ssd0".
Definition kDefaultBackupSsd1 : string := "/backup_data_sata_ssd1".
Definition kDiskRunStartMinFreeBytes : N := 5 * 1024 * 1024 * 1024.
Definition kDiskFileSwitchMinFreeBytes : N := 3 * 1024 * 1024 * 1024.
Definition kMirrorMinBackupFreeBytes : N := 1 * 1024 * 1024 * 1024.

Definition u64N (n : N) : N := (n mod 2 ^ 64)%N.

Record PickResult := { path : string; free_bytes : N; ok : bool }.
Definition default_pick : PickResult := {| path := ""; free_bytes := 0; ok := false |}.
Record FreeBytesResult := { bytes : option N; statvfs_errno : Z }.

(** ** Small helpers *)
Definition string_empty (s : string) : bool := match s with EmptyString => true | _ => false end.

Definition Basename (p : string) : string :=
  match find_last_of slash p with
  | None => p
  | Some pos => drop_string (pos + 1) p
  end.

Definition EnvFlagTrue (value : option string) (default_value : bool) : bool :=
  match value with
  | None => default_value
  | Some flag =>
      if existsb (String.eqb flag) ["0"; "false"; "FALSE"; "no"; "NO"] then false
      else if existsb (String.eqb flag) ["1"; "true"; "TRUE"; "yes"; "YES"] then true
      else default_value
  end.

Definition is_blank (a : ascii) : bool := Ascii.eqb a " " || Ascii.eqb a "009".
Fixpoint trim_front (s : string) : string :=
  match s with
  | String a s' => if is_blank a then trim_front s' else s
  | EmptyString => EmptyString
  end.
Fixpoint trim_back (s : string) : string :=
  match s with
  | String a s' =>
      let t := trim_back s' in
      if is_blank a && string_empty t then EmptyString else String a t
  | EmptyString => EmptyString
  end.
Definition TrimPath (value : option string) : string :=
  match value with None => "" | Some v => trim_back (trim_front v) end.

Section storage.
Context (o : os).

Definition BackupDirWritable (p : string) : bool :=
  if string_empty p then false else os_access_rwx o p.

Definition GetBackupDirFromEnv (index : nat) : string :=
  let env_name := if (index =? 0)%nat then "DATA_BACKUP0_DIR" else "DATA_BACKUP1_DIR" in
  let default_path := if (index =? 0)%nat then kDefaultBackupSsd0 else kDefaultBackupSsd1 in
  let trimmed := TrimPath (os_getenv o env_name) in
  if string_empty trimmed then default_path else trimmed.

(** The attempts [k], ..., 2; [err] is the errno of the last failed one. *)
Fixpoint query_attempts (attempts k : nat) (err : Z) (p : string) : FreeBytesResult :=
  match attempts with
  | O => {| bytes := None; statvfs_errno := err |}
  | S attempts =>
      match os_statvfs o p k with
      | inl info => {| bytes := Some (u64N (u64N (f_bavail info) * u64N (f_frsize info)));
                       statvfs_errno := err |}
      | inr e => if negb (Z.eqb e EINTR) then {| bytes := None; statvfs_errno := e |}
                 else query_attempts attempts (S k) e p
      end
  end.
Definition QueryFreeBytes (p : string) : FreeBytesResult := query_attempts 3 0 0 p.
Definition GetFreeBytes (p : string) : option N := bytes (QueryFreeBytes p).

Definition PickMaxFreeEnabled : bool := EnvFlagTrue (os_getenv o "DATA_PICK_MAX_FREE") false.

Definition GetNvmeCandidatesFromEnv : list string :=
  let ssd0 := TrimPath (os_getenv o "DATA_SSD0_DIR") in
  let ssd1 := TrimPath (os_getenv o "DATA_SSD1_DIR") in
  [if string_empty ssd0 then kDefaultNvmeSsd0 else ssd0;
   if string_empty ssd1 then kDefaultNvmeSsd1 else ssd1].

Definition PickMaxFree_step (min_free_bytes : N) (best : PickResult) (candidate : string) :=
  match GetFreeBytes candidate with
  | None => best
  | Some free =>
      if string_empty (path best) || (free_bytes best <? free)%N
      then {| path := candidate; free_bytes := free; ok := (min_free_bytes <=? free)%N |}
      else best
  end.
Definition PickMaxFree (candidates : list string) (min_free_bytes : N) : PickResult :=
  foldl (PickMaxFree_step min_free_bytes) default_pick candidates.

Definition PickSsd0First (ssd0 ssd1 : string) (min_free_bytes : N) : PickResult :=
  let enough f := match f with Some f => (min_free_bytes <=? f)%N | None => false end in
  let pick p f ok := {| path := p; free_bytes := f; ok := ok |} in
  let free0 := GetFreeBytes ssd0 in
  if enough free0 then pick ssd0 (default 0%N free0) true
  else
    let free1 := GetFreeBytes ssd1 in
    if enough free1 then pick ssd1 (default 0%N free1) true
    else match free0, free1 with
         | Some f0, Some f1 => if (f0 <? f1)%N then pick ssd1 f1 false else pick ssd0 f0 false
         | Some f0, None => pick ssd0 f0 false
         | None, Some f1 => pick ssd1 f1 false
         | None, None => default_pick
         end.

Definition SelectNvmeDataDir (pick_max_free : bool) (min_free_bytes : N) : PickResult :=
  let candidates := GetNvmeCandidatesFromEnv in
  match candidates with
  | [] => default_pick
  | [_] => PickMaxFree candidates min_free_bytes
  | c0 :: c1 :: _ =>
      if pick_max_free then PickMaxFree candidates min_free_bytes
      else PickSsd0First c0 c1 min_free_bytes
  end.

Definition AllNvmeDisksBelowMinFree (min_free_bytes : N) : bool :=
  forallb (λ c, negb (match GetFreeBytes c with
                      | Some f => (min_free_bytes <=? f)%N
                      | None => false
                      end)) GetNvmeCandidatesFromEnv.

Definition MirrorMaxBytesPerSec : N :=
  match os_getenv o "DATA_MIRROR_MAX_MBYTES_PER_SEC" with
  | None => 150 * 1024 * 1024
  | Some value =>
      match strtoull value with
      | None => 150 * 1024 * 1024
      | Some parsed => u64N (parsed * 1024 * 1024)
      end
  end%N.

(** ** From an NVMe path to a backup path *)
Definition under_root (src_path nvme_root : string) : bool :=
  String.prefix nvme_root src_path &&
  ((String.length src_path =? String.length nvme_root)%nat ||
   match char_at src_path (String.length nvme_root) with
   | Some a => Ascii.eqb a slash
   | None => false
   end).
Definition FindNvmeRootForPath (src_path : string) : string :=
  default "" (snd <$> list_find (λ r, under_root src_path r = true) GetNvmeCandidatesFromEnv).

Definition NvmeIndexForPath (src_path : string) : nat :=
  let nvme_root := FindNvmeRootForPath src_path in
  if string_empty nvme_root then 0
  else default 0 (fst <$> list_find (λ c, c = nvme_root) GetNvmeCandidatesFromEnv).

Definition GetBackupRootForNvmeIndex (nvme_index : nat) : option string :=
  let backup0 := GetBackupDirFromEnv 0 in
  let backup1 := GetBackupDirFromEnv 1 in
  if (nvme_index =? 0)%nat && BackupDirWritable backup0 then Some backup0
  else if (nvme_index =? 1)%nat && BackupDirWritable backup1 then Some backup1
  else if BackupDirWritable backup1 then Some backup1
  else if BackupDirWritable backup0 then Some backup0
  else None.

Definition BackupHasSpaceFor (backup_root : string) (file_size_bytes : N) : bool :=
  if negb (BackupDirWritable backup_root) then false
  else match GetFreeBytes backup_root with
       | None => false
       | Some free => (u64N (kMirrorMinBackupFreeBytes + file_size_bytes) <=? free)%N
       end.

Definition SelectBackupRootForCopy (nvme_index : nat) (file_size_bytes : N) : option string :=
  let backup0 := GetBackupDirFromEnv 0 in
  let backup1 := GetBackupDirFromEnv 1 in
  let primary := if (nvme_index =? 0)%nat then backup0 else backup1 in
  let secondary := if (nvme_index =? 0)%nat then backup1 else backup0 in
  if BackupHasSpaceFor primary file_size_bytes then Some primary
  else if negb (String.eqb primary secondary) && BackupHasSpaceFor secondary file_size_bytes
  then Some secondary else None.

Definition MirrorDestinationPathToRoot (src_path backup_root : string) : string :=
  let nvme_root := FindNvmeRootForPath src_path in
  if string_empty nvme_root || string_empty backup_root then ""
  else
    let rel_path := if (String.length nvme_root <? String.length src_path)%nat
                    then drop_string (String.length nvme_root + 1) src_path else "" in
    let dst := backup_root ++ "/" ++ Basename nvme_root in
    if string_empty rel_path then dst else dst ++ "/" ++ rel_path.

Definition MirrorDestinationPath (src_path : string) : string :=
  let file_size := match os_stat o src_path with
                   | Some i => if st_isreg i then u64N (st_size i) else 0%N
                   | None => 0%N
                   end in
  match SelectBackupRootForCopy (NvmeIndexForPath src_path) file_size with
  | None => ""
  | Some r => MirrorDestinationPathToRoot src_path r
  end.

Definition MirrorDaemonStartRequested : bool := EnvFlagTrue (os_getenv o "DATA_MIRROR_ENABLE") false.
(** The shell commands it runs; what they return is ignored. *)
Definition TryStartMirrorDaemon : list string :=
  if negb MirrorDaemonStartRequested then []
  else ["systemctl start data_mirror.service >/dev/null 2>&1"].
End storage.

Local Close Scope string_scope.

(** ** Lemmas *)
Lemma string_empty_true s : string_empty s = true ↔ s = ""%string.
Proof. by destruct s. Qed.
Lemma string_empty_false s : string_empty s = false ↔ s ≠ ""%string.
Proof. by destruct s. Qed.

Section facts.
Context (o : os).

Lemma candidates_nonempty : Forall (λ c, c ≠ ""%string) (GetNvmeCandidatesFromEnv o).
Proof.
  unfold GetNvmeCandidatesFromEnv.
  repeat constructor; case_match; try done; by apply string_empty_false.
Qed.

Lemma candidates_two : ∃ c0 c1, GetNvmeCandidatesFromEnv o = [c0; c1].
Proof. eexists _, _. reflexivity. Qed.

Definition has_room (m : N) (c : string) : Prop := ∃ f, GetFreeBytes o c = Some f ∧ (m ≤ f)%N.
#[export] Instance has_room_dec m c : Decision (has_room m c).
Proof.
  destruct (GetFreeBytes o c) as [f|] eqn:E.
  - destruct (decide (m ≤ f)%N); [left|right]; unfold has_room; naive_solver.
  - right. unfold has_room. naive_solver.
Defined.

Lemma AllNvmeDisksBelowMinFree_spec m :
  AllNvmeDisksBelowMinFree o m = true ↔ Forall (λ c, ¬ has_room m c) (GetNvmeCandidatesFromEnv o).
Proof.
  unfold AllNvmeDisksBelowMinFree. rewrite <-Is_true_true, forallb_True.
  apply Forall_iff. intros c. rewrite negb_True, Is_true_true. unfold has_room.
  destruct (GetFreeBytes o c) as [f|]; [rewrite N.leb_le|]; naive_solver.
Qed.

(** What the maximum search keeps of the candidates it has seen. *)
Definition best_of (m : N) (seen : list string) (r : PickResult) : Prop :=
  (r = default_pick ∧ Forall (λ c, GetFreeBytes o c = None) seen) ∨
  (∃ pre post, seen = pre ++ path r :: post ∧ path r ≠ ""%string ∧
     GetFreeBytes o (path r) = Some (free_bytes r) ∧ ok r = (m <=? free_bytes r)%N ∧
     Forall (λ c, ∀ f, GetFreeBytes o c = Some f → (f < free_bytes r)%N) pre ∧
     Forall (λ c, ∀ f, GetFreeBytes o c = Some f → (f ≤ free_bytes r)%N) seen).

Lemma PickMaxFree_step_best m seen r c :
  best_of m seen r → c ≠ ""%string → best_of m (seen ++ [c]) (PickMaxFree_step o m r c).
Proof.
  intros Hbest Hc. unfold PickMaxFree_step. destruct (GetFreeBytes o c) as [free|] eqn:Hfree.
  2: { destruct Hbest as [[-> Hnone]|(pre & post & -> & ? & ? & ? & ? & Hall)].
       - left. split; [done|]. apply Forall_app. by rewrite Forall_singleton.
       - right. exists pre, (post ++ [c]). rewrite <-app_assoc. split_and!; try done.
         rewrite app_assoc. apply Forall_app. split; [done|]. apply Forall_singleton. congruence. }
  destruct Hbest as [[-> Hnone]|(pre & post & -> & Hne & Hf & Hok & Hpre & Hall)].
  - right. exists seen, []. cbn. split_and!; try done.
    + eapply Forall_impl; [exact Hnone|cbn]. intros; congruence.
    + apply Forall_app. split; [eapply Forall_impl; [exact Hnone|cbn]; intros; congruence|].
      apply Forall_singleton. naive_solver lia.
  - rewrite (proj2 (string_empty_false _) Hne). cbn.
    destruct (N.ltb_spec (free_bytes r) free) as [Hlt|Hge]; right.
    + exists (pre ++ path r :: post), []. cbn. split_and!; try done.
      * eapply Forall_impl; [exact Hall|cbn]. intros c' H' f Hf'. specialize (H' f Hf'). lia.
      * apply Forall_app. split; [|apply Forall_singleton; naive_solver lia].
        eapply Forall_impl; [exact Hall|cbn]. intros c' H' f Hf'. specialize (H' f Hf'). lia.
    + exists pre, (post ++ [c]). rewrite <-app_assoc. split_and!; try done.
      rewrite app_assoc. apply Forall_app. split; [done|]. apply Forall_singleton. naive_solver lia.
Qed.

Lemma PickMaxFree_best m cs : Forall (λ c, c ≠ ""%string) cs → best_of m cs (PickMaxFree o cs m).
Proof.
  unfold PickMaxFree. induction cs as [|c cs IH] using rev_ind; intros Hne.
  { left. done. }
  apply Forall_app in Hne as [Hne Hc]. rewrite foldl_app. cbn.
  rewrite Forall_singleton in Hc. apply PickMaxFree_step_best; [by apply IH|done].
Qed.

Lemma best_of_ok m seen r :
  best_of m seen r → ok r = true ↔ Exists (has_room m) seen.
Proof.
  rewrite Exists_exists. intros [[-> Hnone]|(pre & post & -> & _ & Hf & -> & _ & Hall)].
  - split; [done|]. intros (c & Hc & f & Hf & _). rewrite Forall_forall in Hnone.
    by rewrite (Hnone _ Hc) in Hf.
  - rewrite N.leb_le, Forall_forall in *. split.
    + intros Hm. exists (path r). split; [set_solver|]. by exists (free_bytes r).
    + intros (c & Hc & f & Hfc & Hm). specialize (Hall _ Hc _ Hfc). lia.
Qed.

Lemma PickSsd0First_spec c0 c1 m :
  let r := PickSsd0First o c0 c1 m in
  (if decide (has_room m c0)
   then path r = c0 ∧ ok r = true ∧ GetFreeBytes o c0 = Some (free_bytes r)
   else if decide (has_room m c1)
   then path r = c1 ∧ ok r = true ∧ GetFreeBytes o c1 = Some (free_bytes r)
   else ok r = false).
Proof.
  assert (∀ c, ¬ has_room m c →
    match GetFreeBytes o c with Some f => (m <=? f)%N | None => false end = false) as Hno.
  { intros c Hc. destruct (GetFreeBytes o c) as [f|] eqn:E; [|done].
    apply N.leb_gt, N.nle_gt. intros ?. apply Hc. by exists f. }
  cbn zeta. unfold PickSsd0First. destruct (decide (has_room m c0)) as [(f & Hf & Hm%N.leb_le)|H0].
  { rewrite Hf, Hm. done. }
  rewrite (Hno _ H0). destruct (decide (has_room m c1)) as [(f & Hf & Hm%N.leb_le)|H1].
  { rewrite Hf, Hm. done. }
  rewrite (Hno _ H1). by repeat case_match.
Qed.

(** Run start: the directory [SelectNvmeDataDir] returns is accepted ([ok])
    exactly when [AllNvmeDisksBelowMinFree] is false, in both modes. An accepted
    directory is one of the two candidates and has the room asked for; it is the
    first with the most free bytes when [pick_max_free], and SSD0 whenever SSD0
    has the room otherwise. *)
Theorem SelectNvmeDataDir_agrees pick_max_free m :
  let r := SelectNvmeDataDir o pick_max_free m in
  ok r = negb (AllNvmeDisksBelowMinFree o m) ∧
  (ok r = true →
   path r ∈ GetNvmeCandidatesFromEnv o ∧
   GetFreeBytes o (path r) = Some (free_bytes r) ∧ (m ≤ free_bytes r)%N ∧
   if pick_max_free
   then ∃ pre post, GetNvmeCandidatesFromEnv o = pre ++ path r :: post ∧
        Forall (λ c, ∀ f, GetFreeBytes o c = Some f → (f < free_bytes r)%N) pre ∧
        Forall (λ c, ∀ f, GetFreeBytes o c = Some f → (f ≤ free_bytes r)%N) post
   else ∀ c0, head (GetNvmeCandidatesFromEnv o) = Some c0 → has_room m c0 → path r = c0).
Proof.
  cbn zeta. assert (AllNvmeDisksBelowMinFree o m = false ↔
    Exists (has_room m) (GetNvmeCandidatesFromEnv o)) as Hall.
  { rewrite <-not_true_iff_false, AllNvmeDisksBelowMinFree_spec, Forall_forall, Exists_exists.
    split; [|naive_solver]. intros H. apply Exists_exists, dec_stable.
    rewrite Exists_exists. naive_solver. }
  pose proof candidates_nonempty as Hne. destruct candidates_two as (c0 & c1 & E).
  unfold SelectNvmeDataDir. rewrite E in *. destruct pick_max_free.
  - pose proof (PickMaxFree_best m [c0; c1] Hne) as Hbest.
    pose proof (best_of_ok _ _ _ Hbest) as Hok.
    generalize dependent (PickMaxFree o [c0; c1] m). intros r Hbest Hok. split.
    + destruct (ok _), (AllNvmeDisksBelowMinFree o m); naive_solver.
    + intros Htrue. destruct Hbest as [[H _]|(pre & post & Heq & _ & Hf & Hm & Hpre & Hpost)];
        [rewrite H in Htrue; done|].
      rewrite Hm in Htrue. apply N.leb_le in Htrue. rewrite Heq in Hpost |- *. split_and!; try done.
      * apply elem_of_app. right. constructor.
      * exists pre, post. split_and!; try done. by apply Forall_app in Hpost as [_ [_ ?]%Forall_cons].
  - pose proof (PickSsd0First_spec c0 c1 m) as Hspec. cbn zeta in Hspec.
    rewrite !Exists_cons, Exists_nil in Hall.
    destruct (decide (has_room m c0)) as [H0|H0]; [|destruct (decide (has_room m c1)) as [H1|H1]].
    + destruct Hspec as (-> & -> & Hf). split; [by rewrite (proj2 Hall ltac:(tauto))|].
      intros _. rewrite Hf. destruct H0 as (f & Hf' & Hm). simplify_eq.
      split_and!; [constructor|congruence|congruence|]. by intros c [= <-].
    + destruct Hspec as (-> & -> & Hf). split; [by rewrite (proj2 Hall ltac:(tauto))|].
      intros _. rewrite Hf. destruct H1 as (f & Hf' & Hm). simplify_eq.
      split_and!; [right; constructor|congruence|congruence|]. by intros c [= <-].
    + rewrite Hspec. split; [|done]. destruct (AllNvmeDisksBelowMinFree o m); naive_solver.
Qed.
End facts.

(** ** Where a file is mirrored *)
Section mirror.
Context (o : os).
Local Open Scope string_scope.

Lemma under_root_spec src r :
  under_root src r = true ↔ src = r ∨ ∃ rel, src = r ++ String slash rel.
Proof.
  unfold under_root. rewrite andb_true_iff, orb_true_iff, Nat.eqb_eq. split.
  - intros [[t ->]%prefix_inv Hlen]. rewrite length_append, char_at_append in Hlen.
    destruct t as [|a t]; [left; apply append_nil_r|]. right. exists t.
    destruct Hlen as [?|Ha%Ascii.eqb_eq]; [simpl in *; lia|]. cbn in Ha. by subst.
  - intros [->|[rel ->]].
    + split; [|by left]. rewrite <-(append_nil_r r) at 2. apply prefix_append.
    + split; [apply prefix_append|]. right. rewrite char_at_append. apply Ascii.eqb_refl.
Qed.

Lemma FindNvmeRootForPath_under src :
  FindNvmeRootForPath o src ≠ "" →
  FindNvmeRootForPath o src ∈ GetNvmeCandidatesFromEnv o ∧
  under_root src (FindNvmeRootForPath o src) = true.
Proof.
  unfold FindNvmeRootForPath. destruct (list_find _ _) as [[i r]|] eqn:E; cbn; [|done].
  apply list_find_Some in E as (Hi & Hr & _). intros _. split; [|done].
  by eapply list_elem_of_lookup_2.
Qed.

Lemma Basename_no_slash p : string_has slash (Basename p) = false.
Proof.
  unfold Basename. destruct (find_last_of slash p) as [i|] eqn:E.
  - apply find_last_of_split in E as (t & u & -> & <- & Hu). rewrite Nat.add_1_r.
    replace (S (String.length t)) with (String.length (t ++ String slash ""))
      by (rewrite length_append; simpl; lia).
    replace (t ++ String slash u) with ((t ++ String slash "") ++ u) by by rewrite append_assoc.
    by rewrite drop_string_append.
  - revert E. induction p as [|a p IH]; simpl; [done|].
    destruct (find_last_of slash p); [done|]. destruct (Ascii.eqb a slash); [done|]. auto.
Qed.

(** A file strictly below the NVMe root it is attributed to. *)
Definition mirrored_file (src rel : string) : Prop :=
  FindNvmeRootForPath o src ≠ "" ∧ rel ≠ "" ∧
  src = FindNvmeRootForPath o src ++ String slash rel.

Lemma MirrorDestination_file src rel backup :
  mirrored_file src rel → backup ≠ "" →
  MirrorDestinationPathToRoot o src backup =
    backup ++ "/" ++ Basename (FindNvmeRootForPath o src) ++ String slash rel.
Proof.
  intros (Hroot & Hrel & Hsrc) Hbackup. unfold MirrorDestinationPathToRoot.
  generalize dependent (FindNvmeRootForPath o src). intros root Hroot Hsrc.
  rewrite (proj2 (string_empty_false _) Hroot), (proj2 (string_empty_false _) Hbackup). cbn [orb].
  assert (String.length src = String.length root + S (String.length rel))%nat as Hlen
    by by rewrite Hsrc, length_append.
  destruct (Nat.ltb_spec (String.length root) (String.length src)); [|lia].
  replace (drop_string (String.length root + 1) src) with rel.
  - rewrite (proj2 (string_empty_false _) Hrel). by rewrite !append_assoc.
  - rewrite Hsrc. replace (root ++ String slash rel) with ((root ++ String slash "") ++ rel)
      by by rewrite append_assoc.
    replace (String.length root + 1)%nat with (String.length (root ++ String slash ""))
      by (rewrite length_append; done).
    by rewrite drop_string_append.
Qed.

(** Under one backup root two different files of the NVMe disks never share
    a mirror copy, as long as the disks' mount points have different base names:
    the copy is [backup/<base name of the disk>/<path below the disk>]. *)
Theorem MirrorDestinationPathToRoot_injective backup src1 rel1 src2 rel2 :
  backup ≠ "" → NoDup (Basename <$> GetNvmeCandidatesFromEnv o) →
  mirrored_file src1 rel1 → mirrored_file src2 rel2 →
  MirrorDestinationPathToRoot o src1 backup =
    backup ++ "/" ++ Basename (FindNvmeRootForPath o src1) ++ String slash rel1 ∧
  (MirrorDestinationPathToRoot o src1 backup = MirrorDestinationPathToRoot o src2 backup →
   src1 = src2).
Proof.
  intros Hbackup Hnodup H1 H2. split; [by apply MirrorDestination_file|].
  rewrite (MirrorDestination_file _ _ _ H1 Hbackup), (MirrorDestination_file _ _ _ H2 Hbackup).
  intros E%append_inj_l%(append_inj_l "/").
  apply append_cut_inj in E as [Ebase ->]; [|apply Basename_no_slash..].
  destruct H1 as (Hr1 & _ & ->), H2 as (Hr2 & _ & ->).
  apply FindNvmeRootForPath_under in Hr1 as [Hin1 _], Hr2 as [Hin2 _].
  apply list_elem_of_lookup_1 in Hin1 as [i Hi], Hin2 as [j Hj].
  assert (i = j) as ->; [|congruence].
  eapply NoDup_lookup; [exact Hnodup|by rewrite list_lookup_fmap, Hi|].
  by rewrite list_lookup_fmap, Hj, Ebase.
Qed.

(** A copy goes to the backup disk of the file's NVMe disk, and to the other
    one only when that one cannot take it; the disk chosen is writable and keeps
    1 GiB free after the copy; no disk is chosen exactly when neither can. *)
Theorem SelectBackupRootForCopy_spec nvme_index size :
  (kMirrorMinBackupFreeBytes + size < 2 ^ 64)%N →
  let fits b := b ≠ "" ∧ os_access_rwx o b = true ∧
                ∃ f, GetFreeBytes o b = Some f ∧ (kMirrorMinBackupFreeBytes + size ≤ f)%N in
  let primary := GetBackupDirFromEnv o (if decide (nvme_index = 0%nat) then 0 else 1) in
  let secondary := GetBackupDirFromEnv o (if decide (nvme_index = 0%nat) then 1 else 0) in
  match SelectBackupRootForCopy o nvme_index size with
  | Some b => fits b ∧ (b = primary ∨ b = secondary ∧ ¬ fits primary)
  | None => ¬ fits primary ∧ ¬ fits secondary
  end.
Proof.
  intros Hsize fits primary secondary.
  assert (∀ b, BackupHasSpaceFor o b size = true ↔ fits b) as Hfits.
  { intros b. unfold BackupHasSpaceFor, BackupDirWritable, fits, u64N.
    rewrite N.mod_small by done.
    destruct b as [|a b]; [naive_solver|]. cbn [string_empty]. destruct (os_access_rwx o _); cbn;
      [|naive_solver].
    destruct (GetFreeBytes o _); [rewrite N.leb_le|]; naive_solver. }
  assert (SelectBackupRootForCopy o nvme_index size =
    (if BackupHasSpaceFor o primary size then Some primary
     else if negb (String.eqb primary secondary) && BackupHasSpaceFor o secondary size
     then Some secondary else None)) as ->.
  { unfold SelectBackupRootForCopy, primary, secondary.
    by destruct (Nat.eqb_spec nvme_index 0), (decide (nvme_index = 0%nat)). }
  pose proof (Hfits primary) as Hp. pose proof (Hfits secondary) as Hs.
  clearbody fits primary secondary.
  destruct (BackupHasSpaceFor o primary size) eqn:Ep; [naive_solver|].
  destruct (String.eqb_spec primary secondary) as [->|]; cbn; [naive_solver|].
  destruct (BackupHasSpaceFor o secondary size); naive_solver.
Qed.

(** The rate limit asked for in MiB/s is honoured below [2^44]; there it wraps,
    [2^44] itself giving 0, which means unlimited. *)
Lemma MirrorMaxBytesPerSec_decimal n :
  os_getenv o "DATA_MIRROR_MAX_MBYTES_PER_SEC" = Some (to_string n) → (n < 2 ^ 64)%N →
  MirrorMaxBytesPerSec o = ((n * 2 ^ 20) mod 2 ^ 64)%N.
Proof.
  intros E Hn. unfold MirrorMaxBytesPerSec. rewrite E, strtoull_to_string by done.
  unfold u64N. f_equal. lia.
Qed.
End mirror.

(** ** A pick with room *)
(** A pick is accepted when some candidate has room, and is one that has. *)
Definition good_pick (o : os) (m : N) (r : PickResult) : Prop :=
  (ok r = true ↔ Exists (has_room o m) (GetNvmeCandidatesFromEnv o)) ∧
  (ok r = true → path r ∈ GetNvmeCandidatesFromEnv o ∧ has_room o m (path r)).

Lemma pick_max_good o m : good_pick o m (SelectNvmeDataDir o true m).
Proof.
  pose proof (candidates_nonempty o) as Hne. destruct (candidates_two o) as (c0 & c1 & E).
  unfold good_pick, SelectNvmeDataDir. rewrite E in *.
  pose proof (PickMaxFree_best o m _ Hne) as Hbest. pose proof (best_of_ok _ _ _ _ Hbest) as Hok.
  revert Hbest Hok. generalize (PickMaxFree o [c0; c1] m). intros r Hbest Hok.
  split; [exact Hok|]. intros Htrue.
  destruct Hbest as [[H' _]|(pre & post & Heq & _ & Hf & Hm & _)]; [by rewrite H' in Htrue|].
  rewrite Hm in Htrue. apply N.leb_le in Htrue. rewrite Heq. split; [|eexists; by split].
  apply elem_of_app. right. by left.
Qed.

Lemma pick_ssd0_good o m c0 c1 :
  GetNvmeCandidatesFromEnv o = [c0; c1] → good_pick o m (PickSsd0First o c0 c1 m).
Proof.
  intros E. unfold good_pick. rewrite E, !Exists_cons, Exists_nil.
  pose proof (PickSsd0First_spec o c0 c1 m) as Hs. cbn zeta in Hs.
  destruct (decide (has_room o m c0)) as [Hr|H0]; [|destruct (decide (has_room o m c1)) as [Hr|H1]].
  - destruct Hs as (-> & -> & _). split; [tauto|]. intros _. split; [by left|done].
  - destruct Hs as (-> & -> & _). split; [tauto|]. intros _. split; [by right; left|done].
  - rewrite Hs. split; [|done]. split; [done|tauto].
Qed.

Lemma select_good o b m : good_pick o m (SelectNvmeDataDir o b m).
Proof.
  destruct b; [apply pick_max_good|]. destruct (candidates_two o) as (c0 & c1 & E).
  pose proof (pick_ssd0_good o m c0 c1 E) as H. revert H. unfold good_pick, SelectNvmeDataDir. by rewrite E.
Qed.

(** A machine: SSD0 nearly full, SSD1 with 9 GiB, one backup disk. *)
Definition demo_os : os := {|
  os_getenv v := if String.eqb v "DATA_SSD1_DIR" then Some " /mnt/ssd1"%string else None;
  os_statvfs p k :=
    if String.eqb p "/write_data_nvme_ssd0" then inl (StatvfsInfo 1000 4096)
    else if String.eqb p "/mnt/ssd1"
         then (if decide (k = 0) then inr EINTR else inl (StatvfsInfo (9 * 2 ^ 18) 4096))
    else if String.eqb p kDefaultBackupSsd1 then inl (StatvfsInfo (2 ^ 20) 4096)
    else inr 2%Z;
  os_access_rwx p := String.eqb p kDefaultBackupSsd1;
  os_access_exists p := true;
  os_stat p := None
|}.

Example demo_select :
  SelectNvmeDataDir demo_os false kDiskRunStartMinFreeBytes =
    {| path := "/mnt/ssd1"; free_bytes := 9 * 1024 * 1024 * 1024; ok := true |}.
Proof. vm_compute. reflexivity. Qed.

Definition demo_src : string := "/mnt/ssd1/readout_data/pGRAMS_bin_7_0.dat".
Definition demo_rel : string := "readout_data/pGRAMS_bin_7_0.dat".

Lemma MirrorDestinationPathToRoot_injective_witness :
  MirrorDestinationPathToRoot demo_os demo_src "/b" =
    "/b/ssd1/readout_data/pGRAMS_bin_7_0.dat"%string ∧
  (MirrorDestinationPathToRoot demo_os demo_src "/b" =
   MirrorDestinationPathToRoot demo_os demo_src "/b" → demo_src = demo_src).
Proof.
  apply (MirrorDestinationPathToRoot_injective demo_os "/b" demo_src demo_rel demo_src demo_rel);
    [done|by apply (bool_decide_unpack (NoDup _))| |]; split_and!; try done; vm_compute; done.
Defined.

Lemma SelectBackupRootForCopy_spec_witness :
  let b := kDefaultBackupSsd1 in
  (kMirrorMinBackupFreeBytes + 1000 < 2 ^ 64)%N ∧
  (b ≠ ""%string ∧ os_access_rwx demo_os b = true ∧
   ∃ f, GetFreeBytes demo_os b = Some f ∧ (kMirrorMinBackupFreeBytes + 1000 ≤ f)%N).
Proof.
  assert (kMirrorMinBackupFreeBytes + 1000 < 2 ^ 64)%N as H by (vm_compute; reflexivity).
  split; [exact H|].
  exact (proj1 (SelectBackupRootForCopy_spec demo_os 0 1000 H)).
Defined.
