(* ===== verification/Threads.v ===== *)
(** * Triples for a thread that runs against others, and fair schedules

    A thread's shared reads are numbered by a clock in its state. [ends c P Q]: from
    any state in [P], [c] returns without throwing, the clock not going back, in a
    state that is [Q] of its result. [turns]: several threads move one at a time;
    [rounds]: a schedule in which each agent has a turn in each of [n] rounds. *)
From Stdlib Require Import Lia.
From stdpp Require Import base tactics list numbers option.
From S2P Require Import Prelude.

Section ends.
Context {S : Type} {tick : S → nat}.
Implicit Types P : S → Prop.

Definition ends {A} (c : st_err S A) P (Q : A → S → Prop) : Prop :=
  ∀ s, P s → ∃ s' a, c s = (s', Some a) ∧ tick s ≤ tick s' ∧ Q a s'.

Lemma ends_bind {A B} (c : st_err S A) (k : A → st_err S B) P Q R :
  ends c P Q → (∀ a, ends (k a) (Q a) R) → ends (st_bind c k) P R.
Proof.
  intros Hc Hk s Hs. destruct (Hc s Hs) as (s1 & a & Heq & Ht & HQ).
  destruct (Hk a s1 HQ) as (s2 & b & Heq2 & Ht2 & HR).
  exists s2, b. unfold st_bind. rewrite Heq. split; [done|]. split; [lia|done].
Qed.
Lemma ends_weaken {A} (c : st_err S A) P P' (Q Q' : A → S → Prop) :
  ends c P Q → (∀ s, P' s → P s) → (∀ a s, Q a s → Q' a s) → ends c P' Q'.
Proof.
  intros Hc HP HQ s Hs. destruct (Hc s (HP s Hs)) as (s' & a & ? & ? & ?). exists s', a. eauto.
Qed.
Lemma ends_ret {A} (a : A) (Q : A → S → Prop) : ends (st_ret a) (Q a) Q.
Proof. intros s Hs. by exists s, a. Qed.
Lemma ends_pure {A} (a : A) P : ends (st_ret a) P (λ _, P).
Proof. intros s Hs. by exists s, a. Qed.
Lemma ends_at {A} (c : st_err S A) P (Q : A → S → Prop) :
  (∀ s, P s → ends c (λ s', s' = s) Q) → ends c P Q.
Proof. intros Hc s Hs. by apply (Hc s Hs). Qed.
End ends.
Arguments ends {S} tick {A} c P Q.

(** ** Threads that take turns *)
Section turns.
Context {S T : Type} (next : T → S → option S).

(** One that cannot move lets its turn pass. *)
Definition turn (t : T) (s : S) : S := default s (next t s).
Definition turns (l : list T) (s : S) : S := foldl (λ s t, turn t s) s l.
(** An agent is the set of the turns that count as its own. *)
Inductive rounds (agents : list (T → Prop)) : nat → list T → Prop :=
  | rounds_0 : rounds agents 0 []
  | rounds_S n l l' : Forall (λ P, Exists P l) agents → rounds agents n l' → rounds agents (1 + n) (l ++ l').

Lemma turns_app l l' s : turns (l ++ l') s = turns l' (turns l s).
Proof. apply foldl_app. Qed.
Lemma turns_preserve (good : T → Prop) (inv : S → Prop) l s :
  (∀ t s, good t → inv s → inv (turn t s)) → Forall good l → inv s → inv (turns l s).
Proof.
  intros Hinv. revert s. induction l as [|t l IH]; intros s Hl Hs; [done|].
  apply Forall_cons_1 in Hl as [Ht Hl]. apply IH; [done|]. by apply Hinv.
Qed.
Lemma rounds_concat agents l n : Forall (λ P, Exists P l) agents → rounds agents n (concat (replicate n l)).
Proof. intros Hl. induction n as [|n IH]; [constructor|]. by apply (rounds_S _ n). Qed.

(** A good turn lowers the rank or keeps it, and then keeps the key as well; of the states of
    one key, one agent lowers the rank. *)
Section ranked.
Context {K : Type} (agents : list (T → Prop)) (good : T → Prop) (inv : S → Prop) (rank : S → nat) (key : S → K)
  (Hgood : ∀ t s, good t → inv s →
     inv (turn t s) ∧ ((rank (turn t s) = rank s ∧ key (turn t s) = key s) ∨ rank (turn t s) < rank s))
  (Hagents : ∀ s, inv s → 0 < rank s →
     Exists (λ P : T → Prop, ∀ t s', inv s' → key s' = key s → P t → good t → rank (turn t s') < rank s') agents).

Lemma turns_rank l s : Forall good l → inv s → inv (turns l s) ∧ rank (turns l s) ≤ rank s.
Proof.
  revert s. induction l as [|t l IH]; intros s Hl Hs; [done|]. apply Forall_cons_1 in Hl as [Ht Hl].
  change (turns (t :: l) s) with (turns l (turn t s)).
  destruct (Hgood t s Ht Hs) as [Hs' Hr]. destruct (IH _ Hl Hs') as [Hs'' Hr']. split; [done|lia].
Qed.
(** An agent that can lower the rank has a turn; until then the key may only stay. *)
Lemma round_rank l s :
  Forall good l → Forall (λ P, Exists P l) agents → inv s → 0 < rank s → rank (turns l s) < rank s.
Proof.
  intros Hl Hround Hs Hpos. destruct (proj1 (Exists_exists _ _) (Hagents s Hs Hpos)) as (P & HP & Hmove).
  pose proof (proj1 (Forall_forall _ _) Hround P HP) as Hin. clear Hround.
  assert (∃ k, key s = k) as [k Hk] by eauto. setoid_rewrite Hk in Hmove.
  revert s Hs Hpos Hk. induction Hin as [t l Ht|t l Hin IH]; intros s Hs Hpos Hk;
    apply Forall_cons_1 in Hl as [Hgt Hl]; change (turns (t :: l) s) with (turns l (turn t s)).
  - destruct (Hgood t s Hgt Hs) as [Hs' _]. pose proof (turns_rank l _ Hl Hs') as [_ Hle].
    specialize (Hmove t s Hs Hk Ht Hgt). lia.
  - destruct (Hgood t s Hgt Hs) as [Hs' [[E Hk']|Hr]].
    + rewrite <-E. apply IH; [done|done|lia|congruence].
    + pose proof (turns_rank l _ Hl Hs') as [_ Hle]. lia.
Qed.
Lemma rounds_rank n l s :
  rounds agents n l → Forall good l → inv s → rank s ≤ n → inv (turns l s) ∧ rank (turns l s) = 0.
Proof.
  intros Hr. revert s. induction Hr as [|n l l' Hround Hr IH]; intros s Hall Hs Hle; [split; [done|cbn; lia]|].
  apply Forall_app in Hall as [Hl Hl']. rewrite turns_app. pose proof (turns_rank l s Hl Hs) as [Hs' Hle'].
  apply IH; [done|done|]. destruct (decide (rank s = 0)); [lia|].
  pose proof (round_rank l s Hl Hround Hs). lia.
Qed.
End ranked.
End turns.
