(* ===== verification/Config.v ===== *)
(** * What the code reads from its configuration

    The configuration is a JSON object of the vendored [nlohmann::json]. The
    code only reads [config[section][key].get<T>()], which throws when the key
    is absent or has another type, and [contains]. A reader answers these;
    [None] is the exception. *)
From stdpp Require Import base option strings.
From Stdlib Require Import QArith.
From S2P Require Import Prelude.

Record config := Config {
  cfg_size : string → string → option N;            (** get<size_t>() *)
  cfg_int : string → string → option Z;             (** get<int>() *)
  cfg_uint32 : string → string → option Z;          (** get<uint32_t>() *)
  cfg_bool : string → string → option bool;         (** get<bool>() *)
  cfg_string : string → string → option string;     (** get<std::string>() *)
  cfg_double : string → string → option Q;          (** get<double>() *)
  cfg_list : string → string → option (list Z);     (** get<std::vector<...>>() *)
  cfg_contains : string → string → bool             (** contains(key) *)
}.

(** A reader with every key, for evaluating the code on concrete input. *)
Definition demo_config (size : N) (int : Z) (str : string) : config := {|
  cfg_size _ _ := Some size; cfg_int _ _ := Some int; cfg_uint32 _ _ := Some int;
  cfg_bool _ _ := Some true; cfg_string _ _ := Some str; cfg_double _ _ := Some (2 # 1)%Q;
  cfg_list _ _ := Some [int]; cfg_contains _ _ := true
|}.

(** The error bits of [TpcReadoutMonitor::ErrorBits], declared in a submodule. *)
Class ErrorBits := {
  bit_dma_timeout : N;
  bit_free_dma_buffer_error : N;
  bit_switch_file_close_error : N;
  bit_switch_file_open_error : N;
  bit_send_pulse_train_error : N;
  bit_failed_write : N;
  bit_failed_locking_dma_buffers : N;
  bit_trigger_file_open_error : N;
  bit_pps_file_open_error : N;
  bit_disk_full : N;
  bit_disk_failover : N;
  err_datahandler_get_config : N;
  err_acquire_pcie_dma_buff : N;
  err_xmit_get_config : N;
  err_lightfem_get_config : N;
  err_chargefem_get_config : N;
  err_trigger_get_config : N
}.

(** A numbering, for evaluating the code on concrete input. *)
#[export] Instance demo_error_bits : ErrorBits := {|
  bit_dma_timeout := 0; bit_free_dma_buffer_error := 1; bit_switch_file_close_error := 2;
  bit_switch_file_open_error := 3; bit_send_pulse_train_error := 4; bit_failed_write := 5;
  bit_failed_locking_dma_buffers := 6; bit_trigger_file_open_error := 7;
  bit_pps_file_open_error := 8; bit_disk_full := 9; bit_disk_failover := 10;
  err_datahandler_get_config := 11; err_acquire_pcie_dma_buff := 12; err_xmit_get_config := 13;
  err_lightfem_get_config := 14; err_chargefem_get_config := 15; err_trigger_get_config := 16
|}%N.
