(* ===== verification/Json.v ===== *)
(** * Configuration documents

    The JSON objects of the vendored [nlohmann::json] as the controller handles
    them: sections of named values. [operator[]] creates what is missing,
    [get<T>] converts numbers as [static_cast] does and throws for anything else,
    and [update] replaces whole sections. [reader] is the document as the
    hardware and data-handler classes read it. *)
From Stdlib Require Import Lia ZArith QArith Qround String.
From stdpp Require Import base tactics list numbers option strings gmap.
From S2P Require Import Prelude Config.
Local Open Scope Z_scope.

Inductive jvalue :=
  | JNull
  | JBool (b : bool)
  | JInt (z : Z)
  | JFloat (q : Q)
  | JString (s : string)
  | JArray (l : list jvalue).

(** An object of objects; sections that are not objects are not represented. *)
Abbreviation document := (gmap string (gmap string jvalue)).
Implicit Types (d : document) (s k : string) (v : jvalue).

(** [d[s][k]], and [d[s][k] = v]. *)
Definition doc_get d s k : jvalue := default JNull (d !! s ≫= λ m, m !! k).
Definition doc_set s k v d : document := <[s := <[k := v]> (default ∅ (d !! s))]> d.
Definition doc_contains d s k : bool := bool_decide (is_Some (d !! s ≫= λ m, m !! k)).
(** [d.update(e)]. *)
Definition doc_update d (e : document) : document := e ∪ d.

(** Assignments in a row, and the last one made to a key. *)
Definition doc_sets (l : list (string * string * jvalue)) d : document :=
  foldl (λ d '(s, k, v), doc_set s k v d) d l.
Definition last_set (l : list (string * string * jvalue)) s k : option jvalue :=
  foldl (λ o '(s', k', v), if decide (s' = s ∧ k' = k) then Some v else o) None l.

(** ** [get<T>] *)
Definition trunc (q : Q) : Z := if Qle_bool 0 q then Qfloor q else - Qfloor (- q).
Definition get_arith v : option Z :=
  match v with
  | JInt z => Some z
  | JFloat q => Some (trunc q)
  | JBool b => Some (Z.b2z b)
  | _ => None
  end.
Definition get_int v : option Z := i32 <$> get_arith v.
Definition get_uint32 v : option Z := u32 <$> get_arith v.
Definition get_size v : option N := (λ z, Z.to_N (u64 z)) <$> get_arith v.
Definition get_bool v : option bool := match v with JBool b => Some b | _ => None end.
Definition get_string v : option string := match v with JString s => Some s | _ => None end.
Definition get_double v : option Q :=
  match v with
  | JFloat q => Some q
  | JInt z => Some (inject_Z z)
  | JBool b => Some (inject_Z (Z.b2z b))
  | _ => None
  end.
Definition get_list (conv : jvalue → option Z) v : option (list Z) :=
  match v with JArray l => mapM conv l | _ => None end.

(** The trigger's list is read as [std::vector<uint32_t>], the others as
    [std::vector<int>]. *)
Definition reader d : config := {|
  cfg_size s k := get_size (doc_get d s k);
  cfg_int s k := get_int (doc_get d s k);
  cfg_uint32 s k := get_uint32 (doc_get d s k);
  cfg_bool s k := get_bool (doc_get d s k);
  cfg_string s k := get_string (doc_get d s k);
  cfg_double s k := get_double (doc_get d s k);
  cfg_list s k := get_list (if String.eqb s "trigger" then get_uint32 else get_int) (doc_get d s k);
  cfg_contains s k := doc_contains d s k
|}.

(** ** Reading back what was stored *)
Lemma doc_get_set d s k v : doc_get (doc_set s k v d) s k = v.
Proof.
  unfold doc_get, doc_set. rewrite lookup_insert_eq.
  change (default JNull (<[k := v]> (default ∅ (d !! s)) !! k) = v). by rewrite lookup_insert_eq.
Qed.

Lemma doc_get_set_ne d s k v s' k' :
  s ≠ s' ∨ k ≠ k' → doc_get (doc_set s k v d) s' k' = doc_get d s' k'.
Proof.
  intros Hne. unfold doc_get, doc_set. destruct (decide (s = s')) as [<-|Hs].
  - rewrite lookup_insert_eq.
    change (default JNull (<[k := v]> (default ∅ (d !! s)) !! k') = default JNull (d !! s ≫= λ m, m !! k')).
    rewrite lookup_insert_ne by naive_solver. by destruct (d !! s).
  - by rewrite lookup_insert_ne.
Qed.

Lemma doc_sets_app l1 l2 d : doc_sets (l1 ++ l2) d = doc_sets l2 (doc_sets l1 d).
Proof. apply foldl_app. Qed.
Lemma doc_sets_one d s k v : doc_sets [(s, k, v)] d = doc_set s k v d.
Proof. done. Qed.
Lemma doc_get_sets l d s k : doc_get (doc_sets l d) s k = default (doc_get d s k) (last_set l s k).
Proof.
  unfold doc_sets, last_set. induction l as [|[[s' k'] v] l IH] using rev_ind; [done|].
  rewrite !foldl_app. cbn. case_decide as E; [destruct E as [-> ->]; apply doc_get_set|].
  rewrite doc_get_set_ne; [exact IH|]. destruct (decide (s' = s)); naive_solver.
Qed.

(** A section of the second document hides the first's. *)
Lemma doc_get_update d e s k :
  doc_get (doc_update d e) s k = if decide (is_Some (e !! s)) then doc_get e s k else doc_get d s k.
Proof.
  unfold doc_get, doc_update. case_decide as Hs.
  - destruct Hs as [m Hm]. by rewrite (lookup_union_Some_l _ _ _ _ Hm), Hm.
  - rewrite lookup_union_r; [done|]. by destruct (e !! s) eqn:E; [destruct Hs|].
Qed.

Lemma u32_range z : 0 ≤ u32 z < 2 ^ 32.
Proof. by apply Z.mod_pos_bound. Qed.
Lemma u32_small z : 0 ≤ z < 2 ^ 32 → u32 z = z.
Proof. intros ?. unfold u32. by apply Z.mod_small. Qed.
Lemma i32_small z : 0 ≤ z < 2 ^ 31 → i32 z = z.
Proof. intros ?. unfold i32. rewrite u32_small by lia. cbv zeta. case_decide; lia. Qed.
Lemma get_int_small z : 0 ≤ z < 2 ^ 31 → get_int (JInt z) = Some z.
Proof. intros ?. cbn. by rewrite i32_small. Qed.
Lemma get_list_map conv (l : list Z) (f : Z → Z) :
  (∀ z, z ∈ l → conv (JInt z) = Some (f z)) → get_list conv (JArray (JInt <$> l)) = Some (f <$> l).
Proof.
  intros Hconv. cbn. induction l as [|z l IH]; [done|]. cbn.
  rewrite (Hconv z), IH by set_solver. done.
Qed.
