(* ===== verification/DataHandler.v ===== *)
(** * The data handler's files and flags: [DataHandler]
    (src/src/data/data_handler.cpp, data_handler.h)

    The object's fields, the file names, the disk selection while a run lasts,
    [Configure], [Reset] and [GetMetrics]. The calls to the system are recorded
    in a trace and answered by [kernel], whose answers depend on what was called
    before. The last part implements [WriterEnv], so the write thread's theorems
    hold of this disk. *)
From Stdlib Require Import Ascii String Lia NArith QArith Qround.
From stdpp Require Import base tactics list numbers option strings gmap.
From S2P Require Import Prelude CppString Config StorageUtils SpscQueue EventBuilder.
Local Open Scope nat_scope.
Local Open Scope string_scope.

(** ** System calls and their answers *)
Inductive syscall :=
  | SysOpenTrunc (name : string)          (** open(O_WRONLY|O_CREAT|O_TRUNC) *)
  | SysWrite (fd : Z) (words : list Z)
  | SysFsync (fd : Z)
  | SysClose (fd : Z)
  | SysMkdir (dir : string)
  | SysAppendLine (file : string) (line : string).

Record kernel := Kernel {
  sys_os : list syscall → os;
  sys_open : list syscall → string → Z + Z;          (** fd, or errno *)
  sys_write : list syscall → Z → N → N + Z;          (** bytes written, or errno *)
  sys_close_ok : list syscall → Z → bool;
  sys_append_ok : list syscall → string → bool
}.
Definition ENOSPC : Z := 28.

(** ** The object *)
Record handler := Handler {
  data_basedir : string;
  write_file_name : string;
  data_nvme_paths : list string;
  active_nvme_index : nat;
  file_count : N;
  run_number : N;
  trigger_segment_file_num : N;
  fd : Z;
  is_running : bool;
  stop_write : bool;
  disk_full : bool;
  disk_failover : bool;
  disk_stop_requested : bool;
  disk_switch_requested : bool;
  dma_timeout : bool;
  free_dma_buffer_error : bool;
  switch_file_close_error : bool;
  switch_file_open_error : bool;
  send_pulse_train_error : bool;
  failed_write : bool;
  failed_locking_dma_buffers : bool;
  trigger_file_open_error : bool;
  pps_file_open_error : bool;
  m_event_count : N;
  dma_loop_count : N;
  m_num_recv_mB : N;
  m_event_chunk_words : N;
  num_rw_buffer_overflow : N;
  m_event_start_markers : N;
  m_event_end_markers : N;
  pps_count : N;
  prev_event_count : N;
  prev_dma_loop_count : N;
  run_error_bit : N;
  num_dma_loops : N;
  m_num_recv_bytes : N;
  DMABUFFSIZE : N;
  dma_abort_wait_ms : N;
  trigger_module : Z;
  software_trigger_rate : Z;
  num_events : N;
  software_trig : bool;
  ext_trig : bool;
  pps_sample_period : Z;
  read_core_id : N;
  write_core_id : N;
  drift_size : N;
  data_queue : queue (list Z);
  trace : list syscall
}.
#[export] Instance handler_eta : RecordEta handler := λ h,
  Handler (data_basedir h) (write_file_name h) (data_nvme_paths h) (active_nvme_index h)
    (file_count h) (run_number h) (trigger_segment_file_num h) (fd h) (is_running h)
    (stop_write h) (disk_full h) (disk_failover h) (disk_stop_requested h)
    (disk_switch_requested h) (dma_timeout h) (free_dma_buffer_error h)
    (switch_file_close_error h) (switch_file_open_error h) (send_pulse_train_error h)
    (failed_write h) (failed_locking_dma_buffers h) (trigger_file_open_error h)
    (pps_file_open_error h) (m_event_count h) (dma_loop_count h) (m_num_recv_mB h)
    (m_event_chunk_words h) (num_rw_buffer_overflow h) (m_event_start_markers h)
    (m_event_end_markers h) (pps_count h) (prev_event_count h) (prev_dma_loop_count h)
    (run_error_bit h) (num_dma_loops h) (m_num_recv_bytes h) (DMABUFFSIZE h)
    (dma_abort_wait_ms h) (trigger_module h) (software_trigger_rate h) (num_events h)
    (software_trig h) (ext_trig h) (pps_sample_period h) (read_core_id h) (write_core_id h)
    (drift_size h) (data_queue h) (trace h).

Definition call (c : syscall) (h : handler) : handler := h <| trace ::= λ t, (t ++ [c])%list |>.

(** ** File names *)
Definition readout_prefix (basedir : string) (run : N) : string :=
  basedir ++ "/readout_data/pGRAMS_bin_" ++ to_string run ++ "_".
Definition data_file_name (h : handler) : string :=
  write_file_name h ++ to_string (file_count h) ++ ".dat".
Definition BuildTriggerRawFileName (h : handler) (basedir : string) (segment_file_num : N) : string :=
  let name := basedir ++ "/trigger_data/trigger_raw_" ++ to_string (run_number h) in
  let name := if (0 <? segment_file_num)%N then name ++ "_" ++ to_string segment_file_num else name in
  name ++ ".bin".
Definition BuildPpsFileName (h : handler) (basedir : string) (segment_file_num : N) : string :=
  let name := basedir ++ "/pps_data/pps_data_" ++ to_string (run_number h) in
  let name := if (0 <? segment_file_num)%N then name ++ "_" ++ to_string segment_file_num else name in
  name ++ ".bin".

Section handler.
Context (sys : kernel).
Implicit Types h : handler.

Definition os_now h : os := sys_os sys (trace h).

Definition InitNvmePathsFromEnv h : handler :=
  let paths := GetNvmeCandidatesFromEnv (os_now h) in
  h <| data_nvme_paths := paths |>
    <| active_nvme_index := default 0 (fst <$> list_find (λ p, p = data_basedir h) paths) |>.

(** The time stamp that opens the line is left out. *)
Definition AppendStorageSegmentLog (reason : string) h : handler :=
  let log_dir := data_basedir h ++ "/config_logs" in
  let h := call (SysMkdir log_dir) h in
  let log_path := log_dir ++ "/run_" ++ to_string (run_number h) ++ "_storage.log" in
  if sys_append_ok sys (trace h) log_path
  then call (SysAppendLine log_path
         (" reason=" ++ reason ++ " basedir=" ++ data_basedir h ++
          " file_count=" ++ to_string (file_count h) ++
          " event_count=" ++ to_string (m_event_count h) ++
          " trigger_file=" ++
          BuildTriggerRawFileName h (data_basedir h) (trigger_segment_file_num h))) h
  else h.

Definition RequestDiskStop h : handler :=
  h <| disk_full := true |> <| disk_stop_requested := true |>
    <| is_running := false |> <| stop_write := true |>.

(** The switch itself, once the other disk is accepted. *)
Definition switch_disk (alt_index : nat) (alt_path : string) h : handler :=
  let h := h <| active_nvme_index := alt_index |> <| data_basedir := alt_path |>
             <| write_file_name := readout_prefix alt_path (run_number h) |> in
  let h := h <| trigger_segment_file_num := (file_count h + 1)%N |>
             <| disk_failover := true |> <| disk_switch_requested := true |> in
  AppendStorageSegmentLog "failover" h.

Definition MaybeSwitchDataDisk h : handler * bool :=
  if (length (data_nvme_paths h) <? 2)%nat then (h, false)
  else
    let o := os_now h in
    if match GetFreeBytes o (data_basedir h) with
       | Some free => (kDiskFileSwitchMinFreeBytes <=? free)%N
       | None => false
       end
    then (h, false)
    else
      let alt_index := if (active_nvme_index h =? 0)%nat then 1 else 0 in
      let alt_path := nth alt_index (data_nvme_paths h) "" in
      match bytes (QueryFreeBytes o alt_path) with
      | Some free =>
          if (free <? kDiskFileSwitchMinFreeBytes)%N then (RequestDiskStop h, false)
          else (switch_disk alt_index alt_path h, true)
      | None =>
          if os_access_exists o alt_path then (switch_disk alt_index alt_path h, true)
          else (RequestDiskStop h, false)
      end.

(** [open] of the current data file, as the write thread and [SwitchWriteFile] do it. *)
Definition open_data_file h : handler * (Z + Z) :=
  let name := data_file_name h in
  let r := sys_open sys (trace h) name in
  let h := call (SysOpenTrunc name) h in
  (h <| fd := match r with inl fd => fd | inr _ => (-1)%Z end |>, r).

(** The close runs in a detached thread; it is placed where it is started. *)
Definition close_old_file h : handler :=
  let ok := sys_close_ok sys (trace h) (fd h) in
  let h := call (SysClose (fd h)) h in
  if ok then h else h <| switch_file_close_error := true |>.

Definition SwitchWriteFile h : handler * bool :=
  let h := close_old_file h in
  if disk_stop_requested h then (h, false)
  else
    let '(h, _) := MaybeSwitchDataDisk h in
    if disk_stop_requested h then (h, false)
    else
      let h := h <| file_count ::= N.succ |> in
      let '(h, r) := open_data_file h in
      match r with
      | inl _ => (h, true)
      | inr errno =>
          let h := h <| switch_file_open_error := true |> in
          (if (errno =? ENOSPC)%Z then RequestDiskStop h else h, false)
      end.

(** *** The disk as the write thread uses it *)
Definition disk_open_current h : handler * open_result :=
  let '(h, r) := open_data_file h in
  (h, match r with inl _ => Opened | inr errno => OpenFailed (errno =? ENOSPC)%Z end).
Definition disk_write h (words : list Z) : handler * write_result :=
  let r := sys_write sys (trace h) (fd h) (4 * N.of_nat (length words))%N in
  (call (SysWrite (fd h) words) h,
   match r with inl n => Written n | inr errno => WriteFailed (errno =? ENOSPC)%Z end).
Definition disk_close h : handler := call (SysClose (fd h)) (call (SysFsync (fd h)) h).
Definition handed h : list (list Z) :=
  omap (λ c, match c with SysWrite _ ws => Some ws | _ => None end) (trace h).
End handler.

#[export] Instance handler_writer_env (sys : kernel) : WriterEnv handler := {|
  env_open_current := disk_open_current sys;
  env_flag_open_error h := h <| switch_file_open_error := true |>;
  env_write := disk_write sys;
  env_flag_failed_write h := h <| failed_write := true |>;
  env_request_disk_stop := RequestDiskStop;
  env_switch_file := SwitchWriteFile sys;
  env_set_stop_write h := h <| stop_write := true |>;
  env_stop_write := stop_write;
  env_close := disk_close;
  env_store_event_count n h := h <| m_event_count := n |>;
  env_handed := handed
|}.

(** ** Configuration, reset and metrics *)
Section operations.
Context (sys : kernel) `{ErrorBits}.
Implicit Types h : handler.

(** [static_cast<size_t>(s * 1000.0)], doubles taken as rationals. *)
Definition seconds_to_ms (s : Q) : N := Z.to_N (Qfloor (s * 1000)%Q).

(** The body of [Configure]'s try block. *)
Definition Configure_try (c : config) : st_err handler unit :=
  dma <~ st_get (cfg_size c "data_handler" "dma_buffer_size_kb") ;;
  st_modify (λ h, h <| DMABUFFSIZE := dma |>) ;;~
  slot <~ st_get (cfg_int c "crate" "trig_slot") ;;
  st_modify (λ h, h <| trigger_module := slot |>) ;;~
  rate <~ st_get (cfg_int c "trigger" "software_trigger_rate_hz") ;;
  st_modify (λ h, h <| software_trigger_rate := rate |>) ;;~
  events <~ st_get (cfg_size c "data_handler" "num_events") ;;
  st_modify (λ h, h <| num_events := events |>) ;;~
  subrun <~ st_get (cfg_size c "data_handler" "subrun") ;;
  st_modify (λ h, h <| run_number := subrun |>) ;;~
  trig_src <~ st_get (cfg_string c "trigger" "trigger_source") ;;
  st_modify (λ h, h <| software_trig := String.eqb trig_src "software" |>
                    <| ext_trig := String.eqb trig_src "external" || String.eqb trig_src "light" |>) ;;~
  basedir <~ st_get (cfg_string c "data_handler" "data_basedir") ;;
  st_modify (λ h, h <| data_basedir := basedir |> <| file_count := 0%N |>) ;;~
  st_modify (λ h, h <| write_file_name := readout_prefix (data_basedir h) (run_number h) |>) ;;~
  period <~ st_get (cfg_int c "data_handler" "pps_sample_period") ;;
  st_modify (λ h, h <| pps_sample_period := period |>) ;;~
  rcore <~ st_get (cfg_size c "data_handler" "read_core_id") ;;
  st_modify (λ h, h <| read_core_id := rcore |>) ;;~
  wcore <~ st_get (cfg_size c "data_handler" "write_core_id") ;;
  st_modify (λ h, h <| write_core_id := wcore |>) ;;~
  drift <~ st_get (cfg_size c "readout_windows" "drift_size") ;;
  st_modify (λ h, h <| drift_size := drift |>) ;;~
  abort_wait_s <~ st_get (if cfg_contains c "data_handler" "dma_abort_wait_time"
                          then cfg_double c "data_handler" "dma_abort_wait_time"
                          else Some (2 # 1)%Q) ;;
  st_modify (λ h, h <| dma_abort_wait_ms := seconds_to_ms abort_wait_s |>) ;;~
  st_modify (InitNvmePathsFromEnv sys) ;;~
  st_modify (AppendStorageSegmentLog sys "run_start").

(** The clamp after the try block; the value becomes bytes. *)
Definition clamp_dma_size h : handler :=
  let h := if (600 <? DMABUFFSIZE h)%N then h <| DMABUFFSIZE := 600%N |> else h in
  h <| DMABUFFSIZE ::= λ kb, u64N (kb * 1000) |>.

Definition Configure (c : config) h : handler * N :=
  match Configure_try c h with
  | (h, Some _) => (clamp_dma_size h, 0%N)
  | (h, None) => (h, err_datahandler_get_config)
  end.

Definition Reset (run : N) h : handler * bool :=
  let h := h <| file_count := 0%N |> <| m_event_count := 0%N |> <| num_dma_loops := 0%N |>
             <| m_num_recv_bytes := 0%N |> <| run_error_bit := 0%N |> <| pps_count := 0%N |>
             <| disk_full := false |> <| disk_failover := false |>
             <| disk_stop_requested := false |> <| disk_switch_requested := false |>
             <| trigger_segment_file_num := 0%N |> <| stop_write := false |>
             <| data_queue ::= λ q, drain (Z.to_nat (size_ q)) q |> <| run_number := run |> in
  let h := h <| write_file_name := readout_prefix (data_basedir h) (run_number h) |> in
  (InitNvmePathsFromEnv sys h, true).

Definition SetRun (set_running : bool) h : handler := h <| is_running := set_running |>.
Definition getRunErrorCode h : N := run_error_bit h.
Definition DiskStopRequested h : bool := disk_stop_requested h.

(** The flags reported and the bit of each. *)
Definition error_flags h : list (bool * N) :=
  [(dma_timeout h, bit_dma_timeout); (free_dma_buffer_error h, bit_free_dma_buffer_error);
   (switch_file_close_error h, bit_switch_file_close_error);
   (switch_file_open_error h, bit_switch_file_open_error);
   (send_pulse_train_error h, bit_send_pulse_train_error); (failed_write h, bit_failed_write);
   (failed_locking_dma_buffers h, bit_failed_locking_dma_buffers);
   (trigger_file_open_error h, bit_trigger_file_open_error);
   (pps_file_open_error h, bit_pps_file_open_error); (disk_full h, bit_disk_full);
   (disk_failover h, bit_disk_failover)].
Definition error_bitword h : N :=
  foldl (λ w f, N.lor w (N.shiftl (N.b2n f.1) f.2)) 0%N (error_flags h).

Definition GetMetrics h : handler * gmap string N :=
  (h <| prev_event_count := m_event_count h |> <| prev_dma_loop_count := dma_loop_count h |>,
   <["datahandler_error_bitword" := error_bitword h]>
   (<["pps_count" := pps_count h]>
   (<["event_end_markers" := m_event_end_markers h]>
   (<["event_start_markers" := m_event_start_markers h]>
   (<["num_rw_buffer_overflow" := num_rw_buffer_overflow h]>
   (<["event_size_words" := m_event_chunk_words h]>
   (<["mega_bytes_received" := m_num_recv_mB h]>
   (<["num_dma_loops" := dma_loop_count h]>
   (<["num_files" := file_count h]>
   (<["num_events" := m_event_count h]>
   (<["run_number" := run_number h]> ∅))))))))))).
End operations.

Local Close Scope string_scope.

(** ** Lemmas *)
Definition opened (h : handler) : list string :=
  omap (λ c, match c with SysOpenTrunc name => Some name | _ => None end) (trace h).

Section calls.
Context (sys : kernel).
Implicit Types h : handler.

Lemma handed_call c h :
  handed (call c h) = (handed h ++ match c with SysWrite _ ws => [ws] | _ => [] end)%list.
Proof. unfold handed, call. cbn. rewrite omap_app. by destruct c. Qed.

Lemma opened_call c h :
  opened (call c h) = (opened h ++ match c with SysOpenTrunc n => [n] | _ => [] end)%list.
Proof. unfold opened, call. cbn. rewrite omap_app. by destruct c. Qed.

Lemma handed_open h : handed (open_data_file sys h).1 = handed h.
Proof.
  change (handed (call (SysOpenTrunc (data_file_name h)) h) = handed h).
  by rewrite handed_call, app_nil_r.
Qed.

(** A step that neither writes nor opens data, and keeps the run. *)
Definition quiet (f : handler → handler) : Prop :=
  ∀ h, handed (f h) = handed h ∧ opened (f h) = opened h ∧ file_count (f h) = file_count h ∧
       run_number (f h) = run_number h ∧ data_nvme_paths (f h) = data_nvme_paths h.

Lemma quiet_log reason : quiet (AppendStorageSegmentLog sys reason).
Proof.
  intros h. unfold AppendStorageSegmentLog.
  case_match; rewrite ?handed_call, ?opened_call, ?app_nil_r; done.
Qed.

Lemma quiet_switch_disk i p : quiet (switch_disk sys i p).
Proof.
  intros h. unfold switch_disk. edestruct (quiet_log "failover") as (-> & -> & -> & -> & ->).
  split_and!; reflexivity.
Qed.

Lemma log_keeps reason h :
  let h' := AppendStorageSegmentLog sys reason h in
  data_basedir h' = data_basedir h ∧ write_file_name h' = write_file_name h ∧
  disk_stop_requested h' = disk_stop_requested h.
Proof. unfold AppendStorageSegmentLog. by case_match. Qed.

Lemma quiet_MaybeSwitchDataDisk : quiet (λ h, (MaybeSwitchDataDisk sys h).1).
Proof.
  intros h. unfold MaybeSwitchDataDisk.
  repeat (case_match; try (cbn; apply quiet_switch_disk); try (split_and!; reflexivity)).
Qed.

Lemma quiet_close_old_file : quiet (close_old_file sys).
Proof.
  intros h. unfold close_old_file. case_match; cbn; split_and!; try done;
    unfold handed, opened; cbn; by rewrite omap_app, app_nil_r.
Qed.

(** The name of the next data file is built from the current disk and run. *)
Definition name_ok h : Prop :=
  write_file_name h = readout_prefix (data_basedir h) (run_number h).

(** [MaybeSwitchDataDisk] stays on the disk, or moves to another candidate that
    is not known to be below the reserve; otherwise it stops the run. *)
Lemma MaybeSwitchDataDisk_spec h :
  let '(h', switched) := MaybeSwitchDataDisk sys h in
  (name_ok h → name_ok h') ∧
  if switched
  then data_basedir h' ∈ data_nvme_paths h ∧ 2 ≤ length (data_nvme_paths h) ∧
       disk_stop_requested h' = disk_stop_requested h ∧
       ∀ f, GetFreeBytes (os_now sys h) (data_basedir h') = Some f →
            (kDiskFileSwitchMinFreeBytes ≤ f)%N
  else h' = h ∧
       (length (data_nvme_paths h) < 2 ∨
        ∃ f, GetFreeBytes (os_now sys h) (data_basedir h) = Some f ∧
             (kDiskFileSwitchMinFreeBytes ≤ f)%N) ∨
       h' = RequestDiskStop h.
Proof.
  unfold MaybeSwitchDataDisk.
  destruct (Nat.ltb_spec (length (data_nvme_paths h)) 2) as [Hfew|Htwo]; [naive_solver|].
  destruct (GetFreeBytes (os_now sys h) (data_basedir h)) as [free|] eqn:Hfree.
  1: destruct (N.leb_spec kDiskFileSwitchMinFreeBytes free); [naive_solver|].
  all: set (alt := nth _ (data_nvme_paths h) ""%string).
  all: assert (alt ∈ data_nvme_paths h) as Halt by
    (apply list_elem_of_In, nth_In; destruct (active_nvme_index h =? 0)%nat; lia).
  all: change (bytes (QueryFreeBytes (os_now sys h) alt)) with (GetFreeBytes (os_now sys h) alt).
  all: destruct (GetFreeBytes (os_now sys h) alt) as [f|] eqn:Halt_free;
    [destruct (N.ltb_spec f kDiskFileSwitchMinFreeBytes)
    |destruct (os_access_exists (os_now sys h) alt)].
  all: try (split; [done|by right]).
  all: match goal with |- context [switch_disk sys ?i ?p ?h] =>
      pose proof (log_keeps "failover") as Hlog; unfold switch_disk;
      split; [intros _; unfold name_ok; edestruct (quiet_log "failover") as (_ & _ & _ & -> & _)|];
      edestruct Hlog as (-> & Hn & Hd); rewrite ?Hn, ?Hd; try reflexivity
    end.
  all: cbn; split_and!; try done; intros f' Hf'; rewrite Halt_free in Hf'; by simplify_eq.
Qed.
End calls.

#[export] Instance handler_writer_laws (sys : kernel) :
  @WriterEnvLaws handler (handler_writer_env sys).
Proof.
  split; intros; try done.
  - exact (handed_open sys d).
  - exact (handed_call (SysWrite (fd d) ws) d).
  - change (handed (SwitchWriteFile sys d).1 = handed d). unfold SwitchWriteFile.
    destruct (quiet_close_old_file sys d) as (<- & _).
    generalize (close_old_file sys d) as h. intros h. case_match; [done|].
    destruct (quiet_MaybeSwitchDataDisk sys h) as (<- & _).
    destruct (MaybeSwitchDataDisk sys h) as [h' sw]. cbn [fst]. case_match; [done|].
    pose proof (handed_open sys (h' <| file_count ::= N.succ |>)) as Ho.
    destruct (open_data_file sys _) as [h2 []]; [exact Ho|]. case_match; exact Ho.
  - change (handed (disk_close d) = handed d). unfold disk_close.
    by rewrite !handed_call, !app_nil_r.
Qed.

(** ** The files of a run *)
Section run_files.
Context (sys : kernel).
Implicit Types h : handler.

(** The [i]-th file of the run, wherever it is. *)
Definition run_file (run : N) (i : nat) (dir : string) : string :=
  (readout_prefix dir run ++ to_string (N.of_nat i) ++ ".dat")%string.

(** Beyond [opened0] the run opened one file per index up to [file_count],
    each on a disk of [disks]. *)
Record run_files (run : N) (disks opened0 : list string) h : Prop := RunFiles {
  rf_run : run_number h = run;
  rf_name : name_ok h;
  rf_dir : data_basedir h ∈ disks;
  rf_paths : data_nvme_paths h ⊆ disks;
  rf_opened : ∃ dirs, opened h = opened0 ++ imap (run_file run) dirs ∧
                N.of_nat (length dirs) = (file_count h + 1)%N ∧ dirs ⊆ disks
}.

Lemma run_files_set run disks opened0 h (f : handler → handler) :
  (∀ h, opened (f h) = opened h ∧ file_count (f h) = file_count h ∧
        run_number (f h) = run_number h ∧ data_nvme_paths (f h) = data_nvme_paths h ∧
        data_basedir (f h) = data_basedir h ∧ write_file_name (f h) = write_file_name h) →
  run_files run disks opened0 h → run_files run disks opened0 (f h).
Proof.
  intros Hf []. destruct (Hf h) as (E1 & E2 & E3 & E4 & E5 & E6).
  split; unfold name_ok in *; rewrite ?E1, ?E2, ?E3, ?E4, ?E5, ?E6; done.
Qed.

Lemma data_file_name_run h i :
  name_ok h → file_count h = N.of_nat i →
  data_file_name h = run_file (run_number h) i (data_basedir h).
Proof. unfold data_file_name, run_file, name_ok. by intros -> ->. Qed.

(** Opening the next index. *)
Lemma run_files_open run disks opened0 h dirs :
  run_number h = run → name_ok h → data_basedir h ∈ disks → data_nvme_paths h ⊆ disks →
  opened h = opened0 ++ imap (run_file run) dirs → N.of_nat (length dirs) = file_count h →
  dirs ⊆ disks → run_files run disks opened0 (open_data_file sys h).1.
Proof.
  intros Hrun Hname Hdir Hpaths Hopen Hlen Hdirs. split; try done.
  exists (dirs ++ [data_basedir h]). split_and!.
  - change (opened (open_data_file sys h).1) with (opened (call (SysOpenTrunc (data_file_name h)) h)).
    rewrite opened_call, Hopen, imap_app, <-app_assoc. do 2 f_equal. cbn. f_equal.
    rewrite (data_file_name_run _ (length dirs)) by done. by rewrite Nat.add_0_r, Hrun.
  - cbn. rewrite length_app. simpl. lia.
  - intros d [?| ->%list_elem_of_singleton]%elem_of_app; auto.
Qed.

Lemma run_files_switch run disks opened0 h :
  run_files run disks opened0 h → run_files run disks opened0 (SwitchWriteFile sys h).1.
Proof.
  intros Hrf. unfold SwitchWriteFile.
  assert (run_files run disks opened0 (close_old_file sys h)) as Hc.
  { apply run_files_set; [|done]. intros h'. destruct (quiet_close_old_file sys h') as (_ & -> & -> & -> & ->).
    unfold close_old_file. by case_match. }
  clear Hrf. revert Hc. generalize (close_old_file sys h) as h1. clear h. intros h Hrf.
  case_match; [done|].
  pose proof (MaybeSwitchDataDisk_spec sys h) as Hsw.
  pose proof (quiet_MaybeSwitchDataDisk sys h) as (_ & Ho & Hc & Hr & Hp).
  destruct (MaybeSwitchDataDisk sys h) as [h1 sw]. cbn in Ho, Hc, Hr, Hp.
  destruct Hsw as [Hname Hsw]. destruct Hrf as [Hrun Hn Hdir Hpaths (dirs & Hop & Hlen & Hdirs)].
  assert (data_basedir h1 ∈ disks) as Hdir1.
  { destruct sw; [destruct Hsw as [Hin _]; by apply Hpaths in Hin|]. by destruct Hsw as [[-> _]| ->]. }
  destruct (disk_stop_requested h1).
  { cbn [fst]. split; rewrite ?Hr, ?Hp, ?Ho, ?Hc; eauto. }
  assert (run_files run disks opened0 (open_data_file sys (h1 <| file_count ::= N.succ |>)).1)
    as Hopen.
  { apply run_files_open with dirs; try done; cbn.
    - congruence.
    - by apply Hname.
    - by rewrite Hp.
    - change (opened h1 = opened0 ++ imap (run_file run) dirs). congruence.
    - rewrite Hc. lia. }
  revert Hopen. destruct (open_data_file sys _) as [h2 [fd|errno]]; cbn [fst]; intros Hopen; [done|].
  apply (run_files_set _ _ _ _ (λ h, h <| switch_file_open_error := true |>)) in Hopen; [|done].
  destruct (errno =? ENOSPC)%Z; [|exact Hopen].
  by apply (run_files_set _ _ _ _ RequestDiskStop) in Hopen.
Qed.

Lemma run_files_invariant run disks opened0 :
  @env_invariant handler (handler_writer_env sys) (run_files run disks opened0).
Proof.
  split; intros.
  - by refine (run_files_set _ _ _ _ (λ h, h <| switch_file_open_error := true |>) _ _).
  - refine (run_files_set _ _ _ _ (λ h, (disk_write sys h ws).1) _ _); [|done].
    intros h. pose proof (opened_call (SysWrite (fd h) ws) h) as Ho. by rewrite app_nil_r in Ho.
  - by refine (run_files_set _ _ _ _ (λ h, h <| failed_write := true |>) _ _).
  - by refine (run_files_set _ _ _ _ RequestDiskStop _ _).
  - by apply run_files_switch.
  - by refine (run_files_set _ _ _ _ (λ h, h <| stop_write := true |>) _ _).
  - refine (run_files_set _ _ _ _ disk_close _ _); [|done].
    intros h. unfold disk_close. by rewrite !opened_call, !app_nil_r.
  - by refine (run_files_set _ _ _ _ (λ h, h <| m_event_count := n |>) _ _).
Qed.

(** The run and the index can be read off the name. *)
Lemma run_file_basename run k d :
  Basename (run_file run k d) =
  ("pGRAMS_bin_" ++ to_string run ++ "_" ++ to_string (N.of_nat k) ++ ".dat")%string.
Proof.
  set (name := ("pGRAMS_bin_" ++ to_string run ++ "_" ++ to_string (N.of_nat k) ++ ".dat")%string).
  assert (run_file run k d = (d ++ "/readout_data") ++ String slash name)%string as ->.
  { unfold run_file, readout_prefix, name. by rewrite !append_assoc. }
  unfold Basename. rewrite find_last_of_last.
  - rewrite Nat.add_1_r.
    replace (S (String.length (d ++ "/readout_data"))) with
      (String.length ((d ++ "/readout_data") ++ String slash ""))
      by (rewrite length_append; simpl; lia).
    replace ((d ++ "/readout_data") ++ String slash name)%string with
      (((d ++ "/readout_data") ++ String slash "") ++ name)%string by by rewrite append_assoc.
    by rewrite drop_string_append.
  - unfold name. rewrite !string_has_append, !to_string_no_slash. done.
Qed.

Lemma run_file_inj2 run run' i j d d' : run_file run i d = run_file run' j d' → run = run' ∧ i = j.
Proof.
  intros E. apply (f_equal Basename) in E. rewrite !run_file_basename in E. apply append_inj_l in E.
  apply (f_equal (span_digits 0)) in E. rewrite !span_digits_to_string in E by done.
  apply pair_equal_spec in E as [[Hrun _]%pair_equal_spec E]. apply append_inj_l in E.
  apply (f_equal (span_digits 0)) in E. rewrite !span_digits_to_string in E by done.
  split; [done|]. apply pair_equal_spec in E as [[E _]%pair_equal_spec _]. lia.
Qed.
Lemma run_file_inj run i j d d' : run_file run i d = run_file run j d' → i = j.
Proof. by intros [_ ?]%run_file_inj2. Qed.

Lemma run_files_NoDup run dirs : NoDup (imap (run_file run) dirs).
Proof.
  apply NoDup_alt. intros i j x. rewrite !list_lookup_imap.
  destruct (dirs !! i) as [d|], (dirs !! j) as [d'|]; cbn; try done.
  intros [= <-] [= E]. by apply run_file_inj in E.
Qed.
End run_files.

(** [DataHandler::DataHandler]: the fields it initialises, the others zero. *)
Definition new_handler : handler := {|
  data_basedir := ""; write_file_name := ""; data_nvme_paths := []; active_nvme_index := 0;
  file_count := 0; run_number := 0; trigger_segment_file_num := 0; fd := 0; is_running := false;
  stop_write := false; disk_full := false; disk_failover := false; disk_stop_requested := false;
  disk_switch_requested := false; dma_timeout := false; free_dma_buffer_error := false;
  switch_file_close_error := false; switch_file_open_error := false;
  send_pulse_train_error := false; failed_write := false; failed_locking_dma_buffers := false;
  trigger_file_open_error := false; pps_file_open_error := false; m_event_count := 0;
  dma_loop_count := 0; m_num_recv_mB := 0; m_event_chunk_words := 0; num_rw_buffer_overflow := 0;
  m_event_start_markers := 0; m_event_end_markers := 0; pps_count := 0; prev_event_count := 0;
  prev_dma_loop_count := 0; run_error_bit := 0; num_dma_loops := 1; m_num_recv_bytes := 0;
  DMABUFFSIZE := 0; dma_abort_wait_ms := 2000; trigger_module := 0; software_trigger_rate := 0;
  num_events := 0; software_trig := false; ext_trig := false; pps_sample_period := 0;
  read_core_id := 0; write_core_id := 0; drift_size := 0; data_queue := new_queue 400; trace := []
|}.

(** ** Properties *)
Section properties.
Context (sys : kernel).
Implicit Types h : handler.

(** C6. A run never writes over its own data: from the start of a run the write
    thread opens one file per index 0, 1, 2, ... up to the file counter, all
    names different whatever the disks, each on the starting disk or one of the
    candidates. *)
Theorem write_thread_files dma_bytes rounds h :
  name_ok h → file_count h = 0%N →
  let h' := w_env (@write_thread handler (handler_writer_env sys) dma_bytes rounds h) in
  ∃ dirs, opened h' = opened h ++ imap (run_file (run_number h)) dirs ∧
    N.of_nat (length dirs) = (file_count h' + 1)%N ∧
    NoDup (imap (run_file (run_number h)) dirs) ∧
    dirs ⊆ data_basedir h :: data_nvme_paths h.
Proof.
  intros Hname Hcount.
  assert (run_files (run_number h) (data_basedir h :: data_nvme_paths h) (opened h)
    (open_data_file sys h).1) as Hopen.
  { apply run_files_open with []; try done; [constructor|by intros d; constructor|
      by rewrite app_nil_r|by intros d ?%elem_of_nil]. }
  assert (run_files (run_number h) (data_basedir h :: data_nvme_paths h) (opened h)
    (w_env (@write_thread handler (handler_writer_env sys) dma_bytes rounds h))) as [].
  { unfold write_thread. apply (DataWrite_env _ (run_files_invariant sys _ _ _)).
    change (open_first_file h) with
      (let '(h, r) := disk_open_current sys h in
       match r with
       | Opened => h
       | OpenFailed enospc =>
           let h := h <| switch_file_open_error := true |> in
           if enospc then RequestDiskStop h else h
       end). unfold disk_open_current.
    destruct (open_data_file sys h) as [h1 [fd|errno]]; cbn [fst] in *; [done|].
    refine (run_files_set _ _ _ _ (λ h, if (errno =? ENOSPC)%Z
      then RequestDiskStop (h <| switch_file_open_error := true |>)
      else h <| switch_file_open_error := true |>) _ Hopen).
    intros h'. by destruct (errno =? ENOSPC)%Z. }
  destruct rf_opened0 as (dirs & ? & ? & ?). exists dirs. eauto using run_files_NoDup.
Qed.

(** *** A file switch *)
Definition stop_flags h : list bool := [disk_stop_requested h; disk_full h; is_running h; stop_write h].
Definition has_reserve (o : os) (dir : string) : Prop :=
  ∃ f, GetFreeBytes o dir = Some f ∧ (kDiskFileSwitchMinFreeBytes ≤ f)%N.
Definition below_reserve (o : os) (dir : string) : Prop :=
  ∃ f, GetFreeBytes o dir = Some f ∧ (f < kDiskFileSwitchMinFreeBytes)%N.
Definition other_disk h : string :=
  nth (if (active_nvme_index h =? 0)%nat then 1 else 0) (data_nvme_paths h) ""%string.
(** The disk a switch leaves for, or that there is none. *)
Definition disk_chosen (o : os) h (dir : string) : Prop :=
  (dir = data_basedir h ∧ (length (data_nvme_paths h) < 2 ∨ has_reserve o dir)) ∨
  (dir = other_disk h ∧ ¬ has_reserve o (data_basedir h) ∧ ¬ below_reserve o dir ∧
   (GetFreeBytes o dir = None → os_access_exists o dir = true)).
Definition no_disk_left (o : os) h : Prop :=
  ¬ has_reserve o (data_basedir h) ∧
  (below_reserve o (other_disk h) ∨
   GetFreeBytes o (other_disk h) = None ∧ os_access_exists o (other_disk h) = false).

Lemma MaybeSwitchDataDisk_chooses h :
  name_ok h →
  let h' := (MaybeSwitchDataDisk sys h).1 in
  (h' = RequestDiskStop h ∧ no_disk_left (os_now sys h) h) ∨
  (disk_chosen (os_now sys h) h (data_basedir h') ∧ name_ok h' ∧ stop_flags h' = stop_flags h ∧ fd h' = fd h ∧
   switch_file_open_error h' = switch_file_open_error h ∧
   switch_file_close_error h' = switch_file_close_error h ∧ ∃ log, trace h' = trace h ++ log).
Proof.
  intros Hname. cbv zeta. unfold MaybeSwitchDataDisk. fold (other_disk h). set (o := os_now sys h).
  change (bytes (QueryFreeBytes o (other_disk h))) with (GetFreeBytes o (other_disk h)).
  assert (∀ i dir, disk_chosen o h dir →
    let h' := switch_disk sys i dir h in
    disk_chosen o h (data_basedir h') ∧ name_ok h' ∧ stop_flags h' = stop_flags h ∧ fd h' = fd h ∧
    switch_file_open_error h' = switch_file_open_error h ∧
    switch_file_close_error h' = switch_file_close_error h ∧ ∃ log, trace h' = trace h ++ log) as Hswitch.
  { intros i dir Hdir. cbv zeta. unfold switch_disk, AppendStorageSegmentLog.
    destruct (sys_append_ok sys _ _); (split; [exact Hdir|]); split_and!; try done; cbn; rewrite <-?app_assoc; by eexists. }
  destruct (Nat.ltb_spec (length (data_nvme_paths h)) 2) as [Hfew|Htwo].
  { right. split_and!; try done; [by left; auto|]. exists []. by rewrite app_nil_r. }
  destruct (GetFreeBytes o (data_basedir h)) as [free|] eqn:Hfree;
    [destruct (N.leb_spec kDiskFileSwitchMinFreeBytes free)|].
  { right. split_and!; try done; [left; split; [done|right; by eexists]|]. exists []. by rewrite app_nil_r. }
  all: destruct (GetFreeBytes o (other_disk h)) as [f|] eqn:Hother;
    [destruct (N.ltb_spec f kDiskFileSwitchMinFreeBytes)
    |destruct (os_access_exists o (other_disk h)) eqn:Hacc].
  all: cbn [fst].
  all: assert (¬ has_reserve o (data_basedir h)) as Hno by (intros (? & ? & ?); simplify_eq; lia).
  all: try (right; apply Hswitch; right; split_and!; [done|done| |by rewrite ?Hother]; intros (? & ? & ?); simplify_eq; lia).
  all: left; split; [done|]; split; [done|]; first [by left; eexists|by right].
Qed.

Lemma close_old_file_frame h :
  name_ok h →
  let h1 := close_old_file sys h in
  trace h1 = trace h ++ [SysClose (fd h)] ∧ stop_flags h1 = stop_flags h ∧ file_count h1 = file_count h ∧
  run_number h1 = run_number h ∧ data_basedir h1 = data_basedir h ∧ data_nvme_paths h1 = data_nvme_paths h ∧
  active_nvme_index h1 = active_nvme_index h ∧ fd h1 = fd h ∧ name_ok h1 ∧
  switch_file_open_error h1 = switch_file_open_error h ∧ opened h1 = opened h ∧
  switch_file_close_error h1 = switch_file_close_error h || negb (sys_close_ok sys (trace h) (fd h)).
Proof.
  intros Hname h1. destruct (quiet_close_old_file sys h) as (_ & Ho & _). fold h1 in Ho. unfold h1 in *. unfold close_old_file in *.
  destruct (sys_close_ok _ _ _); split_and!; try done; cbn; by rewrite ?orb_false_r, ?orb_true_r.
Qed.

(** C39. A file switch, on a handler whose file name is that of its disk and run. The old
    descriptor is closed first, a failure of it only flagged; the disks are asked right after.
    Either there is no disk left: the current one is not known to have the reserve
    and the other one is below it, or away. Then the run is stopped (four flags) and
    nothing else changes: no file is opened, and the counter and the closed descriptor stay.
    Or the next file is opened, as the last call: the counter has moved by one, the file is
    the one of that index and run on the disk that was chosen, the current one if it has
    the reserve or is alone, and otherwise the other. When [open] gives a descriptor the
    switch succeeds with it and no stop flag changes; when it fails, the descriptor is -1, the
    error is flagged, and the run is stopped when the disk was full, and only then. *)
Theorem SwitchWriteFile_outcome h :
  disk_stop_requested h = false → name_ok h →
  let '(h', ok) := SwitchWriteFile sys h in
  let closed := trace h ++ [SysClose (fd h)] in
  let o := sys_os sys closed in
  switch_file_close_error h' = switch_file_close_error h || negb (sys_close_ok sys (trace h) (fd h)) ∧
  ((ok = false ∧ no_disk_left o h ∧ stop_flags h' = [true; true; false; true] ∧
    trace h' = closed ∧ file_count h' = file_count h ∧ fd h' = fd h ∧
    switch_file_open_error h' = switch_file_open_error h) ∨
   (disk_chosen o h (data_basedir h') ∧ file_count h' = (file_count h + 1)%N ∧
    let name := run_file (run_number h) (N.to_nat (file_count h + 1)) (data_basedir h') in
    opened h' = opened h ++ [name] ∧
    ∃ log, trace h' = closed ++ log ++ [SysOpenTrunc name] ∧
    match sys_open sys (closed ++ log) name with
    | inl new => ok = true ∧ fd h' = new ∧ stop_flags h' = stop_flags h ∧
                 switch_file_open_error h' = switch_file_open_error h
    | inr errno => ok = false ∧ fd h' = (-1)%Z ∧ switch_file_open_error h' = true ∧
                   stop_flags h' = if (errno =? ENOSPC)%Z then [true; true; false; true] else stop_flags h
    end)).
Proof.
  intros Hstop Hname. unfold SwitchWriteFile. set (h1 := close_old_file sys h). cbv zeta.
  destruct (close_old_file_frame h Hname) as (Ht & Hf & Hc & Hr & Hb & Hp & Ha & Hfd & Hn & He & Ho & Hce). fold h1 in Ht, Hf, Hc, Hr, Hb, Hp, Ha, Hfd, Hn, He, Ho, Hce.
  clearbody h1. assert (disk_stop_requested h1 = false) as Hd by (rewrite <-Hstop; by injection Hf). rewrite Hd.
  pose proof (MaybeSwitchDataDisk_chooses h1 Hn) as Hsw. destruct (quiet_MaybeSwitchDataDisk sys h1) as (_ & Ho2 & Hc2 & Hr2 & _).
  cbv zeta in Hsw. destruct (MaybeSwitchDataDisk sys h1) as [h2 sw]. cbn [fst] in *. unfold os_now in Hsw.
  rewrite Ht in Hsw. unfold no_disk_left, disk_chosen, other_disk in Hsw |- *. rewrite Hb, Hp, Ha in Hsw.
  destruct Hsw as [[-> Hnone]|(Hdisk & Hn2 & Hf2 & Hfd2 & He2 & Hce2 & log & Ht2)].
  { assert (disk_stop_requested (RequestDiskStop h1) = true) as -> by done. split; [exact Hce|]. left. split; [done|]. split; [exact Hnone|].
    exact (conj eq_refl (conj Ht (conj Hc (conj Hfd He)))). }
  assert (disk_stop_requested h2 = false) as -> by (rewrite <-Hd; by injection Hf2).
  set (h3 := h2 <| file_count ::= N.succ |>).
  assert (data_basedir h3 = data_basedir h2 ∧ run_number h3 = run_number h ∧ name_ok h3 ∧ stop_flags h3 = stop_flags h ∧
    file_count h3 = (file_count h + 1)%N ∧ opened h3 = opened h ∧ trace h3 = (trace h ++ [SysClose (fd h)]) ++ log ∧
    switch_file_open_error h3 = switch_file_open_error h ∧ switch_file_close_error h3 = switch_file_close_error h1)
    as (B3 & R3 & N3 & F3 & C3 & O3 & T3 & E3 & K3).
  { split_and!; [done| |exact Hn2| | | | | |]; cbn -[N.add];
      [congruence|rewrite <-Hf; exact Hf2|rewrite Hc2, Hc; lia|rewrite <-Ho, <-Ho2; done|done|congruence|done]. }
  clearbody h3. rewrite <-B3 in Hdisk. clear Ht2 Hf2 Hn2 Hfd2 He2 Hce2 Ho2 Hc2 Hr2. unfold open_data_file.
  assert (data_file_name h3 = run_file (run_number h) (N.to_nat (file_count h + 1)) (data_basedir h3)) as ->
    by (rewrite (data_file_name_run h3 (N.to_nat (file_count h + 1))), R3; [done..|lia]).
  pose proof (opened_call (SysOpenTrunc (run_file (run_number h) (N.to_nat (file_count h + 1)) (data_basedir h3))) h3) as Hopen.
  rewrite O3 in Hopen. remember (run_file (run_number h) (N.to_nat (file_count h + 1)) (data_basedir h3)) as name eqn:Hnm.
  rewrite T3. destruct (sys_open sys _ name) as [new|errno] eqn:Hopn; lazy beta iota zeta.
  - set (h4 := (call (SysOpenTrunc name) h3) <| fd := new |>). assert (data_basedir h4 = data_basedir h3) as -> by done. rewrite <-Hnm.
    split; [exact (eq_trans K3 Hce)|]. right. split; [exact Hdisk|]. split; [exact C3|]. split; [exact Hopen|].
    exists log. split; [cbn; by rewrite T3, <-!app_assoc|]. rewrite Hopn. by split_and!.
  - set (h4 := if (errno =? ENOSPC)%Z then _ else _).
    assert (∀ {A} (f : handler → A), (∀ x, f (RequestDiskStop x) = f x) →
      f h4 = f ((call (SysOpenTrunc name) h3) <| fd := (-1)%Z |> <| switch_file_open_error := true |>)) as Hkeep.
    { intros A f Hk. unfold h4. destruct (errno =? ENOSPC)%Z; [by rewrite Hk|done]. }
    assert (data_basedir h4 = data_basedir h3) as -> by exact (Hkeep _ data_basedir (λ _, eq_refl)). rewrite <-Hnm.
    rewrite (Hkeep _ file_count), (Hkeep _ opened), (Hkeep _ trace), (Hkeep _ fd),
      (Hkeep _ switch_file_open_error), (Hkeep _ switch_file_close_error) by done.
    split; [exact (eq_trans K3 Hce)|]. right. split; [exact Hdisk|]. split; [exact C3|]. split; [exact Hopen|].
    exists log. split; [cbn; by rewrite T3, <-!app_assoc|]. rewrite Hopn. split_and!; try done.
    unfold h4. destruct (errno =? ENOSPC)%Z; [done|exact F3].
Qed.

Lemma log_config reason h :
  let h' := AppendStorageSegmentLog sys reason h in
  DMABUFFSIZE h' = DMABUFFSIZE h ∧ file_count h' = file_count h ∧ run_number h' = run_number h ∧
  data_basedir h' = data_basedir h ∧ write_file_name h' = write_file_name h.
Proof. unfold AppendStorageSegmentLog. by case_match. Qed.

Lemma Configure_try_ok c h h' u :
  Configure_try sys c h = (h', Some u) →
  cfg_size c "data_handler" "dma_buffer_size_kb" = Some (DMABUFFSIZE h') ∧
  name_ok h' ∧ file_count h' = 0%N ∧
  cfg_string c "data_handler" "data_basedir" = Some (data_basedir h') ∧
  cfg_size c "data_handler" "subrun" = Some (run_number h').
Proof.
  intros Hrun. unfold Configure_try in Hrun. st_inv. unfold name_ok.
  match goal with |- context [AppendStorageSegmentLog sys "run_start" ?h] =>
    destruct (log_config "run_start" h) as (-> & -> & -> & -> & ->) end.
  by split_and!.
Qed.

(** A configuration that is accepted leaves a DMA block that fits the
    buffers it is copied through: at most 600 kB, which is within the
    [DATABUFFSIZE] words of a queue record; the size is the requested number of
    kB, cut at 600. The run starts at file 0 with a name built from the
    configured directory and run. *)
Theorem Configure_dma_block_fits `{ErrorBits} c h :
  err_datahandler_get_config ≠ 0%N → (Configure sys c h).2 = 0%N →
  let h' := (Configure sys c h).1 in
  (DMABUFFSIZE h' ≤ 600000)%N ∧ (DMABUFFSIZE h' ≤ 4 * DATABUFFSIZE)%N ∧
  (∃ kb, cfg_size c "data_handler" "dma_buffer_size_kb" = Some kb ∧
         DMABUFFSIZE h' = (1000 * N.min kb 600)%N) ∧
  name_ok h' ∧ file_count h' = 0%N.
Proof.
  intros Herr. unfold Configure. destruct (Configure_try sys c h) as [h1 [u|]] eqn:E;
    cbn [fst snd]; [intros _|done].
  apply Configure_try_ok in E as (Hkb & Hname & Hcount & _).
  assert (DMABUFFSIZE (clamp_dma_size h1) = (1000 * N.min (DMABUFFSIZE h1) 600)%N) as Hsize.
  { unfold clamp_dma_size, u64N. destruct (N.ltb_spec 600 (DMABUFFSIZE h1)); cbn -[N.mul N.modulo].
    - rewrite N.mod_small; lia.
    - rewrite N.mod_small; lia. }
  assert (4 * DATABUFFSIZE = 600300)%N as -> by reflexivity.
  rewrite Hsize. split_and!; [lia|lia|by eexists| |].
  - unfold clamp_dma_size. by case_match.
  - unfold clamp_dma_size. by case_match.
Qed.

(** [Reset] makes the handler ready for a run: the queue is empty whatever
    it held, every stop and disk flag is down, the counters are zero, and the
    next file is index 0 of the new run on the current disk. *)
Theorem Reset_ready run h l :
  rep (data_queue h) l →
  let h' := (Reset sys run h).1 in
  rep (data_queue h') [] ∧ stop_write h' = false ∧ disk_stop_requested h' = false ∧
  disk_full h' = false ∧ trigger_segment_file_num h' = 0%N ∧ m_event_count h' = 0%N ∧
  name_ok h' ∧ file_count h' = 0%N ∧ run_number h' = run ∧ data_basedir h' = data_basedir h.
Proof.
  intros Hq h'. split; [|by split_and!].
  change (data_queue h') with (drain (Z.to_nat (size_ (data_queue h))) (data_queue h)).
  refine (drain_empty (A := list Z) _ (data_queue h) l Hq _). apply rep_bound_capacity in Hq. unfold capacity in Hq. lia.
Qed.

(** *** The error bits of the metrics *)
Lemma testbit_flag b p i : N.testbit (N.shiftl (N.b2n b) p) i = b && (i =? p)%N.
Proof.
  destruct (N.le_gt_cases p i) as [Hle|Hlt].
  - rewrite N.shiftl_spec_high' by done. destruct (N.eqb_spec i p) as [->|Hne].
    + rewrite N.sub_diag. by destruct b.
    + rewrite andb_false_r. destruct b; [|apply N.bits_0]. apply N.bits_above_log2. cbn. lia.
  - rewrite N.shiftl_spec_low by done. destruct (N.eqb_spec i p); [lia|by destruct b].
Qed.

Lemma testbit_flags (fs : list (bool * N)) w i :
  N.testbit (foldl (λ w f, N.lor w (N.shiftl (N.b2n f.1) f.2)) w fs) i =
    N.testbit w i || existsb (λ f, f.1 && (i =? f.2)%N) fs.
Proof.
  revert w. induction fs as [|f fs IH]; intros w; simpl; [by rewrite orb_false_r|].
  by rewrite IH, N.lor_spec, testbit_flag, orb_assoc.
Qed.

(** The error word of [GetMetrics] has exactly the bits of the flags that
    are up: when the bits of the flags are different, each of the eleven flags
    can be read back from its bit, and no other bit is set. *)
Theorem GetMetrics_error_bits `{ErrorBits} h b p :
  NoDup (snd <$> error_flags h) → (b, p) ∈ error_flags h →
  ∃ w, (GetMetrics h).2 !! "datahandler_error_bitword"%string = Some w ∧
    N.testbit w p = b ∧
    ∀ i, N.testbit w i = true → ∃ b', (b', i) ∈ error_flags h ∧ b' = true.
Proof.
  intros Hnodup Hin. exists (error_bitword h). split; [by cbn; simplify_map_eq|].
  unfold error_bitword. rewrite testbit_flags, N.bits_0. cbn [orb]. split.
  - destruct b.
    + apply existsb_exists. exists (true, p). split; [by apply list_elem_of_In|]. cbn. apply N.eqb_refl.
    + apply not_true_iff_false. intros ([b' p'] & Hin' & Hb)%existsb_exists. cbn in Hb.
      apply andb_true_iff in Hb as [-> ->%N.eqb_eq]. apply list_elem_of_In in Hin'.
      apply list_elem_of_lookup_1 in Hin as [i Hi], Hin' as [j Hj].
      assert (i = j) as ->; [|congruence].
      eapply NoDup_lookup; [exact Hnodup|..]; by rewrite list_lookup_fmap, ?Hi, ?Hj.
  - intros i. rewrite testbit_flags, N.bits_0. cbn [orb].
    intros ([b' p'] & Hin' & Hb)%existsb_exists. cbn in Hb.
    apply andb_true_iff in Hb as [-> ->%N.eqb_eq]. apply list_elem_of_In in Hin'. eauto.
Qed.
End properties.

(** ** A machine where every call succeeds *)
Definition demo_kernel : kernel := {|
  sys_os _ := demo_os;
  sys_open _ _ := inl 3%Z;
  sys_write _ _ n := inl n;
  sys_close_ok _ _ := true;
  sys_append_ok _ _ := true
|}.
Definition demo_handler : handler :=
  (Reset demo_kernel 7 (new_handler <| data_basedir := "/write_data_nvme_ssd0"%string |>)).1.

(** SSD0 is below the reserve: the first switch moves to SSD1. *)
Example demo_switch :
  let h := (SwitchWriteFile demo_kernel demo_handler).1 in
  data_file_name h = "/mnt/ssd1/readout_data/pGRAMS_bin_7_1.dat"%string ∧ disk_failover h = true ∧
  trigger_segment_file_num h = 1%N.
Proof. vm_compute. auto. Qed.

Lemma write_thread_files_witness :
  let h' := w_env (@write_thread handler (handler_writer_env demo_kernel) 24 demo_rounds demo_handler) in
  name_ok demo_handler ∧
  ∃ dirs, opened h' = opened demo_handler ++ imap (run_file (run_number demo_handler)) dirs ∧
    N.of_nat (length dirs) = (file_count h' + 1)%N ∧ NoDup (imap (run_file (run_number demo_handler)) dirs) ∧
    dirs ⊆ data_basedir demo_handler :: data_nvme_paths demo_handler.
Proof.
  assert (name_ok demo_handler) as Hn by (vm_compute; reflexivity).
  assert (file_count demo_handler = 0%N) as Hc by (vm_compute; reflexivity).
  split; [exact Hn|]. exact (write_thread_files demo_kernel 24 demo_rounds demo_handler Hn Hc).
Defined.

(** The switch of [demo_switch]; and one on a disk where no file can be opened. *)
Definition full_kernel : kernel := {|
  sys_os _ := demo_os; sys_open _ _ := inr ENOSPC; sys_write _ _ n := inl n; sys_close_ok _ _ := true; sys_append_ok _ _ := true
|}.
Lemma SwitchWriteFile_outcome_witness :
  let h' := (SwitchWriteFile full_kernel demo_handler).1 in
  file_count h' = 1%N ∧ stop_flags h' = [true; true; false; true].
Proof.
  assert (disk_stop_requested demo_handler = false) as Hd by (vm_compute; reflexivity).
  assert (name_ok demo_handler) as Hn by (vm_compute; reflexivity).
  pose proof (SwitchWriteFile_outcome full_kernel demo_handler Hd Hn) as H.
  destruct (SwitchWriteFile full_kernel demo_handler) as [h' ok] eqn:E.
  assert (file_count h' = 1%N) as Hc by (change (file_count (h', ok).1 = 1%N); rewrite <- E; vm_compute; reflexivity).
  destruct H as (_ & [(_ & _ & _ & _ & Hsame & _)|(_ & _ & _ & log & _ & H)]).
  - exfalso. rewrite Hc in Hsame. discriminate Hsame.
  - split; [exact Hc|]. cbn [full_kernel sys_open] in H. destruct H as (_ & _ & _ & H). exact H.
Defined.

Lemma Configure_dma_block_fits_witness :
  (Configure demo_kernel (demo_config 900 1 "/d") new_handler).2 = 0%N ∧
  (DMABUFFSIZE (Configure demo_kernel (demo_config 900 1 "/d") new_handler).1 ≤ 600000)%N.
Proof.
  assert ((Configure demo_kernel (demo_config 900 1 "/d") new_handler).2 = 0%N) as H
    by (vm_compute; reflexivity).
  assert (err_datahandler_get_config ≠ 0%N) as He by (vm_compute; discriminate).
  split; [exact H|].
  exact (proj1 (Configure_dma_block_fits demo_kernel (demo_config 900 1 "/d") new_handler He H)).
Defined.

(** A queue of three slots that holds two blocks. *)
Definition demo_queue_words : queue (list Z) :=
  (SpscQueue.write [3%Z] (SpscQueue.write [2%Z] (new_queue 3)).1).1.
Lemma demo_queue_words_rep : rep demo_queue_words [[2%Z]; [3%Z]].
Proof.
  pose proof (new_queue_represents (A := list Z) 3 ltac:(lia)) as H0.
  apply (write_room _ _ [2%Z]) in H0 as [_ H0]; [|done].
  by apply (write_room _ _ [3%Z]) in H0 as [_ H0].
Qed.

Lemma Reset_ready_witness :
  rep (data_queue (new_handler <| data_queue := demo_queue_words |>)) [[2%Z]; [3%Z]] ∧
  rep (data_queue (Reset demo_kernel 8 (new_handler <| data_queue := demo_queue_words |>)).1) [].
Proof.
  split; [exact demo_queue_words_rep|].
  exact (proj1 (Reset_ready demo_kernel 8 (new_handler <| data_queue := demo_queue_words |>)
    _ demo_queue_words_rep)).
Defined.

Lemma GetMetrics_error_bits_witness :
  let h := new_handler <| disk_full := true |> in
  ∃ w, (GetMetrics h).2 !! "datahandler_error_bitword"%string = Some w ∧ N.testbit w 9 = true.
Proof.
  assert (NoDup (snd <$> error_flags (new_handler <| disk_full := true |>))) as Hn
    by (apply (bool_decide_unpack _); vm_compute; exact I).
  assert ((true, 9%N) ∈ error_flags (new_handler <| disk_full := true |>)) as Hin
    by (apply (bool_decide_unpack _); vm_compute; exact I).
  destruct (GetMetrics_error_bits (new_handler <| disk_full := true |>) true 9 Hn Hin)
    as (w & Hw & Hb & _).
  exists w. split; [exact Hw|exact Hb].
Defined.
