(* ===== verification/DriverGlue.v ===== *)
(** * The driver glue: src/lib/pcie_driver/gramsreadout_lib.c

    A layer over the WinDriver library (WDC), which is not part of the repository:
    its calls are recorded in order and answered by a [wdc], its structures and
    constants are parameters. [None] is a pointer that may not be followed. *)
From Stdlib Require Import Ascii String Lia ZArith NArith.
From stdpp Require Import base tactics list numbers option strings gmap.
From S2P Require Import Prelude CppString.
Local Open Scope string_scope.

(** ** [printf], for the conversions of the messages *)
Definition nl : string := String "010" "".
Inductive arg := ANum (z : Z) | AStr (s : string).

Definition hex_char (upper : bool) (d : N) : ascii :=
  if (d <? 10)%N then digit_char d else ascii_of_N ((if upper then 55 else 87) + d).
Fixpoint hex_aux (upper : bool) (fuel : nat) (n : N) : string :=
  match fuel with
  | O => ""
  | S fuel =>
      if (n <? 16)%N then String (hex_char upper n) ""
      else hex_aux upper fuel (n / 16) ++ String (hex_char upper (n mod 16)) ""
  end.
Definition to_hex (upper : bool) (n : N) : string := hex_aux upper (S (N.to_nat (N.log2 n))) n.
Fixpoint zeros (n : nat) : string := match n with O => "" | S n => String "0" (zeros n) end.

Section printf.
(** The bits of the address of a string, where a number is asked for. *)
Context (pointer : string → Z).
Definition num (a : arg) : Z := match a with ANum z => z | AStr s => pointer s end.
Definition convert (c : ascii) (width : nat) (a : arg) : string :=
  let text :=
    if Ascii.eqb c "s" then match a with AStr s => s | ANum _ => "" end
    else if Ascii.eqb c "d" then print_i64 (i32 (num a))
    else if Ascii.eqb c "x" then to_hex false (Z.to_N (num a))
    else if Ascii.eqb c "X" then to_hex true (Z.to_N (num a))
    else to_string (Z.to_N (num a)) in
  zeros (width - String.length text) ++ text.
(** [conv]: inside a conversion, with its width. *)
Fixpoint printf (conv : option nat) (fmt : string) (args : list arg) : string :=
  match fmt, conv with
  | EmptyString, _ => ""
  | String c fmt, None => if Ascii.eqb c "%" then printf (Some 0) fmt args else String c (printf None fmt args)
  | String c fmt, Some width =>
      if Ascii.eqb c " " || Ascii.eqb c "0" || Ascii.eqb c "l" then printf (Some width) fmt args
      else
        match args with
        | [] => printf None fmt []
        | a :: args =>
            if Ascii.eqb c "*" then printf (Some (Z.to_nat (num a))) fmt args
            else convert c width a ++ printf None fmt args
        end
  end.
(** [snprintf(buffer, size, ...)]: the terminating zero takes one of [size]. *)
Definition snprintf (size : nat) (fmt : string) (args : list arg) : string :=
  take_string (size - 1) (printf None fmt args).
End printf.

(** ** The WDC library *)
Definition device_handle := option nat.
Inductive wdc_op :=
  | WDC_DriverName
  | WDC_SetDebugOptions
  | WDC_DriverOpen
  | WDC_DriverClose
  | WDC_DIAG_DeviceFind (vendor_id device_id : Z) (slot_number : option Z)
  | WDC_DIAG_DeviceOpen (slot : nat)
  | WDC_DIAG_DeviceClose (h : device_handle)
  | WDC_AddrSpaceIsActive (p i : nat)
  | WDC_IntIsEnabled (h : device_handle)
  | WDC_IntEnable (p : nat)
  | WDC_IntDisable (p : nat)
  | WDC_PciSriovEnable (p : nat) (num_vfs : Z)
  | WDC_PciSriovDisable (p : nat)
  | WDC_PciSriovGetNumVFs (p : nat)
  | WDC_EventIsRegistered (p : nat)
  | WDC_EventRegister (p : nat)
  | WDC_EventUnregister (p : nat)
  | WDC_DMAContigBufLock (h : device_handle) (options size : Z)
  | WDC_DMASGBufLock (h : device_handle) (buf : nat) (options size : Z)
  | WDC_DMAReservedBufLock (h : device_handle) (address options size : Z)
  | WDC_DMABufUnlock (dma : nat).

Record addr_desc := AddrDesc { is_mem : bool; qwBytes : Z; dwItemIndex : nat }.
Record card_item := CardItem { item_type : Z; pPhysicalAddr : Z; io_addr : Z }.
(** The fields of [WDC_DEVICE] the glue reads. *)
Record device := Device {
  has_ctx : bool;                         (** pCtx is not null *)
  dwNumAddrSpaces : Z;
  pAddrDesc : list addr_desc;
  dwCounter : Z; dwLost : Z; fStopped : Z;
  enabled_int_type : Z; enabled_int_last_msg : Z;
  dwItems : nat;
  card_items : list card_item
}.

(** What the handlers are given, and a call of one of them. *)
Record int_result := IntResult { r_counter : Z; r_lost : Z; r_wait : Z; r_type : Z; r_message : Z }.
Definition handler := nat.                (* the address of a function *)
Inductive callback := Interrupt (f : handler) (p : nat) (r : int_result) | Event (f : handler) (p : nat) (action : Z).
(** [GRAMSREADOUT_DEV_CTX] *)
Record dev_ctx := DevCtx { funcDiagIntHandler : option handler; funcDiagEventHandler : option handler }.
#[export] Instance dev_ctx_eta : RecordEta dev_ctx := λ c, DevCtx (funcDiagIntHandler c) (funcDiagEventHandler c).

(** The answers, given the calls so far, the last one included. A status of 0 is
    [WD_STATUS_SUCCESS]. *)
Record wdc := Wdc {
  w_status : list wdc_op → Z;
  w_flag : list wdc_op → bool;
  w_slot : list wdc_op → option nat;      (** the device found *)
  w_handle : list wdc_op → device_handle; (** the device opened *)
  w_new_ctx : list wdc_op → dev_ctx;      (** what its context holds *)
  w_num_vfs : list wdc_op → Z;
  w_lock : list wdc_op → nat * nat → nat * nat; (** pBuf and pDma after a lock, from before *)
  w_device : list wdc_op → nat → option device; (** what a pointer points at *)
  Stat2Str : Z → string;
  w_pointer : string → Z;
  w_overlap : string → string;            (** vsnprintf of a text onto itself: undefined in C *)
  WD_INVALID_PARAMETER : Z; WD_OPERATION_FAILED : Z; WD_OPERATION_ALREADY_DONE : Z; WD_SYSTEM_INTERNAL_ERROR : Z;
  ITEM_INTERRUPT : Z; MAX_NAME : nat; MAX_DESC : nat; WDC_SIZE_64 : nat;
  find_has_slot : bool                    (** WDC_DIAG_DEVICE_FIND_HAS_SLOT *)
}.

Record glue := Glue {
  LibInit_count : Z;
  last_err : string;
  contexts : gmap nat dev_ctx;
  calls : list wdc_op;
  handled : list callback                 (** the handlers called *)
}.
#[export] Instance glue_eta : RecordEta glue := λ s,
  Glue (LibInit_count s) (last_err s) (contexts s) (calls s) (handled s).
Definition new_glue : glue := Glue 0 "" ∅ [] [].

Section glue.
Context (w : wdc).
Notation act := (st_err glue).

Definition ask {A} (op : wdc_op) (answer : list wdc_op → A) : act A := λ s,
  (s <| calls ::= λ l, (l ++ [op])%list |>, Some (answer (calls s ++ [op])%list)).
Definition ask_status (op : wdc_op) : act Z := ask op (w_status w).
Definition ask_flag (op : wdc_op) : act bool := ask op (w_flag w).

(** ** Errors: the buffer holds 256 characters *)
Definition ErrLog (fmt : string) (args : list arg) : act () :=
  st_modify (λ s, s <| last_err := snprintf (w_pointer w) 255 fmt args |>).
Definition GRAMSREADOUT_GetLastErr : act string := λ s, (s, Some (last_err s)).
Definition log_status (fmt : string) (dwStatus : Z) : act () :=
  if (dwStatus =? 0)%Z then st_ret () else ErrLog fmt [ANum dwStatus; AStr (Stat2Str w dwStatus)].

(** The device a handle points at; following another pointer is undefined. *)
Definition deref (p : nat) : act device := λ s, (s, w_device w (calls s) p).
(** None: a null handle or a device without context; the message is then printed
    with its own buffer as the format. *)
Definition IsValidDevice (hDev : device_handle) (sFunc : string) : act (option nat) :=
  let invalid what :=
    st_modify (λ s, s <| last_err :=
      w_overlap w (snprintf (w_pointer w) 255 ("%s: NULL device %s" ++ nl) [AStr sFunc; AStr what]) |>) ;;~
    st_ret None in
  match hDev with
  | None => invalid "handle"
  | Some p => dev <~ deref p ;; if has_ctx dev then st_ret (Some p) else invalid "context"
  end.
Definition ctx_of (p : nat) (s : glue) : dev_ctx := default (DevCtx None None) (contexts s !! p).
Definition set_ctx (p : nat) (f : dev_ctx → dev_ctx) : act () :=
  st_modify (λ s, s <| contexts ::= <[p := f (ctx_of p s)]> |>).

(** ** The library *)
Definition GRAMSREADOUT_LibInit : act Z :=
  st_modify (λ s, s <| LibInit_count ::= λ n, u32 (n + 1) |>) ;;~
  n <~ (λ s, (s, Some (LibInit_count s))) ;;
  if (1 <? n)%Z then st_ret 0%Z
  else
    named <~ ask_flag WDC_DriverName ;;
    if negb named then
      ErrLog ("Failed to set the driver name for WDC library." ++ nl) [] ;;~ st_ret (WD_SYSTEM_INTERNAL_ERROR w)
    else
      dwStatus <~ ask_status WDC_SetDebugOptions ;;
      if negb (dwStatus =? 0)%Z then
        log_status ("Failed to initialize debug options for WDC library." ++ nl ++ "Error 0x%x - %s" ++ nl) dwStatus ;;~
        st_ret dwStatus
      else
        dwStatus <~ ask_status WDC_DriverOpen ;;
        log_status ("Failed to initialize the WDC library. Error 0x%x - %s" ++ nl) dwStatus ;;~
        st_ret dwStatus.
Definition GRAMSREADOUT_LibUninit : act Z :=
  st_modify (λ s, s <| LibInit_count ::= λ n, u32 (n - 1) |>) ;;~
  n <~ (λ s, (s, Some (LibInit_count s))) ;;
  if (0 <? n)%Z then st_ret 0%Z
  else
    dwStatus <~ ask_status WDC_DriverClose ;;
    log_status ("Failed to uninit the WDC library. Error 0x%x - %s" ++ nl) dwStatus ;;~
    st_ret dwStatus.

(** ** Interrupts *)
(** Run by the library, with the pointer of the device. *)
Definition GRAMSREADOUT_IntHandler (p : nat) : act () :=
  dev <~ deref p ;;
  f <~ (λ s, (s, if has_ctx dev then funcDiagIntHandler (ctx_of p s) else None)) ;;
  let r := IntResult (dwCounter dev) (dwLost dev) (fStopped dev) (enabled_int_type dev) (enabled_int_last_msg dev) in
  st_modify (λ s, s <| handled ::= λ l, (l ++ [Interrupt f p r])%list |>).
Definition IsItemExists (dev : device) (item : Z) : bool :=
  existsb (λ i, (item_type i =? item)%Z) (take (dwItems dev) (card_items dev)).

Definition GRAMSREADOUT_IntEnable (hDev : device_handle) (funcIntHandler : option handler) : act Z :=
  valid <~ IsValidDevice hDev "GRAMSREADOUT_IntEnable" ;;
  match valid with
  | None => st_ret (WD_INVALID_PARAMETER w)
  | Some p =>
      dev <~ deref p ;;
      if negb (IsItemExists dev (ITEM_INTERRUPT w)) then st_ret (WD_OPERATION_FAILED w)
      else
        enabled <~ ask_flag (WDC_IntIsEnabled hDev) ;;
        if enabled : bool then
          ErrLog ("Interrupts are already enabled ..." ++ nl) [] ;;~ st_ret (WD_OPERATION_ALREADY_DONE w)
        else
          set_ctx p (λ c, c <| funcDiagIntHandler := funcIntHandler |>) ;;~
          dwStatus <~ ask_status (WDC_IntEnable p) ;;
          log_status ("Failed enabling interrupts. Error 0x%x - %s" ++ nl) dwStatus ;;~
          st_ret dwStatus
  end.
Definition GRAMSREADOUT_IntDisable (hDev : device_handle) : act Z :=
  valid <~ IsValidDevice hDev "GRAMSREADOUT_IntDisable" ;;
  match valid with
  | None => st_ret (WD_INVALID_PARAMETER w)
  | Some p =>
      enabled <~ ask_flag (WDC_IntIsEnabled hDev) ;;
      if negb enabled then
        ErrLog ("Interrupts are already disabled ..." ++ nl) [] ;;~ st_ret (WD_OPERATION_ALREADY_DONE w)
      else
        dwStatus <~ ask_status (WDC_IntDisable p) ;;
        log_status ("Failed disabling interrupts. Error 0x%x - %s" ++ nl) dwStatus ;;~
        st_ret dwStatus
  end.
Definition GRAMSREADOUT_IntIsEnabled (hDev : device_handle) : act bool :=
  valid <~ IsValidDevice hDev "GRAMSREADOUT_IntIsEnabled" ;;
  match valid with None => st_ret false | Some _ => ask_flag (WDC_IntIsEnabled hDev) end.

(** ** Opening and closing a device *)
Definition WDC_DIAG_DeviceFindAndOpenSlot (dwVendorId dwDeviceId slotNumber : Z) : act device_handle :=
  slot <~ ask (WDC_DIAG_DeviceFind dwVendorId dwDeviceId (if find_has_slot w then Some slotNumber else None)) (w_slot w) ;;
  match slot with
  | None => st_ret None
  | Some slot =>
      hDev <~ ask (WDC_DIAG_DeviceOpen slot) (w_handle w) ;;
      (match hDev with
       | Some p => λ s, (s <| contexts ::= <[p := w_new_ctx w (calls s)]> |>, Some ())
       | None => st_ret ()
       end) ;;~
      st_ret hDev
  end.

(** A device without active address space is accepted too. *)
Fixpoint any_active (p n i : nat) : act bool :=
  match n with
  | O => st_ret false
  | S n => active <~ ask_flag (WDC_AddrSpaceIsActive p i) ;; if active : bool then st_ret true else any_active p n (S i)
  end.
Definition DeviceValidate (p : nat) : act bool :=
  dev <~ deref p ;;
  any_active p (Z.to_nat (dwNumAddrSpaces dev)) 0 ;;~
  st_ret true.

Definition GRAMSREADOUT_DeviceClose (hDev : device_handle) : act bool :=
  enabled <~ ask_flag (WDC_IntIsEnabled hDev) ;;
  (if enabled : bool then
     dwStatus <~ GRAMSREADOUT_IntDisable hDev ;;
     log_status ("Failed disabling interrupts. Error 0x%x - %s" ++ nl) dwStatus
   else st_ret ()) ;;~
  ask_flag (WDC_DIAG_DeviceClose hDev).

Definition GRAMSREADOUT_DeviceOpen (dwVendorId dwDeviceId slotNumber : Z) : act device_handle :=
  hDev <~ WDC_DIAG_DeviceFindAndOpenSlot dwVendorId dwDeviceId slotNumber ;;
  valid <~ (match hDev with Some p => DeviceValidate p | None => st_ret false end) ;;
  if valid : bool then st_ret hDev
  else
    (match hDev with Some _ => GRAMSREADOUT_DeviceClose hDev ;;~ st_ret () | None => st_ret () end) ;;~
    ErrLog ("GRAMSREADOUT_DeviceOpen: Failed opening PCI device" ++ nl) [] ;;~
    st_ret None.

(** ** Virtual functions *)
Definition GRAMSREADOUT_SriovEnable (hDev : device_handle) (dwNumVFs : Z) : act Z :=
  valid <~ IsValidDevice hDev "GRAMSREADOUT_SriovEnable" ;;
  match valid with None => st_ret (WD_INVALID_PARAMETER w) | Some p => ask_status (WDC_PciSriovEnable p dwNumVFs) end.
Definition GRAMSREADOUT_SriovDisable (hDev : device_handle) : act Z :=
  valid <~ IsValidDevice hDev "GRAMSREADOUT_SriovDisable" ;;
  match valid with None => st_ret (WD_INVALID_PARAMETER w) | Some p => ask_status (WDC_PciSriovDisable p) end.
(** The status, and what is at [pdwNumVFs] then; it may be null. *)
Definition GRAMSREADOUT_SriovGetNumVFs (hDev : device_handle) (pdwNumVFs : option Z) : act (Z * option Z) :=
  let zeroed := (λ _, 0%Z) <$> pdwNumVFs in
  valid <~ IsValidDevice hDev "GRAMSREADOUT_SriovGetNumVfs" ;;
  match valid with
  | None => st_ret (WD_INVALID_PARAMETER w, zeroed)
  | Some p => ask (WDC_PciSriovGetNumVFs p) (λ l, (w_status w l, (λ _, w_num_vfs w l) <$> pdwNumVFs))
  end.

(** ** Plug-and-play and power management events *)
Definition GRAMSREADOUT_EventHandler (dwAction : Z) (p : nat) : act () :=
  dev <~ deref p ;;
  f <~ (λ s, (s, if has_ctx dev then funcDiagEventHandler (ctx_of p s) else None)) ;;
  st_modify (λ s, s <| handled ::= λ l, (l ++ [Event f p dwAction])%list |>).
Definition GRAMSREADOUT_EventRegister (hDev : device_handle) (funcEventHandler : option handler) : act Z :=
  valid <~ IsValidDevice hDev "GRAMSREADOUT_EventRegister" ;;
  match valid with
  | None => st_ret (WD_INVALID_PARAMETER w)
  | Some p =>
      registered <~ ask_flag (WDC_EventIsRegistered p) ;;
      if registered : bool then
        ErrLog ("Events are already registered ..." ++ nl) [] ;;~ st_ret (WD_OPERATION_ALREADY_DONE w)
      else
        set_ctx p (λ c, c <| funcDiagEventHandler := funcEventHandler |>) ;;~
        dwStatus <~ ask_status (WDC_EventRegister p) ;;
        log_status ("Failed to register events. Error 0x%x - %s" ++ nl) dwStatus ;;~
        st_ret dwStatus
  end.
Definition GRAMSREADOUT_EventUnregister (hDev : device_handle) : act Z :=
  valid <~ IsValidDevice hDev "GRAMSREADOUT_EventUnregister" ;;
  match valid with
  | None => st_ret (WD_INVALID_PARAMETER w)
  | Some p =>
      registered <~ ask_flag (WDC_EventIsRegistered p) ;;
      if negb registered then
        ErrLog ("Cannot unregister events - no events currently registered ..." ++ nl) [] ;;~
        st_ret (WD_OPERATION_ALREADY_DONE w)
      else
        dwStatus <~ ask_status (WDC_EventUnregister p) ;;
        log_status ("Failed to unregister events. Error 0x%x - %s" ++ nl) dwStatus ;;~
        st_ret dwStatus
  end.
Definition GRAMSREADOUT_EventIsRegistered (hDev : device_handle) : act bool :=
  valid <~ IsValidDevice hDev "GRAMSREADOUT_EventIsRegistered" ;;
  match valid with None => st_ret false | Some p => ask_flag (WDC_EventIsRegistered p) end.

(** ** DMA *)
(** [MENU_CTX_DMA]: the handle is behind a pointer. *)
Record menu_ctx := MenuCtx {
  phDev : option device_handle; size : Z; dwOptions : Z; qwAddr : Z; pBuf : nat; pDma : nat }.
#[export] Instance menu_ctx_eta : RecordEta menu_ctx := λ c,
  MenuCtx (phDev c) (size c) (dwOptions c) (qwAddr c) (pBuf c) (pDma c).

(** A lock of the library: the status and the context afterwards. *)
Definition lock (op : device_handle → wdc_op) (c : menu_ctx) : act (Z * menu_ctx) :=
  hDev <~ st_get (phDev c) ;;
  ask (op hDev) (λ l, let '(buf, dma) := w_lock w l (pBuf c, pDma c) in (w_status w l, c <| pBuf := buf |> <| pDma := dma |>)).
Definition GRAMSREADOUT_DmaAllocContig (c : menu_ctx) : act (Z * menu_ctx) :=
  r <~ lock (λ h, WDC_DMAContigBufLock h (dwOptions c) (size c)) c ;;
  (if (r.1 =? 0)%Z then st_ret ()
   else ErrLog ("Failed allocating contiguous memory.size[% lu], Error [0x%x - %s]" ++ nl)
          [ANum (size c); ANum r.1; AStr (Stat2Str w r.1)]) ;;~
  st_ret r.
(** The comma between the two halves of the message makes the second one the first
    argument. *)
Definition GRAMSREADOUT_DmaAllocSg (c : menu_ctx) : act (Z * menu_ctx) :=
  r <~ lock (λ h, WDC_DMASGBufLock h (pBuf c) 0 (size c)) c ;;
  (if (r.1 =? 0)%Z then st_ret ()
   else ErrLog ("Failed allocating user memory for SG. size [%d]" ++ nl)
          [AStr ("Error [0x%x - %s]" ++ nl); ANum (size c); ANum r.1; AStr (Stat2Str w r.1)]) ;;~
  st_ret r.
Definition GRAMSREADOUT_DmaAllocReserved (c : menu_ctx) : act (Z * menu_ctx) :=
  r <~ lock (λ h, WDC_DMAReservedBufLock h (qwAddr c) 0 (size c)) c ;;
  (if (r.1 =? 0)%Z then st_ret ()
   else ErrLog ("Failed claiming reserved memory. size [%d], Error [0x%x - %s]" ++ nl)
          [ANum (size c); ANum r.1; AStr (Stat2Str w r.1)]) ;;~
  st_ret r.
Definition GRAMSREADOUT_DmaBufUnlock (dma : nat) : act Z :=
  dwStatus <~ ask_status (WDC_DMABufUnlock dma) ;;
  log_status ("Failed trying to free DMA memory. Error [0x%x - %s]" ++ nl) dwStatus ;;~
  st_ret dwStatus.

(** ** Address spaces *)
Definition MAX_TYPE : nat := 8.
Record addr_space_info := AddrSpaceInfo { dwAddrSpace : Z; sType : string; sName : string; sDesc : string }.
#[export] Instance addr_space_info_eta : RecordEta addr_space_info := λ i,
  AddrSpaceInfo (dwAddrSpace i) (sType i) (sName i) (sDesc i).

Definition GRAMSREADOUT_GetNumAddrSpaces (hDev : device_handle) : act Z :=
  valid <~ IsValidDevice hDev "GRAMSREADOUT_GetNumAddrSpaces" ;;
  match valid with None => st_ret 0%Z | Some p => dev <~ deref p ;; st_ret (dwNumAddrSpaces dev) end.

Definition range_of (item : card_item) (d : addr_desc) : list arg :=
  let pAddr := if is_mem d then pPhysicalAddr item else io_addr item in
  let digits := Z.of_nat (WDC_SIZE_64 w * 2) in
  [ANum digits; ANum pAddr; ANum digits; ANum (u64 (pAddr + qwBytes d - 1)); ANum (qwBytes d)].
(** The result and the structure afterwards; a null pointer is followed. *)
Definition GRAMSREADOUT_GetAddrSpaceInfo (hDev : device_handle) (pInfo : option addr_space_info) :
    act (bool * option addr_space_info) :=
  valid <~ IsValidDevice hDev "GRAMSREADOUT_GetAddrSpaceInfo" ;;
  match valid with
  | None => st_ret (false, pInfo)
  | Some p =>
      info <~ st_get pInfo ;;
      dev <~ deref p ;;
      let i := dwAddrSpace info in
      let last := u32 (dwNumAddrSpaces dev - 1) in
      if (last <? i)%Z then
        ErrLog ("GRAMSREADOUT_GetAddrSpaceInfo: Error - Address space %d is out of range (0 - %d)" ++ nl) [ANum i; ANum last] ;;~
        st_ret (false, pInfo)
      else
        desc <~ st_get (pAddrDesc dev !! Z.to_nat i) ;;
        let info := info <| sName := snprintf (w_pointer w) (MAX_NAME w - 1) "BAR %d" [ANum i] |>
                         <| sType := snprintf (w_pointer w) (MAX_TYPE - 1) (if is_mem desc then "Memory" else "I/O") [] |> in
        active <~ ask_flag (WDC_AddrSpaceIsActive p (Z.to_nat i)) ;;
        text <~ (if active : bool then
                   item <~ st_get (card_items dev !! dwItemIndex desc) ;;
                   st_ret (snprintf (w_pointer w) (MAX_DESC w - 1) "0x%0*llX - 0x%0*llX (0x%llx bytes)" (range_of item desc))
                 else st_ret (snprintf (w_pointer w) (MAX_DESC w - 1) "Inactive address space" [])) ;;
        st_ret (true, Some (info <| sDesc := text |>))
  end.
End glue.
Local Close Scope string_scope.

(** ** Calls of the interface, and what the library calls back *)
Inductive api :=
  | ALibInit | ALibUninit
  | ADeviceOpen (vendor device slot : Z) | ADeviceClose (h : device_handle)
  | AIntEnable (h : device_handle) (f : handler) | AIntDisable (h : device_handle) | AIntIsEnabled (h : device_handle)
  | AEventRegister (h : device_handle) (f : handler) | AEventUnregister (h : device_handle) | AEventIsRegistered (h : device_handle)
  | CInterrupt (p : nat) | CEvent (p : nat) (action : Z).
Inductive reply := RStatus (z : Z) | RHandle (h : device_handle) | RBool (b : bool) | RDone.

Section calls.
Context (w : wdc).
Notation act := (st_err glue).
Definition replies {A} (f : A → reply) (c : act A) : act reply := a <~ c ;; st_ret (f a).
Definition run_api (c : api) : act reply :=
  match c with
  | ALibInit => replies RStatus (GRAMSREADOUT_LibInit w)
  | ALibUninit => replies RStatus (GRAMSREADOUT_LibUninit w)
  | ADeviceOpen vendor dev slot => replies RHandle (GRAMSREADOUT_DeviceOpen w vendor dev slot)
  | ADeviceClose h => replies RBool (GRAMSREADOUT_DeviceClose w h)
  | AIntEnable h f => replies RStatus (GRAMSREADOUT_IntEnable w h (Some f))
  | AIntDisable h => replies RStatus (GRAMSREADOUT_IntDisable w h)
  | AIntIsEnabled h => replies RBool (GRAMSREADOUT_IntIsEnabled w h)
  | AEventRegister h f => replies RStatus (GRAMSREADOUT_EventRegister w h (Some f))
  | AEventUnregister h => replies RStatus (GRAMSREADOUT_EventUnregister w h)
  | AEventIsRegistered h => replies RBool (GRAMSREADOUT_EventIsRegistered w h)
  | CInterrupt p => replies (λ _, RDone) (GRAMSREADOUT_IntHandler w p)
  | CEvent p action => replies (λ _, RDone) (GRAMSREADOUT_EventHandler w action p)
  end.

(** ** What the library knows, from the calls it answered *)
(** [upd] says what a call does to a switch; the last argument of [w]'s answers
    includes that call. *)
Fixpoint switch_from (upd : list wdc_op → wdc_op → bool → bool) (before l : list wdc_op) (b : bool) : bool :=
  match l with
  | [] => b
  | op :: l => switch_from upd (before ++ [op]) l (upd (before ++ [op]) op b)
  end.
Definition switched (upd : list wdc_op → wdc_op → bool → bool) (l : list wdc_op) : bool := switch_from upd [] l false.

#[local] Arguments switched : simpl never.

Definition on_success (l : list wdc_op) (new old : bool) : bool := if (w_status w l =? 0)%Z then new else old.
Definition opens (l : list wdc_op) (p : nat) : bool := bool_decide (w_handle w l = Some p).
Definition int_switch (p : nat) (l : list wdc_op) (op : wdc_op) (b : bool) : bool :=
  match op with
  | WDC_IntEnable q => if q =? p then on_success l true b else b
  | WDC_IntDisable q => if q =? p then on_success l false b else b
  | WDC_DIAG_DeviceOpen _ => if opens l p then false else b
  | _ => b
  end.
Definition event_switch (p : nat) (l : list wdc_op) (op : wdc_op) (b : bool) : bool :=
  match op with
  | WDC_EventRegister q => if q =? p then on_success l true b else b
  | WDC_EventUnregister q => if q =? p then on_success l false b else b
  | WDC_DIAG_DeviceOpen _ => if opens l p then false else b
  | _ => b
  end.
Definition open_switch (p : nat) (l : list wdc_op) (op : wdc_op) (b : bool) : bool :=
  match op with
  | WDC_DIAG_DeviceOpen _ => if opens l p then true else b
  | WDC_DIAG_DeviceClose (Some q) => if q =? p then false else b
  | _ => b
  end.
Definition driver_switch (l : list wdc_op) (op : wdc_op) (b : bool) : bool :=
  match op with
  | WDC_DriverOpen => on_success l true b
  | WDC_DriverClose => on_success l false b
  | _ => b
  end.

(** What the documentation of the library says of its answers. *)
Record lawful : Prop := {
  law_int l p : w_flag w (l ++ [WDC_IntIsEnabled (Some p)]) = switched (int_switch p) l;
  law_event l p : w_flag w (l ++ [WDC_EventIsRegistered p]) = switched (event_switch p) l;
  law_device l p : switched (open_switch p) l = true → ∃ dev, w_device w l p = Some dev ∧ has_ctx dev = true;
  law_codes : WD_INVALID_PARAMETER w ≠ 0%Z ∧ WD_OPERATION_FAILED w ≠ 0%Z ∧ WD_OPERATION_ALREADY_DONE w ≠ 0%Z
}.

Lemma switch_from_snoc upd before l op b :
  switch_from upd before (l ++ [op]) b = upd ((before ++ l) ++ [op]) op (switch_from upd before l b).
Proof.
  revert before b. induction l as [|o l IH]; intros before b; cbn [app switch_from].
  - by rewrite app_nil_r.
  - rewrite IH. by rewrite <- (app_assoc before [o] l).
Qed.
Lemma switched_snoc upd l op : switched upd (l ++ [op]) = upd (l ++ [op]) op (switched upd l).
Proof. unfold switched. by rewrite switch_from_snoc. Qed.

(** ** What the glue promises
    How many users the library has, and for every open device the handlers that
    are served: of interrupts and of events. *)
Record promise := Promise { users : nat; devices : gmap nat dev_ctx }.
Definition known (t : promise) (h : device_handle) : Prop :=
  match h with None => True | Some p => is_Some (devices t !! p) end.
Definition served (field : dev_ctx → option handler) (t : promise) (p : nat) : option handler :=
  devices t !! p ≫= field.
(** What a client may call, and when the library calls back. *)
Definition permitted (t : promise) (c : api) : Prop :=
  match c with
  | ALibInit => (Z.of_nat (users t) < 2 ^ 32 - 1)%Z
  | ALibUninit => 0 < users t
  | ADeviceOpen _ _ _ => True
  | ADeviceClose h | AIntEnable h _ | AIntDisable h | AIntIsEnabled h
  | AEventRegister h _ | AEventUnregister h | AEventIsRegistered h => known t h
  | CInterrupt p => is_Some (served funcDiagIntHandler t p)
  | CEvent p _ => is_Some (served funcDiagEventHandler t p)
  end.
Definition set_device (p : nat) (f : dev_ctx → dev_ctx) (t : promise) : promise :=
  Promise (users t) (alter f p (devices t)).
Definition after_call (t : promise) (c : api) (r : reply) : promise :=
  match c, r with
  | ALibInit, _ => Promise (S (users t)) (devices t)
  | ALibUninit, _ => Promise (users t - 1) (devices t)
  | ADeviceOpen _ _ _, RHandle (Some p) => Promise (users t) (<[p := DevCtx None None]> (devices t))
  | ADeviceClose (Some p), _ => Promise (users t) (delete p (devices t))
  | AIntEnable (Some p) f, RStatus 0 => set_device p (λ c, c <| funcDiagIntHandler := Some f |>) t
  | AIntDisable (Some p), RStatus 0 => set_device p (λ c, c <| funcDiagIntHandler := None |>) t
  | AEventRegister (Some p) f, RStatus 0 => set_device p (λ c, c <| funcDiagEventHandler := Some f |>) t
  | AEventUnregister (Some p), RStatus 0 => set_device p (λ c, c <| funcDiagEventHandler := None |>) t
  | _, _ => t
  end.

(** A second handler is refused while one is served. *)
Definition refuses (h : device_handle) (refused : nat → Prop) (r : reply) : Prop :=
  match h with
  | None => r = RStatus (WD_INVALID_PARAMETER w)
  | Some p => ∃ z, r = RStatus z ∧ (refused p → z ≠ 0%Z)
  end.
Definition tells (h : device_handle) (on : nat → bool) (r : reply) : Prop :=
  r = RBool (match h with None => false | Some p => on p end).
Definition answers (t : promise) (c : api) (r : reply) (before after : list callback) : Prop :=
  match c with
  | ALibInit | ALibUninit => r = RStatus 0
  | ADeviceOpen _ _ _ => ∃ h, r = RHandle h
  | ADeviceClose _ => ∃ b, r = RBool b
  | AIntEnable h _ => refuses h (λ p, is_Some (served funcDiagIntHandler t p)) r
  | AIntDisable h => refuses h (λ p, served funcDiagIntHandler t p = None) r
  | AIntIsEnabled h => tells h (λ p, bool_decide (is_Some (served funcDiagIntHandler t p))) r
  | AEventRegister h _ => refuses h (λ p, is_Some (served funcDiagEventHandler t p)) r
  | AEventUnregister h => refuses h (λ p, served funcDiagEventHandler t p = None) r
  | AEventIsRegistered h => tells h (λ p, bool_decide (is_Some (served funcDiagEventHandler t p))) r
  | CInterrupt p => ∃ f x, served funcDiagIntHandler t p = Some f ∧ after = before ++ [Interrupt f p x]
  | CEvent p action => ∃ f, served funcDiagEventHandler t p = Some f ∧ after = before ++ [Event f p action]
  end.
(** What the library was told: the driver is open while there are users, the devices of
    the promise are those that are open, and what is served of each is on. *)
Definition in_library (t : promise) (l : list wdc_op) : Prop :=
  switched driver_switch l = (0 <? users t) ∧
  ∀ p, switched (open_switch p) l = bool_decide (is_Some (devices t !! p)) ∧
       ∀ c, devices t !! p = Some c →
         switched (int_switch p) l = bool_decide (is_Some (funcDiagIntHandler c)) ∧
         switched (event_switch p) l = bool_decide (is_Some (funcDiagEventHandler c)).
(** Every permitted call returns, answers as promised and leaves the library as promised,
    and so on. *)
Fixpoint follows (cs : list api) (t : promise) (s : glue) : Prop :=
  in_library t (calls s) ∧
  match cs with
  | [] => True
  | c :: cs => permitted t c →
      ∃ s' r, run_api c s = (s', Some r) ∧ answers t c r (handled s) (handled s') ∧ follows cs (after_call t c r) s'
  end.

(** ** The glue keeps its promise *)
Hypothesis Hw : lawful.
(** The library can be initialised and closed. *)
Record library_works : Prop := {
  works_name l : w_flag w (l ++ [WDC_DriverName]) = true;
  works_debug l : w_status w (l ++ [WDC_SetDebugOptions]) = 0%Z;
  works_open l : w_status w (l ++ [WDC_DriverOpen]) = 0%Z;
  works_close l : w_status w (l ++ [WDC_DriverClose]) = 0%Z
}.
Hypothesis Hlib : library_works.

Record device_kept (p : nat) (c : dev_ctx) (s : glue) : Prop := {
  dev_open : switched (open_switch p) (calls s) = true;
  dev_int : switched (int_switch p) (calls s) = bool_decide (is_Some (funcDiagIntHandler c));
  dev_event : switched (event_switch p) (calls s) = bool_decide (is_Some (funcDiagEventHandler c));
  dev_int_ctx f : funcDiagIntHandler c = Some f → funcDiagIntHandler (ctx_of p s) = Some f;
  dev_event_ctx f : funcDiagEventHandler c = Some f → funcDiagEventHandler (ctx_of p s) = Some f
}.
Record kept (t : promise) (s : glue) : Prop := {
  kept_users : LibInit_count s = Z.of_nat (users t);
  kept_driver : switched driver_switch (calls s) = (0 <? users t);
  kept_devices p c : devices t !! p = Some c → device_kept p c s;
  kept_opens p : switched (open_switch p) (calls s) = bool_decide (is_Some (devices t !! p))
}.

(** A call that is no switch of [p], and one that is none at all. *)
Definition about (p : nat) (l : list wdc_op) (op : wdc_op) : Prop :=
  match op with
  | WDC_IntEnable q | WDC_IntDisable q | WDC_EventRegister q | WDC_EventUnregister q
  | WDC_DIAG_DeviceClose (Some q) => q = p
  | WDC_DIAG_DeviceOpen _ => w_handle w l = Some p
  | _ => False
  end.
Definition library_op (op : wdc_op) : Prop := op = WDC_DriverOpen ∨ op = WDC_DriverClose.
Lemma not_about_switches p l op b :
  ¬ about p l op → int_switch p l op b = b ∧ event_switch p l op b = b ∧ open_switch p l op b = b.
Proof.
  intros H. destruct op as [ | | | | | |[q|]|p0 i| |q|q| | | | |q|q| | | | ]; cbn in *; try done;
    try (by destruct (Nat.eqb_spec q p)). unfold opens. by rewrite bool_decide_eq_false_2.
Qed.
Notation push op s := (s <| calls ::= λ l, l ++ [op] |>).
Lemma device_push p c op s : ¬ about p (calls s ++ [op]) op → device_kept p c s → device_kept p c (push op s).
Proof.
  intros Hop [H1 H2 H3 H4 H5]. destruct (not_about_switches p _ op (switched (int_switch p) (calls s)) Hop) as (E & _ & _).
  destruct (not_about_switches p _ op (switched (event_switch p) (calls s)) Hop) as (_ & E' & _).
  destruct (not_about_switches p _ op (switched (open_switch p) (calls s)) Hop) as (_ & _ & E'').
  split; cbn; rewrite ?switched_snoc, ?E, ?E', ?E''; first [done|exact H4|exact H5].
Qed.
Lemma open_push p op l : ¬ about p (l ++ [op]) op → switched (open_switch p) (l ++ [op]) = switched (open_switch p) l.
Proof. intros Hop. rewrite switched_snoc. by apply not_about_switches. Qed.
Lemma kept_push t op s :
  (∀ p, ¬ about p (calls s ++ [op]) op) → ¬ library_op op → kept t s → kept t (push op s).
Proof.
  intros Hop Hlibop [Hu Hd Hdev Hopens]. split; [done| |intros p c H; apply device_push; auto|intros p; by rewrite <- Hopens; apply open_push].
  change (calls (push op s)) with (calls s ++ [op]). rewrite switched_snoc, <- Hd.
  destruct op; try done; exfalso; apply Hlibop; unfold library_op; auto.
Qed.
(** A question, which changes no switch. *)
Definition idle (op : wdc_op) : bool :=
  match op with
  | WDC_DriverOpen | WDC_DriverClose | WDC_DIAG_DeviceOpen _ | WDC_DIAG_DeviceClose _
  | WDC_IntEnable _ | WDC_IntDisable _ | WDC_EventRegister _ | WDC_EventUnregister _ => false
  | _ => true
  end.
Lemma kept_idle t op s : idle op = true → kept t s → kept t (push op s).
Proof. intros Hop. apply kept_push; [intros p Ha; destruct op as [ | | | | | |[?|]| | | | | | | | | | | | | | ]; done|by intros [-> | ->]]. Qed.
(** Messages and handlers called are not part of the promise. *)
Lemma kept_err t err s : kept t s → kept t (s <| last_err := err |>).
Proof. intros [Hu Hd Hdev Hopens]. split; [done..| |done]. intros p c H. by destruct (Hdev p c H). Qed.
Lemma kept_handled t f s : kept t s → kept t (s <| handled ::= f |>).
Proof. intros [Hu Hd Hdev Hopens]. split; [done..| |done]. intros p c H. by destruct (Hdev p c H). Qed.
Lemma log_status_run t fmt z s :
  kept t s → ∃ s', log_status w fmt z s = (s', Some ()) ∧ kept t s' ∧ calls s' = calls s ∧ contexts s' = contexts s
                   ∧ handled s' = handled s ∧ LibInit_count s' = LibInit_count s.
Proof.
  intros Hs. unfold log_status. destruct (z =? 0)%Z; eexists; (split; [reflexivity|]); [done|].
  split; [by apply kept_err|done].
Qed.
Lemma IsValidDevice_known t h name s :
  kept t s → known t h →
  ∃ s', IsValidDevice w h name s = (s', Some h) ∧ kept t s' ∧ handled s' = handled s.
Proof.
  intros Hs Hh. destruct h as [p|]; cbn in Hh.
  - destruct Hh as [c Hc]. destruct (kept_devices _ _ Hs p c Hc) as [Ho _ _ _ _].
    destruct (law_device Hw _ _ Ho) as (dev & Hdev & Hctx).
    exists s. unfold IsValidDevice, st_bind, deref. by rewrite Hdev, Hctx.
  - eexists. split; [reflexivity|]. split; [by apply kept_err|done].
Qed.

Lemma run_bind {A B} (c : act A) (k : A → act B) s s1 a : c s = (s1, Some a) → st_bind c k s = k a s1.
Proof. unfold st_bind. by intros ->. Qed.
Lemma run_ask {A B} op (f : list wdc_op → A) (k : A → act B) s :
  st_bind (ask op f) k s = k (f (calls s ++ [op])) (push op s).
Proof. done. Qed.

(** What a step of the promise asks of the code of a call. *)
Definition promised {A} (t : promise) (c : api) (f : A → reply) (code : act A) (s : glue) : Prop :=
  ∃ s' a, code s = (s', Some a) ∧ answers t c (f a) (handled s) (handled s') ∧ kept (after_call t c (f a)) s'.
(** The code ends with a status that a message may go with. *)
Lemma promised_log t c fmt z s0 s1 :
  handled s1 = handled s0 → answers t c (RStatus z) (handled s0) (handled s0) → kept (after_call t c (RStatus z)) s1 →
  ∃ s' a, (log_status w fmt z ;;~ st_ret z) s1 = (s', Some a) ∧
          answers t c (RStatus a) (handled s0) (handled s') ∧ kept (after_call t c (RStatus a)) s'.
Proof.
  intros Hh Ha Hs. destruct (log_status_run _ fmt z s1 Hs) as (s' & E & Hs' & _ & _ & Hh' & _).
  unfold st_bind. rewrite E. exists s', z. split; [reflexivity|]. by rewrite Hh', Hh.
Qed.

(** The device [p] changes, the others do not. *)
Lemma kept_change t t' p s s' :
  kept t s → users t' = users t → LibInit_count s' = LibInit_count s →
  switched driver_switch (calls s') = switched driver_switch (calls s) →
  (∀ q, q ≠ p → devices t' !! q = devices t !! q ∧ switched (open_switch q) (calls s') = switched (open_switch q) (calls s) ∧
     ∀ c, device_kept q c s → device_kept q c s') →
  (∀ c, devices t' !! p = Some c → device_kept p c s') →
  switched (open_switch p) (calls s') = bool_decide (is_Some (devices t' !! p)) → kept t' s'.
Proof.
  intros [Hu Hd Hdev Hopens] Hut Hcount Hdrv Hothers Hp Hpo. split; [congruence|congruence| |].
  - intros q c Hc. destruct (decide (q = p)) as [->|Hq]; [by apply Hp|].
    destruct (Hothers q Hq) as (Hc' & _ & Hk). apply Hk, Hdev. by rewrite <- Hc'.
  - intros q. destruct (decide (q = p)) as [->|Hq]; [done|]. destruct (Hothers q Hq) as (-> & -> & _). apply Hopens.
Qed.
Lemma device_ctx q p f c s : q ≠ p → device_kept q c s → device_kept q c (s <| contexts ::= <[p := f]> |>).
Proof.
  intros Hq [H1 H2 H3 H4 H5]. assert (ctx_of q (s <| contexts ::= <[p := f]> |>) = ctx_of q s) as E
    by (unfold ctx_of; cbn; by rewrite lookup_insert_ne).
  split; rewrite ?E; done.
Qed.
Lemma ctx_of_set p f s : ctx_of p (s <| contexts ::= <[p := f]> |>) = f.
Proof. unfold ctx_of. cbn. by rewrite lookup_insert_eq. Qed.
Lemma served_known t p c field : devices t !! p = Some c → served field t p = field c.
Proof. unfold served. by intros ->. Qed.


(** A switch of an open device: what it promises then is [c']. *)
Lemma kept_switch t p c c' op s s1 :
  kept t s → devices t !! p = Some c → (∀ q, about q (calls s1 ++ [op]) op → q = p) → ¬ library_op op →
  calls s1 = calls s → LibInit_count s1 = LibInit_count s →
  (∀ q d, q ≠ p → device_kept q d s → device_kept q d s1) →
  device_kept p c' (push op s1) → kept (Promise (users t) (<[p := c']> (devices t))) (push op s1).
Proof.
  intros Hs Hc Hop Hlibop Hcalls Hcount Hothers Hp. apply (kept_change t _ p s); [done|done|done| | | |].
  - change (calls (push op s1)) with (calls s1 ++ [op]). rewrite switched_snoc, Hcalls.
    destruct op; try done; exfalso; apply Hlibop; unfold library_op; auto.
  - intros q Hq. cbn. rewrite lookup_insert_ne by done. split; [done|]. assert (¬ about q (calls s1 ++ [op]) op) as Hno
      by (intros Ha; by apply Hop in Ha). split; [rewrite <- Hcalls; by apply open_push|].
    intros d Hk. apply device_push; [done|]. by apply Hothers.
  - cbn. rewrite lookup_insert_eq. by intros d [= <-].
  - cbn [devices]. rewrite lookup_insert_eq, bool_decide_eq_true_2 by done. apply (dev_open _ _ _ Hp).
Qed.
Lemma after_switch t p f c z :
  devices t !! p = Some c →
  match z with 0%Z => set_device p f t | _ => t end =
    Promise (users t) (<[p := if (z =? 0)%Z then f c else c]> (devices t)).
Proof.
  intros Hc. unfold set_device. destruct (Z.eqb_spec z 0) as [->|Hz].
  - f_equal. apply map_eq. intros q. destruct (decide (q = p)) as [->|Hq].
    + by rewrite lookup_alter_eq, Hc, lookup_insert_eq.
    + by rewrite lookup_alter_ne, lookup_insert_ne.
  - rewrite insert_id by done. by destruct z, t.
Qed.
(** The four switches, with the status [z] they end with. *)
Ltac switch z :=
  split; unfold ctx_of; cbn; rewrite ?switched_snoc, ?lookup_insert_eq; cbn; rewrite ?Nat.eqb_refl; unfold on_success;
    fold z; try destruct (z =? 0)%Z; cbn; try done; try congruence; intros g; congruence.
Lemma kept_int_enable t p f c s :
  kept t s → devices t !! p = Some c → funcDiagIntHandler c = None →
  kept (after_call t (AIntEnable (Some p) f) (RStatus (w_status w (calls s ++ [WDC_IntEnable p]))))
    (push (WDC_IntEnable p) (s <| contexts ::= <[p := (ctx_of p s) <| funcDiagIntHandler := Some f |>]> |>)).
Proof.
  intros Hs Hc Hoff. unfold after_call. set (z := w_status w _). rewrite (after_switch t p _ c _ Hc).
  apply (kept_switch t p c _ _ s); [done|done|by intros q|by intros [|]|done|done|by intros; apply device_ctx|].
  destruct (kept_devices _ _ Hs p c Hc) as [H1 H2 H3 H4 H5]. switch z.
Qed.
Lemma kept_int_disable t p c s :
  kept t s → devices t !! p = Some c →
  kept (after_call t (AIntDisable (Some p)) (RStatus (w_status w (calls s ++ [WDC_IntDisable p])))) (push (WDC_IntDisable p) s).
Proof.
  intros Hs Hc. unfold after_call. set (z := w_status w _). rewrite (after_switch t p _ c _ Hc).
  apply (kept_switch t p c _ _ s); [done|done|by intros q|by intros [|]|done|done|done|].
  destruct (kept_devices _ _ Hs p c Hc) as [H1 H2 H3 H4 H5]. switch z.
Qed.
Lemma kept_event_register t p f c s :
  kept t s → devices t !! p = Some c → funcDiagEventHandler c = None →
  kept (after_call t (AEventRegister (Some p) f) (RStatus (w_status w (calls s ++ [WDC_EventRegister p]))))
    (push (WDC_EventRegister p) (s <| contexts ::= <[p := (ctx_of p s) <| funcDiagEventHandler := Some f |>]> |>)).
Proof.
  intros Hs Hc Hoff. unfold after_call. set (z := w_status w _). rewrite (after_switch t p _ c _ Hc).
  apply (kept_switch t p c _ _ s); [done|done|by intros q|by intros [|]|done|done|by intros; apply device_ctx|].
  destruct (kept_devices _ _ Hs p c Hc) as [H1 H2 H3 H4 H5]. switch z.
Qed.
Lemma kept_event_unregister t p c s :
  kept t s → devices t !! p = Some c →
  kept (after_call t (AEventUnregister (Some p)) (RStatus (w_status w (calls s ++ [WDC_EventUnregister p]))))
    (push (WDC_EventUnregister p) s).
Proof.
  intros Hs Hc. unfold after_call. set (z := w_status w _). rewrite (after_switch t p _ c _ Hc).
  apply (kept_switch t p c _ _ s); [done|done|by intros q|by intros [|]|done|done|done|].
  destruct (kept_devices _ _ Hs p c Hc) as [H1 H2 H3 H4 H5]. switch z.
Qed.

(** A call that is refused: nothing changes but the message. *)
Definition may_refuse (c : api) (h : device_handle) : Prop :=
  match c with
  | AIntEnable h' _ | AIntDisable h' | AEventRegister h' _ | AEventUnregister h' => h' = h
  | _ => False
  end.
Lemma refused t h c z s before after :
  kept t s → may_refuse c h → z ≠ 0%Z → (h = None → z = WD_INVALID_PARAMETER w) →
  answers t c (RStatus z) before after ∧ kept (after_call t c (RStatus z)) s.
Proof.
  intros Hs Hc Hz Hnull. destruct c; cbn in Hc; try done; subst; cbn;
    (split; [destruct h; cbn; [by exists z|by rewrite Hnull]|]); destruct h; try done; by destruct z.
Qed.
(** The code of a guarded call, after the handle was found valid. *)
Lemma promised_valid {A} t h c (f : A → reply) name (a : A) (k : nat → act A) s :
  kept t s → known t h →
  (∀ s, h = None → kept t s → answers t c (f a) (handled s) (handled s) ∧ kept (after_call t c (f a)) s) →
  (∀ p d s, h = Some p → devices t !! p = Some d → kept t s → promised t c f (k p) s) →
  promised t c f (valid <~ IsValidDevice w h name ;; match valid with None => st_ret a | Some p => k p end) s.
Proof.
  intros Hs Hh Hnull Hk. unfold promised.
  destruct (IsValidDevice_known t h name s Hs Hh) as (s1 & E1 & Hs1 & <-). rewrite (run_bind _ _ _ _ _ E1).
  destruct h as [p|]; [destruct Hh as [d Hd]; by eapply Hk|]. destruct (Hnull s1); [done|done|]. by eexists _, _.
Qed.
Lemma promised_refused t h c fmt z s :
  kept t s → may_refuse c h → z ≠ 0%Z → (h = None → z = WD_INVALID_PARAMETER w) →
  promised t c RStatus (ErrLog w fmt [] ;;~ st_ret z) s.
Proof.
  intros Hs Hc Hz Hnull. eexists _, _. split; [reflexivity|]. eapply refused; try done. by apply kept_err.
Qed.
Notation asked op s := (push op s).
(** The question before a switch. *)
Lemma int_is_enabled t p d s :
  kept t s → devices t !! p = Some d →
  w_flag w (calls s ++ [WDC_IntIsEnabled (Some p)]) = bool_decide (is_Some (funcDiagIntHandler d)).
Proof. intros Hs Hd. rewrite (law_int Hw). by apply (dev_int _ _ _ (kept_devices _ _ Hs p d Hd)). Qed.
Lemma event_is_registered t p d s :
  kept t s → devices t !! p = Some d →
  w_flag w (calls s ++ [WDC_EventIsRegistered p]) = bool_decide (is_Some (funcDiagEventHandler d)).
Proof. intros Hs Hd. rewrite (law_event Hw). by apply (dev_event _ _ _ (kept_devices _ _ Hs p d Hd)). Qed.

Lemma IntEnable_promised t h f s :
  kept t s → known t h → promised t (AIntEnable h f) RStatus (GRAMSREADOUT_IntEnable w h (Some f)) s.
Proof.
  intros Hs Hh. pose proof (law_codes Hw) as (Hinv & Hfail & Hdone). apply promised_valid; [done|done|by intros; eapply refused|].
  clear s Hs. intros p d s -> Hd Hs. destruct (law_device Hw _ _ (dev_open _ _ _ (kept_devices _ _ Hs p d Hd))) as (dev & Hdev & _).
  unfold promised. rewrite (run_bind _ _ s s dev) by (unfold deref; by rewrite Hdev).
  destruct (negb _); [by eexists _, _; split; [reflexivity|]; eapply refused|].
  unfold ask_flag. rewrite run_ask, (int_is_enabled _ _ _ _ Hs Hd).
  assert (kept t (asked (WDC_IntIsEnabled (Some p)) s)) as Hs2 by by apply kept_idle.
  case_bool_decide as Hon; [by apply (promised_refused _ (Some p) (AIntEnable (Some p) f) _ _ _ Hs2)|].
  unfold set_ctx. rewrite (run_bind _ _ _ _ () (eq_refl _)). unfold ask_status. rewrite run_ask.
  apply promised_log; [done| |apply (kept_int_enable _ p f d _ Hs2 Hd); by apply eq_None_not_Some].
  eexists. split; [done|]. by rewrite (served_known _ _ _ _ Hd).
Qed.
Lemma IntDisable_promised t h s :
  kept t s → known t h → promised t (AIntDisable h) RStatus (GRAMSREADOUT_IntDisable w h) s.
Proof.
  intros Hs Hh. pose proof (law_codes Hw) as (Hinv & _ & Hdone). apply promised_valid; [done|done|by intros; eapply refused|].
  clear s Hs. intros p d s -> Hd Hs. unfold promised, ask_flag. rewrite run_ask, (int_is_enabled _ _ _ _ Hs Hd).
  assert (kept t (asked (WDC_IntIsEnabled (Some p)) s)) as Hs2 by by apply kept_idle.
  case_bool_decide as Hon; cbn [negb]; [|by apply (promised_refused _ (Some p) (AIntDisable (Some p)) _ _ _ Hs2)].
  unfold ask_status. rewrite run_ask.
  apply promised_log; [done| |apply (kept_int_disable _ p d _ Hs2 Hd)].
  eexists. split; [done|]. rewrite (served_known _ _ _ _ Hd). intros E. rewrite E in Hon. by destruct Hon.
Qed.
Lemma EventRegister_promised t h f s :
  kept t s → known t h → promised t (AEventRegister h f) RStatus (GRAMSREADOUT_EventRegister w h (Some f)) s.
Proof.
  intros Hs Hh. pose proof (law_codes Hw) as (Hinv & _ & Hdone). apply promised_valid; [done|done|by intros; eapply refused|].
  clear s Hs. intros p d s -> Hd Hs. unfold promised, ask_flag. rewrite run_ask, (event_is_registered _ _ _ _ Hs Hd).
  assert (kept t (asked (WDC_EventIsRegistered p) s)) as Hs2 by by apply kept_idle.
  case_bool_decide as Hon; [by apply (promised_refused _ (Some p) (AEventRegister (Some p) f) _ _ _ Hs2)|].
  unfold set_ctx. rewrite (run_bind _ _ _ _ () (eq_refl _)). unfold ask_status. rewrite run_ask.
  apply promised_log; [done| |apply (kept_event_register _ p f d _ Hs2 Hd); by apply eq_None_not_Some].
  eexists. split; [done|]. by rewrite (served_known _ _ _ _ Hd).
Qed.
Lemma EventUnregister_promised t h s :
  kept t s → known t h → promised t (AEventUnregister h) RStatus (GRAMSREADOUT_EventUnregister w h) s.
Proof.
  intros Hs Hh. pose proof (law_codes Hw) as (Hinv & _ & Hdone). apply promised_valid; [done|done|by intros; eapply refused|].
  clear s Hs. intros p d s -> Hd Hs. unfold promised, ask_flag. rewrite run_ask, (event_is_registered _ _ _ _ Hs Hd).
  assert (kept t (asked (WDC_EventIsRegistered p) s)) as Hs2 by by apply kept_idle.
  case_bool_decide as Hon; cbn [negb]; [|by apply (promised_refused _ (Some p) (AEventUnregister (Some p)) _ _ _ Hs2)].
  unfold ask_status. rewrite run_ask.
  apply promised_log; [done| |apply (kept_event_unregister _ p d _ Hs2 Hd)].
  eexists. split; [done|]. rewrite (served_known _ _ _ _ Hd). intros E. rewrite E in Hon. by destruct Hon.
Qed.
Lemma IntIsEnabled_promised t h s :
  kept t s → known t h → promised t (AIntIsEnabled h) RBool (GRAMSREADOUT_IntIsEnabled w h) s.
Proof.
  intros Hs Hh. apply (promised_valid _ _ _ _ _ _ (λ _, ask_flag w (WDC_IntIsEnabled h))); [done|done|by intros ? -> ?|].
  clear s Hs. intros p d s -> Hd Hs. eexists _, _. split; [reflexivity|]. split; [|by apply kept_idle].
  cbn. unfold tells. by rewrite (int_is_enabled _ _ _ _ Hs Hd), (served_known _ _ _ _ Hd).
Qed.
Lemma EventIsRegistered_promised t h s :
  kept t s → known t h → promised t (AEventIsRegistered h) RBool (GRAMSREADOUT_EventIsRegistered w h) s.
Proof.
  intros Hs Hh. apply promised_valid; [done|done|by intros ? -> ?|].
  clear s Hs. intros p d s -> Hd Hs. eexists _, _. split; [reflexivity|]. split; [|by apply kept_idle].
  cbn. unfold tells. by rewrite (event_is_registered _ _ _ _ Hs Hd), (served_known _ _ _ _ Hd).
Qed.

(** *** The library *)
Lemma kept_library t t' s s' :
  kept t s → devices t' = devices t → LibInit_count s' = Z.of_nat (users t') →
  switched driver_switch (calls s') = (0 <? users t') → (∀ p c, device_kept p c s → device_kept p c s') →
  (∀ p, switched (open_switch p) (calls s') = switched (open_switch p) (calls s)) → kept t' s'.
Proof. intros [_ _ Hdev Hopens] E Hu Hd Hk Ho. split; [done|done|rewrite E; eauto|]. intros p. by rewrite E, Ho. Qed.
Lemma open_quiet p l op : (∀ q l, ¬ about q l op) → switched (open_switch p) (l ++ [op]) = switched (open_switch p) l.
Proof. intros Hop. apply open_push, Hop. Qed.
Lemma device_count p c f s : device_kept p c s → device_kept p c (s <| LibInit_count ::= f |>).
Proof. by intros [? ? ? ? ?]. Qed.

Lemma LibInit_promised t s :
  kept t s → permitted t ALibInit → promised t ALibInit RStatus (GRAMSREADOUT_LibInit w) s.
Proof.
  intros Hs Hn. cbn in Hn. pose proof (kept_users _ _ Hs) as Hu. pose proof (kept_driver _ _ Hs) as Hd.
  unfold GRAMSREADOUT_LibInit. unfold promised. rewrite (run_bind _ _ _ _ () (eq_refl _)).
  set (s1 := s <| LibInit_count ::= λ n, u32 (n + 1) |>). rewrite (run_bind _ _ s1 s1 (LibInit_count s1) (eq_refl _)).
  assert (LibInit_count s1 = Z.of_nat (S (users t))) as Hu1.
  { change (LibInit_count s1) with (u32 (LibInit_count s + 1)). rewrite Hu. unfold u32. rewrite Z.mod_small; lia. }
  rewrite Hu1. destruct (Z.ltb_spec 1 (Z.of_nat (S (users t)))) as [Hmore|Hfirst].
  - eexists s1, 0%Z. split; [reflexivity|]. split; [done|]. apply (kept_library t _ s); [done|done|exact Hu1| |by intros; apply device_count|done].
    change (calls s1) with (calls s). rewrite Hd. cbn [after_call users]. destruct (users t); [lia|done].
  - unfold ask_flag, ask_status. rewrite run_ask, (works_name Hlib). cbn [negb]. rewrite run_ask, (works_debug Hlib). cbn [negb Z.eqb].
    rewrite run_ask, (works_open Hlib). apply (promised_log _ ALibInit); [done|done|].
    set (s2 := push WDC_SetDebugOptions (push WDC_DriverName s1)).
    assert (∀ p c, device_kept p c s → device_kept p c s2) as Hdev.
    { intros p c Hk. apply device_push; [by intros []|]. apply device_push; [by intros []|]. by apply device_count. }
    apply (kept_library t _ s); [done|done|exact Hu1| |intros p c Hk; apply device_push; [by intros []|by apply Hdev]|
      intros p; unfold s2; cbn; by rewrite !(open_quiet p) by (intros ? ?; cbn; tauto)].
    change (calls (push WDC_DriverOpen s2)) with (calls s2 ++ [WDC_DriverOpen]). rewrite switched_snoc. cbn.
    unfold on_success. by rewrite (works_open Hlib).
Qed.
Lemma LibUninit_promised t s :
  kept t s → permitted t ALibUninit → (Z.of_nat (users t) < 2 ^ 32)%Z →
  promised t ALibUninit RStatus (GRAMSREADOUT_LibUninit w) s.
Proof.
  intros Hs Hn Hmax. cbn in Hn. pose proof (kept_users _ _ Hs) as Hu. pose proof (kept_driver _ _ Hs) as Hd.
  unfold GRAMSREADOUT_LibUninit. unfold promised. rewrite (run_bind _ _ _ _ () (eq_refl _)).
  set (s1 := s <| LibInit_count ::= λ n, u32 (n - 1) |>). rewrite (run_bind _ _ s1 s1 (LibInit_count s1) (eq_refl _)).
  assert (LibInit_count s1 = Z.of_nat (users t - 1)) as Hu1.
  { change (LibInit_count s1) with (u32 (LibInit_count s - 1)). rewrite Hu. unfold u32. rewrite Z.mod_small; lia. }
  rewrite Hu1. destruct (Z.ltb_spec 0 (Z.of_nat (users t - 1))) as [Hmore|Hlast].
  - eexists s1, 0%Z. split; [reflexivity|]. split; [done|]. apply (kept_library t _ s); [done|done|exact Hu1| |by intros; apply device_count|done].
    change (calls s1) with (calls s). rewrite Hd. cbn [after_call users]. by rewrite !(proj2 (Nat.ltb_lt _ _)) by lia.
  - unfold ask_status. rewrite run_ask, (works_close Hlib). apply (promised_log _ ALibUninit); [done|done|].
    apply (kept_library t _ s); [done|done|exact Hu1| |intros p c Hk; apply device_push; [by intros []|by apply device_count]|
      intros p; cbn; by rewrite (open_quiet p) by (intros ? ?; cbn; tauto)].
    change (calls (push WDC_DriverClose s1)) with (calls s1 ++ [WDC_DriverClose]). rewrite switched_snoc. cbn [driver_switch after_call users].
    unfold on_success. rewrite (works_close Hlib). cbn [Z.eqb]. symmetry. apply Nat.ltb_ge. lia.
Qed.

(** *** Devices *)
Lemma any_active_run t p n i s :
  kept t s → ∃ s' b, any_active w p n i s = (s', Some b) ∧ kept t s' ∧ handled s' = handled s.
Proof.
  revert i s. induction n as [|n IH]; intros i s Hs; cbn [any_active]; [by exists s, false|].
  unfold ask_flag. rewrite run_ask. set (s1 := push _ s). assert (kept t s1) as Hs1 by by apply kept_idle.
  destruct (w_flag w _); [by exists s1, true|]. destruct (IH (S i) s1 Hs1) as (s' & b & E & Hs' & Hh).
  exists s', b. split; [exact E|]. split; [done|]. by rewrite Hh.
Qed.
Lemma DeviceValidate_run t p s :
  kept t s → is_Some (devices t !! p) →
  ∃ s', DeviceValidate w p s = (s', Some true) ∧ kept t s' ∧ handled s' = handled s.
Proof.
  intros Hs [c Hc]. destruct (law_device Hw _ _ (dev_open _ _ _ (kept_devices _ _ Hs p c Hc))) as (d & Hd & _).
  destruct (any_active_run t p (Z.to_nat (dwNumAddrSpaces d)) 0 s Hs) as (s' & b & E & Hs' & Hh).
  exists s'. unfold DeviceValidate, deref. rewrite (run_bind _ _ s s d) by by rewrite Hd.
  by rewrite (run_bind _ _ _ _ _ E).
Qed.
Lemma kept_opened t p slot x s :
  kept t s → w_handle w (calls s ++ [WDC_DIAG_DeviceOpen slot]) = Some p →
  kept (Promise (users t) (<[p := DevCtx None None]> (devices t))) ((push (WDC_DIAG_DeviceOpen slot) s) <| contexts ::= <[p := x]> |>).
Proof.
  intros Hs Hp. assert (opens (calls s ++ [WDC_DIAG_DeviceOpen slot]) p = true) as Ho
    by (unfold opens; by rewrite bool_decide_eq_true_2).
  apply (kept_change t _ p s); [done|done|done| | | |].
  - transitivity (switched driver_switch (calls s ++ [WDC_DIAG_DeviceOpen slot])); [done|]. by rewrite switched_snoc.
  - intros q Hq. assert (¬ about q (calls s ++ [WDC_DIAG_DeviceOpen slot]) (WDC_DIAG_DeviceOpen slot)) as Hno
      by (cbn; rewrite Hp; by intros [= ->]).
    cbn [devices]. rewrite lookup_insert_ne by done. split; [done|]. split; [by apply open_push|].
    intros d Hk. apply device_ctx; [done|]. by apply device_push.
  - cbn. rewrite lookup_insert_eq. intros d [= <-].
    split; cbn; rewrite ?switched_snoc; cbn; rewrite ?Ho; done.
  - cbn. by rewrite switched_snoc, lookup_insert_eq; cbn; rewrite Ho.
Qed.
Lemma DeviceOpen_promised t vendor dev slot s :
  kept t s → promised t (ADeviceOpen vendor dev slot) RHandle (GRAMSREADOUT_DeviceOpen w vendor dev slot) s.
Proof.
  intros Hs. unfold GRAMSREADOUT_DeviceOpen, WDC_DIAG_DeviceFindAndOpenSlot, promised.
  set (find := WDC_DIAG_DeviceFind _ _ _). assert (kept t (push find s)) as H1 by by apply kept_idle.
  assert (∀ s1, kept t s1 → handled s1 = handled s → ∃ s' a, (valid <~ st_ret false ;; if valid : bool then st_ret None else
    st_ret () ;;~ ErrLog w ("GRAMSREADOUT_DeviceOpen: Failed opening PCI device" +:+ nl) [] ;;~ st_ret None) s1 = (s', Some a) ∧
    answers t (ADeviceOpen vendor dev slot) (RHandle a) (handled s) (handled s') ∧
    kept (after_call t (ADeviceOpen vendor dev slot) (RHandle a)) s') as Hfailed.
  { intros s1 Hs1 Hh. eexists _, None. split; [reflexivity|]. split; [by eexists|]. by apply kept_err. }
  unfold st_bind at 1. rewrite run_ask. destruct (w_slot w _) as [n|]; [|by apply Hfailed].
  rewrite run_ask. destruct (w_handle w _) as [p|] eqn:Hp.
  - pose proof (kept_opened t p n (w_new_ctx w (calls (push (WDC_DIAG_DeviceOpen n) (push find s)))) _ H1 Hp) as H2.
    rewrite (run_bind _ _ _ _ () (eq_refl _)). cbn [st_ret]. set (s2 := _ <| contexts ::= _ |>).
    change (kept (after_call t (ADeviceOpen vendor dev slot) (RHandle (Some p))) s2) in H2.
    destruct (DeviceValidate_run _ p s2 H2) as (s3 & E3 & H3 & Hh3); [by eexists; apply lookup_insert_eq|].
    rewrite (run_bind _ _ _ _ _ E3). eexists _, (Some p). split; [reflexivity|]. split; [by eexists|done].
  - apply Hfailed; [|done]. apply kept_push; [|by intros [|]|done]. intros q Hq. cbn in Hq, Hp. congruence.
Qed.
Lemma disable_others t h r q :
  h ≠ Some q → let t' := after_call t (AIntDisable h) r in users t' = users t ∧ devices t' !! q = devices t !! q.
Proof.
  intros Hq. destruct h as [p|], r as [[]| | |]; try done. split; [done|]. cbn. by rewrite lookup_alter_ne by congruence.
Qed.
Lemma disable_before_close t h s :
  kept t s → known t h →
  ∃ s' t', (if w_flag w (calls s ++ [WDC_IntIsEnabled h]) then
              dwStatus <~ GRAMSREADOUT_IntDisable w h ;;
              log_status w ("Failed disabling interrupts. Error 0x%x - %s" +:+ nl) dwStatus
            else st_ret ()) (push (WDC_IntIsEnabled h) s) = (s', Some ()) ∧
    kept t' s' ∧ users t' = users t ∧ ∀ q, h ≠ Some q → devices t' !! q = devices t !! q.
Proof.
  intros Hs Hh. set (s1 := push _ s). assert (kept t s1) as H1 by by apply kept_idle.
  destruct (w_flag w _); [|by exists s1, t].
  destruct (IntDisable_promised t h s1 H1 Hh) as (s2 & z & E2 & _ & H2). rewrite (run_bind _ _ _ _ _ E2).
  destruct (log_status_run _ ("Failed disabling interrupts. Error 0x%x - %s" +:+ nl) z _ H2) as (s3 & E3 & H3 & _).
  exists s3, (after_call t (AIntDisable h) (RStatus z)). split; [exact E3|]. split; [exact H3|]. split.
  - by destruct h as [p|], z.
  - intros q Hq. by apply disable_others.
Qed.
Lemma DeviceClose_promised t h s :
  kept t s → known t h → promised t (ADeviceClose h) RBool (GRAMSREADOUT_DeviceClose w h) s.
Proof.
  intros Hs Hh. unfold GRAMSREADOUT_DeviceClose, promised, ask_flag. rewrite run_ask.
  destruct (disable_before_close t h s Hs Hh) as (s2 & t2 & E2 & H2 & Hu & Hq). rewrite (run_bind _ _ _ _ _ E2).
  eexists _, _. split; [reflexivity|]. split; [by eexists|]. cbn [after_call]. destruct h as [p|].
  - apply (kept_change t2 _ p s2); [done|by rewrite Hu|done| | | |].
    + change (calls (push (WDC_DIAG_DeviceClose (Some p)) s2)) with (calls s2 ++ [WDC_DIAG_DeviceClose (Some p)]).
      by rewrite switched_snoc.
    + intros q Hne. cbn. rewrite lookup_delete_ne, Hq by congruence. split; [done|].
      split; [apply open_push; cbn; congruence|]. intros d. apply device_push. cbn. congruence.
    + cbn. rewrite lookup_delete_eq. by intros c [=].
    + cbn. rewrite lookup_delete_eq, switched_snoc. cbn. by rewrite Nat.eqb_refl.
  - assert (devices t2 = devices t) as E by (apply map_eq; intros q; by apply Hq).
    destruct t2 as [u2 d2], t as [u d]. cbn in Hu, E. subst. apply kept_push; [by intros q []|by intros [|]|done].
Qed.

(** *** The handlers *)
Lemma Interrupt_promised t p s :
  kept t s → permitted t (CInterrupt p) → promised t (CInterrupt p) (λ _, RDone) (GRAMSREADOUT_IntHandler w p) s.
Proof.
  intros Hs [f Hf]. pose proof Hf as (c & Hc & Hfc)%bind_Some. pose proof (kept_devices _ _ Hs p c Hc) as Hp.
  destruct (law_device Hw _ _ (dev_open _ _ _ Hp)) as (dev & Hdev & Hctx). unfold GRAMSREADOUT_IntHandler, promised.
  rewrite (run_bind _ _ s s dev) by (unfold deref; by rewrite Hdev).
  rewrite (run_bind _ _ s s f) by (by rewrite Hctx, (dev_int_ctx _ _ _ Hp f Hfc)).
  eexists _, (). split; [reflexivity|]. split; [by eexists f, _|]. by apply kept_handled.
Qed.
Lemma Event_promised t p action s :
  kept t s → permitted t (CEvent p action) → promised t (CEvent p action) (λ _, RDone) (GRAMSREADOUT_EventHandler w action p) s.
Proof.
  intros Hs [f Hf]. pose proof Hf as (c & Hc & Hfc)%bind_Some. pose proof (kept_devices _ _ Hs p c Hc) as Hp.
  destruct (law_device Hw _ _ (dev_open _ _ _ Hp)) as (dev & Hdev & Hctx). unfold GRAMSREADOUT_EventHandler, promised.
  rewrite (run_bind _ _ s s dev) by (unfold deref; by rewrite Hdev).
  rewrite (run_bind _ _ s s f) by (by rewrite Hctx, (dev_event_ctx _ _ _ Hp f Hfc)).
  eexists _, (). split; [reflexivity|]. split; [by eexists f|]. by apply kept_handled.
Qed.

Lemma promised_replies {A} t c (f : A → reply) (code : act A) s :
  promised t c f code s →
  ∃ s' r, replies f code s = (s', Some r) ∧ answers t c r (handled s) (handled s') ∧ kept (after_call t c r) s'.
Proof. intros (s' & a & E & H). exists s', (f a). unfold replies. by rewrite (run_bind _ _ _ _ _ E). Qed.
Definition counted (t : promise) : Prop := (Z.of_nat (users t) < 2 ^ 32)%Z.
Lemma counted_after t c r : permitted t c → counted t → counted (after_call t c r).
Proof.
  unfold counted. destruct c as [| |? ? ?|[p|]|[p|]|[p|]|[p|]|[p|]|[p|]|[p|]|p|p]; cbn [after_call users permitted];
    try lia; destruct r as [[]|[]| |]; cbn [users set_device]; lia.
Qed.
Lemma run_api_promised t c s :
  kept t s → counted t → permitted t c →
  ∃ s' r, run_api c s = (s', Some r) ∧ answers t c r (handled s) (handled s') ∧ kept (after_call t c r) s'.
Proof.
  intros Hs Hn Hc. destruct c; apply promised_replies.
  - by apply LibInit_promised.
  - by apply LibUninit_promised.
  - by apply DeviceOpen_promised.
  - by apply DeviceClose_promised.
  - by apply IntEnable_promised.
  - by apply IntDisable_promised.
  - by apply IntIsEnabled_promised.
  - by apply EventRegister_promised.
  - by apply EventUnregister_promised.
  - by apply EventIsRegistered_promised.
  - by apply Interrupt_promised.
  - by apply Event_promised.
Qed.
Lemma kept_in_library t s : kept t s → in_library t (calls s).
Proof.
  intros [_ Hd Hdev Ho]. split; [done|]. intros p. split; [apply Ho|]. intros c Hc. by destruct (Hdev p c Hc).
Qed.
Lemma follows_kept cs t s : kept t s → counted t → follows cs t s.
Proof.
  revert t s. induction cs as [|c cs IH]; intros t s Hs Hn; (split; [by apply kept_in_library|]); [done|]. intros Hc.
  destruct (run_api_promised t c s Hs Hn Hc) as (s' & r & E & Ha & Hs'). exists s', r. split_and!; [done..|].
  apply IH; [done|by apply counted_after].
Qed.
End calls.

(** C32. The glue keeps its promise. The client may call in any order what is [permitted]:
    [LibInit] below 2^32 - 1 users, [LibUninit] with a user, the others on no handle or on
    the handle of an open device; and the library calls back only what is served. Then, over a
    library that can be initialised and closed, every call returns. Before and after
    each call the driver is open exactly while there are users, the devices open are
    those opened and not closed, and the interrupts and events of a device are on exactly
    while a handler is served; a second handler is then refused, and the handler
    called is the one that was accepted, with the device it was given for. *)
Theorem glue_keeps_promise (w : wdc) (cs : list api) :
  lawful w → library_works w → follows w cs (Promise 0 ∅) new_glue.
Proof.
  intros Hw Hlib. apply follows_kept; [done|done| |unfold counted; cbn; lia].
  split; [done|done| |]; intros p; [intros c|]; cbn; by rewrite lookup_empty.
Qed.

(** ** The address spaces *)
Lemma length_take_string n s : String.length (take_string n s) ≤ n.
Proof. revert s. induction n as [|n IH]; intros [|a s]; cbn; try lia. specialize (IH s). lia. Qed.
Lemma snprintf_length w size fmt args : String.length (snprintf (w_pointer w) size fmt args) ≤ size - 1.
Proof. apply length_take_string. Qed.

(** The structures of an open device. *)
Record device_sound (w : wdc) (dev : device) : Prop := {
  sound_ctx : has_ctx dev = true;
  sound_spaces : (0 ≤ dwNumAddrSpaces dev < 2 ^ 32)%Z ∧ length (pAddrDesc dev) = Z.to_nat (dwNumAddrSpaces dev);
  sound_items d : d ∈ pAddrDesc dev → dwItemIndex d < length (card_items dev)
}.
Definition info_fits (w : wdc) (d : addr_desc) (i : addr_space_info) : Prop :=
  sType i = (if is_mem d then "Memory" else "I/O")%string ∧
  String.length (sName i) < MAX_NAME w ∧ String.length (sDesc i) < MAX_DESC w.

(** The description of an address space: on a device with address spaces the
    call returns true exactly for their indices, and what it writes fits its
    buffers; any other index changes nothing. On a device with none the bound it
    compares with wraps, and every index reads past the end of the array. *)
Theorem GetAddrSpaceInfo_bounds (w : wdc) (p : nat) (info : addr_space_info) (dev : device) (s : glue) :
  w_device w (calls s) p = Some dev → device_sound w dev → (0 ≤ dwAddrSpace info < 2 ^ 32)%Z →
  0 < MAX_NAME w → 0 < MAX_DESC w →
  let r := (GRAMSREADOUT_GetAddrSpaceInfo w (Some p) (Some info) s).2 in
  if (dwNumAddrSpaces dev =? 0)%Z then r = None
  else if (dwAddrSpace info <? dwNumAddrSpaces dev)%Z then
    ∃ d info', pAddrDesc dev !! Z.to_nat (dwAddrSpace info) = Some d ∧ r = Some (true, Some info') ∧
               dwAddrSpace info' = dwAddrSpace info ∧ info_fits w d info'
  else r = Some (false, Some info).
Proof.
  intros Hdev [Hctx [Hn Hlen] Hitems] Hi HN HD r. subst r. unfold GRAMSREADOUT_GetAddrSpaceInfo, IsValidDevice, deref.
  rewrite (run_bind _ _ s s (Some p)) by (unfold st_bind; by rewrite Hdev, Hctx).
  rewrite (run_bind _ _ s s info (eq_refl _)), (run_bind _ _ s s dev) by by rewrite Hdev.
  destruct (Z.eqb_spec (dwNumAddrSpaces dev) 0) as [H0|H0].
  { rewrite H0. change (u32 (0 - 1)) with (2 ^ 32 - 1)%Z. rewrite (proj2 (Z.ltb_ge _ _)) by lia.
    unfold st_bind at 1, st_get. by rewrite lookup_ge_None_2 by (rewrite Hlen, H0; cbn; lia). }
  assert (u32 (dwNumAddrSpaces dev - 1) = dwNumAddrSpaces dev - 1)%Z as -> by (unfold u32; apply Z.mod_small; lia).
  destruct (Z.ltb_spec (dwAddrSpace info) (dwNumAddrSpaces dev)) as [Hin|Hout].
  2: { by rewrite (proj2 (Z.ltb_lt _ _)) by lia. }
  rewrite (proj2 (Z.ltb_ge _ _)) by lia.
  destruct (lookup_lt_is_Some_2 (pAddrDesc dev) (Z.to_nat (dwAddrSpace info))) as [d Hd]; [lia|].
  destruct (lookup_lt_is_Some_2 (card_items dev) (dwItemIndex d)) as [item Hitem]; [eapply Hitems, list_elem_of_lookup_2, Hd|].
  rewrite Hd. unfold st_bind at 1, st_get at 1. unfold ask_flag. rewrite run_ask.
  assert (sType (info <| sName := snprintf (w_pointer w) (MAX_NAME w - 1) "BAR %d" [ANum (dwAddrSpace info)] |>
     <| sType := snprintf (w_pointer w) (MAX_TYPE - 1) (if is_mem d then "Memory" else "I/O") [] |>)
     = (if is_mem d then "Memory" else "I/O")%string) as Htype by (by destruct (is_mem d)).
  exists d. destruct (w_flag w _).
  - unfold st_bind, st_get. rewrite Hitem. cbn [st_ret snd]. eexists. split_and!; [done|reflexivity|done|]. split; [exact Htype|].
    cbn. pose proof (snprintf_length w (MAX_NAME w - 1)). pose proof (snprintf_length w (MAX_DESC w - 1)). split; eapply Nat.le_lt_trans; eauto; lia.
  - cbn [st_bind st_ret snd]. eexists. split_and!; [done|reflexivity|done|]. split; [exact Htype|].
    cbn. pose proof (snprintf_length w (MAX_NAME w - 1)). pose proof (snprintf_length w (MAX_DESC w - 1)). split; eapply Nat.le_lt_trans; eauto; lia.
Qed.

(** ** A handle that is null, or of a device without context *)
Definition invalid_handle (w : wdc) (h : device_handle) (s : glue) : Prop :=
  match h with None => True | Some p => ∃ dev, w_device w (calls s) p = Some dev ∧ has_ctx dev = false end.
Lemma IsValidDevice_invalid w h name s :
  invalid_handle w h s → ∃ err, IsValidDevice w h name s = (s <| last_err := err |>, Some None).
Proof.
  destruct h as [p|]; [intros (dev & Hdev & Hctx)|intros _].
  - eexists. unfold IsValidDevice, deref, st_bind. rewrite Hdev, Hctx. reflexivity.
  - by eexists.
Qed.
(** Refused: the error value, a message and nothing else. *)
Definition refuses_with {A} (c : st_err glue A) (a : A) (s : glue) : Prop := ∃ err, c s = (s <| last_err := err |>, Some a).
Lemma invalid_handle_refused w h s f n info :
  invalid_handle w h s →
  refuses_with (GRAMSREADOUT_IntEnable w h f) (WD_INVALID_PARAMETER w) s ∧
  refuses_with (GRAMSREADOUT_IntDisable w h) (WD_INVALID_PARAMETER w) s ∧
  refuses_with (GRAMSREADOUT_IntIsEnabled w h) false s ∧
  refuses_with (GRAMSREADOUT_SriovEnable w h n) (WD_INVALID_PARAMETER w) s ∧
  refuses_with (GRAMSREADOUT_SriovDisable w h) (WD_INVALID_PARAMETER w) s ∧
  refuses_with (GRAMSREADOUT_SriovGetNumVFs w h (Some n)) (WD_INVALID_PARAMETER w, Some 0%Z) s ∧
  refuses_with (GRAMSREADOUT_EventRegister w h f) (WD_INVALID_PARAMETER w) s ∧
  refuses_with (GRAMSREADOUT_EventUnregister w h) (WD_INVALID_PARAMETER w) s ∧
  refuses_with (GRAMSREADOUT_EventIsRegistered w h) false s ∧
  refuses_with (GRAMSREADOUT_GetNumAddrSpaces w h) 0%Z s ∧
  refuses_with (GRAMSREADOUT_GetAddrSpaceInfo w h info) (false, info) s.
Proof.
  intros Hh. assert (∀ {A} name (a : A) (k : nat → st_err glue A),
    refuses_with (valid <~ IsValidDevice w h name ;; match valid with None => st_ret a | Some p => k p end) a s) as H.
  { intros A name a k. destruct (IsValidDevice_invalid w h name s Hh) as [err E]. exists err. by rewrite (run_bind _ _ _ _ _ E). }
  split_and!; apply H.
Qed.

(** ** A library, evaluated *)
Definition demo_device (spaces : nat) : device :=
  Device true (Z.of_nat spaces) (replicate spaces (AddrDesc true 4096 0)) 3 0 0 1 0 1 [CardItem 4 0xf7000000 0].
(** [ok]: whether the driver can be opened. *)
Definition quiet_wdc (ok : list wdc_op → bool) (spaces : nat) : wdc := {|
  w_status l := match last l with
                | Some WDC_DriverOpen => if ok l then 0%Z else 0x20000009%Z
                | Some (WDC_DMASGBufLock _ _ _ _) => 0x20000001%Z
                | _ => 0%Z
                end;
  w_flag _ := true; w_slot _ := Some 1; w_handle _ := Some 1; w_new_ctx _ := DevCtx None None; w_num_vfs _ := 0%Z;
  w_lock _ b := b; w_device _ _ := Some (demo_device spaces); Stat2Str _ := "failed"%string; w_pointer _ := 0x402010%Z; w_overlap _ := ""%string;
  WD_INVALID_PARAMETER := 0x2000000c%Z; WD_OPERATION_FAILED := 0x20000011%Z; WD_OPERATION_ALREADY_DONE := 0x20000010%Z;
  WD_SYSTEM_INTERNAL_ERROR := 0x20000003%Z; ITEM_INTERRUPT := 4%Z; MAX_NAME := 128; MAX_DESC := 128; WDC_SIZE_64 := 8; find_has_slot := true
|}.
(** [q], with the questions answered from what it was told, and the handles [h]. *)
Definition told_wdc (q : wdc) (h : list wdc_op → device_handle) : wdc :=
  let q := {|
    w_status := w_status q; w_flag := w_flag q; w_slot := w_slot q; w_handle := h; w_new_ctx := w_new_ctx q; w_num_vfs := w_num_vfs q;
    w_lock := w_lock q; w_device := w_device q; Stat2Str := Stat2Str q; w_pointer := w_pointer q; w_overlap := w_overlap q;
    WD_INVALID_PARAMETER := WD_INVALID_PARAMETER q; WD_OPERATION_FAILED := WD_OPERATION_FAILED q;
    WD_OPERATION_ALREADY_DONE := WD_OPERATION_ALREADY_DONE q; WD_SYSTEM_INTERNAL_ERROR := WD_SYSTEM_INTERNAL_ERROR q;
    ITEM_INTERRUPT := ITEM_INTERRUPT q; MAX_NAME := MAX_NAME q; MAX_DESC := MAX_DESC q; WDC_SIZE_64 := WDC_SIZE_64 q;
    find_has_slot := find_has_slot q |} in {|
  w_status := w_status q;
  w_flag l := match last l with
              | Some (WDC_IntIsEnabled (Some p)) => switched (int_switch q p) (take (length l - 1) l)
              | Some (WDC_EventIsRegistered p) => switched (event_switch q p) (take (length l - 1) l)
              | _ => true
              end;
  w_slot := w_slot q; w_handle := w_handle q; w_new_ctx := w_new_ctx q; w_num_vfs := w_num_vfs q;
  w_lock := w_lock q; w_device := w_device q; Stat2Str := Stat2Str q; w_pointer := w_pointer q; w_overlap := w_overlap q;
  WD_INVALID_PARAMETER := WD_INVALID_PARAMETER q; WD_OPERATION_FAILED := WD_OPERATION_FAILED q;
  WD_OPERATION_ALREADY_DONE := WD_OPERATION_ALREADY_DONE q; WD_SYSTEM_INTERNAL_ERROR := WD_SYSTEM_INTERNAL_ERROR q;
  ITEM_INTERRUPT := ITEM_INTERRUPT q; MAX_NAME := MAX_NAME q; MAX_DESC := MAX_DESC q; WDC_SIZE_64 := WDC_SIZE_64 q;
  find_has_slot := find_has_slot q
|}.
Definition demo_wdc : wdc := told_wdc (quiet_wdc (λ _, true) 1) (λ _, Some 1).
Lemma take_snoc {A} (l : list A) x : take (length (l ++ [x]) - 1) (l ++ [x]) = l.
Proof. rewrite length_app. cbn. replace (length l + 1 - 1) with (length l) by lia. apply take_app_length. Qed.
Lemma told_lawful q h :
  (∀ l p, ∃ dev, w_device q l p = Some dev ∧ has_ctx dev = true) →
  WD_INVALID_PARAMETER q ≠ 0%Z ∧ WD_OPERATION_FAILED q ≠ 0%Z ∧ WD_OPERATION_ALREADY_DONE q ≠ 0%Z → lawful (told_wdc q h).
Proof.
  intros Hdev Hcodes. split; [| |intros l p _; apply Hdev|exact Hcodes]; intros l p; unfold told_wdc; cbn -[switched take length];
    by rewrite last_snoc, take_snoc.
Qed.
Lemma demo_lawful : lawful demo_wdc.
Proof. apply told_lawful; [|done]. intros l p. by exists (demo_device 1). Qed.
Lemma demo_works : library_works demo_wdc.
Proof. split; intros l; cbn; by rewrite last_snoc. Qed.

(** A second handler is refused and the first one is called. *)
Definition demo_calls : list api :=
  [ALibInit; ADeviceOpen 0x1172 5 1; AIntEnable (Some 1) 70; AIntEnable (Some 1) 71; CInterrupt 1; AIntDisable (Some 1);
   AIntIsEnabled (Some 1); ADeviceClose (Some 1); ALibUninit].
Definition run_calls (w : wdc) (cs : list api) (s : glue) : glue * list (option reply) :=
  foldl (λ st c, let '(s, r) := run_api w c st.1 in (s, st.2 ++ [r])) (s, []) cs.
Example demo_calls_run :
  let '(s, rs) := run_calls demo_wdc demo_calls new_glue in
  rs = [Some (RStatus 0); Some (RHandle (Some 1)); Some (RStatus 0); Some (RStatus 0x20000010); Some RDone; Some (RStatus 0);
        Some (RBool false); Some (RBool true); Some (RStatus 0)] ∧
  handled s = [Interrupt 70 1 (IntResult 3 0 0 1 0)] ∧ last_err s = ("Interrupts are already enabled ..." ++ nl)%string.
Proof. vm_compute. auto. Qed.

Lemma glue_keeps_promise_witness :
  follows demo_wdc demo_calls (Promise 0 ∅) new_glue ∧
  ∃ s r, run_api demo_wdc ALibInit new_glue = (s, Some r) ∧ r = RStatus 0.
Proof.
  pose proof (glue_keeps_promise demo_wdc demo_calls demo_lawful demo_works) as H. split; [exact H|].
  destruct H as [_ H]. destruct H as (s & r & E & Hr & _); [cbn; lia|]. by exists s, r.
Defined.

Definition demo_info (i : Z) : addr_space_info := AddrSpaceInfo i "" "" "".
Lemma demo_sound n : n < 10 → device_sound demo_wdc (demo_device n).
Proof.
  intros Hn. split; cbn -[replicate]; [done| |].
  - rewrite length_replicate. lia.
  - intros d Hd. apply elem_of_replicate in Hd as [-> _]. cbn. lia.
Qed.
Lemma GetAddrSpaceInfo_bounds_witness :
  ∃ d info', (GRAMSREADOUT_GetAddrSpaceInfo demo_wdc (Some 1) (Some (demo_info 0)) new_glue).2 = Some (true, Some info') ∧
             info_fits demo_wdc d info'.
Proof.
  pose proof (GetAddrSpaceInfo_bounds demo_wdc 1 (demo_info 0) (demo_device 1) new_glue eq_refl (demo_sound 1 ltac:(lia))
    ltac:(cbn; lia) ltac:(cbn; lia) ltac:(cbn; lia)) as H.
  cbv zeta in H. change (dwNumAddrSpaces (demo_device 1) =? 0)%Z with false in H.
  change (dwAddrSpace (demo_info 0) <? dwNumAddrSpaces (demo_device 1))%Z with true in H. cbn iota in H.
  destruct H as (d & info' & _ & Hr & _ & Hfit). by exists d, info'.
Defined.
Example demo_description :
  option_map (λ r, sDesc <$> r.2) (GRAMSREADOUT_GetAddrSpaceInfo demo_wdc (Some 1) (Some (demo_info 0)) new_glue).2
  = Some (Some "0x00000000F7000000 - 0x00000000F7000FFF (0x1000 bytes)"%string).
Proof. vm_compute. reflexivity. Qed.

(** *** What it does not do *)
(** An initialisation that fails is counted: the next one returns success without
    opening the driver. *)
Example failed_init_counts :
  let w := quiet_wdc (λ _, false) 1 in
  let '(s, rs) := run_calls w [ALibInit; ALibInit] new_glue in
  rs = [Some (RStatus 0x20000009); Some (RStatus 0)] ∧ switched (driver_switch w) (calls s) = false.
Proof. vm_compute. auto. Qed.
(** One uninitialisation too many wraps the count: the driver is opened once more
    and then not closed. *)
Example uninit_wraps :
  let '(s, rs) := run_calls demo_wdc [ALibUninit; ALibInit; ALibUninit] new_glue in
  rs = [Some (RStatus 0); Some (RStatus 0); Some (RStatus 0)] ∧ switched (driver_switch demo_wdc) (calls s) = true.
Proof. vm_compute. auto. Qed.
(** The message of a failed scatter-gather lock shows an address for the size. *)
Example sg_message :
  let c := MenuCtx (Some (Some 1)) 4096 0 0 0 0 in
  last_err (GRAMSREADOUT_DmaAllocSg (quiet_wdc (λ _, true) 1) c new_glue).1
  = ("Failed allocating user memory for SG. size [4202512]" ++ nl)%string.
Proof. vm_compute. reflexivity. Qed.
(** On a device without address spaces index 0 is not refused. *)
Example no_address_space :
  (GRAMSREADOUT_GetAddrSpaceInfo (quiet_wdc (λ _, true) 0) (Some 1) (Some (demo_info 0)) new_glue).2 = None.
Proof. vm_compute. reflexivity. Qed.
