(* ===== verification/Pcie.v ===== *)
(** * The PCIe cards: [pcie_int::PCIeInterface]
    (src/lib/pcie_driver/pcie_interface.cpp, .h)

    Every access to the WinDriver library, which is not part of the repository,
    is an operation on a bus: the operations are recorded in order and answered
    by a [driver]. The public methods hold one mutex while they run, so each is
    one uninterrupted sequence of bus operations. *)
From Stdlib Require Import Lia ZArith.
From stdpp Require Import base tactics list numbers option sets.
From S2P Require Import Prelude.
Local Open Scope Z_scope.

(** ** Register map and command bits *)
Definition t1_tr_bar : Z := 0.
Definition t2_tr_bar : Z := 4.
Definition cs_bar : Z := 2.
Definition tx_mode_reg : Z := 0x28.
Definition t1_cs_reg : Z := 0x18.
Definition r1_cs_reg : Z := 0x1c.
Definition t2_cs_reg : Z := 0x20.
Definition r2_cs_reg : Z := 0x24.
Definition tx_md_reg : Z := 0x28.
Definition cs_dma_add_low_reg : Z := 0x0.
Definition cs_dma_add_high_reg : Z := 0x4.
Definition cs_dma_by_cnt : Z := 0x8.
Definition cs_dma_cntrl : Z := 0xc.
Definition cs_dma_msi_abort : Z := 0x10.
Definition cs_init : Z := 0x20000000.
Definition cs_start : Z := 0x40000000.
Definition dma_tr1 : Z := 0x100000.
Definition dma_tr12 : Z := 0x300000.
Definition dma_3dw_rec : Z := 0x40.
Definition dma_4dw_rec : Z := 0x60.
Definition dma_in_progress : Z := 0x80000000.
Definition CONFIGDMABUFFSIZE : Z := 100000.
Definition kDev1 : Z := 1.
Definition kDev2 : Z := 2.
(** The number of polls of a transfer before the code gives up. *)
Definition max_polls : nat := Z.to_nat 20000.

(** ** The bus *)
Definition handle := option nat.
Inductive dma_buffer := BufSend | BufRecv | Buf1 | Buf2 | BufTrig.
#[export] Instance dma_buffer_eq_dec : EqDecision dma_buffer.
Proof. solve_decision. Defined.

Inductive bus_op :=
  | LibInit
  | LibUninit
  | DeviceOpen (id slot : Z)
  | DeviceClose (h : handle)
  | BufLock (h : handle) (b : dma_buffer) (size : Z)
  | BufUnlock (b : dma_buffer)
  | StoreSend (words : list Z)  (** stores to the locked send buffer, from its start *)
  | SyncCpu (b : dma_buffer)
  | SyncIo (b : dma_buffer)
  | Write32 (h : handle) (bar off data : Z)
  | Read32 (h : handle) (bar off : Z)
  | Write64 (h : handle) (bar off data : Z)
  | Read64 (h : handle) (bar off : Z)
  | Fault.  (** a null pointer dereferenced, or a buffer overrun: undefined from here on *)
#[export] Instance bus_op_eq_dec : EqDecision bus_op.
Proof. solve_decision. Defined.

(** The answers, given the operations so far, the last one included. A status
    of 0 is [WD_STATUS_SUCCESS]. *)
Record driver := Driver {
  drv_status : list bus_op → Z;
  drv_open : list bus_op → handle;
  drv_lock_addr : list bus_op → Z;        (** physical address of a locked buffer *)
  drv_value : list bus_op → Z;            (** the value a read returns *)
  drv_recv_data : list bus_op → list Z;   (** the receive buffer after its DMA *)
  drv_user_continues : list bus_op → bool (** the operator typed 1 *)
}.

Record pcie := Pcie {
  is_initialized : bool;
  dev_handle_1 : handle;
  dev_handle_2 : handle;
  buf_addr : dma_buffer → option Z;
  buffer_send : list Z;
  bus : list bus_op
}.
#[export] Instance pcie_eta : RecordEta pcie := λ p,
  Pcie (is_initialized p) (dev_handle_1 p) (dev_handle_2 p) (buf_addr p) (buffer_send p) (bus p).

Definition set_buf (b : dma_buffer) (a : option Z) (f : dma_buffer → option Z) : dma_buffer → option Z :=
  λ b', if decide (b' = b) then a else f b'.

Definition new_pcie : pcie := {|
  is_initialized := false; dev_handle_1 := None; dev_handle_2 := None;
  buf_addr := λ _, None; buffer_send := []; bus := []
|}.

Section interface.
Context (drv : driver).
Notation hw := (st pcie).

Definition bus_call (op : bus_op) : hw () := st_update (λ p, p <| bus ::= λ l, l ++ [op] |>).
Definition call_status (op : bus_op) : hw Z := bus_call op ;; st_read (λ p, drv_status drv (bus p)).
Definition call_value (op : bus_op) : hw Z := bus_call op ;; st_read (λ p, drv_value drv (bus p)).

Definition GetDeviceHandle (dev : Z) : hw handle :=
  st_read (λ p, if dev =? 1 then dev_handle_1 p else if dev =? 2 then dev_handle_2 p else None).

(** ** Registers *)
Definition ReadReg32 (dev bar off : Z) : hw Z :=
  h ← GetDeviceHandle dev; call_value (Read32 h bar off).
Definition WriteReg32 (dev bar off data : Z) : hw bool :=
  h ← GetDeviceHandle dev; status ← call_status (Write32 h bar off (u32 data)); mret (status =? 0).
Definition ReadReg64 (dev bar off : Z) : hw Z :=
  h ← GetDeviceHandle dev; call_value (Read64 h bar off).
Definition WriteReg64 (dev bar off data : Z) : hw bool :=
  h ← GetDeviceHandle dev; status ← call_status (Write64 h bar off (u64 data)); mret (status =? 0).

Definition write_cs (h : handle) (off data : Z) : hw () := bus_call (Write32 h cs_bar off (u32 data)).

(** The five register writes of [PCIeDeviceConfigure]; the statuses are added up. *)
Definition PCIeDeviceConfigure : hw bool :=
  h ← st_read dev_handle_2;
  s1 ← call_status (Write32 h 2 t1_cs_reg cs_init);
  s2 ← call_status (Write32 h 2 t2_cs_reg cs_init);
  s3 ← call_status (Write32 h 2 r1_cs_reg cs_init);
  s4 ← call_status (Write32 h 2 r2_cs_reg cs_init);
  s5 ← call_status (Write32 h 2 tx_md_reg 0xfff);
  mret (u32 (s1 + s2 + s3 + s4 + s5) =? 0).

(** ** Sending and receiving buffers *)
(** The number of polls made before the transfer was seen complete. *)
Fixpoint poll_dma (attempts : nat) (i : Z) (h : handle) : hw (Z * bool) :=
  match attempts with
  | O => mret (i, false)
  | S attempts =>
      data ← call_value (Read32 h cs_bar cs_dma_cntrl);
      if Z.land data dma_in_progress =? 0 then mret (i, true)
      else poll_dma attempts (i + 1) h
  end.

Fixpoint send_words (h : handle) (words : list Z) : hw () :=
  match words with
  | [] => mret ()
  | w :: words => bus_call (Write32 h 0 cs_dma_add_low_reg (u32 w)) ;; send_words h words
  end.

Definition addr_low (a : Z) : Z := Z.land a 0xffffffff.
Definition addr_high (a : Z) : Z := Z.land (Z.shiftr a 32) 0xffffffff.
(** [dma_buff->Page]; [dma_buff] is null until the buffer is locked. *)
Definition buf_page (b : dma_buffer) : hw Z :=
  a ← st_read (λ p, buf_addr p b);
  match a with Some a => mret a | None => bus_call Fault ;; mret 0 end.
Definition must (ok : bool) : hw () := if ok then mret () else bus_call Fault.

Definition setup_transmitter (h : handle) (nwrite : Z) : hw () :=
  write_cs h t1_cs_reg cs_init ;; write_cs h t1_cs_reg (cs_start + nwrite).

Definition program_dma (h : handle) (b : dma_buffer) (nbytes command : Z) : hw () :=
  a ← buf_page b;
  write_cs h cs_dma_add_low_reg (addr_low a) ;;
  write_cs h cs_dma_add_high_reg (addr_high a) ;;
  write_cs h cs_dma_by_cnt nbytes ;;
  write_cs h cs_dma_cntrl command.

(** [buff_send] is what the pointer argument points at; returns the poll count. The locked
    buffer is [buffer_send], empty as long as [buffer_send_] is null. *)
Definition PCIeSendBuffer (dev mode nword : Z) (buff_send : list Z) : hw Z :=
  h ← GetDeviceHandle dev;
  let words := take (Z.to_nat nword) buff_send in
  (if mode =? 1 then
     fits ← st_read (λ p, bool_decide (Z.to_nat nword ≤ length (buffer_send p))%nat);
     must fits ;;
     st_update (λ p, p <| buffer_send ::= λ l, take (length l) (words ++ drop (length words) l) |>) ;;
     bus_call (StoreSend words)
   else mret ()) ;;
  let nwrite := u32 (nword * 4) in
  if mode =? 0 then
    setup_transmitter h nwrite ;;
    send_words h words ;;
    r ← poll_dma max_polls 0 h; mret r.1
  else if mode =? 1 then
    bus_call (SyncCpu BufSend) ;;
    setup_transmitter h nwrite ;;
    program_dma h BufSend nwrite dma_tr1 ;;
    r ← poll_dma max_polls 0 h;
    bus_call (SyncIo BufSend) ;;
    mret r.1
  else mret 0.

(** The single-word read: each 64-bit read fills two words, the index moves by one. *)
Fixpoint recv_words (h : handle) (nread : nat) (j : nat) (out : list Z) : hw (list Z) :=
  match nread with
  | O => mret out
  | S nread =>
      d ← call_value (Read64 h 0 cs_dma_add_low_reg);
      recv_words h nread (S j)
        (<[S j := Z.land (Z.shiftr d 32) 0xffffffff]> (<[j := Z.land d 0xffffffff]> out))
  end.

(** Returns the status and the contents of [buff_rec] afterwards. *)
Definition PCIeRecvBuffer (dev mode istart nword ipr_status : Z) (buff_rec : list Z) :
    hw (Z * list Z) :=
  h ← GetDeviceHandle dev;
  if (istart =? 1) || (istart =? 3) then
    write_cs h tx_md_reg 0xf0000008 ;;
    write_cs h r1_cs_reg cs_init ;;
    write_cs h r1_cs_reg (cs_start + nword * 4) ;;
    (if ipr_status =? 1 then call_value (Read64 h cs_bar t1_cs_reg) else mret 0) ;;
    mret (0, buff_rec)
  else if istart =? 2 then
    if mode =? 0 then
      let nread := if nword `mod` 2 =? 0 then nword / 2 else nword / 2 + 1 in
      out ← recv_words h (Z.to_nat nread) 0 buff_rec;
      (if ipr_status =? 1 then call_value (Read64 h cs_bar t1_cs_reg) else mret 0) ;;
      mret (0, out)
    else if mode =? 1 then
      bus_call (SyncCpu BufRecv) ;;
      program_dma h BufRecv (u32 (nword * 4)) (dma_tr1 + dma_3dw_rec) ;;
      r ← poll_dma max_polls 0 h;
      if negb r.2 then mret (1, buff_rec)
      else
        bus_call (SyncIo BufRecv) ;;
        must (nword * 4 <=? CONFIGDMABUFFSIZE) ;;
        data ← st_read (λ p, take (Z.to_nat nword) (drv_recv_data drv (bus p)));
        mret (0, data ++ drop (length data) buff_rec)
    else mret (0, buff_rec)
  else mret (0, buff_rec).

(** ** Opening, locking, freeing *)
Definition lock_buffer (h : handle) (b : dma_buffer) (size : Z) : hw Z :=
  status ← call_status (BufLock h b size);
  (if status =? 0
   then st_update (λ p, p <| buf_addr ::= set_buf b (Some (drv_lock_addr drv (bus p))) |>)
   else mret ()) ;;
  mret status.

Definition open_device (id slot : Z) : hw handle :=
  bus_call (DeviceOpen id slot) ;; st_read (λ p, drv_open drv (bus p)).

Definition close_if_open (h : handle) : hw () :=
  match h with Some _ => bus_call (DeviceClose h) | None => mret () end.

Definition InitPCIeDevices (dev1 dev2 slot_id_0 slot_id_1 : Z) : hw Z :=
  already ← st_read is_initialized;
  if already : bool then mret 1
  else
    status ← call_status LibInit;
    if negb (status =? 0) then mret 0x4
    else
      h1 ← open_device dev1 slot_id_0;
      h2 ← open_device dev2 slot_id_1;
      st_update (λ p, p <| dev_handle_1 := h1 |> <| dev_handle_2 := h2 |>) ;;
      if bool_decide (h1 = None) || bool_decide (h2 = None) then
        close_if_open h1 ;; close_if_open h2 ;;
        st_update (λ p, p <| dev_handle_1 := None |> <| dev_handle_2 := None |>) ;;
        bus_call LibUninit ;;
        mret 0x5
      else
        s1 ← lock_buffer h1 BufSend CONFIGDMABUFFSIZE;
        if negb (s1 =? 0) then mret 0x6
        else
          s2 ← lock_buffer h1 BufRecv CONFIGDMABUFFSIZE;
          if negb (s2 =? 0) then mret 0x6
          else
            let zeros := replicate (Z.to_nat (CONFIGDMABUFFSIZE / 4)) 0 in
            bus_call (StoreSend zeros) ;;
            st_update (λ p, p <| buffer_send := zeros |> <| is_initialized := true |>) ;;
            mret 0x0.

Definition DmaContigBufferLock (buffer size : Z) : hw bool :=
  h1 ← st_read dev_handle_1;
  h2 ← st_read dev_handle_2;
  let go h b :=
    status ← lock_buffer h b size;
    if negb (status =? 0) then st_read (λ p, drv_user_continues drv (bus p)) else mret true in
  if buffer =? 1 then go h2 Buf1
  else if buffer =? 2 then go h2 Buf2
  else if buffer =? 3 then go h1 BufTrig
  else mret false.

Definition free_buffer (b : dma_buffer) : hw bool :=
  a ← st_read (λ p, buf_addr p b);
  match a with
  | None => mret true
  | Some _ =>
      status ← call_status (BufUnlock b);
      st_update (λ p, p <| buf_addr ::= set_buf b None |>) ;;
      mret (status =? 0)
  end.

Definition FreeDmaContigBuffers : hw bool :=
  f1 ← free_buffer Buf1;
  f2 ← free_buffer Buf2;
  f3 ← free_buffer BufTrig;
  mret (f1 && f2 && f3).

Definition buffer_of (buffer_handle : Z) : option dma_buffer :=
  if buffer_handle =? 1 then Some Buf1
  else if buffer_handle =? 2 then Some Buf2
  else if buffer_handle =? 3 then Some BufTrig
  else None.

Definition DmaSyncCpu (buffer_handle : Z) : hw bool :=
  match buffer_of buffer_handle with
  | Some b => status ← call_status (SyncCpu b); mret (status =? 0)
  | None => mret false
  end.
Definition DmaSyncIo (buffer_handle : Z) : hw bool :=
  match buffer_of buffer_handle with
  | Some b => status ← call_status (SyncIo b); mret (status =? 0)
  | None => mret false
  end.
Definition GetBufferPageAddrUpper (buffer_handle : Z) : hw Z :=
  match buffer_of buffer_handle with
  | Some b => a ← buf_page b; mret (addr_high a)
  | None => mret 0
  end.
Definition GetBufferPageAddrLower (buffer_handle : Z) : hw Z :=
  match buffer_of buffer_handle with
  | Some b => a ← buf_page b; mret (addr_low a)
  | None => mret 0
  end.

(** The destructor: buffers, then devices, then the library. *)
Definition close_interface : hw () :=
  free_buffer BufSend ;;
  free_buffer BufRecv ;;
  h1 ← st_read dev_handle_1; close_if_open h1 ;;
  h2 ← st_read dev_handle_2; close_if_open h2 ;;
  init ← st_read is_initialized;
  (if init : bool then bus_call LibUninit else mret ()) ;;
  st_update (λ p, p <| is_initialized := false |>).
End interface.

(** ** Lemmas: an operation appends to the bus and changes nothing else *)
Definition push (ops : list bus_op) (p : pcie) : pcie := p <| bus ::= λ l, l ++ ops |>.

Section lemmas.
Context (drv : driver).
Implicit Types (p : pcie) (h : handle).

Lemma push_push a b p : push b (push a p) = push (a ++ b) p.
Proof. unfold push. cbn. by rewrite app_assoc. Qed.
Lemma push_nil p : push [] p = p.
Proof. unfold push. cbn. rewrite app_nil_r. by destruct p. Qed.
Lemma bus_call_eq op p : bus_call op p = (push [op] p, ()).
Proof. done. Qed.
Lemma call_value_eq op p : call_value drv op p = (push [op] p, drv_value drv (bus p ++ [op])).
Proof. done. Qed.
Lemma call_status_eq op p : call_status drv op p = (push [op] p, drv_status drv (bus p ++ [op])).
Proof. done. Qed.
Lemma write_cs_eq h off data p : write_cs h off data p = (push [Write32 h cs_bar off (u32 data)] p, ()).
Proof. done. Qed.
(** What an access that is not defined leaves on the bus. *)
Definition faults (ok : bool) : list bus_op := if ok then [] else [Fault].
Definition is_locked p b : bool := match buf_addr p b with Some _ => true | None => false end.
Lemma must_eq ok p : must ok p = (push (faults ok) p, ()).
Proof. destruct ok; [|done]. cbn. by rewrite push_nil. Qed.
Lemma buf_page_eq b p : buf_page b p = (push (faults (is_locked p b)) p, default 0 (buf_addr p b)).
Proof. unfold buf_page, is_locked. unfold mbind, st_mbind, st_read. destruct (buf_addr p b); [|done]. cbn. by rewrite push_nil. Qed.
Lemma bind_eq {A B} (c : st pcie A) (k : A → st pcie B) p p' a :
  c p = (p', a) → mbind k c p = k a p'.
Proof. unfold mbind, st_mbind. by intros ->. Qed.

Lemma send_words_eq h ws p :
  send_words h ws p = (push ((λ w, Write32 h 0 cs_dma_add_low_reg (u32 w)) <$> ws) p, ()).
Proof.
  revert p. induction ws as [|w ws IH]; intros p; cbn [send_words].
  - by rewrite push_nil.
  - erewrite bind_eq by apply bus_call_eq. rewrite IH. by rewrite push_push.
Qed.

Definition in_progress (v : Z) : Prop := Z.land v dma_in_progress ≠ 0.

(** [k] polls: all but the last saw the transfer in progress, and the last one
    too when the code gave up after [n]. *)
Definition poll_trace (n k : nat) (done : bool) h p : Prop :=
  (k ≤ n)%nat ∧
  (∀ j, (j < (if done then k - 1 else k))%nat →
     in_progress (drv_value drv (bus p ++ replicate (S j) (Read32 h cs_bar cs_dma_cntrl)))) ∧
  if done
  then (0 < k)%nat ∧
       ¬ in_progress (drv_value drv (bus p ++ replicate k (Read32 h cs_bar cs_dma_cntrl)))
  else k = n.

Lemma poll_dma_spec n i h p :
  ∃ k (done : bool), poll_dma drv n i h p =
    (push (replicate k (Read32 h cs_bar cs_dma_cntrl)) p,
     (i + Z.of_nat (if done then k - 1 else k), done)) ∧ poll_trace n k done h p.
Proof.
  revert i p. induction n as [|n IH]; intros i p; cbn [poll_dma].
  { exists 0%nat, false. cbn. rewrite push_nil, Z.add_0_r. split; [done|].
    split_and!; try done. intros j Hj. lia. }
  erewrite bind_eq by apply call_value_eq.
  set (op := Read32 h cs_bar cs_dma_cntrl) in *.
  destruct (Z.eqb_spec (Z.land (drv_value drv (bus p ++ [op])) dma_in_progress) 0) as [Hdone|Hbusy].
  - exists 1%nat, true. cbn. rewrite Z.add_0_r. split; [done|]. unfold poll_trace, in_progress.
    split_and!; try lia. cbn. tauto.
  - destruct (IH (i + 1) (push [op] p)) as (k & done & -> & Hk & Hbefore & Hlast).
    exists (S k), done. rewrite push_push. split.
    { f_equal. destruct done; cbn; f_equal; destruct Hlast; lia. }
    split_and!; [lia| |].
    + intros [|j] Hj; [done|]. specialize (Hbefore j). cbn in Hbefore.
      rewrite <-app_assoc in Hbefore. apply Hbefore. destruct done; destruct Hlast; lia.
    + destruct done; [|lia]. destruct Hlast as [? Hlast]. cbn in Hlast.
      rewrite <-app_assoc in Hlast. split; [lia|done].
Qed.

(** *** What a transfer puts on the bus *)
Definition setup_ops h (nwrite : Z) : list bus_op :=
  [Write32 h cs_bar t1_cs_reg (u32 cs_init); Write32 h cs_bar t1_cs_reg (u32 (cs_start + nwrite))].
Definition program_ops h (addr nbytes command : Z) : list bus_op :=
  [Write32 h cs_bar cs_dma_add_low_reg (u32 (addr_low addr));
   Write32 h cs_bar cs_dma_add_high_reg (u32 (addr_high addr));
   Write32 h cs_bar cs_dma_by_cnt (u32 nbytes); Write32 h cs_bar cs_dma_cntrl (u32 command)].

Lemma setup_transmitter_eq h n p : setup_transmitter h n p = (push (setup_ops h n) p, ()).
Proof. unfold setup_transmitter. erewrite bind_eq by apply write_cs_eq. by rewrite write_cs_eq, push_push. Qed.

Lemma program_dma_eq h b n c p :
  program_dma h b n c p =
  (push (faults (is_locked p b) ++ program_ops h (default 0 (buf_addr p b)) n c) p, ()).
Proof.
  unfold program_dma. erewrite bind_eq by apply buf_page_eq.
  do 3 (erewrite bind_eq by apply write_cs_eq). by rewrite write_cs_eq, !push_push.
Qed.

(** The bus operations of a send: before the polls, and after them. *)
Definition send_fits (nword : Z) p : bool := bool_decide (Z.to_nat nword ≤ length (buffer_send p))%nat.
Definition send_ops (mode nword : Z) (words : list Z) p : list bus_op :=
  let h := dev_handle_1 p in
  if mode =? 0
  then setup_ops h (nword * 4) ++ ((λ w, Write32 h 0 cs_dma_add_low_reg (u32 w)) <$> words)
  else faults (send_fits nword p) ++ [StoreSend words] ++ [SyncCpu BufSend] ++ setup_ops h (nword * 4) ++
       faults (is_locked p BufSend) ++ program_ops h (default 0 (buf_addr p BufSend)) (nword * 4) dma_tr1.
Definition send_finish (mode : Z) : list bus_op := if mode =? 0 then [] else [SyncIo BufSend].
Definition fill_send (mode : Z) (words : list Z) p : pcie :=
  if mode =? 0 then p else p <| buffer_send ::= λ l, take (length l) (words ++ drop (length words) l) |>.

Lemma PCIeSendBuffer_run mode nword buff p :
  mode = 0 ∨ mode = 1 → 0 ≤ nword < 2 ^ 30 →
  let words := take (Z.to_nat nword) buff in
  ∃ k (done : bool),
    PCIeSendBuffer drv kDev1 mode nword buff p =
      (push ((send_ops mode nword words p ++ replicate k (Read32 (dev_handle_1 p) cs_bar cs_dma_cntrl)) ++
             send_finish mode) (fill_send mode words p),
       Z.of_nat (if done then k - 1 else k)) ∧
    poll_trace max_polls k done (dev_handle_1 p) (push (send_ops mode nword words p) p).
Proof.
  intros Hmode Hn words. set (h := dev_handle_1 p).
  assert (u32 (nword * 4) = nword * 4) as Hu by (unfold u32; rewrite Z.mod_small; lia).
  unfold PCIeSendBuffer. rewrite Hu. erewrite bind_eq by reflexivity. fold words.
  unfold send_ops, send_finish, fill_send. destruct Hmode as [->| ->]; cbn [Z.eqb Pos.eqb].
  - erewrite bind_eq by reflexivity. erewrite bind_eq by apply setup_transmitter_eq.
    erewrite bind_eq by apply send_words_eq.
    change (if kDev1 =? 1 then _ else _) with h. rewrite push_push.
    destruct (poll_dma_spec max_polls 0 h (push (setup_ops h (nword * 4) ++
      ((λ w, Write32 h 0 cs_dma_add_low_reg (u32 w)) <$> words)) p)) as (k & done & Heq & Htrace).
    erewrite bind_eq by exact Heq. exists k, done.
    by rewrite push_push, Z.add_0_l, app_nil_r.
  - set (p1 := p <| buffer_send ::= λ l, take (length l) (words ++ drop (length words) l) |>).
    rewrite (bind_eq _ _ p (push (faults (send_fits nword p) ++ [StoreSend words]) p1) ()).
    2: { erewrite bind_eq by reflexivity. erewrite bind_eq by apply must_eq. erewrite bind_eq by reflexivity.
         rewrite bus_call_eq. subst p1. unfold push. cbn. by rewrite <-app_assoc. }
    erewrite bind_eq by apply bus_call_eq.
    erewrite bind_eq by apply setup_transmitter_eq. erewrite bind_eq by apply program_dma_eq.
    rewrite !push_push. change (if kDev1 =? 1 then _ else _) with h.
    change (buf_addr (push _ p1) BufSend) with (buf_addr p BufSend).
    change (is_locked (push _ p1) BufSend) with (is_locked p BufSend).
    rewrite <-?app_assoc.
    set (before := faults (send_fits nword p) ++ [StoreSend words] ++ [SyncCpu BufSend] ++ setup_ops h _ ++ _).
    destruct (poll_dma_spec max_polls 0 h (push before p1)) as (k & done & Heq & Htrace).
    erewrite bind_eq by exact Heq. erewrite bind_eq by apply bus_call_eq.
    exists k, done. split; [|exact Htrace]. rewrite !push_push, Z.add_0_l. subst before. by rewrite <-!app_assoc.
Qed.

(** A send is defined when the locked buffer, for a DMA, is there and holds the words. *)
Definition send_defined (mode nword : Z) p : bool :=
  (mode =? 0) || (is_locked p BufSend && send_fits nword p).

(** C40. [PCIeSendBuffer] always returns, after at most 20000 polls, and is defined exactly
    when a DMA transfer (mode 1) finds its buffer locked and large enough: it stores past the
    end of the buffer, and through a null pointer, otherwise. When it is defined, a direct
    transfer (mode 0) puts every word of the caller's array on the data register in
    order, between the transmitter setup that announces their byte count and the
    polls; a DMA transfer copies the words to the send buffer, the rest of which it leaves,
    programs that buffer's address and byte count, polls, and hands the buffer back. The
    count returned is below 20000 exactly when a poll saw the transfer complete. *)
Theorem PCIeSendBuffer_transfer mode nword buff p :
  mode = 0 ∨ mode = 1 → 0 ≤ nword < 2 ^ 30 → (Z.to_nat nword ≤ length buff)%nat →
  let h := dev_handle_1 p in
  let words := take (Z.to_nat nword) buff in
  let nwrite := nword * 4 in
  let before :=
    if mode =? 0
    then setup_ops h nwrite ++ ((λ w, Write32 h 0 cs_dma_add_low_reg (u32 w)) <$> words)
    else [StoreSend words; SyncCpu BufSend] ++ setup_ops h nwrite ++
         program_ops h (default 0 (buf_addr p BufSend)) nwrite dma_tr1 in
  let finish := if mode =? 0 then [] else [SyncIo BufSend] in
  let '(p', count) := PCIeSendBuffer drv kDev1 mode nword buff p in
  ∃ ops k (done : bool),
    bus p' = bus p ++ ops ∧ (Fault ∈ ops ↔ send_defined mode nword p = false) ∧
    count = Z.of_nat (if done then k - 1 else k) ∧ (count < 20000 ↔ done = true) ∧
    (send_defined mode nword p = true →
       ops = before ++ replicate k (Read32 h cs_bar cs_dma_cntrl) ++ finish ∧
       poll_trace max_polls k done h (push before p) ∧
       buffer_send p' = if mode =? 0 then buffer_send p else words ++ drop (length words) (buffer_send p)).
Proof.
  intros Hmode Hn Hlen h words nwrite before finish.
  destruct (PCIeSendBuffer_run mode nword buff p Hmode Hn) as (k & done & Hrun & Htrace).
  rewrite Hrun. fold words in Htrace |- *. eexists _, k, done. split; [by destruct Hmode as [-> | ->]|].
  split; [|split; [done|split]].
  - unfold send_defined, send_ops, send_finish.
    assert (Fault ∉ replicate k (Read32 (dev_handle_1 p) cs_bar cs_dma_cntrl)) as Hk
      by (by intros [? _]%elem_of_replicate).
    destruct Hmode as [->| ->]; cbn [Z.eqb Pos.eqb orb]; rewrite ?elem_of_app.
    + split; [|done]. intros [[[Hf|Hf]|Hf]|Hf]; [set_solver|by apply list_elem_of_fmap in Hf as (? & ? & _)|done|set_solver].
    + unfold faults. destruct (is_locked p BufSend), (send_fits nword p); cbn [andb]; set_solver.
  - destruct Htrace as (Hk & _ & Hlast). unfold max_polls in *.
    destruct done; [destruct Hlast|]; split; lia || done.
  - intros Hdef. assert (send_ops mode nword words p = before) as Hops.
    { unfold send_ops. subst before. destruct Hmode as [->| ->]; [done|]. cbn [Z.eqb Pos.eqb].
      unfold send_defined in Hdef. apply andb_true_iff in Hdef as [-> ->]. done. }
    rewrite Hops in *. split; [by rewrite <-app_assoc; destruct Hmode as [->| ->]|]. split; [done|].
    unfold fill_send. destruct Hmode as [->| ->]; [done|]. cbn.
    unfold send_defined, send_fits in Hdef. apply andb_true_iff in Hdef as [_ Hfit%bool_decide_eq_true].
    apply take_ge. rewrite length_app, length_drop. subst words. rewrite length_take. lia.
Qed.

(** A DMA receive (mode 1, istart 2) fills the caller's buffer with the first
    [nword] words the card wrote and returns 0 when a poll saw the transfer
    complete; when 20000 polls did not, it returns 1, leaves the caller's buffer
    as it was and does not read the DMA buffer. *)
Theorem PCIeRecvBuffer_dma nword ipr buff p :
  0 ≤ nword * 4 ≤ CONFIGDMABUFFSIZE → is_locked p BufRecv = true →
  let h := dev_handle_1 p in
  let before := [SyncCpu BufRecv] ++
    program_ops h (default 0 (buf_addr p BufRecv)) (nword * 4) (dma_tr1 + dma_3dw_rec) in
  ∃ k (done : bool),
    poll_trace max_polls k done h (push before p) ∧
    let ops := before ++ replicate k (Read32 h cs_bar cs_dma_cntrl) ++
               (if done then [SyncIo BufRecv] else []) in
    let data := take (Z.to_nat nword) (drv_recv_data drv (bus p ++ ops)) in
    PCIeRecvBuffer drv kDev1 1 2 nword ipr buff p =
      (push ops p, if done then (0, data ++ drop (length data) buff) else (1, buff)).
Proof.
  intros Hn Hlock h before. unfold CONFIGDMABUFFSIZE in Hn.
  assert (u32 (nword * 4) = nword * 4) as Hu by (unfold u32; rewrite Z.mod_small; lia).
  unfold PCIeRecvBuffer. rewrite Hu. erewrite bind_eq by reflexivity.
  cbn [Z.eqb Pos.eqb orb]. change (if kDev1 =? 1 then _ else _) with h.
  erewrite bind_eq by apply bus_call_eq. erewrite bind_eq by apply program_dma_eq.
  change (is_locked (push _ p) BufRecv) with (is_locked p BufRecv). rewrite Hlock, push_push.
  change ([SyncCpu BufRecv] ++ _ ++ _) with before.
  destruct (poll_dma_spec max_polls 0 h (push before p)) as (k & done & Heq & Htrace).
  erewrite bind_eq by exact Heq. exists k, done. split; [done|].
  rewrite push_push. destruct done; cbn [negb snd].
  - erewrite bind_eq by apply bus_call_eq. erewrite bind_eq by apply must_eq.
    rewrite (proj2 (Z.leb_le _ _)) by (unfold CONFIGDMABUFFSIZE; lia). rewrite push_nil. erewrite bind_eq by reflexivity.
    rewrite push_push, <-app_assoc. done.
  - by rewrite app_nil_r.
Qed.

(** A direct receive (mode 0) of two words returns both halves of one read. *)
Lemma PCIeRecvBuffer_two_words ipr a b p :
  ipr ≠ 1 →
  PCIeRecvBuffer drv kDev1 0 2 2 ipr [a; b] p =
    (let op := Read64 (dev_handle_1 p) 0 cs_dma_add_low_reg in
     let d := drv_value drv (bus p ++ [op]) in
     (push [op] p, (0, [Z.land d 0xffffffff; Z.land (Z.shiftr d 32) 0xffffffff]))).
Proof.
  intros Hipr. unfold PCIeRecvBuffer. erewrite bind_eq by reflexivity.
  cbn [Z.eqb Pos.eqb orb Z.modulo Z.div]. by rewrite (proj2 (Z.eqb_neq _ _) Hipr).
Qed.

(** ... but of four words it keeps three of the four halves: the index moves by
    one word for each 64-bit read, so the second read overwrites the upper half
    of the first. *)
Lemma PCIeRecvBuffer_four_words ipr a b c d p :
  ipr ≠ 1 →
  let op := Read64 (dev_handle_1 p) 0 cs_dma_add_low_reg in
  let r1 := drv_value drv (bus p ++ [op]) in
  let r2 := drv_value drv ((bus p ++ [op]) ++ [op]) in
  (PCIeRecvBuffer drv kDev1 0 2 4 ipr [a; b; c; d] p).2 =
    (0, [Z.land r1 0xffffffff; Z.land r2 0xffffffff; Z.land (Z.shiftr r2 32) 0xffffffff; d]).
Proof.
  intros Hipr. unfold PCIeRecvBuffer. erewrite bind_eq by reflexivity.
  cbn [Z.eqb Pos.eqb orb Z.modulo Z.div]. by rewrite (proj2 (Z.eqb_neq _ _) Hipr).
Qed.

(** ** Buffers and devices *)
Definition data_buffers : list dma_buffer := [Buf1; Buf2; BufTrig].

Lemma free_buffer_spec b p :
  let '(p', ok) := free_buffer drv b p in
  bus p' = bus p ++ (if is_locked p b then [BufUnlock b] else []) ∧
  (ok = true ↔ (is_locked p b = true → drv_status drv (bus p ++ [BufUnlock b]) = 0)) ∧
  is_locked p' b = false ∧ ∀ b', b' ≠ b → is_locked p' b' = is_locked p b'.
Proof.
  unfold free_buffer. rewrite (bind_eq _ _ p p (buf_addr p b)) by done. unfold is_locked.
  destruct (buf_addr p b) as [a|] eqn:E.
  - erewrite bind_eq by apply call_status_eq. erewrite bind_eq by reflexivity.
    cbn [mret st_mret]. split; [done|]. rewrite Z.eqb_eq. split; [naive_solver|].
    cbn. unfold set_buf. split; [by rewrite decide_True|]. intros b' Hb'. by rewrite decide_False.
  - cbn [mret st_mret]. rewrite app_nil_r, E. naive_solver.
Qed.

(** [FreeDmaContigBuffers] unlocks each of the three data buffers that is
    locked exactly once, in order, touches no other buffer, and leaves none of the
    three locked whatever the driver answers; it reports success when the driver
    does. *)
Theorem FreeDmaContigBuffers_releases p :
  let '(p', ok) := FreeDmaContigBuffers drv p in
  bus p' = bus p ++ (BufUnlock <$> filter (λ b, is_locked p b = true) data_buffers) ∧
  (∀ b, is_locked p' b = if bool_decide (b ∈ data_buffers) then false else is_locked p b) ∧
  ((∀ ops, drv_status drv ops = 0) → ok = true).
Proof.
  unfold FreeDmaContigBuffers.
  pose proof (free_buffer_spec Buf1 p) as H1. destruct (free_buffer drv Buf1 p) as [p1 f1] eqn:E1.
  pose proof (free_buffer_spec Buf2 p1) as H2. destruct (free_buffer drv Buf2 p1) as [p2 f2] eqn:E2.
  pose proof (free_buffer_spec BufTrig p2) as H3.
  destruct (free_buffer drv BufTrig p2) as [p3 f3] eqn:E3.
  do 2 (erewrite bind_eq by eassumption). erewrite bind_eq by eassumption. cbn [mret st_mret].
  destruct H1 as (B1 & O1 & L1 & K1), H2 as (B2 & O2 & L2 & K2), H3 as (B3 & O3 & L3 & K3).
  rewrite (K1 Buf2) in B2 by done. rewrite K2, K1 in B3 by done. split_and!.
  - rewrite B3, B2, B1, <-!app_assoc. f_equal. unfold data_buffers. cbn.
    by destruct (is_locked p Buf1), (is_locked p Buf2), (is_locked p BufTrig).
  - intros []; cbn; rewrite ?L3, ?K3, ?L2, ?K2, ?L1, ?K1 by done; done.
  - intros Hok. rewrite (proj2 O1), (proj2 O2), (proj2 O3) by (intros; apply Hok). done.
Qed.

Lemma lock_buffer_spec h b size p :
  let '(p', status) := lock_buffer drv h b size p in
  dev_handle_1 p' = dev_handle_1 p ∧ dev_handle_2 p' = dev_handle_2 p ∧
  is_initialized p' = is_initialized p ∧ (status = 0 → is_locked p' b = true) ∧
  (∀ b', is_locked p b' = true → is_locked p' b' = true) ∧ bus p' = bus p ++ [BufLock h b size].
Proof.
  unfold lock_buffer. erewrite bind_eq by apply call_status_eq.
  destruct (Z.eqb_spec (drv_status drv (bus p ++ [BufLock h b size])) 0);
    erewrite bind_eq by reflexivity; cbn; split_and!; try done.
  - intros _. unfold is_locked, set_buf. cbn. by rewrite decide_True.
  - intros b' Hb'. unfold is_locked, set_buf in *. cbn. by case_decide.
Qed.

Lemma close_if_open_eq h p :
  close_if_open h p = (push (match h with Some _ => [DeviceClose h] | None => [] end) p, ()).
Proof. destruct h; cbn; [done|]. by rewrite push_nil. Qed.

(** [InitPCIeDevices] opens the cards once: on an initialised interface it
    does nothing and returns 1. Otherwise it returns 0 exactly when the interface
    becomes initialised, and then both cards are open and both configuration
    buffers locked, so that a send of up to 25000 words is defined; when a card does not open (0x5) every card that did is closed,
    no handle is kept and the library is released. *)
Theorem InitPCIeDevices_result dev1 dev2 slot0 slot1 p :
  let '(p', r) := InitPCIeDevices drv dev1 dev2 slot0 slot1 p in
  if is_initialized p then p' = p ∧ r = 1
  else
    (r = 0 ∧ is_initialized p' = true ∧ is_Some (dev_handle_1 p') ∧ is_Some (dev_handle_2 p') ∧
     is_locked p' BufSend = true ∧ is_locked p' BufRecv = true ∧
     (∀ mode nword, nword ≤ 25000 → send_defined mode nword p' = true)) ∨
    ((r = 4 ∨ r = 5 ∨ r = 6) ∧ is_initialized p' = false ∧
     (r = 5 → dev_handle_1 p' = None ∧ dev_handle_2 p' = None ∧
        ∃ h1 h2, bus p' = bus p ++ [LibInit; DeviceOpen dev1 slot0; DeviceOpen dev2 slot1] ++
          match h1 with Some _ => [DeviceClose h1] | None => [] end ++
          match h2 with Some _ => [DeviceClose h2] | None => [] end ++ [LibUninit] ∧
          h1 = drv_open drv (bus p ++ [LibInit; DeviceOpen dev1 slot0]) ∧
          h2 = drv_open drv (bus p ++ [LibInit; DeviceOpen dev1 slot0; DeviceOpen dev2 slot1]))).
Proof.
  unfold InitPCIeDevices. rewrite (bind_eq _ _ p p (is_initialized p)) by done.
  destruct (is_initialized p) eqn:Hinit; [done|].
  erewrite bind_eq by apply call_status_eq.
  destruct (drv_status drv _ =? 0); cbn [negb]; [|right; split_and!; try done; by left].
  unfold open_device. do 2 (erewrite bind_eq by reflexivity).
  set (h1 := drv_open drv _). set (h2 := drv_open drv _). erewrite bind_eq by reflexivity.
  destruct (bool_decide _ || bool_decide _) eqn:Hnone.
  - cbv iota. do 2 (erewrite bind_eq by apply close_if_open_eq). do 2 (erewrite bind_eq by reflexivity).
    cbn [mret st_mret]. right. split; [tauto|]. split; [done|]. intros _. split; [done|].
    split; [done|]. exists h1, h2. split_and!.
    + cbn [push bus update_field]. by rewrite <-!app_assoc.
    + unfold h1. cbn [push bus update_field]. by rewrite <-!app_assoc.
    + unfold h2. cbn [push bus update_field]. by rewrite <-!app_assoc.
  - apply orb_false_iff in Hnone as [Hn1%bool_decide_eq_false Hn2%bool_decide_eq_false].
    apply not_eq_None_Some in Hn1, Hn2. cbv iota.
    set (p1 := (_ <| dev_handle_1 := _ |>) <| dev_handle_2 := _ |>).
    pose proof (lock_buffer_spec h1 BufSend CONFIGDMABUFFSIZE p1) as Hsend.
    destruct (lock_buffer drv h1 BufSend CONFIGDMABUFFSIZE p1) as [p2 s1] eqn:E1.
    erewrite bind_eq by exact E1. destruct Hsend as (D1 & D2 & D3 & D4 & _ & _).
    destruct (Z.eqb_spec s1 0); cbn [negb]; [|right; split; [by right; right|]; split; [by rewrite D3|done]].
    pose proof (lock_buffer_spec h1 BufRecv CONFIGDMABUFFSIZE p2) as Hrecv.
    destruct (lock_buffer drv h1 BufRecv CONFIGDMABUFFSIZE p2) as [p3 s2] eqn:E2.
    erewrite bind_eq by exact E2. destruct Hrecv as (F1 & F2 & F3 & F4 & F5 & _).
    destruct (Z.eqb_spec s2 0); cbn [negb]; [|right; split; [by right; right|]; split; [by rewrite F3, D3|done]].
    erewrite bind_eq by reflexivity. left. cbn. rewrite F1, F2, D1, D2. split_and!; try done; [exact (F5 BufSend (D4 ltac:(assumption)))|exact (F4 ltac:(assumption))|].
    intros mode nword Hle. unfold send_defined, send_fits. apply orb_true_iff. right. apply andb_true_iff.
    split; [exact (F5 BufSend (D4 ltac:(assumption)))|]. apply bool_decide_eq_true. cbn [buffer_send update_field].
    rewrite length_replicate. change (CONFIGDMABUFFSIZE / 4) with 25000. lia.
Qed.
End lemmas.

(** A card that completes every transfer at the first poll. *)
Definition demo_driver : driver := {|
  drv_status _ := 0; drv_open ops := Some (length ops); drv_lock_addr _ := 0x1000;
  drv_value _ := 0; drv_recv_data _ := [1; 2; 3]; drv_user_continues _ := false
|}.

Definition demo_ready : pcie := (InitPCIeDevices demo_driver 1 2 0 0 new_pcie).1.
(** A direct send on a fresh interface, a DMA on an initialised one, and one on a fresh one. *)
Lemma PCIeSendBuffer_transfer_witness :
  bus (PCIeSendBuffer demo_driver kDev1 0 1 [7] new_pcie).1 =
    setup_ops None 4 ++ [Write32 None 0 cs_dma_add_low_reg 7; Read32 None cs_bar cs_dma_cntrl] ∧
  (∃ ops, bus (PCIeSendBuffer demo_driver kDev1 1 2 [7; 8] demo_ready).1 = bus demo_ready ++ ops ∧ Fault ∉ ops) ∧
  (∃ ops, bus (PCIeSendBuffer demo_driver kDev1 1 2 [7; 8] new_pcie).1 = ops ∧ Fault ∈ ops).
Proof.
  split; [|split].
  - vm_compute. done.
  - pose proof (PCIeSendBuffer_transfer demo_driver 1 2 [7; 8] demo_ready (or_intror eq_refl) ltac:(lia) (le_n 2)) as H.
    destruct (PCIeSendBuffer demo_driver kDev1 1 2 [7; 8] demo_ready) as [p' r].
    destruct H as (ops & k & done & Hbus & Hfault & _). exists ops. split; [exact Hbus|].
    intros Hin. apply Hfault in Hin. revert Hin. vm_compute. discriminate.
  - pose proof (PCIeSendBuffer_transfer demo_driver 1 2 [7; 8] new_pcie (or_intror eq_refl) ltac:(lia) (le_n 2)) as H.
    destruct (PCIeSendBuffer demo_driver kDev1 1 2 [7; 8] new_pcie) as [p' r].
    destruct H as (ops & k & done & Hbus & Hfault & _). exists ops. split; [exact Hbus|]. apply Hfault. reflexivity.
Defined.

Lemma PCIeRecvBuffer_dma_witness :
  ∃ p' r, PCIeRecvBuffer demo_driver kDev1 1 2 2 0 [0; 0; 0] demo_ready = (p', r).
Proof.
  destruct (PCIeRecvBuffer_dma demo_driver 2 0 [0; 0; 0] demo_ready ltac:(unfold CONFIGDMABUFFSIZE; lia) eq_refl) as (k & done & _ & Heq).
  eexists _, _. exact Heq.
Defined.
