(* ===== verification/PcieGlue.v ===== *)
(** * The cards on the glue: what [PCIeInterface] asks of the driver's library

    Pcie.v takes the answers of the driver as a parameter. Here the calls that open and
    close go through the functions of DriverGlue.v, over any lawful vendor library, and
    a life of the interface, from [InitPCIeDevices] to the destructor, is followed. *)
From Stdlib Require Import Lia ZArith.
From stdpp Require Import base tactics list numbers option gmap.
From S2P Require Import Prelude Pcie DriverGlue.
Local Open Scope Z_scope.

(** The calls of the glue among the operations of the bus; the others go to the
    vendor's library directly, and [cards] answers them. *)
Definition api_of (vendor : Z) (op : bus_op) : option api :=
  match op with
  | LibInit => Some ALibInit
  | LibUninit => Some ALibUninit
  | DeviceOpen id slot => Some (ADeviceOpen vendor id slot)
  | DeviceClose h => Some (ADeviceClose h)
  | _ => None
  end.

(** ** The calls of a life *)
Definition close_op (h : handle) : list bus_op := match h with Some _ => [DeviceClose h] | None => [] end.
Definition is_open (h : handle) : bool := match h with Some _ => true | None => false end.
Definition direct (op : bus_op) : Prop := ∀ vendor, api_of vendor op = None.
Definition open_ops (dev1 dev2 slot0 slot1 : Z) : list bus_op := [LibInit; DeviceOpen dev1 slot0; DeviceOpen dev2 slot1].

Lemma InitPCIeDevices_bus drv dev1 dev2 slot0 slot1 :
  let '(p, r) := InitPCIeDevices drv dev1 dev2 slot0 slot1 new_pcie in
  let h1 := drv_open drv [LibInit; DeviceOpen dev1 slot0] in
  let h2 := drv_open drv (open_ops dev1 dev2 slot0 slot1) in
  drv_status drv [LibInit] = 0 →
  if negb (is_open h1 && is_open h2) then
    r = 5 ∧ dev_handle_1 p = None ∧ dev_handle_2 p = None ∧ is_initialized p = false ∧
    bus p = open_ops dev1 dev2 slot0 slot1 ++ close_op h1 ++ close_op h2 ++ [LibUninit]
  else
    (r = 0 ∨ r = 6) ∧ dev_handle_1 p = h1 ∧ dev_handle_2 p = h2 ∧ is_initialized p = (r =? 0) ∧
    ∃ ops, Forall direct ops ∧ bus p = open_ops dev1 dev2 slot0 slot1 ++ ops.
Proof.
  unfold InitPCIeDevices. erewrite bind_eq by reflexivity. change (is_initialized new_pcie) with false. cbv iota.
  erewrite bind_eq by apply call_status_eq. destruct (Z.eqb_spec (drv_status drv (bus new_pcie ++ [LibInit])) 0) as [E|E];
    cbn [negb]; [|by intros ?].
  unfold open_device. do 2 (erewrite bind_eq by reflexivity).
  set (h1 := drv_open drv _). change (drv_open drv [LibInit; DeviceOpen dev1 slot0]) with h1.
  set (h2 := drv_open drv _). change (drv_open drv (open_ops dev1 dev2 slot0 slot1)) with h2.
  erewrite bind_eq by reflexivity.
  match goal with |- context [if ?b then _ ≫= _ else _] => replace b with (negb (is_open h1 && is_open h2)) by (by destruct h1, h2) end.
  destruct (negb (is_open h1 && is_open h2)) eqn:Hnone; cbv iota.
  - do 2 (erewrite bind_eq by apply close_if_open_eq). do 2 (erewrite bind_eq by reflexivity). cbn [mret st_mret]. intros _.
    split_and!; try done. unfold close_op. cbn [push bus update_field]. by rewrite <- !app_assoc.
  - set (p1 := (_ <| dev_handle_1 := _ |>) <| dev_handle_2 := _ |>).
    pose proof (lock_buffer_spec drv h1 BufSend CONFIGDMABUFFSIZE p1) as Hsend.
    destruct (lock_buffer drv h1 BufSend CONFIGDMABUFFSIZE p1) as [p2 s1] eqn:E1.
    erewrite bind_eq by exact E1. destruct Hsend as (D1 & D2 & D3 & _ & _ & D4).
    assert (∀ b ops, Forall direct ops → Forall direct (BufLock h1 b CONFIGDMABUFFSIZE :: ops)) as Hd by (intros; by constructor).
    destruct (Z.eqb_spec s1 0); cbn [negb].
    2: { intros _. split_and!; [by right|done..|]. exists [BufLock h1 BufSend CONFIGDMABUFFSIZE]. split; [by apply Hd|done]. }
    pose proof (lock_buffer_spec drv h1 BufRecv CONFIGDMABUFFSIZE p2) as Hrecv.
    destruct (lock_buffer drv h1 BufRecv CONFIGDMABUFFSIZE p2) as [p3 s2] eqn:E2.
    erewrite bind_eq by exact E2. destruct Hrecv as (F1 & F2 & F3 & _ & _ & F4).
    destruct (Z.eqb_spec s2 0); cbn [negb].
    2: { intros _. rewrite F1, F2, F3, D1, D2, D3. split_and!; [by right|done..|].
         exists [BufLock h1 BufSend CONFIGDMABUFFSIZE; BufLock h1 BufRecv CONFIGDMABUFFSIZE]. split; [by do 2 apply Hd|]. by rewrite F4, D4. }
    set (store := StoreSend _). erewrite bind_eq by reflexivity. intros _. cbn [mret st_mret].
    split_and!; [by left|cbn; by rewrite F1, D1|cbn; by rewrite F2, D2|done|].
    set (locks := [BufLock h1 BufSend CONFIGDMABUFFSIZE; BufLock h1 BufRecv CONFIGDMABUFFSIZE]).
    exists (locks ++ [store]). split; [by do 2 apply Hd; constructor|].
    change (bus p3 ++ [store] = open_ops dev1 dev2 slot0 slot1 ++ locks ++ [store]). by rewrite F4, D4.
Qed.
Lemma close_interface_bus drv p :
  ∃ ops, Forall direct ops ∧ bus (close_interface drv p).1 =
    bus p ++ ops ++ close_op (dev_handle_1 p) ++ close_op (dev_handle_2 p) ++ (if is_initialized p then [LibUninit] else []).
Proof.
  assert (∀ b q, ∃ q' ok ops, free_buffer drv b q = (q', ok) ∧ Forall direct ops ∧ bus q' = bus q ++ ops ∧
    dev_handle_1 q' = dev_handle_1 q ∧ dev_handle_2 q' = dev_handle_2 q ∧ is_initialized q' = is_initialized q) as Hfree.
  { intros b q. unfold free_buffer. rewrite (bind_eq _ _ q q (buf_addr q b)) by done. destruct (buf_addr q b).
    - erewrite bind_eq by apply call_status_eq. erewrite bind_eq by reflexivity. eexists _, _, [BufUnlock b].
      split; [reflexivity|]. split_and!; try done. by repeat constructor.
    - eexists _, _, []. split; [reflexivity|]. by rewrite app_nil_r. }
  destruct (Hfree BufSend p) as (p1 & ok1 & ops1 & E1 & D1 & B1 & H1 & K1 & I1).
  destruct (Hfree BufRecv p1) as (p2 & ok2 & ops2 & E2 & D2 & B2 & H2 & K2 & I2).
  unfold close_interface. do 2 (erewrite bind_eq by eassumption). erewrite bind_eq by reflexivity.
  erewrite bind_eq by apply close_if_open_eq. erewrite bind_eq by reflexivity. erewrite bind_eq by apply close_if_open_eq.
  erewrite bind_eq by reflexivity. exists (ops1 ++ ops2). split; [by apply Forall_app|].
  rewrite H2, H1, <- K1, <- K2, <- I1, <- I2. unfold close_op. cbn [push dev_handle_2 is_initialized update_field].
  destruct (is_initialized p2); erewrite bind_eq by reflexivity; cbn; rewrite B2, B1; rewrite ?app_nil_r, <- !app_assoc; done.
Qed.

Section on_glue.
Context (w : wdc) (vendor : Z) (cards : driver).

(** The glue after the operations, what the last call returned, and what the glue
    has promised. *)
Record account := Account { acc_glue : glue; acc_reply : reply; acc_promise : promise }.
Definition account_step (a : account) (op : bus_op) : account :=
  match api_of vendor op with
  | None => a
  | Some c =>
      let '(s, r) := run_api w c (acc_glue a) in
      let r := default RDone r in
      Account s r (after_call (acc_promise a) c r)
  end.
Definition replay (l : list bus_op) : account := foldl account_step (Account new_glue RDone (Promise 0 ∅)) l.

Definition glue_driver : driver := {|
  drv_status l := match last l, acc_reply (replay l) with
                  | Some LibInit, RStatus z => z
                  | _, _ => drv_status cards l
                  end;
  drv_open l := match acc_reply (replay l) with RHandle h => h | _ => None end;
  drv_lock_addr := drv_lock_addr cards; drv_value := drv_value cards;
  drv_recv_data := drv_recv_data cards; drv_user_continues := drv_user_continues cards
|}.

Lemma replay_snoc l op : replay (l ++ [op]) = account_step (replay l) op.
Proof. unfold replay. by rewrite foldl_app. Qed.
Lemma replay_direct l ops : Forall direct ops → replay (l ++ ops) = replay l.
Proof.
  intros H. revert l. induction H as [|op ops Hop _ IH]; intros l; [by rewrite app_nil_r|].
  change (op :: ops) with ([op] ++ ops). rewrite app_assoc, IH, replay_snoc. unfold account_step. by rewrite Hop.
Qed.

Hypothesis Hw : lawful w.
Hypothesis Hlib : library_works w.
(** The library gives a handle to one open device at a time. *)
Definition fresh_handles : Prop := ∀ l slot p,
  w_handle w (l ++ [WDC_DIAG_DeviceOpen slot]) = Some p → switched (open_switch w p) l = false.
Hypothesis Hfresh : fresh_handles.

(** Every call of the glue was one a client may make: a device that is closed is open,
    the library is released by a user. *)
Definition permitted_calls (l : list bus_op) : Prop :=
  ∀ l1 op l2 c, l = l1 ++ op :: l2 → api_of vendor op = Some c → permitted (acc_promise (replay l1)) c.
Lemma permitted_snoc l op :
  permitted_calls l → (∀ c, api_of vendor op = Some c → permitted (acc_promise (replay l)) c) → permitted_calls (l ++ [op]).
Proof.
  intros Hl Hop l1 o l2 c E Hc. destruct l2 as [|o2 l2 _] using rev_ind.
  - apply app_inj_tail in E as [-> ->]. by apply Hop.
  - rewrite app_comm_cons, app_assoc in E. apply app_inj_tail in E as [-> _]. by eapply Hl.
Qed.
Lemma permitted_direct l ops : Forall direct ops → permitted_calls l → permitted_calls (l ++ ops).
Proof.
  revert l. induction ops as [|op ops IH]; intros l Hops Hl; [by rewrite app_nil_r|]. apply Forall_cons in Hops as [Hop Hops].
  change (op :: ops) with ([op] ++ ops). rewrite app_assoc. apply IH; [done|]. apply permitted_snoc; [done|].
  intros c Hc. by rewrite Hop in Hc.
Qed.
(** The promise is kept after the operations [l]. *)
Definition promised_after (l : list bus_op) (t : promise) : Prop :=
  acc_promise (replay l) = t ∧ kept w t (acc_glue (replay l)) ∧ counted t ∧ permitted_calls l.
Lemma promised_start : promised_after [] (Promise 0 ∅).
Proof.
  split; [done|]. split; [|split; [unfold counted; cbn; lia|by intros [] ?]].
  split; [done|done| |]; intros p; [intros c|]; cbn; by rewrite lookup_empty.
Qed.
Lemma promised_call l op c t :
  api_of vendor op = Some c → promised_after l t → permitted t c →
  ∃ r, acc_reply (replay (l ++ [op])) = r ∧ promised_after (l ++ [op]) (after_call t c r) ∧
       answers w t c r (handled (acc_glue (replay l))) (handled (acc_glue (replay (l ++ [op])))).
Proof.
  intros Hop (<- & Hk & Hn & Hp) Hc. destruct (run_api_promised w Hw Hlib _ c _ Hk Hn Hc) as (s & r & E & Ha & Hk').
  assert (replay (l ++ [op]) = Account s r (after_call (acc_promise (replay l)) c r)) as Er.
  { rewrite replay_snoc. unfold account_step. by rewrite Hop, E. }
  exists r. unfold promised_after. rewrite Er. cbn. split_and!; [done|done|done|by apply counted_after| |done].
  apply permitted_snoc; [done|]. intros c' Hc'. by simplify_eq.
Qed.
Lemma promised_direct l ops t : Forall direct ops → promised_after l t → promised_after (l ++ ops) t.
Proof. intros H (<- & Hk & Hn & Hp). unfold promised_after. rewrite replay_direct by done. split_and!; try done. by apply permitted_direct. Qed.

(** A handle that is given is none of those that are open. *)
Lemma DeviceOpen_fresh t dev slot s s' p :
  kept w t s → GRAMSREADOUT_DeviceOpen w vendor dev slot s = (s', Some (Some p)) → devices t !! p = None.
Proof.
  intros Hs. unfold GRAMSREADOUT_DeviceOpen, WDC_DIAG_DeviceFindAndOpenSlot.
  set (find := WDC_DIAG_DeviceFind _ _ _). unfold st_bind at 1. rewrite run_ask.
  destruct (w_slot w _) as [n|]; [|done]. rewrite run_ask. destruct (w_handle w _) as [q|] eqn:Hq; [|done].
  rewrite (run_bind _ _ _ _ () (eq_refl _)). cbn [st_ret]. set (s2 := _ <| contexts ::= _ |>). intros E.
  assert (q = p) as ->.
  { revert E. unfold st_bind at 1. destruct (DeviceValidate w q s2) as [s3 [[]|]]; [by intros [= _ ->]| |done].
    unfold st_bind. repeat case_match; try done; intros; simplify_eq. }
  apply Hfresh in Hq. destruct (devices t !! p) as [c|] eqn:Hc; [|done].
  assert (kept w t (s <| calls ::= λ l, l ++ [find] |>)) as H1 by by apply kept_idle.
  pose proof (dev_open _ _ _ _ (kept_devices _ _ _ H1 p c Hc)) as Ho. exact (match Bool.diff_true_false (eq_trans (eq_sym Ho) Hq) with end).
Qed.

Definition opened (h : handle) (m : gmap nat dev_ctx) : gmap nat dev_ctx :=
  match h with Some p => <[p := DevCtx None None]> m | None => m end.
Definition closed (h : handle) (m : gmap nat dev_ctx) : gmap nat dev_ctx :=
  match h with Some p => delete p m | None => m end.
Lemma promised_open l dev slot u m :
  promised_after l (Promise u m) →
  let h := drv_open glue_driver (l ++ [DeviceOpen dev slot]) in
  promised_after (l ++ [DeviceOpen dev slot]) (Promise u (opened h m)) ∧ closed h (opened h m) = m.
Proof.
  intros Hl. destruct (promised_call l (DeviceOpen dev slot) _ _ eq_refl Hl I) as (r & Er & Hl' & h & ->).
  cbn [glue_driver drv_open]. rewrite Er. cbv zeta. split; [by destruct h|]. destruct h as [p|]; [|done].
  cbn [opened closed]. apply delete_insert_id. destruct Hl as (El & Hk & _).
  revert Er. rewrite replay_snoc. unfold account_step. cbn [api_of run_api replies]. unfold replies, st_bind.
  destruct (GRAMSREADOUT_DeviceOpen w vendor dev slot _) as [s' [h'|]] eqn:E; [|done]. cbn. intros [= ->].
  by eapply (DeviceOpen_fresh (Promise u m)).
Qed.
Lemma promised_close l h u m :
  promised_after l (Promise u m) → (∀ p, h = Some p → is_Some (m !! p)) → promised_after (l ++ close_op h) (Promise u (closed h m)).
Proof.
  intros Hl Hh. destruct h as [p|]; [|by rewrite app_nil_r].
  destruct (promised_call l (DeviceClose (Some p)) _ _ eq_refl Hl (Hh p eq_refl)) as (r & _ & Hl' & _). by destruct r.
Qed.
Lemma both_closed h1 h2 :
  let m1 := opened h1 ∅ in let m := opened h2 m1 in closed h2 m = m1 →
  (∀ p, h1 = Some p → is_Some (m !! p)) ∧ (∀ p, h2 = Some p → is_Some (closed h1 m !! p)) ∧ closed h2 (closed h1 m) = ∅.
Proof.
  assert (∀ p c, delete p (<[p := c]> (∅ : gmap nat dev_ctx)) = ∅) as Hone by (intros; by apply delete_insert_id).
  destruct h1 as [p|], h2 as [q|]; cbn; intros H.
  - assert (q ≠ p) as Hne by (intros ->; apply (f_equal (lookup p)) in H; by rewrite lookup_delete_eq, lookup_insert_eq in H).
    split_and!.
    + intros ? [= <-]. by rewrite lookup_insert_ne, lookup_insert_eq by done.
    + intros ? [= <-]. by rewrite lookup_delete_ne, lookup_insert_eq by done.
    + by rewrite delete_delete, H.
  - split_and!; [|done|apply Hone]. intros ? [= <-]. by rewrite lookup_insert_eq.
  - split_and!; [done| |apply Hone]. intros ? [= <-]. by rewrite lookup_insert_eq.
  - by split_and!.
Qed.

(** C33. A life of the interface, over a library that can be initialised and gives a handle
    to one open device at a time: [InitPCIeDevices], any transfers, locks and frees, the
    destructor. Every call is one a client may make: a device is closed only while
    it is open, and the library released only by a user. At the end no device is
    open, so that each was closed once, and the library is left as it was found, but when a
    configuration buffer could not be locked (0x6): it then stays open, with a
    user that never leaves. *)
Theorem life_balanced dev1 dev2 slot0 slot1 :
  let '(p, r) := InitPCIeDevices glue_driver dev1 dev2 slot0 slot1 new_pcie in
  (r = 0 ∨ r = 5 ∨ r = 6) ∧
  ∀ p1 ops, Forall direct ops → bus p1 = bus p ++ ops → dev_handle_1 p1 = dev_handle_1 p → dev_handle_2 p1 = dev_handle_2 p →
  is_initialized p1 = is_initialized p →
  let l := bus (close_interface glue_driver p1).1 in
  let a := replay l in
  permitted_calls l ∧ devices (acc_promise a) = ∅ ∧ (∀ p, switched (open_switch w p) (calls (acc_glue a)) = false) ∧ LibInit_count (acc_glue a) = (if r =? 6 then 1 else 0) ∧
  switched (driver_switch w) (calls (acc_glue a)) = (r =? 6).
Proof.
  pose proof (InitPCIeDevices_bus glue_driver dev1 dev2 slot0 slot1) as Hbus.
  destruct (InitPCIeDevices glue_driver dev1 dev2 slot0 slot1 new_pcie) as [p r]. cbv zeta in Hbus.
  destruct (promised_call [] LibInit _ _ eq_refl promised_start ltac:(cbn; lia)) as (r0 & Er0 & H1 & ->).
  specialize (Hbus ltac:(cbn [glue_driver drv_status]; change [LibInit] with ([] ++ [LibInit]); by rewrite Er0)).
  destruct (promised_open _ dev1 slot0 _ _ H1) as [H2 C1]. destruct (promised_open _ dev2 slot1 _ _ H2) as [H3 C2].
  cbn [app] in *. fold (open_ops dev1 dev2 slot0 slot1) in *.
  set (h1 := drv_open glue_driver [LibInit; DeviceOpen dev1 slot0]) in *. set (h2 := drv_open glue_driver (open_ops _ _ _ _)) in *.
  destruct (both_closed h1 h2 C2) as (K1 & K2 & Hnone). cbn [after_call users devices] in *.
  assert (∀ l, promised_after l (Promise 1 (opened h2 (opened h1 ∅))) → promised_after (l ++ close_op h1 ++ close_op h2) (Promise 1 ∅)) as Hclose.
  { intros l Hl. rewrite app_assoc, <- Hnone. apply promised_close; [|done]. by apply promised_close. }
  assert (∀ l, promised_after l (Promise 1 ∅) → promised_after (l ++ [LibUninit]) (Promise 0 ∅)) as Huninit.
  { intros l Hl. by destruct (promised_call l LibUninit _ _ eq_refl Hl ltac:(cbn; lia)) as (r1 & _ & Hl' & ->). }
  assert (∀ l u, promised_after l (Promise u ∅) → permitted_calls l ∧ devices (acc_promise (replay l)) = ∅ ∧
    (∀ p, switched (open_switch w p) (calls (acc_glue (replay l))) = false) ∧ LibInit_count (acc_glue (replay l)) = Z.of_nat u ∧ switched (driver_switch w) (calls (acc_glue (replay l))) = (0 <? u)%nat) as Hend.
  { intros l u (-> & Hk & _ & Hperm). split; [done|]. split; [done|]. split; [apply (kept_opens _ _ _ Hk)|].
    split; [apply (kept_users _ _ _ Hk)|apply (kept_driver _ _ _ Hk)]. }
  destruct (negb (is_open h1 && is_open h2)).
  - destruct Hbus as (-> & E1 & E2 & E3 & Eb). split; [tauto|]. intros p1 ops Hops Hb Hd1 Hd2 Hi. cbv zeta.
    destruct (close_interface_bus glue_driver p1) as (ops' & Hops' & ->). rewrite Hb, Hd1, Hd2, Hi, E1, E2, E3, Eb, app_nil_r.
    apply (Hend _ 0%nat). rewrite <- app_assoc. apply promised_direct; [by apply Forall_app|].
    rewrite !app_assoc, <- (app_assoc _ (close_op h1)). by apply Huninit, Hclose.
  - destruct Hbus as (Hr & E1 & E2 & E3 & ops0 & Hops0 & Eb). split; [tauto|]. intros p1 ops Hops Hb Hd1 Hd2 Hi. cbv zeta.
    destruct (close_interface_bus glue_driver p1) as (ops' & Hops' & ->). rewrite Hb, Hd1, Hd2, Hi, E1, E2, E3, Eb.
    assert (promised_after (open_ops dev1 dev2 slot0 slot1 ++ ops0 ++ ops ++ ops') (Promise 1 (opened h2 (opened h1 ∅)))) as Hall
      by (apply promised_direct; [by repeat apply Forall_app_2|done]).
    apply Hclose in Hall. repeat rewrite <- app_assoc in Hall. repeat rewrite <- app_assoc. destruct Hr as [-> | ->]; cbn [Z.eqb Pos.eqb].
    + apply (Hend _ 0%nat). apply Huninit in Hall. repeat rewrite <- app_assoc in Hall. exact Hall.
    + apply (Hend _ 1%nat). by rewrite app_nil_r.
Qed.
End on_glue.

(** ** A vendor's library that numbers its handles *)
Definition numbering_wdc : wdc := told_wdc (quiet_wdc (λ _, true) 1) (λ l, Some (length l)).
Lemma open_switch_bound l p : switched (open_switch numbering_wdc p) l = true → (p ≤ length l)%nat.
Proof.
  induction l as [|op l IH] using rev_ind; [done|]. rewrite switched_snoc, length_app. cbn [length].
  assert (opens numbering_wdc (l ++ [op]) p = true → (p ≤ length l + 1)%nat) as Ho.
  { unfold opens. intros [= <-]%bool_decide_eq_true. rewrite length_app. cbn. lia. }
  unfold open_switch at 1. repeat case_match; intros Hsw; try done; first [by apply Ho|apply IH in Hsw; lia].
Qed.
Lemma numbering_fresh : fresh_handles numbering_wdc.
Proof.
  intros l slot p [= <-]. destruct (switched _ l) eqn:E; [|done]. apply open_switch_bound in E.
  rewrite length_app in E. cbn in E. lia.
Qed.
Lemma numbering_lawful : lawful numbering_wdc.
Proof. apply told_lawful; [|done]. intros l p. by exists (demo_device 1). Qed.
Lemma numbering_works : library_works numbering_wdc.
Proof. split; intros l; cbn; by rewrite last_snoc. Qed.

(** The buffers can be locked, or the second one cannot. *)
Definition locking (ok : bool) : driver := {|
  drv_status l := match last l with Some (BufLock _ BufRecv _) => if ok then 0 else 0x20000001 | _ => 0 end;
  drv_open _ := None; drv_lock_addr _ := 0x1000; drv_value _ := 0; drv_recv_data _ := []; drv_user_continues _ := true |}.
Definition life (ok : bool) : Z * account :=
  let drv := glue_driver numbering_wdc 0x1172 (locking ok) in
  let '(p, r) := InitPCIeDevices drv 5 4 1 2 new_pcie in
  (r, replay numbering_wdc 0x1172 (bus (close_interface drv p).1)).
Example library_left_open :
  (life true).1 = 0 ∧ LibInit_count (acc_glue (life true).2) = 0 ∧
  (life false).1 = 6 ∧ LibInit_count (acc_glue (life false).2) = 1.
Proof. vm_compute. done. Qed.
Lemma life_balanced_witness :
  let '(r, a) := life false in
  r = 6 ∧ devices (acc_promise a) = ∅ ∧ switched (driver_switch numbering_wdc) (calls (acc_glue a)) = true.
Proof.
  pose proof (life_balanced numbering_wdc 0x1172 (locking false) numbering_lawful numbering_works numbering_fresh 5 4 1 2) as H.
  unfold life. destruct (InitPCIeDevices _ 5 4 1 2 new_pcie) as [p r] eqn:E. destruct H as [_ H].
  assert (r = 6) as -> by (apply (f_equal snd) in E; cbn [snd] in E; rewrite <- E; vm_compute; reflexivity).
  destruct (H p [] (List.Forall_nil _) ltac:(by rewrite app_nil_r) eq_refl eq_refl eq_refl) as (_ & Hd & _ & _ & Hs). by split_and!.
Defined.
