(* ===== verification/Wire.v ===== *)
(** * What the first card transmits

    A reading of the bus operations of [Pcie] from the card's side: the words
    that leave through transmitter 1, as a list of packets. A store to the send
    buffer, a byte count and the command [dma_tr1] make one packet of the first
    words of that buffer; a store to the data register is a packet of one word.
    The devices of the crate only see these packets, so the configuration code is
    specified by them (HardwareDevice). *)
From Stdlib Require Import Lia ZArith.
From stdpp Require Import base tactics list numbers option.
From S2P Require Import Prelude Pcie.
Local Open Scope Z_scope.

Record wire := Wire { memory : list Z; byte_count : Z; packets : list (handle * list Z) }.

Definition wire_step (w : wire) (op : bus_op) : wire :=
  match op with
  | StoreSend ws => Wire (ws ++ drop (length ws) (memory w)) (byte_count w) (packets w)
  | Write32 h bar off d =>
      if (bar =? 0) && (off =? 0) then Wire (memory w) (byte_count w) (packets w ++ [(h, [d])])
      else if (bar =? cs_bar) && (off =? cs_dma_by_cnt) then Wire (memory w) d (packets w)
      else if (bar =? cs_bar) && (off =? cs_dma_cntrl) && (d =? dma_tr1)
      then Wire (memory w) (byte_count w)
             (packets w ++ [(h, take (Z.to_nat (byte_count w / 4)) (memory w))])
      else w
  | _ => w
  end.

Definition wire_of (ops : list bus_op) : wire := fold_left wire_step ops (Wire [] 0 []).
Definition transmitted (p : pcie) : list (handle * list Z) := packets (wire_of (bus p)).

Lemma wire_of_app a b : wire_of (a ++ b) = fold_left wire_step b (wire_of a).
Proof. apply fold_left_app. Qed.

(** Operations that transmit nothing and leave the send buffer and count alone. *)
Definition silent (op : bus_op) : Prop := ∀ w, packets (wire_step w op) = packets w.

Lemma fold_silent ops w : Forall silent ops → packets (fold_left wire_step ops w) = packets w.
Proof.
  intros H. revert w. induction H as [|op ops Hop _ IH]; intros w; [done|]. cbn. by rewrite IH, Hop.
Qed.

Lemma transmitted_push ops p :
  transmitted (push ops p) = packets (fold_left wire_step ops (wire_of (bus p))).
Proof. change (packets (wire_of (bus p ++ ops)) = packets (fold_left wire_step ops (wire_of (bus p)))). by rewrite wire_of_app. Qed.

Lemma transmitted_push_silent ops p : Forall silent ops → transmitted (push ops p) = transmitted p.
Proof. intros. by rewrite transmitted_push, fold_silent. Qed.

Lemma polls_silent k h : Forall silent (replicate k (Read32 h cs_bar cs_dma_cntrl)).
Proof. by apply Forall_replicate. Qed.

Lemma fold_words h ws w :
  packets (fold_left wire_step ((λ x, Write32 h 0 cs_dma_add_low_reg (u32 x)) <$> ws) w) =
    packets w ++ ((λ x, (h, [u32 x])) <$> ws).
Proof.
  revert w. induction ws as [|x ws IH]; intros w; cbn; [by rewrite app_nil_r|].
  fold (fmap (M := list) (λ x, Write32 h 0 cs_dma_add_low_reg (u32 x)) ws).
  rewrite IH. cbn. by rewrite <-app_assoc.
Qed.

(** A bus state other than [p]'s with the same devices and buffers. *)
Definition same_card (p p' : pcie) : Prop :=
  dev_handle_1 p' = dev_handle_1 p ∧ dev_handle_2 p' = dev_handle_2 p ∧
  buf_addr p' = buf_addr p ∧ is_initialized p' = is_initialized p.
#[export] Instance same_card_preorder : PreOrder same_card.
Proof.
  split; [done|]. intros p q r (A & B & C & D) (A' & B' & C' & D'). unfold same_card. by repeat split; etrans.
Qed.
Lemma same_card_push ops p : same_card p (push ops p).
Proof. done. Qed.
#[export] Hint Resolve same_card_push : readout.

Section wire.
Context (drv : driver).

Lemma wire_dma_packet words n addr h w a b :
  length words = Z.to_nat n → 0 ≤ n < 2 ^ 30 →
  packets (fold_left wire_step
    (faults a ++ [StoreSend words] ++ [SyncCpu BufSend] ++ setup_ops h (n * 4) ++
     faults b ++ program_ops h addr (n * 4) dma_tr1) w) =
  packets w ++ [(h, words)].
Proof.
  intros Hlen Hn. rewrite !fold_left_app.
  assert (∀ ok w, fold_left wire_step (faults ok) w = w) as Hf by by intros [].
  rewrite !Hf.
  assert (u32 (n * 4) = n * 4) as Hu by (unfold u32; rewrite Z.mod_small; lia).
  cbn. rewrite Hu. rewrite Z.div_mul by lia. by rewrite take_app_length'.
Qed.

(** [PCIeSendBuffer] by DMA transmits one packet: the first [nword] words. *)
Lemma PCIeSendBuffer_packet nword buff p :
  0 ≤ nword < 2 ^ 30 → (Z.to_nat nword ≤ length buff)%nat →
  let '(p', _) := PCIeSendBuffer drv kDev1 1 nword buff p in
  transmitted p' = transmitted p ++ [(dev_handle_1 p, take (Z.to_nat nword) buff)] ∧ same_card p p'.
Proof.
  intros Hn Hlen.
  destruct (PCIeSendBuffer_run drv 1 nword buff p (or_intror eq_refl) Hn) as (k & r & Hrun & _).
  rewrite Hrun. split; [|done].
  rewrite transmitted_push, !fold_left_app. cbn [send_finish Z.eqb fold_left wire_step].
  rewrite fold_silent by apply polls_silent.
  unfold send_ops. change (1 =? 0) with false. cbv iota. rewrite wire_dma_packet; [done| |done]. rewrite length_take. lia.
Qed.

(** ... and a direct transfer one packet per word. *)
Lemma PCIeSendBuffer_direct nword buff p :
  0 ≤ nword < 2 ^ 30 →
  let '(p', _) := PCIeSendBuffer drv kDev1 0 nword buff p in
  transmitted p' = transmitted p ++ ((λ x, (dev_handle_1 p, [u32 x])) <$> take (Z.to_nat nword) buff) ∧
  same_card p p'.
Proof.
  intros Hn.
  destruct (PCIeSendBuffer_run drv 0 nword buff p (or_introl eq_refl) Hn) as (k & r & Hrun & _).
  rewrite Hrun. split; [|done].
  rewrite transmitted_push, !fold_left_app. cbn [send_finish Z.eqb fold_left].
  rewrite fold_silent by apply polls_silent.
  unfold send_ops. cbn [Z.eqb]. by rewrite fold_left_app, fold_words.
Qed.
End wire.

(** ** Code that transmits nothing *)
Definition quiet {A} (c : st pcie A) : Prop :=
  ∀ p, ∃ ops a, c p = (push ops p, a) ∧ Forall silent ops.

Lemma quiet_ret {A} (a : A) : quiet (mret a).
Proof. intros p. exists [], a. by rewrite push_nil. Qed.
Lemma quiet_read {A} (f : pcie → A) : quiet (st_read f).
Proof. intros p. exists [], (f p). by rewrite push_nil. Qed.
Lemma quiet_bind {A B} (c : st pcie A) (k : A → st pcie B) :
  quiet c → (∀ a, quiet (k a)) → quiet (c ≫= k).
Proof.
  intros Hc Hk p. destruct (Hc p) as (ops & a & Heq & Hops).
  destruct (Hk a (push ops p)) as (ops' & b & Heq' & Hops').
  exists (ops ++ ops'), b. erewrite bind_eq by exact Heq. rewrite Heq', push_push.
  split; [done|]. by apply Forall_app.
Qed.
Lemma quiet_call op : silent op → quiet (bus_call op).
Proof. intros Hop p. exists [op], (). by split; [|repeat constructor]. Qed.

Lemma quiet_spec {A} (c : st pcie A) p :
  quiet c → let '(p', _) := c p in transmitted p' = transmitted p ∧ same_card p p'.
Proof.
  intros Hc. destruct (Hc p) as (ops & a & -> & Hops). split; [|done]. by apply transmitted_push_silent.
Qed.

Ltac quiet_step :=
  lazymatch goal with
  | |- quiet (mret _) => apply quiet_ret
  | |- quiet (st_read _) => apply quiet_read
  | |- quiet (mbind _ _) => apply quiet_bind; [|intros ?]
  | |- quiet (bus_call _) => apply quiet_call; intros ?; reflexivity
  | |- quiet (call_value _ _) => unfold call_value
  | |- quiet (call_status _ _) => unfold call_status
  | |- quiet (write_cs _ _ _) => unfold write_cs
  | |- quiet (GetDeviceHandle _) => unfold GetDeviceHandle
  | |- quiet (buf_page _) => unfold buf_page
  | |- quiet (must _) => unfold must
  | |- quiet (match ?a with Some _ => _ | None => _ end) => destruct a
  | |- quiet (program_dma _ _ _ _) => unfold program_dma
  | |- quiet (if ?b then _ else _) => destruct b
  | |- quiet (let _ := _ in _) => cbv zeta
  end.
Ltac quiet := repeat quiet_step.

Section quiet.
Context (drv : driver).

Lemma poll_dma_quiet n i h : quiet (poll_dma drv n i h).
Proof. revert i. induction n as [|n IH]; intros i; cbn [poll_dma]; quiet. apply IH. Qed.
Lemma recv_words_quiet h n j out : quiet (recv_words drv h n j out).
Proof. revert j out. induction n as [|n IH]; intros j out; cbn [recv_words]; quiet. apply IH. Qed.

Lemma PCIeRecvBuffer_quiet dev mode istart nword ipr buff :
  quiet (PCIeRecvBuffer drv dev mode istart nword ipr buff).
Proof.
  unfold PCIeRecvBuffer. quiet; first [apply recv_words_quiet | apply poll_dma_quiet].
Qed.
Lemma ReadReg32_quiet dev bar off : quiet (ReadReg32 drv dev bar off).
Proof. unfold ReadReg32. quiet. Qed.
Lemma ReadReg64_quiet dev bar off : quiet (ReadReg64 drv dev bar off).
Proof. unfold ReadReg64. quiet. Qed.
(** A register write outside the two windows that transmit. *)
Lemma WriteReg32_quiet dev off data :
  off ≠ cs_dma_cntrl → quiet (WriteReg32 drv dev cs_bar off data).
Proof.
  intros Hoff. unfold WriteReg32, call_status. apply quiet_bind; [quiet|]. intros h.
  apply quiet_bind; [|intros ?; quiet]. apply quiet_bind; [|intros ?; quiet]. apply quiet_call. intros w. cbn [wire_step].
  rewrite (proj2 (Z.eqb_neq off cs_dma_cntrl)) by done. rewrite andb_false_r. cbn. by case_match.
Qed.
End quiet.
