(* ===== verification/HwConsts.v ===== *)
(** * Command numbers and command words: [hw_consts]
    (src/src/hardware/hardware_constants.h)

    The constants the code uses and the 32-bit word that carries a command to a
    module of the crate. The registers of the PCIe cards are in Pcie. *)
From Stdlib Require Import Lia ZArith.
From stdpp Require Import base tactics numbers.
From S2P Require Import Prelude.
Local Open Scope Z_scope.

Definition dma_abort : Z := 0x2.
Definition mb_cntrl_test_on : Z := 0x1.
Definition mb_cntrl_test_off : Z := 0x0.
Definition mb_cntrl_set_run_off : Z := 0x3.
Definition mb_cntrl_set_trig1 : Z := 0x4.
Definition mb_cntrl_load_trig_pos : Z := 0x7.
Definition mb_feb_power_add : Z := 0x1.
Definition mb_feb_conf_add : Z := 0x2.
Definition mb_feb_pass_add : Z := 0x3.
Definition mb_feb_lst_on : Z := 1.
Definition mb_feb_lst_off : Z := 0.
Definition mb_feb_rxreset : Z := 2.
Definition mb_feb_align : Z := 3.
Definition mb_feb_pll_reset : Z := 5.
Definition mb_feb_adc_align : Z := 1.
Definition mb_feb_a_nocomp : Z := 2.
Definition mb_feb_b_nocomp : Z := 3.
Definition mb_feb_timesize : Z := 5.
Definition mb_feb_mod_number : Z := 6.
Definition mb_feb_a_id : Z := 7.
Definition mb_feb_b_id : Z := 8.
Definition mb_feb_max : Z := 9.
Definition mb_feb_test_source : Z := 10.
Definition mb_feb_a_rdhed : Z := 21.
Definition mb_feb_a_rdbuf : Z := 22.
Definition mb_feb_dram_reset : Z := 31.
Definition mb_feb_adc_reset : Z := 33.
Definition mb_feb_hold_enable : Z := 42.
Definition mb_pmt_adc_reset : Z := 1.
Definition mb_pmt_spi_add : Z := 2.
Definition mb_pmt_adc_data_load : Z := 3.
Definition mb_xmit_conf_add : Z := 0x2.
Definition mb_xmit_modcount : Z := 0x1.
Definition mb_xmit_enable_1 : Z := 0x2.
Definition mb_xmit_enable_2 : Z := 0x3.
Definition mb_xmit_rdstatus : Z := 20.
Definition mb_xmit_rdcounters : Z := 21.
Definition mb_xmit_link_reset : Z := 22.
Definition mb_opt_dig_reset : Z := 23.
Definition mb_xmit_dpa_fifo_reset : Z := 24.
Definition mb_xmit_dpa_word_align : Z := 25.
Definition mb_xmit_link_pll_reset : Z := 26.
Definition mb_trig_run : Z := 1.
Definition mb_trig_frame_size : Z := 2.
Definition mb_trig_deadtime_size : Z := 3.
Definition mb_trig_delay1_size : Z := 5.
Definition mb_trig_delay2_size : Z := 6.
Definition mb_trig_calib_delay : Z := 8.
Definition mb_trig_prescale0 : Z := 10.
Definition mb_trig_mask1 : Z := 21.
Definition mb_trig_mask8 : Z := 28.
Definition mb_trig_pctrig : Z := 31.
Definition mb_trig_calib : Z := 34.
Definition mb_feb_pmt_gate_size : Z := 47.
Definition mb_feb_pmt_beam_delay : Z := 48.
Definition mb_feb_pmt_beam_size : Z := 49.
Definition mb_feb_pmt_ch_set : Z := 50.
Definition mb_feb_pmt_delay0 : Z := 51.
Definition mb_feb_pmt_delay1 : Z := 52.
Definition mb_feb_pmt_precount : Z := 53.
Definition mb_feb_pmt_thresh0 : Z := 54.
Definition mb_feb_pmt_thresh1 : Z := 55.
Definition mb_feb_pmt_thresh2 : Z := 56.
Definition mb_feb_pmt_thresh3 : Z := 57.
Definition mb_feb_pmt_width : Z := 58.
Definition mb_feb_pmt_deadtime : Z := 59.
Definition mb_feb_pmt_window : Z := 60.
Definition mb_feb_pmt_words : Z := 61.
Definition mb_feb_pmt_cos_mul : Z := 62.
Definition mb_feb_pmt_cos_thres : Z := 63.
Definition mb_feb_pmt_mich_mul : Z := 64.
Definition mb_feb_pmt_mich_thres : Z := 65.
Definition mb_feb_pmt_beam_mul : Z := 66.
Definition mb_feb_pmt_beam_thres : Z := 67.
Definition mb_feb_pmt_en_top : Z := 68.
Definition mb_feb_pmt_en_upper : Z := 69.
Definition mb_feb_pmt_en_lower : Z := 70.
Definition mb_feb_pmt_blocksize : Z := 71.
Definition mb_feb_pmt_rxreset : Z := 84.
Definition mb_feb_pmt_align_pulse : Z := 85.

(** ** Command words

    [module << 11 | chip << 8 | command] in the low half, the command's data in
    the high half; the sum is stored in a 32-bit word. *)
Definition cmd_word (imod ichip command data : Z) : Z :=
  u32 (Z.shiftl imod 11 + Z.shiftl ichip 8 + command + Z.shiftl data 16).

Definition word_command (w : Z) : Z := Z.land w 0xff.
Definition word_chip (w : Z) : Z := Z.land (Z.shiftr w 8) 0x7.
Definition word_module (w : Z) : Z := Z.land (Z.shiftr w 11) 0x1f.
Definition word_data (w : Z) : Z := Z.shiftr w 16.

Lemma cmd_word_sum imod ichip command data :
  0 ≤ imod < 32 → 0 ≤ ichip < 8 → 0 ≤ command < 256 →
  cmd_word imod ichip command data = imod * 2048 + ichip * 256 + command + u16 data * 65536.
Proof.
  intros. unfold cmd_word, u32, u16. rewrite !Z.shiftl_mul_pow2 by lia.
  change (2 ^ 11) with 2048. change (2 ^ 8) with 256. change (2 ^ 16) with 65536. change (2 ^ 32) with 4294967296.
  pose proof (Z.div_mod data 65536 ltac:(lia)) as E.
  set (q := data `div` 65536) in *. set (d := data `mod` 65536) in *.
  assert (0 ≤ d < 65536) by (apply Z.mod_pos_bound; lia). rewrite E.
  symmetry. apply (Z.mod_unique_pos _ _ q); lia.
Qed.

Lemma cmd_word_u32 m c k d : u32 (cmd_word m c k d) = cmd_word m c k d.
Proof. unfold cmd_word, u32. by rewrite Zmod_mod. Qed.

Lemma land_ones_mod w k : 0 ≤ k → Z.land w (Z.ones k) = w `mod` 2 ^ k.
Proof. intros. by rewrite Z.land_ones. Qed.

(** A command word carries its four fields: for a module number of 5 bits, a
    chip number of 3 and a command of 8, each can be read back from the word, the
    data modulo 2^16, and the word fits 32 bits. *)
Lemma cmd_word_fields imod ichip command data :
  0 ≤ imod < 32 → 0 ≤ ichip < 8 → 0 ≤ command < 256 →
  let w := cmd_word imod ichip command data in
  word_module w = imod ∧ word_chip w = ichip ∧ word_command w = command ∧
  word_data w = u16 data ∧ 0 ≤ w < 2 ^ 32.
Proof.
  intros Hm Hc Hk w. unfold w. rewrite cmd_word_sum by done.
  assert (0 ≤ u16 data < 65536) as Hd by (apply Z.mod_pos_bound; lia). generalize dependent (u16 data).
  intros d Hd. unfold word_module, word_chip, word_command, word_data.
  change 0x1f with (Z.ones 5). change 0x7 with (Z.ones 3). change 0xff with (Z.ones 8).
  rewrite !land_ones_mod, !Z.shiftr_div_pow2 by lia. 
  change (2 ^ 11) with 2048. change (2 ^ 8) with 256. change (2 ^ 16) with 65536.
  change (2 ^ 5) with 32. change (2 ^ 3) with 8. change (2 ^ 32) with 4294967296.
  set (w' := _ + d * 65536). split_and!; try (unfold w'; lia).
  - rewrite <-(Z.div_unique w' 2048 (imod + d * 32) (ichip * 256 + command)); unfold w'; [|lia|lia].
    by rewrite Z.mod_add, Z.mod_small by lia.
  - rewrite <-(Z.div_unique w' 256 (ichip + (imod + d * 32) * 8) command); unfold w'; [|lia|lia].
    by rewrite Z.mod_add, Z.mod_small by lia.
  - symmetry. apply (Z.mod_unique w' 256 (ichip + (imod + d * 32) * 8)); unfold w'; lia.
  - symmetry. apply (Z.div_unique w' 65536 d (imod * 2048 + ichip * 256 + command)); unfold w'; lia.
Qed.

(** Two bytes, or a byte and the header that follows, in one word. *)
Lemma pair_word_bytes a b :
  0 ≤ a < 256 → let w := u32 (a + Z.shiftl b 16) in
  Z.land w 0xff = a ∧ Z.land (Z.shiftr w 16) 0xff = b `mod` 256.
Proof.
  intros Ha w. change 0xff with (Z.ones 8). rewrite !land_ones_mod, Z.shiftr_div_pow2 by lia.
  assert (w = a + u16 b * 65536) as ->.
  { unfold w, u32, u16. rewrite Z.shiftl_mul_pow2 by lia.
    change (2 ^ 16) with 65536. change (2 ^ 32) with 4294967296.
    pose proof (Z.div_mod b 65536 ltac:(lia)) as E.
    set (q := b `div` 65536) in *. set (d := b `mod` 65536) in *.
    assert (0 ≤ d < 65536) by (apply Z.mod_pos_bound; lia). rewrite E.
    symmetry. apply (Z.mod_unique_pos _ _ q); lia. }
  assert (0 ≤ u16 b < 65536) by (apply Z.mod_pos_bound; lia).
  change (2 ^ 16) with 65536. change (2 ^ 8) with 256. split.
  - symmetry. apply (Z.mod_unique _ 256 (u16 b * 256)); lia.
  - rewrite <-(Z.div_unique _ 65536 (u16 b) a); [|lia|lia]. unfold u16.
    apply Z.mod_mod_divide. by exists 256.
Qed.
