(* ===== verification/HardwareDevice.v ===== *)
(** * Configuring a module of the crate: [HardwareDevice] and the buffers
    (src/src/hardware/hardware_device.cpp, src/lib/pcie_driver/pcie_interface.h)

    The boards are configured by words sent through the first PCIe card. The
    configuration code fills [PcieBuffers::buf_send] and hands it to the card;
    what it does is specified by a script, the commands in order, that the
    packets leaving the card must follow. The sleeps between commands are left
    out; the log output too. *)
From Stdlib Require Import Lia ZArith.
From stdpp Require Import base tactics list numbers option.
From S2P Require Import Prelude Pcie Wire HwConsts.
Local Open Scope Z_scope.

(** ** The card and the buffers shared by all the boards *)
Definition SEND_SIZE : nat := N.to_nat 40000.
Record bench := Bench {
  card : pcie;
  buf_send : list Z;
  carray : list Z;
  read_array : list Z
}.
#[export] Instance bench_eta : RecordEta bench := λ s,
  Bench (card s) (buf_send s) (carray s) (read_array s).

(** A firmware file: its bytes, and whether reading ended at the end of the file
    ([feof]) rather than on an error. *)
Record firmware := Fw { fw_bytes : list Z; fw_eof : bool }.

Section device.
Context (drv : driver).
Notation hw := (st_err bench).

Definition on_card {A} (c : st pcie A) : hw A := λ s,
  let '(p, a) := c (card s) in (s <| card := p |>, Some a).

Definition set_send (i : nat) (w : Z) : hw () := st_modify (λ s, s <| buf_send ::= <[i := u32 w]> |>).
Definition send (nword : Z) : hw Z := λ s, on_card (PCIeSendBuffer drv kDev1 1 nword (buf_send s)) s.
Definition recv (istart nword ipr_status : Z) : hw Z := λ s,
  let '(p, (r, out)) := PCIeRecvBuffer drv kDev1 0 istart nword ipr_status (read_array s) (card s) in
  (s <| card := p |> <| read_array := out |>, Some r).

(** One command: a word, then one word sent by DMA. *)
Definition command (imod ichip cmd data : Z) : hw Z :=
  set_send 0 (cmd_word imod ichip cmd data) ;;~ send 1.

(** A loop over module or channel numbers. *)
Fixpoint for_each (l : list Z) (body : Z → hw Z) : hw () :=
  match l with
  | [] => st_ret ()
  | x :: l => body x ;;~ for_each l body
  end.
(** [a, a + 1 .. b - 1], and the same downwards from [a] to [b + 1]. *)
Definition up (a b : Z) : list Z := seqZ a (b - a).
Definition down (a b : Z) : list Z := reverse (up (b + 1) (a + 1)).

(** ** [LoadFirmware] *)
Definition nsend : nat := 500.
Definition ichip_c : Z := 7.

Definition byte_at (s : bench) (i : nat) : Z := default 0 (carray s !! i).
Definition fw_header (module : Z) (s : bench) : Z :=
  Z.shiftl module 11 + Z.shiftl ichip_c 8 + Z.shiftl (byte_at s 0) 16.
(** The word [ij + 1] of a packet of [n] data words. *)
Definition fw_word (n : nat) (last : Z) (s : bench) (ij : nat) : Z :=
  if decide (ij = n - 1)%nat
  then byte_at s (2 * ij + 1) + Z.shiftl last 16
  else byte_at s (2 * ij + 1) + Z.shiftl (byte_at s (2 * ij + 2)) 16.

Definition fill_words (n : nat) (last : Z) : hw () := st_modify (λ s,
  s <| buf_send ::= λ b, fold_left (λ b ij, <[S ij := u32 (fw_word n last s ij)]> b) (seq 0 n) b |>).

Definition set_header (module : Z) : hw () := λ s, set_send 0 (fw_header module s) s.
Definition fw_packet (module : Z) : hw Z :=
  set_header module ;;~
  fill_words nsend 0 ;;~
  send (Z.of_nat nsend + 1).

(** The reading loop, [count] bytes being in [carray]; returns the last count. *)
Fixpoint fw_loop (module : Z) (bytes : list Z) (count : nat) : hw nat :=
  match bytes with
  | [] => st_ret count
  | c :: bytes =>
      st_modify (λ s, s <| carray ::= <[count := c]> |>) ;;~
      if decide (S count `mod` (nsend * 2) = 0)%nat
      then fw_packet module ;;~ fw_loop module bytes 0
      else fw_loop module bytes (S count)
  end.

(** The number of data words of the last packet. *)
Definition fw_tail_words (count : nat) : nat :=
  ((if decide ((count - 1) `mod` 2 = 0)%nat then (count - 1) `div` 2 else (count - 1) `div` 2 + 1) + 2)%nat.

Definition fw_tail (module chip : Z) (count : nat) : hw Z :=
  set_header module ;;~
  if decide (1 < count)%nat then
    fill_words (fw_tail_words count) (Z.shiftl module 11 + Z.shiftl chip 8) ;;~
    send (Z.of_nat (fw_tail_words count) + 1)
  else send 2.

(** [None] for a file that did not open: the code reads from the null handle. *)
Definition LoadFirmware (module chip : Z) (fw : option firmware) : hw bool :=
  fw <~ st_get fw ;;
  count <~ fw_loop module (fw_bytes fw) 0 ;;
  (if fw_eof fw then fw_tail module chip count else st_ret 0) ;;~
  st_ret true.
End device.

(** ** Scripts: what a configuration sends *)

(** The bytes a firmware packet carries, the first word's upper half first. *)
Definition packet_bytes (ws : list Z) : list Z :=
  match ws with
  | [] => []
  | w :: ws => Z.land (Z.shiftr w 16) 0xff ::
      concat ((λ w, [Z.land w 0xff; Z.land (Z.shiftr w 16) 0xff]) <$> ws)
  end.

(** A packet for the module's configuration chip, of at most 502 words. *)
Definition fw_packet_ok (module : Z) (p : list Z) : Prop :=
  (2 ≤ length p ≤ 502)%nat ∧ word_module (hd 0 p) = module ∧ word_chip (hd 0 p) = ichip_c ∧
  word_command (hd 0 p) = 0.

(** The packets of a file: one of 1000 bytes for each full thousand, then, unless
    reading failed, one that begins with the bytes that are left. *)
Definition firmware_packets (module : Z) (fw : firmware) (ps : list (list Z)) : Prop :=
  ∃ full tail,
    ps = full ++ tail ∧ Forall (fw_packet_ok module) ps ∧
    length full = (length (fw_bytes fw) `div` 1000)%nat ∧ Forall (λ p, length p = 501%nat) full ∧
    concat ((λ p, take 1000 (packet_bytes p)) <$> full) = take (1000 * length full) (fw_bytes fw) ∧
    (if fw_eof fw
     then ∃ t, tail = [t] ∧
            take (length (fw_bytes fw) `mod` 1000) (packet_bytes t) =
              drop (1000 * length full) (fw_bytes fw)
     else tail = []).

Inductive item :=
  | Words (ws : list Z)
  | Firmware (module : Z) (fw : firmware).
(** A command of one word. *)
Definition Cmd (imod ichip cmd data : Z) : item := Words [cmd_word imod ichip cmd data].

Inductive follows : list item → list (list Z) → Prop :=
  | follows_nil : follows [] []
  | follows_words ws sc ps : follows sc ps → follows (Words ws :: sc) (ws :: ps)
  | follows_firmware module fw l sc ps :
      firmware_packets module fw l → follows sc ps → follows (Firmware module fw :: sc) (l ++ ps).
#[export] Hint Constructors follows : readout.

Lemma follows_app sc1 sc2 ps1 ps2 : follows sc1 ps1 → follows sc2 ps2 → follows (sc1 ++ sc2) (ps1 ++ ps2).
Proof.
  induction 1; intros; cbn; [done|constructor; auto|]. rewrite <-app_assoc. constructor; auto.
Qed.

Definition ready (s : bench) : Prop :=
  length (buf_send s) = SEND_SIZE ∧ length (carray s) = SEND_SIZE ∧
  Forall (λ c, 0 ≤ c < 256) (carray s).

(** From [s] to [s'] the first card transmitted packets that follow [sc]. *)
Definition progress_to (sc : list item) (s s' : bench) : Prop :=
  ready s' ∧ same_card (card s) (card s') ∧
  ∃ ps, follows sc ps ∧
    transmitted (card s') = transmitted (card s) ++ ((λ p, (dev_handle_1 (card s), p)) <$> ps).

(** The run ends normally, or throws, after following the script. *)
Definition sends {A} (c : st_err bench A) (sc : list item) : Prop :=
  ∀ s, ready s → ∃ s' a, c s = (s', Some a) ∧ progress_to sc s s'.
Definition throws {A} (c : st_err bench A) (sc : list item) : Prop :=
  ∀ s, ready s → ∃ s', c s = (s', None) ∧ progress_to sc s s'.

(** The run ends with a known value. *)
Definition yields {A} (c : st_err bench A) (sc : list item) (a : A) : Prop :=
  ∀ s, ready s → ∃ s', c s = (s', Some a) ∧ progress_to sc s s'.

Lemma progress_refl s : ready s → progress_to [] s s.
Proof. intros. split; [done|]. split; [done|]. exists []. by rewrite app_nil_r; split; [constructor|]. Qed.
Lemma progress_app sc1 sc2 s1 s2 s3 :
  progress_to sc1 s1 s2 → progress_to sc2 s2 s3 → progress_to (sc1 ++ sc2) s1 s3.
Proof.
  intros (H2 & C12 & ps1 & F1 & T1) (H3 & C23 & ps2 & F2 & T2).
  split; [done|]. split; [by etrans|]. exists (ps1 ++ ps2). split; [by apply follows_app|].
  rewrite T2, T1, fmap_app, <-app_assoc. do 2 f_equal.
  destruct C12 as (-> & _). done.
Qed.

Section sends.
Context (drv : driver).
Notation hw := (st_err bench).

Lemma sends_ret {A} (a : A) : sends (st_ret a) [].
Proof. intros s Hs. exists s, a. split; [done|]. by apply progress_refl. Qed.
Lemma sends_bind {A B} (c : hw A) (k : A → hw B) l1 l2 :
  sends c l1 → (∀ a, sends (k a) l2) → sends (st_bind c k) (l1 ++ l2).
Proof.
  intros Hc Hk s Hs. destruct (Hc s Hs) as (s1 & a & Heq & P1).
  destruct (Hk a s1) as (s2 & b & Heq2 & P2); [apply P1|].
  exists s2, b. unfold st_bind. rewrite Heq. split; [done|]. by eapply progress_app.
Qed.
Lemma throws_here {A B} (c : hw A) (k : A → hw B) l : throws c l → throws (st_bind c k) l.
Proof.
  intros Hc s Hs. destruct (Hc s Hs) as (s1 & Heq & P1). exists s1. unfold st_bind. by rewrite Heq.
Qed.
Lemma throws_later {A B} (c : hw A) (k : A → hw B) l1 l2 :
  sends c l1 → (∀ a, throws (k a) l2) → throws (st_bind c k) (l1 ++ l2).
Proof.
  intros Hc Hk s Hs. destruct (Hc s Hs) as (s1 & a & Heq & P1).
  destruct (Hk a s1) as (s2 & Heq2 & P2); [apply P1|].
  exists s2. unfold st_bind. rewrite Heq. split; [done|]. by eapply progress_app.
Qed.

Lemma yields_sends {A} (c : hw A) l a : yields c l a → sends c l.
Proof. intros Hc s Hs. destruct (Hc s Hs) as (s' & ?). by exists s', a. Qed.
Lemma yields_ret {A} (a : A) : yields (st_ret a) [] a.
Proof. intros s Hs. exists s. split; [done|]. by apply progress_refl. Qed.
Lemma yields_bind {A B} (c : hw A) (k : A → hw B) l1 l2 b :
  sends c l1 → (∀ a, yields (k a) l2 b) → yields (st_bind c k) (l1 ++ l2) b.
Proof.
  intros Hc Hk s Hs. destruct (Hc s Hs) as (s1 & a & Heq & P1).
  destruct (Hk a s1) as (s2 & Heq2 & P2); [apply P1|].
  exists s2. unfold st_bind. rewrite Heq. split; [done|]. by eapply progress_app.
Qed.
Lemma yields_after {A B} (c : hw A) (b : B) l : sends c l → yields (st_bind c (λ _, st_ret b)) l b.
Proof. intros Hc. rewrite <-(app_nil_r l). apply yields_bind; [done|]. intros _. apply yields_ret. Qed.
Lemma sends_cons {A B} (c : hw A) (k : A → hw B) i l :
  sends c [i] → (∀ a, sends (k a) l) → sends (st_bind c k) (i :: l).
Proof. apply sends_bind. Qed.
Lemma sends_skip {A B} (c : hw A) (k : A → hw B) l :
  sends c [] → (∀ a, sends (k a) l) → sends (st_bind c k) l.
Proof. apply sends_bind. Qed.

Lemma ready_set_send i w s : ready s → ready (s <| buf_send ::= <[i := u32 w]> |>).
Proof. intros (? & ? & ?). split_and!; cbn; rewrite ?length_insert; done. Qed.

Lemma send_words_spec nword s :
  ready s → 0 ≤ nword ≤ 40000 → ∃ s' a, send drv nword s = (s', Some a) ∧
    ready s' ∧ same_card (card s) (card s') ∧ carray s' = carray s ∧ buf_send s' = buf_send s ∧
    transmitted (card s') =
      transmitted (card s) ++ [(dev_handle_1 (card s), take (Z.to_nat nword) (buf_send s))].
Proof.
  intros (Hb & Hc & Hbytes) Hn. unfold send, on_card.
  pose proof (PCIeSendBuffer_packet drv nword (buf_send s) (card s) ltac:(lia)
    ltac:(rewrite Hb; unfold SEND_SIZE; lia)) as H.
  destruct (PCIeSendBuffer _ _ _ _ _ _) as [p a]. destruct H as [Ht Hcard].
  eexists _, _. split; [done|]. done.
Qed.

Lemma command_sends imod ichip cmd data : sends (command drv imod ichip cmd data) [Cmd imod ichip cmd data].
Proof.
  intros s Hs. unfold command, st_bind, set_send, st_modify.
  set (w := cmd_word imod ichip cmd data).
  assert (u32 w = w) as Hw by (unfold w, cmd_word, u32; by rewrite Zmod_mod). rewrite Hw.
  destruct (send_words_spec 1 (s <| buf_send ::= <[0%nat := w]> |>)) as (s' & a & Heq & R & C & _ & _ & T).
  { rewrite <-Hw. by apply ready_set_send. }
  { lia. }
  exists s', a. split; [done|]. split; [done|]. split; [done|]. exists [[w]].
  split; [repeat constructor|]. rewrite T. cbn [card buf_send update_field]. do 3 f_equal.
  destruct Hs as (Hb & _). destruct (buf_send s) as [|x b]; [|done]. cbn in Hb. unfold SEND_SIZE in Hb. lia.
Qed.

Lemma set_send_sends i w : sends (set_send i w) [].
Proof.
  intros s Hs. eexists _, (). split; [done|]. split; [by apply ready_set_send|].
  split; [done|]. exists []. by rewrite app_nil_r; split; [constructor|].
Qed.

(** Two words stored at the head of the buffer and sent. *)
Lemma two_words_sends w0 w1 :
  sends (set_send 0 w0 ;;~ set_send 1 w1 ;;~ send drv 2) [Words [u32 w0; u32 w1]].
Proof.
  intros s Hs. unfold st_bind, set_send, st_modify.
  set (s2 := (s <| buf_send ::= _ |>) <| buf_send ::= _ |>).
  assert (ready s2) as Hs2 by by apply ready_set_send, ready_set_send.
  destruct (send_words_spec 2 s2 Hs2) as (s' & a & Heq & R & C & _ & _ & T); [lia|].
  exists s', a. split; [done|]. split; [done|]. split; [done|]. exists [[u32 w0; u32 w1]].
  split; [repeat constructor|]. rewrite T. unfold s2. cbn [card buf_send update_field]. do 3 f_equal.
  destruct Hs as (Hb & _). destruct (buf_send s) as [|x [|y b]]; [cbn in Hb; unfold SEND_SIZE in Hb; lia..|done].
Qed.

Lemma recv_sends istart nword ipr : sends (recv drv istart nword ipr) [].
Proof.
  intros s (Hb & Hc & Hbytes). unfold recv.
  pose proof (quiet_spec _ (card s) (PCIeRecvBuffer_quiet drv kDev1 0 istart nword ipr (read_array s))) as H.
  destruct (PCIeRecvBuffer _ _ _ _ _ _ _ _) as [p [r out]]. destruct H as [Ht Hcard].
  eexists _, _. split; [done|]. split; [done|]. split; [done|]. exists [].
  split; [constructor|]. cbn. by rewrite app_nil_r.
Qed.

Lemma on_card_sends {A} (c : st pcie A) : quiet c → sends (on_card c) [].
Proof.
  intros Hq s (Hb & Hc & Hbytes). unfold on_card. pose proof (quiet_spec _ (card s) Hq) as H.
  destruct (c (card s)) as [p a]. destruct H as [Ht Hcard].
  eexists _, _. split; [done|]. split; [done|]. split; [done|]. exists [].
  split; [constructor|]. cbn. by rewrite app_nil_r.
Qed.

Lemma for_each_sends l body sc :
  (∀ x, x ∈ l → sends (body x) (sc x)) → sends (for_each l body) (concat (sc <$> l)).
Proof.
  induction l as [|x l IH]; intros Hl; cbn [for_each fmap list_fmap concat]; [apply sends_ret|].
  apply sends_bind; [apply Hl; by left|]. intros _. apply IH. intros. apply Hl. by right.
Qed.
End sends.

(** ** The module a command is for *)
Definition addressed (P : Z → Prop) (i : item) : Prop :=
  match i with
  | Words (w :: _) => P (word_module w)
  | Words [] => True
  | Firmware m _ => P m
  end.
(** Closes [0 <= n < m] on constants. *)
Ltac const_range := solve [vm_compute; split; [discriminate | reflexivity]].
Lemma Words_addressed (P : Z → Prop) m chip cmd data ws :
  0 ≤ m < 32 → 0 ≤ chip < 8 → 0 ≤ cmd < 256 → P m →
  addressed P (Words (cmd_word m chip cmd data :: ws)).
Proof. intros Hm Hc Hk HP. cbn. destruct (cmd_word_fields m chip cmd data Hm Hc Hk) as (-> & _). done. Qed.
Lemma Forall_concat_fmap {A B} (P : B → Prop) (f : A → list B) l :
  (∀ x, x ∈ l → Forall P (f x)) → Forall P (concat (f <$> l)).
Proof.
  induction l as [|x l IH]; intros Hl; cbn; [constructor|]. apply Forall_app. split; [apply Hl; by left|].
  apply IH. intros. apply Hl. by right.
Qed.
Lemma concat_singletons {A B} (f : A → B) l : concat ((λ x, [f x]) <$> l) = f <$> l.
Proof. induction l as [|x l IH]; cbn; [done|]. by rewrite <-IH. Qed.

(** Walks through a straight sequence of commands and receives. *)
Ltac send_script :=
  repeat first
    [ apply sends_cons; [apply command_sends|intros _]
    | apply sends_skip; [apply recv_sends|intros _]
    | apply command_sends | apply recv_sends | apply sends_ret ].

(** ** The packets of a firmware file *)
Section firmware.
Context (drv : driver).
Notation hw := (st_err bench).
Local Open Scope nat_scope.

Lemma fold_insert (w : nat → Z) n (b : list Z) :
  n < length b →
  fold_left (λ b ij, <[S ij := w ij]> b) (seq 0 n) b = take 1 b ++ (w <$> seq 0 n) ++ drop (S n) b.
Proof.
  induction n as [|n IH]; intros Hn.
  { cbn [seq fold_left fmap list_fmap app]. by rewrite take_drop. }
  rewrite seq_S, fold_left_app, IH, fmap_app by lia. cbn [fold_left plus].
  destruct (lookup_lt_is_Some_2 b (S n)) as [x Hx]; [lia|].
  rewrite (drop_S b x (S n)) by done.
  assert (length (take 1 b ++ (w <$> seq 0 n)) = S n) as Hl.
  { rewrite length_app, length_take, length_fmap, length_seq. lia. }
  rewrite !(app_assoc (take 1 b)). rewrite insert_app_r_alt by lia. rewrite Hl, Nat.sub_diag.
  cbn [insert list_insert fmap list_fmap]. by rewrite <-!app_assoc.
Qed.

Lemma packet_bytes_snoc w0 ws x :
  packet_bytes (w0 :: ws ++ [x]) =
    packet_bytes (w0 :: ws) ++ [Z.land x 0xff; Z.land (Z.shiftr x 16) 0xff]%Z.
Proof. cbn [packet_bytes]. rewrite fmap_app, concat_app. done. Qed.

(** The packet of [n] data words built from the bytes in [carray]. *)
Definition packet_of (module : Z) (n : nat) (last : Z) (s : bench) : list Z :=
  u32 (fw_header module s) :: ((λ ij, u32 (fw_word n last s ij)) <$> seq 0 n).

Lemma byte_at_range s i : ready s → (0 ≤ byte_at s i < 256)%Z.
Proof.
  intros (_ & _ & Hb). unfold byte_at. destruct (carray s !! i) as [c|] eqn:E; cbn; [|lia].
  by eapply Forall_lookup in Hb.
Qed.
Lemma take_S_byte s i : ready s → i < SEND_SIZE → take (S i) (carray s) = take i (carray s) ++ [byte_at s i].
Proof.
  intros (_ & Hl & _) Hi. destruct (lookup_lt_is_Some_2 (carray s) i) as [x Hx]; [lia|].
  unfold byte_at. rewrite Hx. cbn. by apply take_S_r.
Qed.

Lemma fw_header_word module s :
  u32 (fw_header module s) = cmd_word module ichip_c 0 (byte_at s 0).
Proof. unfold cmd_word. by rewrite Z.add_0_r. Qed.

Lemma plain_words_bytes module s k :
  ready s → (0 ≤ module < 32)%Z → 2 * k < SEND_SIZE →
  packet_bytes (u32 (fw_header module s) ::
    ((λ ij, u32 (byte_at s (2 * ij + 1) + Z.shiftl (byte_at s (2 * ij + 2)) 16)) <$> seq 0 k)) =
  take (2 * k + 1) (carray s).
Proof.
  intros Hs Hm. induction k as [|k IH]; intros Hk.
  - cbn [seq fmap list_fmap packet_bytes concat Nat.mul Nat.add].
    rewrite (take_S_byte s 0) by (done || lia). cbn [take app]. f_equal.
    rewrite fw_header_word. pose proof (byte_at_range s 0 Hs).
    destruct (cmd_word_fields module ichip_c 0 (byte_at s 0)) as (_ & _ & _ & Hd & _);
      [done|unfold ichip_c; lia|lia|]. unfold word_data in Hd. rewrite Hd.
    unfold u16. rewrite Z.mod_small by (change (2 ^ 16)%Z with 65536%Z; lia).
    change 0xff%Z with (Z.ones 8). rewrite land_ones_mod, Z.mod_small by (try change (2^8)%Z with 256%Z; lia).
    done.
  - rewrite seq_S, fmap_app. cbn [fmap list_fmap Nat.add]. rewrite packet_bytes_snoc, IH by lia.
    destruct (pair_word_bytes (byte_at s (2 * k + 1)) (byte_at s (2 * k + 2))) as [-> ->];
      [by apply byte_at_range|].
    rewrite Z.mod_small by by apply byte_at_range.
    replace (2 * S k + 1) with (S (S (2 * k + 1))) by lia.
    rewrite (take_S_byte s (S (2 * k + 1))), (take_S_byte s (2 * k + 1)) by (done || lia).
    rewrite <-app_assoc. cbn [app]. by replace (S (2 * k + 1)) with (2 * k + 2) by lia.
Qed.

Lemma packet_of_bytes module n last s :
  ready s → (0 ≤ module < 32)%Z → 0 < n → 2 * n < SEND_SIZE →
  take (2 * n) (packet_bytes (packet_of module n last s)) = take (2 * n) (carray s).
Proof.
  intros Hs Hm Hn Hsize. destruct n as [|k]; [lia|]. unfold packet_of.
  rewrite seq_S, fmap_app. cbn [fmap list_fmap Nat.add].
  assert (((λ ij, u32 (fw_word (S k) last s ij)) <$> seq 0 k) =
    (λ ij, u32 (byte_at s (2 * ij + 1) + Z.shiftl (byte_at s (2 * ij + 2)) 16)) <$> seq 0 k) as ->.
  { apply list_fmap_ext. intros i x Hx. apply lookup_seq in Hx as [-> Hi].
    unfold fw_word. by rewrite decide_False by lia. }
  rewrite packet_bytes_snoc, plain_words_bytes by (done || lia).
  unfold fw_word. rewrite decide_True by lia.
  destruct (pair_word_bytes (byte_at s (2 * k + 1)) last) as [-> _]; [by apply byte_at_range|].
  replace (2 * S k) with (S (2 * k + 1)) by lia. rewrite (take_S_byte s (2 * k + 1)) by (done || lia).
  pose proof Hs as (_ & Hl & _).
  rewrite take_app_ge by (rewrite length_take; lia). rewrite length_take.
  by replace (S (2 * k + 1) - (2 * k + 1) `min` length (carray s)) with 1 by lia.
Qed.

Lemma packet_of_ok module n last s :
  (0 ≤ module < 32)%Z → 0 < n ≤ 501 → fw_packet_ok module (packet_of module n last s).
Proof.
  intros Hm Hn. unfold fw_packet_ok, packet_of. cbn [hd length]. rewrite length_fmap, length_seq.
  split; [lia|]. rewrite fw_header_word.
  destruct (cmd_word_fields module ichip_c 0 (byte_at s 0)) as (? & ? & ? & _); [done|unfold ichip_c; lia|lia|].
  done.
Qed.

(** Setting the header, filling [n] words and sending them. *)
Definition sent (s s' : bench) (ps : list (list Z)) : Prop :=
  ready s' ∧ same_card (card s) (card s') ∧
  transmitted (card s') = transmitted (card s) ++ ((λ p, (dev_handle_1 (card s), p)) <$> ps).

Lemma sent_refl s : ready s → sent s s [].
Proof. intros. split; [done|]. split; [done|]. by rewrite app_nil_r. Qed.
Lemma sent_app s1 s2 s3 a b : sent s1 s2 a → sent s2 s3 b → sent s1 s3 (a ++ b).
Proof.
  intros (_ & C1 & T1) (R & C2 & T2). split; [done|]. split; [by etrans|].
  rewrite T2, T1, fmap_app, <-app_assoc. destruct C1 as (-> & _). done.
Qed.

Lemma packet_sent module n last s :
  ready s → n + 1 < SEND_SIZE →
  ∃ s' a, (set_header module ;;~ fill_words n last ;;~ send drv (Z.of_nat n + 1)) s = (s', Some a) ∧
    carray s' = carray s ∧ sent s s' [packet_of module n last s].
Proof.
  intros Hs Hn. pose proof Hs as (Hb & Hc & Hbytes).
  unfold st_bind, set_header, set_send, fill_words, st_modify.
  set (s1 := s <| buf_send ::= <[0:=u32 (fw_header module s)]> |>).
  set (s2 := s1 <| buf_send ::= _ |>).
  assert (buf_send s2 = packet_of module n last s ++ drop (S n) (buf_send s1)) as Hb2.
  { unfold s2. cbn [buf_send update_field]. rewrite fold_insert.
    - unfold s1 at 1. cbn [buf_send update_field]. destruct (buf_send s) as [|x b]; [cbn in Hb; unfold SEND_SIZE in Hb; lia|].
      done.
    - unfold s1. cbn [buf_send update_field]. rewrite length_insert. lia. }
  assert (length (packet_of module n last s) = S n) as Hp.
  { unfold packet_of. cbn. by rewrite length_fmap, length_seq. }
  assert (ready s2) as Hs2.
  { split; [|done]. rewrite Hb2, length_app, length_drop, Hp. unfold s1. cbn. rewrite length_insert. lia. }
  destruct (send_words_spec drv (Z.of_nat n + 1) s2) as (s' & a & Heq & R & C & Hcar & _ & T);
    [done|unfold SEND_SIZE in Hn; lia|].
  exists s', a. split; [exact Heq|]. split; [by rewrite Hcar|]. split; [done|]. split; [done|].
  rewrite T, Hb2. rewrite take_app_length' by (rewrite Hp; lia). done.
Qed.

Lemma store_byte s i c :
  ready s → (0 ≤ c < 256)%Z → i < SEND_SIZE →
  ready (s <| carray ::= <[i := c]> |>) ∧
  take (S i) (carray (s <| carray ::= <[i := c]> |>)) = take i (carray s) ++ [c].
Proof.
  intros (Hb & Hc & Hbytes) Hrange Hi. split.
  - split; [done|]. cbn. rewrite length_insert. split; [done|]. by apply Forall_insert.
  - cbn. apply take_S_insert. lia.
Qed.

(** The loop sends the full packets of what is in [carray] and of what it reads,
    and leaves the rest in [carray]. *)
Lemma fw_loop_spec module bytes s count pre :
  ready s → (0 ≤ module < 32)%Z → Forall (λ c, 0 ≤ c < 256)%Z bytes →
  take count (carray s) = pre → length pre = count → count < 1000 →
  ∃ s' k full, fw_loop drv module bytes count s = (s', Some k) ∧ sent s s' full ∧
    k = length (pre ++ bytes) `mod` 1000 ∧ k = length (pre ++ bytes) - 1000 * length full ∧
    length full = length (pre ++ bytes) `div` 1000 ∧
    Forall (fw_packet_ok module) full ∧ Forall (λ p, length p = 501) full ∧
    concat ((λ p, take 1000 (packet_bytes p)) <$> full) = take (1000 * length full) (pre ++ bytes) ∧
    take k (carray s') = drop (1000 * length full) (pre ++ bytes).
Proof.
  revert s count pre. induction bytes as [|c bytes IH]; intros s count pre Hs Hm Hbytes Hpre Hlen Hcount.
  { exists s, count, []. rewrite app_nil_r, Hlen. split; [done|]. split; [by apply sent_refl|].
    cbn [length]. rewrite Nat.mod_small, Nat.div_small by lia. rewrite Nat.mul_0_r, drop_0.
    split_and!; try done; lia. }
  apply Forall_cons_1 in Hbytes as [Hc Hbytes].
  assert (count < SEND_SIZE) as Hsize by (unfold SEND_SIZE; lia).
  destruct (store_byte s count c Hs Hc Hsize) as [Hs1 Htake]. rewrite Hpre in Htake.
  cbn [fw_loop]. unfold st_bind at 1, st_modify at 1.
  set (s1 := s <| carray ::= _ |>) in *.
  assert (sent s s1 []) as Hsent1 by (split; [done|]; split; [done|]; by rewrite app_nil_r).
  change (nsend * 2) with 1000.
  replace (pre ++ c :: bytes) with ((pre ++ [c]) ++ bytes) by by rewrite <-app_assoc.
  assert (length (pre ++ [c]) = S count) as Hlen1 by (rewrite length_app; cbn; lia).
  case_decide as Hfull.
  - assert (S count = 1000) as Heq.
    { destruct (decide (S count < 1000)); [|lia]. rewrite Nat.mod_small in Hfull by lia. lia. }
    destruct (packet_sent module nsend 0 s1) as (s2 & a & Hrun & Hcar & Hsent2);
      [done|unfold SEND_SIZE, nsend; lia|].
    unfold st_bind at 1. unfold fw_packet. rewrite Hrun.
    destruct (IH s2 0 []) as (s3 & k & full & Hrun3 & Hsent3 & Hk & Hk' & Hn & Hok & Hall & Hbytes3 & Hrest);
      [apply Hsent2|done|done|done|done|lia|].
    rewrite Hrun3. cbn [app] in *.
    exists s3, k, (packet_of module nsend 0 s1 :: full).
    assert (length ((pre ++ [c]) ++ bytes) = 1000 + length bytes) as Hall' by (rewrite length_app; lia).
    assert (take 1000 (packet_bytes (packet_of module nsend 0 s1)) = pre ++ [c]) as Hpk.
    { change 1000 with (2 * nsend). rewrite packet_of_bytes by (done || (unfold nsend, SEND_SIZE; lia)).
      change (2 * nsend) with 1000. by rewrite <-Heq. }
    split; [done|]. split.
    { change (packet_of module nsend 0 s1 :: full) with ([] ++ [packet_of module nsend 0 s1] ++ full).
      by do 2 (eapply sent_app; [eassumption|]). }
    rewrite Hall'. cbn [length]. split_and!.
    + rewrite Hk. replace (1000 + length bytes) with (length bytes + 1 * 1000) by lia.
      by rewrite Nat.Div0.mod_add.
    + lia.
    + rewrite Hn. replace (1000 + length bytes) with (length bytes + 1 * 1000) by lia.
      rewrite Nat.div_add by lia. lia.
    + constructor; [|done]. apply packet_of_ok; [done|unfold nsend; lia].
    + constructor; [|done]. unfold packet_of. cbn [length]. by rewrite length_fmap, length_seq.
    + cbn [fmap list_fmap concat]. rewrite Hpk, Hbytes3.
      replace (1000 * S (length full)) with (length (pre ++ [c]) + 1000 * length full) by lia.
      by rewrite take_app_add.
    + rewrite Hrest. replace (1000 * S (length full)) with (length (pre ++ [c]) + 1000 * length full) by lia.
      by rewrite drop_app_add.
  - assert (S count ≠ 1000) by (intros E; rewrite E in Hfull; done).
    destruct (IH s1 (S count) (pre ++ [c])) as (s3 & k & full & Hrun3 & Hsent3 & Hrest);
      [done|done|done|done|done|lia|].
    exists s3, k, full. rewrite Hrun3. split; [done|]. split; [by apply (sent_app s s1 s3 [] full)|]. done.
Qed.

Lemma fw_tail_words_range count :
  1 < count < 1000 → 0 < fw_tail_words count ≤ 501 ∧ count ≤ 2 * fw_tail_words count.
Proof.
  intros Hc. unfold fw_tail_words.
  pose proof (Nat.div_mod (count - 1) 2 ltac:(lia)). pose proof (Nat.mod_upper_bound (count - 1) 2 ltac:(lia)).
  case_decide; lia.
Qed.

(** The last packet begins with the [count] bytes left in [carray]. *)
Lemma fw_tail_spec module chip count s :
  ready s → (0 ≤ module < 32)%Z → count < 1000 →
  ∃ s' a t, fw_tail drv module chip count s = (s', Some a) ∧ sent s s' [t] ∧ fw_packet_ok module t ∧
    take count (packet_bytes t) = take count (carray s).
Proof.
  intros Hs Hm Hcount. unfold fw_tail. case_decide as Hmany.
  - pose proof (fw_tail_words_range count ltac:(lia)) as [Hn Hcov]. set (n := fw_tail_words count) in *.
    set (last := (Z.shiftl module 11 + Z.shiftl chip 8)%Z).
    destruct (packet_sent module n last s) as (s' & a & Hrun & _ & Hsent); [done|unfold SEND_SIZE; lia|].
    exists s', a, (packet_of module n last s). split; [exact Hrun|]. split; [done|].
    split; [apply packet_of_ok; [done|lia]|].
    rewrite <-(take_take_le _ count (2 * n)) by done.
    rewrite packet_of_bytes by (done || (unfold SEND_SIZE; lia)). by rewrite take_take_le.
  - unfold st_bind, set_header, set_send, st_modify.
    set (s1 := s <| buf_send ::= _ |>).
    destruct (send_words_spec drv 2 s1) as (s' & a & Hrun & R & C & _ & _ & T);
      [by apply ready_set_send|lia|].
    pose proof Hs as (Hb & _). destruct (buf_send s) as [|x [|y b]] eqn:E;
      [cbn in Hb; unfold SEND_SIZE in Hb; lia..|].
    exists s', a, [u32 (fw_header module s); y]. split; [exact Hrun|].
    split.
    { split; [done|]. split; [done|]. rewrite T. unfold s1. cbn [card buf_send update_field].
      by rewrite E. }
    split.
    { pose proof (packet_of_ok module 1 0 s Hm ltac:(lia)) as (_ & Hok).
      split; [cbn; lia|]. exact Hok. }
    destruct count as [|[|count]]; [done| |lia].
    pose proof (plain_words_bytes module s 0 Hs Hm ltac:(unfold SEND_SIZE; lia)) as Hone.
    exact Hone.
Qed.

(** The bytes of a file are bytes. *)
Definition fw_valid (fw : firmware) : Prop := Forall (λ c, 0 ≤ c < 256)%Z (fw_bytes fw).

(** The whole file is sent; see the next theorem. *)
Lemma LoadFirmware_sends module chip fw :
  (0 ≤ module < 32)%Z → fw_valid fw →
  yields (LoadFirmware drv module chip (Some fw)) [Firmware module fw] true.
Proof.
  intros Hm Hbytes s Hs. unfold LoadFirmware, st_get.
  destruct (fw_loop_spec module (fw_bytes fw) s 0 []) as
    (s1 & k & full & Hrun & Hsent & Hk & Hk' & Hn & Hok & Hall & Hfull & Hrest); [done..|lia|].
  cbn [app] in *. unfold st_bind. rewrite Hrun.
  assert (k < 1000) as Hlt by (rewrite Hk; apply Nat.mod_upper_bound; lia).
  destruct (fw_eof fw) eqn:Heof.
  - destruct (fw_tail_spec module chip k s1) as (s2 & a & t & Hrun2 & Hsent2 & Hok2 & Htake);
      [apply Hsent|done|done|].
    rewrite Hrun2. exists s2. split; [done|].
    pose proof (sent_app _ _ _ _ _ Hsent Hsent2) as (R & C & T). split; [done|]. split; [done|].
    exists (full ++ [t]). split; [|done]. rewrite <-(app_nil_r (full ++ [t])). constructor; [|constructor].
    exists full, [t]. rewrite Heof, Hk in *. split_and!; try done.
    + apply Forall_app. split; [done|by constructor].
    + exists t. split; [done|]. by rewrite Htake, Hrest.
  - exists s1. split; [done|]. destruct Hsent as (R & C & T). split; [done|]. split; [done|].
    exists full. split; [|done]. rewrite <-(app_nil_r full). constructor; [|constructor].
    exists full, []. rewrite Heof, app_nil_r. by split_and!.
Qed.

(** C35. [LoadFirmware] transmits the whole file: for any bitfile that opens,
    the packets that leave the card are the file in order, 1000 bytes per full
    packet of 501 words and the rest at the head of the last packet, each packet
    addressed to the module with the chip number kept apart for firmware; it
    always terminates and returns true. *)
Theorem LoadFirmware_packets module chip fw :
  (0 ≤ module < 32)%Z → fw_valid fw →
  ∀ s, ready s → ∃ s' ps,
    LoadFirmware drv module chip (Some fw) s = (s', Some true) ∧ ready s' ∧
    transmitted (card s') = transmitted (card s) ++ ((λ p, (dev_handle_1 (card s), p)) <$> ps) ∧
    firmware_packets module fw ps.
Proof.
  intros Hm Hfw s Hs.
  destruct (LoadFirmware_sends module chip fw Hm Hfw s Hs) as (s' & Hrun & Hready & _ & ps & Hps & Ht).
  inversion Hps as [| |? ? l ? ps' Hl Hnil]; subst. inversion Hnil; subst. rewrite app_nil_r in Ht.
  by exists s', l.
Qed.
End firmware.

(** A card that completes every transfer at the first poll. *)
Definition demo_bench : bench := {|
  card := new_pcie; buf_send := replicate SEND_SIZE 0; carray := replicate SEND_SIZE 0; read_array := [0; 0]
|}.
Lemma demo_bench_ready : ready demo_bench.
Proof. split_and!; cbn; rewrite ?length_replicate; try done. apply Forall_replicate. lia. Qed.

Lemma LoadFirmware_packets_witness :
  0 ≤ 11 < 32 ∧ fw_valid (Fw [1; 2; 3] true) ∧ ready demo_bench ∧
  ∃ s' ps, LoadFirmware demo_driver 11 2 (Some (Fw [1; 2; 3] true)) demo_bench = (s', Some true) ∧
    firmware_packets 11 (Fw [1; 2; 3] true) ps.
Proof.
  assert (fw_valid (Fw [1; 2; 3] true)) as Hfw by (repeat constructor; lia).
  split; [lia|]. split; [exact Hfw|]. split; [exact demo_bench_ready|].
  destruct (LoadFirmware_packets demo_driver 11 2 (Fw [1; 2; 3] true) ltac:(lia) Hfw demo_bench
    demo_bench_ready) as (s' & ps & Hrun & _ & _ & Hps).
  exists s', ps. split; [exact Hrun|exact Hps].
Defined.
