(* ===== verification/TriggerControl.v ===== *)
(** * The trigger module: [TriggerControl]
    (src/src/hardware/trigger_control.cpp, trigger_control.h) *)
From Stdlib Require Import Lia ZArith String.
From stdpp Require Import base tactics list numbers option strings.
From S2P Require Import Prelude Config Pcie Wire HwConsts HardwareDevice.
Local Open Scope Z_scope.

(** The object, and the function's static variables: a mask has no value until
    the first call that reaches its initialisation. *)
Record trigger_control := TriggerControl {
  is_running : bool;
  prescale_vec : list Z;
  software_trigger_rate : Z;
  trigger_module : Z;
  ext_trig : bool;
  light_trig : bool;
  software_trig : bool;
  iframe_length : Z;
  static_mask1 : option Z;
  static_mask8 : option Z
}.
#[export] Instance trigger_control_eta : RecordEta trigger_control := λ t,
  TriggerControl (is_running t) (prescale_vec t) (software_trigger_rate t) (trigger_module t)
    (ext_trig t) (light_trig t) (software_trig t) (iframe_length t) (static_mask1 t) (static_mask8 t).

Section trigger.
Context (drv : driver) `{ErrorBits}.
Notation hw := (st_err bench).

(** What the try block reads: the dead time and the trigger source. *)
Definition read_config (c : config) : st_err trigger_control (Z * string) :=
  rate <~ st_get (cfg_int c "trigger" "software_trigger_rate_hz") ;;
  st_modify (λ t, t <| software_trigger_rate := rate |>) ;;~
  slot <~ st_get (cfg_int c "crate" "trig_slot") ;;
  st_modify (λ t, t <| trigger_module := slot |>) ;;~
  drift_size <~ st_get (cfg_int c "readout_windows" "drift_size") ;;
  st_modify (λ t, t <| iframe_length := i32 ((drift_size + 1) * 8 - 1) |>) ;;~
  tpc_dead_time <~ st_get (cfg_int c "trigger" "dead_time") ;;
  trig_src <~ st_get (cfg_string c "trigger" "trigger_source") ;;
  prescale <~ st_get (cfg_list c "trigger" "prescale") ;;
  st_modify (λ t, t <| prescale_vec := prescale |>) ;;~
  st_ret (tpc_dead_time, trig_src).

(** [static int mask = ...]: set by the first call only. *)
Definition init_static (old : option Z) (v : Z) : option Z := Some (default v old).

Definition set_trigger_source (trig_src : string) (t : trigger_control) : trigger_control :=
  let ext := String.eqb trig_src "external" in
  let light := String.eqb trig_src "light" in
  t <| ext_trig := ext |> <| light_trig := light |>
    <| software_trig := String.eqb trig_src "software" |>
    <| static_mask1 ::= λ m, init_static m (if light then 0x8 else 0) |>
    <| static_mask8 ::= λ m, init_static m (if ext then 0x2 else 0) |>.

(** The words of the prescale loop, from trigger number [i]. *)
Fixpoint send_prescales (imod i : Z) (prescales : list Z) : hw () :=
  match prescales with
  | [] => st_ret ()
  | p :: prescales =>
      command drv imod 0 (i + mb_trig_prescale0) p ;;~ send_prescales imod (i + 1) prescales
  end.

Definition send_masks (t : trigger_control) : hw () :=
  let imod := trigger_module t in
  if light_trig t then
    command drv imod 0 mb_trig_mask1 (Z.land (default 0 (static_mask1 t)) 0xF) ;;~
    command drv imod 0 mb_trig_mask8 (Z.land (default 0 (static_mask8 t)) 0xFF) ;;~ st_ret ()
  else if ext_trig t then
    command drv imod 0 mb_trig_mask8 0x4A ;;~ st_ret ()
  else if software_trig t then
    command drv imod 0 mb_trig_mask1 0x0 ;;~
    command drv imod 0 mb_trig_mask8 0x8 ;;~ st_ret ()
  else st_ret ().

Definition send_setup (t : trigger_control) (tpc_dead_time : Z) : hw () :=
  let imod := trigger_module t in
  command drv 0 1 mb_cntrl_test_on 0x0 ;;~
  command drv imod 0 mb_trig_run 0x0 ;;~
  command drv imod 0 mb_trig_deadtime_size (Z.land tpc_dead_time 0x7fff) ;;~
  command drv 0 1 mb_cntrl_test_off 0x0 ;;~
  command drv imod 0 mb_trig_frame_size (Z.land (iframe_length t) 0xffff) ;;~
  command drv 0 1 mb_cntrl_load_trig_pos 0x0 ;;~
  command drv 0 0 mb_trig_delay1_size 0x0 ;;~
  command drv 0 0 mb_trig_delay2_size 0x0 ;;~
  send_prescales imod 0 (prescale_vec t) ;;~
  send_masks t.

Definition Configure (c : config) (t : trigger_control) : hw (trigger_control * N) :=
  match read_config c t with
  | (t, None) => st_ret (t, err_trigger_get_config)
  | (t, Some (tpc_dead_time, trig_src)) =>
      let t := set_trigger_source trig_src t in
      send_setup t tpc_dead_time ;;~ st_ret (t, 0%N)
  end.

(** ** Starting and stopping the trigger *)
Definition send_word (w : Z) : st pcie () := PCIeSendBuffer drv kDev1 1 1 [w; 0] ;; mret ().

Definition SendStartTrigger (itrig_c itrig_ext : bool) (module : Z) : st pcie () :=
  if itrig_c then send_word (cmd_word module 0 mb_trig_run 0x1)
  else if itrig_ext then send_word (cmd_word module 0 mb_trig_run 0x1)
  else send_word (cmd_word 0 1 mb_cntrl_set_trig1 0x0).

Definition SendStopTrigger (itrig_c itrig_ext : bool) (module : Z) : st pcie () :=
  if itrig_c then send_word (cmd_word module 0 mb_trig_run 0x0)
  else if itrig_ext then send_word (cmd_word module 0 mb_trig_run 0x0)
  else mret ().

Definition StopTrigger (stop_trigger : bool) (t : trigger_control) : trigger_control :=
  t <| is_running := negb stop_trigger |>.

(** [SendSoftwareTrigger]: the store, then the loop, [is_running] being read
    before each trigger; the other thread may change it in between. *)
Definition soft_trigger_start (t : trigger_control) : trigger_control := t <| is_running := true |>.
Definition soft_trigger_word (module : Z) : Z := cmd_word module 0 mb_trig_pctrig 0x0.
Fixpoint soft_trigger_loop (module : Z) (flags : list bool) : st pcie nat :=
  match flags with
  | [] => mret 0%nat
  | running :: flags =>
      if running : bool
      then send_word (soft_trigger_word module) ;; n ← soft_trigger_loop module flags; mret (S n)
      else mret 0%nat
  end.
End trigger.

(** ** The commands of a configuration *)
Definition prescale_script (imod i : Z) (prescales : list Z) : list item :=
  imap (λ k p, Cmd imod 0 (i + Z.of_nat k + mb_trig_prescale0) p) prescales.

Definition mask_script (imod : Z) (trig_src : string) (mask1 mask8 : Z) : list item :=
  if String.eqb trig_src "light" then
    [Cmd imod 0 mb_trig_mask1 (Z.land mask1 0xF); Cmd imod 0 mb_trig_mask8 (Z.land mask8 0xFF)]
  else if String.eqb trig_src "external" then [Cmd imod 0 mb_trig_mask8 0x4A]
  else if String.eqb trig_src "software" then
    [Cmd imod 0 mb_trig_mask1 0x0; Cmd imod 0 mb_trig_mask8 0x8]
  else [].

Definition trigger_script (imod dead_time frame_length : Z) (prescales : list Z) (trig_src : string)
    (mask1 mask8 : Z) : list item :=
  [Cmd 0 1 mb_cntrl_test_on 0; Cmd imod 0 mb_trig_run 0;
   Cmd imod 0 mb_trig_deadtime_size (Z.land dead_time 0x7fff); Cmd 0 1 mb_cntrl_test_off 0;
   Cmd imod 0 mb_trig_frame_size (Z.land frame_length 0xffff);
   Cmd 0 1 mb_cntrl_load_trig_pos 0; Cmd 0 0 mb_trig_delay1_size 0; Cmd 0 0 mb_trig_delay2_size 0] ++
  prescale_script imod 0 prescales ++ mask_script imod trig_src mask1 mask8.

Section proofs.
Context (drv : driver) `{ErrorBits}.

Lemma send_prescales_sends imod i ps : sends (send_prescales drv imod i ps) (prescale_script imod i ps).
Proof.
  unfold prescale_script. revert i. induction ps as [|p ps IH]; intros i; cbn [send_prescales imap].
  { apply sends_ret. }
  rewrite Z.add_0_r. apply sends_cons; [apply command_sends|]. intros _.
  rewrite (imap_ext _ (λ k p, Cmd imod 0 (i + 1 + Z.of_nat k + mb_trig_prescale0) p)); [apply IH|].
  intros k x _. unfold compose. by replace (i + Z.of_nat (S k)) with (i + 1 + Z.of_nat k) by lia.
Qed.

Lemma send_masks_sends src t :
  let t := set_trigger_source src t in
  sends (send_masks drv t)
    (mask_script (trigger_module t) src (default 0 (static_mask1 t)) (default 0 (static_mask8 t))).
Proof.
  intros t'. unfold send_masks, mask_script. 
  change (light_trig t') with (String.eqb src "light"). change (ext_trig t') with (String.eqb src "external").
  change (software_trig t') with (String.eqb src "software").
  repeat case_match; send_script.
Qed.

(** Configuring the trigger module: when a value cannot be read nothing is
    sent and the trigger error code is returned; otherwise the module is stopped,
    its dead time and frame length set, every prescale sent to its own register in
    order, and the masks of the trigger source set. The light trigger's masks are
    those computed by the first configuration of the process, whatever its source
    was. *)
Theorem Configure_sends_script c t :
  match read_config c t with
  | (t', None) => yields (Configure drv c t) [] (t', err_trigger_get_config)
  | (t', Some (tpc_dead_time, trig_src)) =>
      let mask1 := default (if String.eqb trig_src "light" then 0x8 else 0) (static_mask1 t) in
      let mask8 := default (if String.eqb trig_src "external" then 0x2 else 0) (static_mask8 t) in
      yields (Configure drv c t)
        (trigger_script (trigger_module t') tpc_dead_time (iframe_length t') (prescale_vec t') trig_src
           mask1 mask8)
        (set_trigger_source trig_src t', 0%N) ∧
      static_mask1 (set_trigger_source trig_src t') = Some mask1 ∧
      static_mask8 (set_trigger_source trig_src t') = Some mask8
  end.
Proof.
  assert (static_mask1 (read_config c t).1 = static_mask1 t ∧ static_mask8 (read_config c t).1 = static_mask8 t) as [H1 H8].
  { unfold read_config, st_bind, st_get, st_modify, st_ret. by repeat case_match; simplify_eq/=. }
  unfold Configure. destruct (read_config c t) as [t' [[dead src]|]]; cbn [fst] in *; [|apply yields_ret].
  rewrite <-H1, <-H8. split; [|done]. apply yields_after. unfold send_setup, trigger_script. cbn [app].
  do 8 (apply sends_cons; [apply command_sends|intros _]).
  apply sends_bind; [apply send_prescales_sends|]. intros _. apply (send_masks_sends src t').
Qed.
End proofs.
