(* ===== verification/XmitControl.v ===== *)
(** * The PCIe transceivers and the XMIT module: [PcieControl], [XmitControl]
    (src/src/hardware/pcie_control.cpp, xmit_control.cpp) *)
From Stdlib Require Import Lia ZArith String.
From stdpp Require Import base tactics list numbers option strings.
From S2P Require Import Prelude Config Pcie Wire HwConsts HardwareDevice.
Local Open Scope Z_scope.

Section xmit.
Context (drv : driver) (files : string → option firmware) `{ErrorBits}.
Notation hw := (st_err bench).

(** [PcieControl::Configure]: both transmitters and receivers of the second card,
    then one word of zero through the first. *)
Definition PcieControl_Configure : hw N :=
  on_card (WriteReg32 drv kDev2 cs_bar t1_cs_reg cs_init) ;;~
  on_card (WriteReg32 drv kDev2 cs_bar t2_cs_reg cs_init) ;;~
  on_card (WriteReg32 drv kDev2 cs_bar r1_cs_reg cs_init) ;;~
  on_card (WriteReg32 drv kDev2 cs_bar r2_cs_reg cs_init) ;;~
  on_card (WriteReg32 drv kDev2 cs_bar tx_md_reg 0xfff) ;;~
  set_send 0 0x0 ;;~
  set_send 1 0x0 ;;~
  send drv 1 ;;~
  st_ret 0%N.

(** The XMIT slot, the last light slot and the bitfile. *)
Definition xmit_config (c : config) : option (Z * Z * string) :=
  imod_xmit ← cfg_int c "crate" "xmit_slot";
  imod_st1 ← cfg_int c "crate" "last_light_slot";
  data_basedir ← cfg_string c "hardware" "readout_basedir";
  bitfile ← cfg_string c "xmit" "fpga_bitfile";
  mret (imod_xmit, imod_st1, data_basedir +:+ "/" +:+ bitfile).

Definition boot_xmit (imod_xmit : Z) (fw_file : string) : hw () :=
  command drv imod_xmit mb_xmit_conf_add 0x0 0x0 ;;~
  LoadFirmware drv imod_xmit mb_xmit_conf_add (files fw_file) ;;~
  recv drv 1 1 0 ;;~
  recv drv 1 1 0 ;;~
  command drv imod_xmit 3 mb_xmit_rdstatus 0x0 ;;~
  recv drv 2 1 0 ;;~
  st_ret ().

Definition setup_xmit (imod_xmit imod_st1 : Z) : hw () :=
  command drv imod_xmit 3 mb_xmit_modcount (imod_st1 - imod_xmit - 1) ;;~
  command drv imod_xmit 3 mb_opt_dig_reset 0x1 ;;~
  command drv imod_xmit 3 mb_xmit_enable_1 0x1 ;;~
  command drv imod_xmit 3 mb_xmit_enable_2 0x0 ;;~
  command drv imod_xmit 3 mb_xmit_link_pll_reset 0x1 ;;~
  command drv imod_xmit 3 mb_xmit_link_reset 0x1 ;;~
  command drv imod_xmit 3 mb_xmit_dpa_fifo_reset 0x1 ;;~
  command drv imod_xmit 3 mb_xmit_dpa_word_align 0x1 ;;~
  recv drv 1 1 0 ;;~
  command drv imod_xmit 3 mb_xmit_rdstatus 0x0 ;;~
  recv drv 2 1 0 ;;~
  command drv imod_xmit 3 mb_xmit_rdcounters 0x0 ;;~
  recv drv 2 5 0 ;;~
  st_ret ().

Definition XmitControl_Configure (c : config) : hw N :=
  match xmit_config c with
  | None => st_ret err_xmit_get_config
  | Some (imod_xmit, imod_st1, fw_file) =>
      boot_xmit imod_xmit fw_file ;;~ setup_xmit imod_xmit imod_st1 ;;~ st_ret 0%N
  end.
End xmit.

(** ** The commands of a configuration *)
Definition xmit_script (x st1 : Z) (fw : firmware) : list item :=
  [Cmd x mb_xmit_conf_add 0 0; Firmware x fw; Cmd x 3 mb_xmit_rdstatus 0] ++
  [Cmd x 3 mb_xmit_modcount (st1 - x - 1); Cmd x 3 mb_opt_dig_reset 1;
   Cmd x 3 mb_xmit_enable_1 1; Cmd x 3 mb_xmit_enable_2 0; Cmd x 3 mb_xmit_link_pll_reset 1;
   Cmd x 3 mb_xmit_link_reset 1; Cmd x 3 mb_xmit_dpa_fifo_reset 1; Cmd x 3 mb_xmit_dpa_word_align 1;
   Cmd x 3 mb_xmit_rdstatus 0; Cmd x 3 mb_xmit_rdcounters 0].

Section proofs.
Context (drv : driver) (files : string → option firmware) `{ErrorBits}.

Lemma boot_xmit_sends x file fw :
  files file = Some fw → 0 ≤ x < 32 → fw_valid fw →
  sends (boot_xmit drv files x file) [Cmd x mb_xmit_conf_add 0 0; Firmware x fw; Cmd x 3 mb_xmit_rdstatus 0].
Proof.
  intros Hf Hx Hfw. unfold boot_xmit. rewrite Hf.
  apply sends_cons; [apply command_sends|intros _].
  apply sends_cons; [by eapply yields_sends, LoadFirmware_sends|intros _]. send_script.
Qed.

(** Configuring the XMIT module: without a complete configuration nothing is
    sent and the XMIT error code is returned; otherwise the module is put in
    configuration mode, loaded with the bitfile, and set up by the eight commands
    of the code in order, the token count being the number of slots up to the last
    light slot, followed by the status and counter requests. *)
Theorem XmitControl_sends_script c :
  match xmit_config c with
  | None => yields (XmitControl_Configure drv files c) [] err_xmit_get_config
  | Some (x, st1, file) =>
      ∀ fw, files file = Some fw → 0 ≤ x < 32 → fw_valid fw →
      yields (XmitControl_Configure drv files c) (xmit_script x st1 fw) 0%N
  end.
Proof.
  unfold XmitControl_Configure. destruct (xmit_config c) as [[[x st1] file]|]; [|apply yields_ret].
  intros fw Hf Hx Hfw. unfold xmit_script. apply yields_bind; [by apply boot_xmit_sends|].
  intros _. apply yields_after. unfold setup_xmit. send_script.
Qed.
End proofs.

Lemma XmitControl_sends_script_witness :
  0 ≤ 3 < 32 ∧ fw_valid (Fw [1; 2] true) ∧
  yields (XmitControl_Configure demo_driver (λ _, Some (Fw [1; 2] true)) (demo_config 1 3 "a"))
    (xmit_script 3 3 (Fw [1; 2] true)) 0%N.
Proof.
  assert (fw_valid (Fw [1; 2] true)) as Hfw by (repeat constructor; lia).
  split; [lia|]. split; [exact Hfw|].
  exact (XmitControl_sends_script demo_driver (λ _, Some (Fw [1; 2] true)) (demo_config 1 3 "a")
    (Fw [1; 2] true) eq_refl ltac:(lia) Hfw).
Defined.
