(* ===== verification/ChargeFem.v ===== *)
(** * The charge boards: [ChargeFem] (src/src/hardware/charge_fem.cpp) *)
From Stdlib Require Import Lia ZArith String.
From stdpp Require Import base tactics list numbers option strings.
From S2P Require Import Prelude Config Pcie Wire HwConsts HardwareDevice.
Local Open Scope Z_scope.

Definition ConstructSendWord (module chip command data : Z) : Z :=
  u32 (Z.shiftl module 11 + Z.shiftl chip 8 + command + data).

(** A word of the ADC's SPI stream: address, data in the top byte. *)
Definition adc_word (address data : Z) : Z := Z.shiftl 0 13 + address + Z.shiftl data 24 + Z.shiftl 0 16.

(** Switches that the source leaves off: test patterns of the ADCs and of the
    boards, compression. *)
Definition fakeadcdata : Z := 0.
Definition femfakedata : Z := 0.
Definition ihuff : Z := 0.
Definition ChargeFem_GetStatus : list Z := [1].

Section charge.
Context (drv : driver) (files : string → option firmware) `{ErrorBits}.
Notation hw := (st_err bench).

Definition put_word (imod ichip cmd data : Z) : hw () :=
  set_send 0 (ConstructSendWord imod ichip cmd (Z.shiftl data 16)).
(** One word, and two. *)
Definition feb_command (imod ichip cmd data : Z) : hw Z :=
  put_word imod ichip cmd data ;;~ send drv 1.
Definition feb_command2 (imod ichip cmd data w1 : Z) : hw Z :=
  put_word imod ichip cmd data ;;~ set_send 1 w1 ;;~ send drv 2.

(** The slots (xmit, last light, last charge, first charge), the drift size and the bitfile. *)
Record charge_config := ChargeConfig {
  cc_xmit : Z; cc_st1 : Z; cc_st2 : Z; cc_tpc : Z; cc_drift_size : Z; cc_file : string
}.
Definition read_charge_config (c : config) : option charge_config :=
  imod_xmit ← cfg_int c "crate" "xmit_slot";
  imod_st1 ← cfg_int c "crate" "last_light_slot";
  imod_st2 ← cfg_int c "crate" "last_charge_slot";
  imod_tpc ← cfg_int c "crate" "charge_fem_slot";
  drift_size ← cfg_int c "readout_windows" "drift_size";
  data_basedir ← cfg_string c "hardware" "readout_basedir";
  bitfile ← cfg_string c "charge_fem" "fpga_bitfile";
  mret (ChargeConfig imod_xmit imod_st1 imod_st2 imod_tpc drift_size (data_basedir +:+ "/" +:+ bitfile)).

Definition boot_fem (fw_file : string) (imod : Z) : hw Z :=
  feb_command imod 1 mb_feb_power_add 0x0 ;;~
  feb_command imod mb_feb_conf_add 0x0 0x0 ;;~
  LoadFirmware drv imod mb_feb_conf_add (files fw_file) ;;~
  st_ret 0.

(** The first ADC loop prepares two register writes that it does not send. *)
Definition adc_address_1 (imod port : Z) : hw Z :=
  feb_command imod 5 mb_pmt_spi_add (Z.land port 0xf) ;;~
  put_word imod 5 mb_pmt_adc_data_load 0x0300 ;;~
  set_send 1 (adc_word 0xd 0xc) ;;~
  put_word imod 5 mb_pmt_adc_data_load 0x0300 ;;~
  set_send 1 (adc_word 0xff 0x1) ;;~
  feb_command imod 5 mb_pmt_spi_add (Z.land port 0xf).
Definition adc_address_2 (imod port : Z) : hw Z :=
  feb_command imod 5 mb_pmt_spi_add (Z.land port 0xf) ;;~
  feb_command2 imod 5 mb_pmt_adc_data_load 0x0300 (adc_word 0xd 0xc) ;;~
  feb_command2 imod 5 mb_pmt_adc_data_load 0x0300 (adc_word 0xff 0x1).
Definition adc_address_3 (imod port : Z) : hw Z :=
  feb_command imod 5 mb_pmt_spi_add (Z.land port 0xf) ;;~
  feb_command2 imod 5 mb_pmt_adc_data_load 0x0300 (adc_word 0xd (if fakeadcdata =? 1 then 0xc else 0x0)) ;;~
  feb_command2 imod 5 mb_pmt_adc_data_load 0x0300 (adc_word 0xff 0x1).

Definition setup_adc (imod : Z) : hw () :=
  for_each (up 0 8) (adc_address_1 imod) ;;~
  for_each (up 0 8) (adc_address_2 imod) ;;~
  feb_command imod 3 mb_feb_adc_reset 0x1 ;;~
  feb_command imod 3 mb_feb_adc_align 0x0 ;;~
  for_each (up 0 8) (adc_address_3 imod).

(** The test source and the compression, the sizes, the board's id and the mark of
    the last module of the link. *)
Definition fem_options (imod_st1 drift_size imod : Z) : hw Z :=
  recv drv 1 1 0 ;;~
  feb_command imod mb_feb_pass_add mb_feb_test_source (if femfakedata =? 1 then 0x2 else 0x0) ;;~
  feb_command imod 3 mb_feb_b_nocomp (if ihuff =? 1 then 0x0 else 0x1) ;;~
  feb_command imod 3 mb_feb_a_nocomp (if ihuff =? 1 then 0x0 else 0x1) ;;~
  feb_command imod 3 mb_feb_timesize drift_size ;;~
  feb_command imod 3 mb_feb_b_id 0xf ;;~
  feb_command imod 4 mb_feb_b_id 0xf ;;~
  feb_command imod 3 mb_feb_max 8000 ;;~
  feb_command imod 3 mb_feb_hold_enable 0x1 ;;~
  if imod =? imod_st1
  then feb_command imod 4 mb_feb_lst_on 0x0
  else feb_command imod 4 mb_feb_lst_off 0x0.
Definition setup_fem (imod_st1 drift_size imod : Z) : hw Z :=
  feb_command imod 3 mb_feb_dram_reset 0x1 ;;~
  feb_command imod 3 mb_feb_dram_reset 0x0 ;;~
  feb_command imod 3 mb_feb_mod_number imod ;;~
  setup_adc imod ;;~
  fem_options imod_st1 drift_size imod.

Definition reset_pll (imod : Z) : hw Z := feb_command imod 4 mb_feb_pll_reset 0x0.
Definition align_link (imod : Z) : hw Z :=
  feb_command imod 4 mb_feb_rxreset 0x0 ;;~ feb_command imod 4 mb_feb_align 0x0.

(** The extra request that clears the first word, and the status of each board. *)
Definition first_status (imod nword : Z) : hw Z :=
  feb_command imod 3 20 0x0 ;;~ recv drv 2 nword 0.
Definition read_back_status (nword imod : Z) : hw Z :=
  recv drv 1 nword 0 ;;~ feb_command imod 3 20 0x0 ;;~ recv drv 2 nword 0.
Definition status_round (imod_xmit imod_st2 nword : Z) : hw () :=
  first_status (imod_xmit + 1) nword ;;~
  for_each (up (imod_xmit + 1) (imod_st2 + 1)) (read_back_status nword).

(** [nword] is static: a crate without charge boards uses the value it had. *)
Definition charge_boards (cc : charge_config) (nword : Z) : hw () :=
  let fems := up (cc_tpc cc) (cc_st2 cc + 1) in
  let nword := match fems with [] => nword | _ => 1 end in
  for_each fems (boot_fem (cc_file cc)) ;;~
  for_each fems (setup_fem (cc_st1 cc) (cc_drift_size cc)) ;;~
  for_each (down (cc_st2 cc) (cc_xmit cc)) reset_pll ;;~
  status_round (cc_xmit cc) (cc_st2 cc) nword ;;~
  for_each (down (cc_st2 cc) (cc_xmit cc)) align_link ;;~
  status_round (cc_xmit cc) (cc_st2 cc) nword.

Definition ChargeFem_Configure (c : config) (nword : Z) : hw N :=
  match read_charge_config c with
  | None => st_ret err_chargefem_get_config
  | Some cc => charge_boards cc nword ;;~ st_ret 0%N
  end.
End charge.

(** ** The commands of a configuration *)
Definition boot_script (fw : firmware) (m : Z) : list item :=
  [Cmd m 1 mb_feb_power_add 0; Cmd m mb_feb_conf_add 0 0; Firmware m fw].
Definition adc_load (m w : Z) : item := Words [cmd_word m 5 mb_pmt_adc_data_load 0x0300; w].
Definition adc_script (m : Z) : list item :=
  concat ((λ port, [Cmd m 5 mb_pmt_spi_add port; Cmd m 5 mb_pmt_spi_add port]) <$> seqZ 0 8) ++
  concat ((λ port, [Cmd m 5 mb_pmt_spi_add port; adc_load m 0x0c00000d; adc_load m 0x010000ff]) <$> seqZ 0 8) ++
  [Cmd m 3 mb_feb_adc_reset 1; Cmd m 3 mb_feb_adc_align 0] ++
  concat ((λ port, [Cmd m 5 mb_pmt_spi_add port; adc_load m 0x0000000d; adc_load m 0x010000ff]) <$> seqZ 0 8).
Definition setup_script (st1 drift m : Z) : list item :=
  [Cmd m 3 mb_feb_dram_reset 1; Cmd m 3 mb_feb_dram_reset 0; Cmd m 3 mb_feb_mod_number m] ++
  adc_script m ++
  [Cmd m 3 mb_feb_test_source 0; Cmd m 3 mb_feb_b_nocomp 1; Cmd m 3 mb_feb_a_nocomp 1;
   Cmd m 3 mb_feb_timesize drift; Cmd m 3 mb_feb_b_id 0xf; Cmd m 4 mb_feb_b_id 0xf;
   Cmd m 3 mb_feb_max 8000; Cmd m 3 mb_feb_hold_enable 1;
   Cmd m 4 (if m =? st1 then mb_feb_lst_on else mb_feb_lst_off) 0].
Definition status_request (m : Z) : item := Cmd m 3 20 0.

Definition charge_script (cc : charge_config) (fw : firmware) : list item :=
  let fems := seqZ (cc_tpc cc) (cc_st2 cc + 1 - cc_tpc cc) in
  let links := seqZ (cc_xmit cc + 1) (cc_st2 cc - cc_xmit cc) in
  concat (boot_script fw <$> fems) ++
  concat (setup_script (cc_st1 cc) (cc_drift_size cc) <$> fems) ++
  ((λ m, Cmd m 4 mb_feb_pll_reset 0) <$> reverse links) ++
  status_request (cc_xmit cc + 1) :: (status_request <$> links) ++
  concat ((λ m, [Cmd m 4 mb_feb_rxreset 0; Cmd m 4 mb_feb_align 0]) <$> reverse links) ++
  status_request (cc_xmit cc + 1) :: (status_request <$> links).

Section proofs.
Context (drv : driver) (files : string → option firmware) `{ErrorBits}.

Lemma feb_command_sends m c k d : sends (feb_command drv m c k d) [Cmd m c k d].
Proof. exact (command_sends drv m c k d). Qed.
Lemma put_word_sends m c k d : sends (put_word m c k d) [].
Proof. apply set_send_sends. Qed.
Lemma load_sends m w : sends (feb_command2 drv m 5 mb_pmt_adc_data_load 0x0300 w) [adc_load m (u32 w)].
Proof.
  pose proof (two_words_sends drv (cmd_word m 5 mb_pmt_adc_data_load 0x0300) w) as Hs.
  replace (u32 (cmd_word _ _ _ _)) with (cmd_word m 5 mb_pmt_adc_data_load 0x0300) in Hs; [exact Hs|].
  unfold cmd_word, u32. by rewrite Zmod_mod.
Qed.

Ltac feb_step :=
  lazymatch goal with
  | |- sends (st_bind (feb_command _ _ _ _ _) _) _ => apply sends_cons; [apply feb_command_sends|intros _]
  | |- sends (st_bind (feb_command2 _ _ _ _ _ _) _) _ => apply sends_cons; [apply load_sends|intros _]
  | |- sends (st_bind (recv _ _ _ _) _) _ => apply sends_skip; [apply recv_sends|intros _]
  | |- sends (st_bind (put_word _ _ _ _) _) _ => apply sends_skip; [apply put_word_sends|intros _]
  | |- sends (st_bind (set_send _ _) _) _ => apply sends_skip; [apply set_send_sends|intros _]
  | |- sends (feb_command _ _ _ _ _) _ => apply feb_command_sends
  | |- sends (feb_command2 _ _ _ _ _ _) _ => apply load_sends
  | |- sends (recv _ _ _ _) _ => apply recv_sends
  | |- sends (st_ret _) _ => apply sends_ret
  end.
Ltac feb_script := repeat feb_step.

Lemma port_mask port : port ∈ up 0 8 → Z.land port 0xf = port.
Proof.
  intros Hp%elem_of_seqZ. change 0xf with (Z.ones 4). rewrite land_ones_mod by lia.
  apply Z.mod_small. change (2 ^ 4) with 16. lia.
Qed.

Lemma setup_adc_sends m : sends (setup_adc drv m) (adc_script m).
Proof.
  unfold setup_adc, adc_script. apply sends_bind.
  { apply for_each_sends. intros port Hp. unfold adc_address_1. rewrite port_mask by done. feb_script. }
  intros _. apply sends_bind.
  { apply for_each_sends. intros port Hp. unfold adc_address_2. rewrite port_mask by done. feb_script. }
  intros _. cbn [app]. do 2 (apply sends_cons; [apply feb_command_sends|intros _]).
  apply for_each_sends. intros port Hp. unfold adc_address_3. rewrite port_mask by done. feb_script.
Qed.

Lemma setup_fem_sends st1 drift m : sends (setup_fem drv st1 drift m) (setup_script st1 drift m).
Proof.
  unfold setup_fem, setup_script. cbn [app].
  do 3 (apply sends_cons; [apply feb_command_sends|intros _]).
  apply sends_bind; [apply setup_adc_sends|]. intros _. unfold fem_options. feb_script; case_match; feb_script.
Qed.

Lemma boot_fem_sends file fw m :
  files file = Some fw → 0 ≤ m < 32 → fw_valid fw → sends (boot_fem drv files file m) (boot_script fw m).
Proof.
  intros Hf Hm Hfw. unfold boot_fem, boot_script. rewrite Hf. feb_script.
  apply sends_cons; [by eapply yields_sends, LoadFirmware_sends|intros _]. feb_script.
Qed.

Lemma each_sends (body : Z → st_err bench Z) f l :
  (∀ m, sends (body m) [f m]) → sends (for_each l body) (f <$> l).
Proof. intros Hb. rewrite <-concat_singletons. apply for_each_sends. auto. Qed.

Lemma first_status_sends m nword : sends (first_status drv m nword) [status_request m].
Proof. unfold first_status. feb_script. Qed.
Lemma read_back_sends nword m : sends (read_back_status drv nword m) [status_request m].
Proof. unfold read_back_status. feb_script. Qed.
Lemma status_round_sends xmit st2 nword :
  sends (status_round drv xmit st2 nword) (status_request (xmit + 1) :: (status_request <$> seqZ (xmit + 1) (st2 - xmit))).
Proof.
  unfold status_round. apply sends_cons; [apply first_status_sends|]. intros _.
  replace (up (xmit + 1) (st2 + 1)) with (seqZ (xmit + 1) (st2 - xmit)) by (unfold up; f_equal; lia).
  exact (each_sends _ _ _ (read_back_sends nword)).
Qed.

Lemma reset_pll_sends m : sends (reset_pll drv m) [Cmd m 4 mb_feb_pll_reset 0].
Proof. exact (feb_command_sends m 4 mb_feb_pll_reset 0). Qed.
Lemma align_link_sends m :
  sends (align_link drv m) [Cmd m 4 mb_feb_rxreset 0; Cmd m 4 mb_feb_align 0].
Proof. unfold align_link. feb_script. Qed.

Lemma charge_boards_sends cc nword fw :
  files (cc_file cc) = Some fw → fw_valid fw → 0 ≤ cc_tpc cc → cc_st2 cc < 32 →
  sends (charge_boards drv files cc nword) (charge_script cc fw).
Proof.
  intros Hf Hfw Hlo Hhi. unfold charge_boards, charge_script. cbv zeta.
  set (nw := match up _ _ with [] => _ | _ => _ end).
  apply sends_bind.
  { apply for_each_sends. intros m Hm%elem_of_seqZ. apply boot_fem_sends; [done|lia|done]. }
  intros _. apply sends_bind; [apply for_each_sends; intros; apply setup_fem_sends|]. intros _.
  assert (∀ a b, down b a = reverse (seqZ (a + 1) (b - a))) as Hdown by (intros; unfold down, up; do 2 f_equal; lia).
  rewrite !Hdown. apply sends_bind; [exact (each_sends _ _ _ reset_pll_sends)|]. intros _.
  refine (sends_bind _ _ (_ :: _) _ (status_round_sends _ _ _) _). intros _.
  apply sends_bind; [exact (for_each_sends _ _ _ (λ m _, align_link_sends m))|]. intros _.
  apply status_round_sends.
Qed.
End proofs.

(** Every command of the script is for one of the slots above the XMIT module. *)
Lemma charge_script_addressed cc fw :
  0 ≤ cc_xmit cc < cc_tpc cc → cc_st2 cc < 32 → cc_xmit cc < 31 →
  Forall (addressed (λ m, cc_xmit cc < m ≤ cc_st2 cc `max` (cc_xmit cc + 1))) (charge_script cc fw).
Proof.
  intros Hx Hst2 Hx31. unfold charge_script. cbv zeta. set (P := λ m, cc_xmit cc < m ≤ _).
  assert (∀ m c k d ws, P m → 0 ≤ c < 8 → 0 ≤ k < 256 → addressed P (Words (cmd_word m c k d :: ws))) as Hcmd.
  { intros m c k d ws Hm ??. apply Words_addressed; [unfold P in Hm; lia|done..]. }
  assert (∀ m, m ∈ seqZ (cc_tpc cc) (cc_st2 cc + 1 - cc_tpc cc) → P m) as Hfems.
  { intros m Hm%elem_of_seqZ. unfold P. lia. }
  assert (∀ m, m ∈ seqZ (cc_xmit cc + 1) (cc_st2 cc - cc_xmit cc) → P m) as Hlinks.
  { intros m Hm%elem_of_seqZ. unfold P. lia. }
  assert (P (cc_xmit cc + 1)) as Hfirst by (unfold P; lia).
  assert (∀ m, P m → addressed P (status_request m)) as Hstatus by (intros; apply Hcmd; [done|const_range..]).
  assert (∀ f l, (∀ m, m ∈ l → P m) → (∀ m, P m → addressed P (f m)) → Forall (addressed P) (f <$> l)) as Heach.
  { intros f l Hl Hf. apply Forall_fmap, Forall_forall. intros m Hm. apply Hf, Hl, Hm. }
  assert (∀ l, (∀ m, m ∈ l → P m) → ∀ m, m ∈ reverse l → P m) as Hrev.
  { intros l Hl m Hm. apply Hl. by rewrite elem_of_reverse in Hm. }
  assert (∀ i : item, addressed P i → ∀ l, Forall (addressed P) l → Forall (addressed P) (i :: l)) as Hcons
    by (intros; by constructor).
  assert (∀ m, P m → Forall (addressed P) (adc_script m)) as Hadc.
  { intros m Hm. unfold adc_script.
    repeat apply Forall_app_2; try (apply Forall_concat_fmap; intros port Hport);
      repeat (apply Hcons; [apply Hcmd; [done|const_range..]|]); constructor. }
  repeat apply Forall_app_2.
  - apply Forall_concat_fmap. intros m Hm%Hfems. unfold boot_script.
    do 2 (apply Hcons; [apply Hcmd; [done|const_range..]|]). apply Hcons; [exact Hm|constructor].
  - apply Forall_concat_fmap. intros m Hm%Hfems. unfold setup_script.
    apply Forall_app_2; [|apply Forall_app_2; [by apply Hadc|]];
      repeat (apply Hcons; [apply Hcmd; [done|try case_match; const_range..]|]); constructor.
  - apply Heach; [by apply Hrev|]. intros. apply Hcmd; [done|const_range..].
  - apply Hcons; [by apply Hstatus|]. repeat apply Forall_app_2.
    + by apply Heach.
    + apply Forall_concat_fmap. intros m Hm. apply (Hrev _ Hlinks) in Hm.
      do 2 (apply Hcons; [apply Hcmd; [done|const_range..]|]). constructor.
    + apply Hcons; [by apply Hstatus|]. by apply Heach.
Qed.

(** C37. Configuring the charge boards: without a complete configuration nothing
    is sent and the charge error code is returned. Otherwise every slot from the
    first to the last charge board is powered, loaded with the bitfile, then set
    up (memory, ADCs, buffers, and the last-module mark on the last light slot
    only); then the links from the XMIT module outwards are reset, read back,
    aligned and read back again. No command is addressed to the XMIT module or a
    slot below it, or above the last charge slot. *)
Theorem ChargeFem_sends_script drv files `{ErrorBits} c nword :
  match read_charge_config c with
  | None => yields (ChargeFem_Configure drv files c nword) [] err_chargefem_get_config
  | Some cc =>
      ∀ fw, files (cc_file cc) = Some fw → fw_valid fw →
      0 ≤ cc_xmit cc < cc_tpc cc → cc_xmit cc < 31 → cc_st2 cc < 32 →
      yields (ChargeFem_Configure drv files c nword) (charge_script cc fw) 0%N ∧
      Forall (addressed (λ m, cc_xmit cc < m ≤ cc_st2 cc `max` (cc_xmit cc + 1))) (charge_script cc fw)
  end.
Proof.
  unfold ChargeFem_Configure. destruct (read_charge_config c) as [cc|]; [|apply yields_ret].
  intros fw Hf Hfw Hx Hx31 Hst2. split; [|by apply charge_script_addressed].
  apply yields_after, charge_boards_sends; [done|done|lia|done].
Qed.

Definition demo_charge_config : config :=
  let c := demo_config 1 5 "a" in
  Config (cfg_size c)
    (λ s k, if String.eqb k "xmit_slot" then Some 3 else Some 5) (cfg_uint32 c)
    (cfg_bool c) (cfg_string c) (cfg_double c) (cfg_list c) (cfg_contains c).

Lemma ChargeFem_sends_script_witness :
  ∃ cc, read_charge_config demo_charge_config = Some cc ∧ cc_xmit cc = 3 ∧ cc_tpc cc = 5 ∧
    fw_valid (Fw [1; 2] true) ∧
    yields (ChargeFem_Configure demo_driver (λ _, Some (Fw [1; 2] true)) demo_charge_config 1)
      (charge_script cc (Fw [1; 2] true)) 0%N.
Proof.
  assert (fw_valid (Fw [1; 2] true)) as Hfw by (repeat constructor; lia).
  pose proof (ChargeFem_sends_script demo_driver (λ _, Some (Fw [1; 2] true)) demo_charge_config 1
    (Fw [1; 2] true) eq_refl Hfw) as [Hsends _]; [cbn; lia..|].
  eexists. split; [reflexivity|]. split; [reflexivity|]. split; [reflexivity|].
  split; [exact Hfw|]. exact Hsends.
Defined.
