(* ===== verification/LightFem.v ===== *)
(** * The light board: [LightFem] (src/src/hardware/light_fem.cpp)

    The only configuration that can throw half-way: the per-channel values are
    read with [std::vector::at] while the channels are being set up. *)
From Stdlib Require Import Lia ZArith String.
From stdpp Require Import base tactics list numbers option strings.
From S2P Require Import Prelude Config Pcie Wire HwConsts HardwareDevice.
Local Open Scope Z_scope.

Record light_config := LightConfig {
  lc_st1 : Z; lc_st2 : Z; lc_pmt : Z; lc_file : string;
  lc_words : Z; lc_deadtime : list Z; lc_thresh0 : list Z; lc_thresh2 : Z; lc_thresh1 : list Z;
  lc_thresh3 : Z; lc_gate_size : Z; lc_beam_size : Z; lc_cos_thres : Z; lc_cos_mult : Z;
  lc_beam_delay : Z; lc_delay_0 : Z; lc_delay_1 : Z; lc_precount : list Z; lc_width : Z;
  lc_window : Z; lc_michel_thres : Z; lc_michel_mult : Z; lc_beam_thres : Z; lc_beam_mult : Z;
  lc_en_top : Z; lc_en_upper : Z; lc_en_lower : Z; lc_blocksize : Z
}.

Definition read_light_config (c : config) : option light_config :=
  imod_st1 ← cfg_int c "crate" "last_light_slot";
  imod_st2 ← cfg_int c "crate" "last_charge_slot";
  imod_pmt ← cfg_int c "crate" "light_fem_slot";
  trig_src ← cfg_string c "trigger" "trigger_source";
  data_basedir ← cfg_string c "hardware" "readout_basedir";
  bitfile ← cfg_string c "light_fem" "fpga_bitfile";
  pmt_words ← cfg_int c "light_fem" "sipm_words";
  pmt_deadtime ← cfg_list c "light_fem" "sipm_deadtime";
  threshold0 ← cfg_list c "light_fem" "channel_thresh0";
  threshold2 ← cfg_int c "light_fem" "channel_thresh2";
  threshold1 ← cfg_list c "light_fem" "channel_thresh1";
  threshold3 ← cfg_int c "light_fem" "channel_thresh3";
  pmt_gate_size ← cfg_int c "light_fem" "pmt_gate_size";
  pmt_beam_size ← cfg_int c "light_fem" "pmt_beam_size";
  cos_thres ← cfg_int c "light_fem" "cosmic_summed_adc_thresh";
  cos_mult ← cfg_int c "light_fem" "cosmic_multiplicity";
  pmt_beam_delay ← cfg_int c "light_fem" "pmt_beam_delay";
  pmt_delay_0 ← cfg_int c "light_fem" "pmt_delay_0";
  pmt_delay_1 ← cfg_int c "light_fem" "pmt_delay_1";
  pmt_precount ← cfg_list c "light_fem" "pmt_precount";
  pmt_width ← cfg_int c "light_fem" "pmt_width";
  pmt_window ← cfg_int c "light_fem" "pmt_window";
  michel_thres ← cfg_int c "light_fem" "michel_summed_adc_thresh";
  michel_mult ← cfg_int c "light_fem" "michel_multiplicity";
  beam_thres ← cfg_int c "light_fem" "beam_summed_adc_thresh";
  beam_mult ← cfg_int c "light_fem" "beam_multiplicity";
  en_top ← cfg_uint32 c "light_fem" "pmt_enable_top";
  en_upper ← cfg_uint32 c "light_fem" "pmt_enable_middle";
  en_lower ← cfg_uint32 c "light_fem" "pmt_enable_lower";
  pmt_blocksize ← cfg_uint32 c "light_fem" "pmt_blocksize";
  mret (LightConfig imod_st1 imod_st2 imod_pmt (data_basedir +:+ "/" +:+ bitfile) pmt_words pmt_deadtime
    threshold0 threshold2 threshold1 threshold3 pmt_gate_size pmt_beam_size cos_thres cos_mult
    pmt_beam_delay pmt_delay_0 pmt_delay_1 pmt_precount pmt_width pmt_window michel_thres michel_mult
    beam_thres beam_mult en_top en_upper en_lower pmt_blocksize).

(** [TOTAL_LIGHT_CHANNELS] is declared in a submodule. *)
Section light.
Context (drv : driver) (files : string → option firmware) (TOTAL_LIGHT_CHANNELS : nat) `{ErrorBits}.
Notation hw := (st_err bench).
Context (lc : light_config).

Definition boot_light : hw () :=
  let imod := lc_pmt lc in
  command drv imod 1 mb_feb_power_add 0x0 ;;~
  command drv imod mb_feb_conf_add 0x0 0x0 ;;~
  LoadFirmware drv imod mb_feb_conf_add (files (lc_file lc)) ;;~
  command drv imod 3 31 0x1 ;;~
  command drv imod 3 31 0x0 ;;~
  command drv imod 3 6 imod ;;~
  recv drv 1 1 0 ;;~
  command drv imod 3 20 0x0 ;;~
  recv drv 2 1 0 ;;~
  st_ret ().

(** [v.at(ik)] in a command's data: out of range it throws before the send. *)
Definition command_at (imod cmd : Z) (v : list Z) (ik : Z) : hw Z :=
  d <~ st_get (v !! Z.to_nat ik) ;; command drv imod 3 cmd d.

Definition setup_channel (ik : Z) : hw Z :=
  let imod := lc_pmt lc in
  command drv imod 3 mb_feb_pmt_ch_set ik ;;~
  command drv imod 3 mb_feb_pmt_delay0 (lc_delay_0 lc) ;;~
  command drv imod 3 mb_feb_pmt_delay1 (lc_delay_1 lc) ;;~
  command_at imod mb_feb_pmt_precount (lc_precount lc) ik ;;~
  command_at imod mb_feb_pmt_thresh0 (lc_thresh0 lc) ik ;;~
  command drv imod 3 mb_feb_pmt_thresh3 (lc_thresh3 lc) ;;~
  command_at imod mb_feb_pmt_thresh1 (lc_thresh1 lc) ik ;;~
  command drv imod 3 mb_feb_pmt_thresh2 (lc_thresh2 lc) ;;~
  command drv imod 3 mb_feb_pmt_words (lc_words lc) ;;~
  command_at imod mb_feb_pmt_deadtime (lc_deadtime lc) ik ;;~
  command drv imod 3 mb_feb_pmt_window (lc_window lc) ;;~
  command drv imod 3 mb_feb_pmt_width (lc_width lc).

Definition setup_triggers : hw () :=
  let imod := lc_pmt lc in
  command drv imod 3 mb_feb_pmt_cos_mul (lc_cos_mult lc) ;;~
  command drv imod 3 mb_feb_pmt_cos_thres (lc_cos_thres lc) ;;~
  command drv imod 3 mb_feb_pmt_mich_mul (lc_michel_mult lc) ;;~
  command drv imod 3 mb_feb_pmt_mich_thres (lc_michel_thres lc) ;;~
  command drv imod 3 mb_feb_pmt_beam_mul (lc_beam_mult lc) ;;~
  command drv imod 3 mb_feb_pmt_beam_thres (lc_beam_thres lc) ;;~
  command drv imod 3 mb_feb_pmt_en_top (lc_en_top lc) ;;~
  command drv imod 3 mb_feb_pmt_en_upper (lc_en_upper lc) ;;~
  command drv imod 3 mb_feb_pmt_en_lower (lc_en_lower lc) ;;~
  command drv imod 3 mb_feb_pmt_blocksize (lc_blocksize lc) ;;~
  command drv imod 3 mb_feb_pmt_gate_size (lc_gate_size lc) ;;~
  command drv imod 3 mb_feb_pmt_beam_delay (lc_beam_delay lc) ;;~
  command drv imod 3 mb_feb_pmt_beam_size (lc_beam_size lc) ;;~
  command drv imod 3 mb_feb_a_id 0x20 ;;~
  command drv imod 3 mb_feb_hold_enable 0x1 ;;~
  st_ret ().

Definition sync_adc (port : Z) : hw Z :=
  command drv (lc_pmt lc) 5 mb_pmt_spi_add (Z.land port 0xf) ;;~
  command drv (lc_pmt lc) 5 mb_pmt_adc_data_load 0x0b00 ;;~
  command drv (lc_pmt lc) 5 mb_pmt_adc_data_load 0x1400.
Definition normal_adc (port : Z) : hw Z :=
  command drv (lc_pmt lc) 5 mb_pmt_spi_add (Z.land port 0xf) ;;~
  command drv (lc_pmt lc) 5 mb_pmt_adc_data_load 0x0300.

Definition setup_light_adc : hw () :=
  let imod := lc_pmt lc in
  command drv imod 5 mb_pmt_adc_reset 0x0 ;;~
  command drv imod 5 mb_pmt_adc_reset 0x1 ;;~
  command drv imod 5 mb_pmt_adc_reset 0x0 ;;~
  command drv imod 5 mb_pmt_spi_add 0x7 ;;~
  command drv imod 5 mb_pmt_adc_data_load 0xffff ;;~
  for_each (up 1 7) sync_adc ;;~
  command drv imod 3 mb_feb_pmt_rxreset 0x1 ;;~
  command drv imod 3 mb_feb_pmt_align_pulse 0x0 ;;~
  for_each (up 1 7) normal_adc.

Definition light_reset_pll (imod : Z) : hw Z := command drv imod 4 mb_feb_pll_reset 0x0.
Definition light_align (imod : Z) : hw Z :=
  command drv imod 4 mb_feb_rxreset 0x0 ;;~ command drv imod 4 mb_feb_align 0x0.
Definition light_first_status (imod : Z) : hw Z :=
  command drv imod 3 20 0x0 ;;~ recv drv 2 1 0.
Definition light_read_back (imod : Z) : hw Z :=
  recv drv 1 1 0 ;;~ command drv imod 3 20 0x0 ;;~ recv drv 2 1 0.

Definition light_links : hw () :=
  for_each (down (lc_st1 lc) (lc_st2 lc)) light_reset_pll ;;~
  light_first_status (lc_st2 lc + 1) ;;~
  for_each (up (lc_st2 lc + 1) (lc_st1 lc + 1)) light_read_back ;;~
  for_each (down (lc_st1 lc) (lc_st2 lc)) light_align ;;~
  light_first_status (lc_st2 lc + 1) ;;~
  for_each (up (lc_st2 lc + 1) (lc_st1 lc + 1)) light_read_back.

Definition light_board : hw () :=
  boot_light ;;~
  for_each (up 0 (Z.of_nat TOTAL_LIGHT_CHANNELS)) setup_channel ;;~
  setup_triggers ;;~
  setup_light_adc ;;~
  light_links.
End light.

Definition LightFem_Configure (drv : driver) (files : string → option firmware)
    (TOTAL_LIGHT_CHANNELS : nat) `{ErrorBits} (c : config) : st_err bench N :=
  match read_light_config c with
  | None => st_ret err_lightfem_get_config
  | Some lc => light_board drv files TOTAL_LIGHT_CHANNELS lc ;;~ st_ret 0%N
  end.

(** ** The commands of a configuration *)
Section scripts.
Context (lc : light_config).
Notation m := (lc_pmt lc).

Definition light_boot_script (fw : firmware) : list item :=
  [Cmd m 1 mb_feb_power_add 0; Cmd m mb_feb_conf_add 0 0; Firmware m fw;
   Cmd m 3 31 1; Cmd m 3 31 0; Cmd m 3 6 m; Cmd m 3 20 0].

(** A channel's commands; [None] for a value that is missing. *)
Definition at_item (cmd : Z) (v : list Z) (ik : Z) : option item := Cmd m 3 cmd <$> v !! Z.to_nat ik.
Definition channel_items (ik : Z) : list (option item) :=
  [Some (Cmd m 3 mb_feb_pmt_ch_set ik); Some (Cmd m 3 mb_feb_pmt_delay0 (lc_delay_0 lc));
   Some (Cmd m 3 mb_feb_pmt_delay1 (lc_delay_1 lc));
   at_item mb_feb_pmt_precount (lc_precount lc) ik; at_item mb_feb_pmt_thresh0 (lc_thresh0 lc) ik;
   Some (Cmd m 3 mb_feb_pmt_thresh3 (lc_thresh3 lc)); at_item mb_feb_pmt_thresh1 (lc_thresh1 lc) ik;
   Some (Cmd m 3 mb_feb_pmt_thresh2 (lc_thresh2 lc)); Some (Cmd m 3 mb_feb_pmt_words (lc_words lc));
   at_item mb_feb_pmt_deadtime (lc_deadtime lc) ik;
   Some (Cmd m 3 mb_feb_pmt_window (lc_window lc)); Some (Cmd m 3 mb_feb_pmt_width (lc_width lc))].

(** The items before the first missing one. *)
Fixpoint until_missing (l : list (option item)) : list item :=
  match l with
  | Some i :: l => i :: until_missing l
  | _ => []
  end.
Definition complete (l : list (option item)) : bool := forallb (λ o, if o is Some _ then true else false) l.

Definition triggers_script : list item :=
  [Cmd m 3 mb_feb_pmt_cos_mul (lc_cos_mult lc); Cmd m 3 mb_feb_pmt_cos_thres (lc_cos_thres lc);
   Cmd m 3 mb_feb_pmt_mich_mul (lc_michel_mult lc); Cmd m 3 mb_feb_pmt_mich_thres (lc_michel_thres lc);
   Cmd m 3 mb_feb_pmt_beam_mul (lc_beam_mult lc); Cmd m 3 mb_feb_pmt_beam_thres (lc_beam_thres lc);
   Cmd m 3 mb_feb_pmt_en_top (lc_en_top lc); Cmd m 3 mb_feb_pmt_en_upper (lc_en_upper lc);
   Cmd m 3 mb_feb_pmt_en_lower (lc_en_lower lc); Cmd m 3 mb_feb_pmt_blocksize (lc_blocksize lc);
   Cmd m 3 mb_feb_pmt_gate_size (lc_gate_size lc); Cmd m 3 mb_feb_pmt_beam_delay (lc_beam_delay lc);
   Cmd m 3 mb_feb_pmt_beam_size (lc_beam_size lc); Cmd m 3 mb_feb_a_id 0x20;
   Cmd m 3 mb_feb_hold_enable 1].

Definition light_adc_script : list item :=
  [Cmd m 5 mb_pmt_adc_reset 0; Cmd m 5 mb_pmt_adc_reset 1; Cmd m 5 mb_pmt_adc_reset 0;
   Cmd m 5 mb_pmt_spi_add 7; Cmd m 5 mb_pmt_adc_data_load 0xffff] ++
  concat ((λ port, [Cmd m 5 mb_pmt_spi_add port; Cmd m 5 mb_pmt_adc_data_load 0x0b00;
                    Cmd m 5 mb_pmt_adc_data_load 0x1400]) <$> seqZ 1 6) ++
  [Cmd m 3 mb_feb_pmt_rxreset 1; Cmd m 3 mb_feb_pmt_align_pulse 0] ++
  concat ((λ port, [Cmd m 5 mb_pmt_spi_add port; Cmd m 5 mb_pmt_adc_data_load 0x0300]) <$> seqZ 1 6).

Definition light_links_script : list item :=
  let links := seqZ (lc_st2 lc + 1) (lc_st1 lc - lc_st2 lc) in
  ((λ x, Cmd x 4 mb_feb_pll_reset 0) <$> reverse links) ++
  Cmd (lc_st2 lc + 1) 3 20 0 :: ((λ x, Cmd x 3 20 0) <$> links) ++
  concat ((λ x, [Cmd x 4 mb_feb_rxreset 0; Cmd x 4 mb_feb_align 0]) <$> reverse links) ++
  Cmd (lc_st2 lc + 1) 3 20 0 :: ((λ x, Cmd x 3 20 0) <$> links).
End scripts.

(** ** Running until a value is missing *)
Definition partly {A} (c : st_err bench A) (l : list (option item)) : Prop :=
  if complete l then sends c (until_missing l) else throws c (until_missing l).

Lemma until_missing_app l1 l2 :
  until_missing (l1 ++ l2) = if complete l1 then until_missing l1 ++ until_missing l2 else until_missing l1.
Proof.
  unfold complete. induction l1 as [|[i|] l1 IH]; cbn; [done| |done]. rewrite IH. by destruct (forallb _ l1).
Qed.
Lemma complete_app l1 l2 : complete (l1 ++ l2) = complete l1 && complete l2.
Proof. apply forallb_app. Qed.

Lemma partly_nil {A} (c : st_err bench A) : sends c [] → partly c [].
Proof. done. Qed.
Lemma partly_bind {A B} (c : st_err bench A) (k : A → st_err bench B) l1 l2 :
  partly c l1 → (∀ a, partly (k a) l2) → partly (st_bind c k) (l1 ++ l2).
Proof.
  unfold partly. rewrite complete_app, until_missing_app. intros Hc Hk.
  destruct (complete l1); cbn [andb]; [|by apply throws_here].
  destruct (complete l2); [by apply sends_bind|by apply throws_later].
Qed.
Lemma partly_cons {A B} (c : st_err bench A) (k : A → st_err bench B) o l :
  partly c [o] → (∀ a, partly (k a) l) → partly (st_bind c k) (o :: l).
Proof. apply (partly_bind c k [o]). Qed.
Lemma partly_sends {A} (c : st_err bench A) i : sends c [i] → partly c [Some i].
Proof. done. Qed.

Section proofs.
Context (drv : driver) (files : string → option firmware) (n : nat) `{ErrorBits} (lc : light_config).

Lemma partly_at cmd v ik : partly (command_at drv (lc_pmt lc) cmd v ik) [at_item lc cmd v ik].
Proof.
  unfold partly, command_at, at_item. destruct (v !! Z.to_nat ik) as [d|]; cbn.
  - intros s Hs. exact (command_sends drv (lc_pmt lc) 3 cmd d s Hs).
  - apply throws_here. intros s Hs. exists s. split; [done|]. by apply progress_refl.
Qed.

Lemma setup_channel_partly ik : partly (setup_channel drv lc ik) (channel_items lc ik).
Proof.
  unfold setup_channel, channel_items. cbv zeta.
  repeat lazymatch goal with
  | |- partly (st_bind (command _ _ _ _ _) _) _ => apply partly_cons; [apply partly_sends, command_sends|intros _]
  | |- partly (st_bind (command_at _ _ _ _ _) _) _ => apply partly_cons; [apply partly_at|intros _]
  | |- partly (command _ _ _ _ _) _ => apply partly_sends, command_sends
  end.
Qed.

Lemma for_each_partly (body : Z → st_err bench Z) items l :
  (∀ x, partly (body x) (items x)) → partly (for_each l body) (concat (items <$> l)).
Proof.
  intros Hb. induction l as [|x l IH]; cbn [for_each fmap list_fmap concat].
  - apply partly_nil, sends_ret.
  - apply partly_bind; [apply Hb|]. by intros _.
Qed.

Lemma light_port_mask port : port ∈ up 1 7 → Z.land port 0xf = port.
Proof.
  intros Hp%elem_of_seqZ. change 0xf with (Z.ones 4). rewrite land_ones_mod by lia.
  apply Z.mod_small. change (2 ^ 4) with 16. lia.
Qed.

Ltac light_step :=
  lazymatch goal with
  | |- sends (st_bind (command _ _ _ _ _) _) _ => apply sends_cons; [apply command_sends|intros _]
  | |- sends (st_bind (recv _ _ _ _) _) _ => apply sends_skip; [apply recv_sends|intros _]
  | |- sends (command _ _ _ _ _) _ => apply command_sends
  | |- sends (recv _ _ _ _) _ => apply recv_sends
  | |- sends (st_ret _) _ => apply sends_ret
  end.
Ltac light_script := repeat light_step.

Lemma boot_light_sends fw :
  files (lc_file lc) = Some fw → 0 ≤ lc_pmt lc < 32 → fw_valid fw →
  sends (boot_light drv files lc) (light_boot_script lc fw).
Proof.
  intros Hf Hm Hfw. unfold boot_light, light_boot_script. rewrite Hf. cbv zeta. light_script.
  apply sends_cons; [by eapply yields_sends, LoadFirmware_sends|intros _]. light_script.
Qed.

Lemma setup_triggers_sends : sends (setup_triggers drv lc) (triggers_script lc).
Proof. unfold setup_triggers, triggers_script. cbv zeta. light_script. Qed.

Lemma setup_light_adc_sends : sends (setup_light_adc drv lc) (light_adc_script lc).
Proof.
  unfold setup_light_adc, light_adc_script. cbv zeta. cbn [app]. light_script.
  apply sends_bind.
  { apply for_each_sends. intros port Hp. unfold sync_adc. rewrite light_port_mask by done. light_script. }
  intros _. cbn [app]. light_script.
  apply for_each_sends. intros port Hp. unfold normal_adc. rewrite light_port_mask by done. light_script.
Qed.

Lemma light_each_sends (body : Z → st_err bench Z) f l :
  (∀ x, sends (body x) [f x]) → sends (for_each l body) (f <$> l).
Proof. intros Hb. rewrite <-concat_singletons. apply for_each_sends. auto. Qed.
Lemma light_reset_pll_sends x : sends (light_reset_pll drv x) [Cmd x 4 mb_feb_pll_reset 0].
Proof. exact (command_sends drv x 4 mb_feb_pll_reset 0). Qed.
Lemma light_align_sends x : sends (light_align drv x) [Cmd x 4 mb_feb_rxreset 0; Cmd x 4 mb_feb_align 0].
Proof. unfold light_align. light_script. Qed.
Lemma light_first_status_sends x : sends (light_first_status drv x) [Cmd x 3 20 0].
Proof. unfold light_first_status. light_script. Qed.
Lemma light_read_back_sends x : sends (light_read_back drv x) [Cmd x 3 20 0].
Proof. unfold light_read_back. light_script. Qed.

Lemma light_links_sends : sends (light_links drv lc) (light_links_script lc).
Proof.
  assert (∀ a b, up (a + 1) (b + 1) = seqZ (a + 1) (b - a)) as Hup by (intros; unfold up; f_equal; lia).
  unfold light_links, light_links_script. cbv zeta. unfold down. rewrite !Hup.
  apply sends_bind; [exact (light_each_sends _ _ _ light_reset_pll_sends)|]. intros _.
  apply sends_cons; [apply light_first_status_sends|]. intros _.
  apply sends_bind; [exact (light_each_sends _ _ _ light_read_back_sends)|]. intros _.
  apply sends_bind; [exact (for_each_sends _ _ _ (λ x _, light_align_sends x))|]. intros _.
  apply sends_cons; [apply light_first_status_sends|]. intros _.
  exact (light_each_sends _ _ _ light_read_back_sends).
Qed.
End proofs.

(** C36. Configuring the light board. Without a complete configuration nothing is
    sent and the light error code is returned. Otherwise the board is booted and
    its channels set up in order; when each of the four per-channel lists has a
    value for every channel, the trigger, ADC and link commands of the script
    follow and the call returns 0; when one is too short the call throws exactly
    at the first missing value, after the commands before it and without any of
    the later ones. *)
Theorem LightFem_sends_script drv files n `{ErrorBits} c :
  match read_light_config c with
  | None => yields (LightFem_Configure drv files n c) [] err_lightfem_get_config
  | Some lc =>
      ∀ fw, files (lc_file lc) = Some fw → fw_valid fw → 0 ≤ lc_pmt lc < 32 →
      let channels := concat (channel_items lc <$> seqZ 0 (Z.of_nat n)) in
      if complete channels
      then yields (LightFem_Configure drv files n c)
             (light_boot_script lc fw ++ until_missing channels ++ triggers_script lc ++
              light_adc_script lc ++ light_links_script lc) 0%N
      else throws (LightFem_Configure drv files n c) (light_boot_script lc fw ++ until_missing channels)
  end.
Proof.
  unfold LightFem_Configure. destruct (read_light_config c) as [lc|]; [|apply yields_ret].
  intros fw Hf Hfw Hm. cbv zeta. set (channels := concat _).
  pose proof (for_each_partly _ _ (seqZ 0 (Z.of_nat n)) (setup_channel_partly drv lc)) as Hch.
  unfold partly in Hch. fold channels in Hch.
  assert (up 0 (Z.of_nat n) = seqZ 0 (Z.of_nat n)) as Hup by (unfold up; f_equal; lia).
  destruct (complete channels).
  - apply yields_after. unfold light_board. rewrite Hup.
    apply sends_bind; [by apply boot_light_sends|]. intros _.
    apply sends_bind; [done|]. intros _. apply sends_bind; [apply setup_triggers_sends|]. intros _.
    apply sends_bind; [apply setup_light_adc_sends|]. intros _. apply light_links_sends.
  - apply throws_here. unfold light_board. rewrite Hup.
    apply throws_later; [by apply boot_light_sends|]. intros _. by apply throws_here.
Qed.

(** With two light channels and one value per list, the second channel throws. *)
Lemma LightFem_sends_script_witness :
  ∃ lc, read_light_config (demo_config 1 5 "a") = Some lc ∧ 0 ≤ lc_pmt lc < 32 ∧
    fw_valid (Fw [1; 2] true) ∧
    throws (LightFem_Configure demo_driver (λ _, Some (Fw [1; 2] true)) 2 (demo_config 1 5 "a"))
      (light_boot_script lc (Fw [1; 2] true) ++
       until_missing (channel_items lc 0 ++ channel_items lc 1)).
Proof.
  assert (fw_valid (Fw [1; 2] true)) as Hfw by (repeat constructor; lia).
  pose proof (LightFem_sends_script demo_driver (λ _, Some (Fw [1; 2] true)) 2 (demo_config 1 5 "a")
    (Fw [1; 2] true) eq_refl Hfw ltac:(cbn; lia)) as Hthrows.
  eexists. split; [reflexivity|]. split; [cbn; lia|]. split; [exact Hfw|]. exact Hthrows.
Defined.
