(* ===== verification/Status.v ===== *)
(** * Reading the status of the boards: [Status] (src/src/status/status.cpp, status.h)

    The monitor object the values go to is declared in a submodule: its setters
    are recorded as calls. *)
From Stdlib Require Import Lia ZArith NArith String.
From stdpp Require Import base tactics list numbers option strings gmap.
From S2P Require Import Prelude Config Json DataHandler Pcie Wire HwConsts.
Local Open Scope Z_scope.

(** ** Status words *)
Definition bit (w k : Z) : Z := Z.land (Z.shiftr w k) 0x1.

Definition CheckFemStatus (status_vec : list Z) (board_num : Z) : bool :=
  let read_word := default 0 (status_vec !! 0%nat) in
  (Z.land read_word 0xFF =? 20) && (Z.land (Z.shiftr read_word 11) 0x1F =? board_num) &&
  (bit read_word 16 =? 0) && (bit read_word 17 =? 1) && (bit read_word 18 =? 1) &&
  (bit read_word 19 =? 0) && (bit read_word 21 =? 1) && (bit read_word 22 =? 1) &&
  (bit read_word 23 =? 1) && (bit read_word 24 =? 1) && (bit read_word 25 =? 1) &&
  (bit read_word 26 =? 1) && (bit read_word 27 =? 1) &&
  (Z.land (Z.shiftr read_word 28) 0xF =? 0x7).

Definition CheckXmitStatus (status_vec : list Z) : bool :=
  let read_word := default 0 (status_vec !! 0%nat) in
  (bit read_word 16 =? 1) && (bit read_word 17 =? 1) && (bit read_word 18 =? 1) &&
  (bit read_word 19 =? 1) && (bit read_word 20 =? 1) && (bit read_word 22 =? 0) &&
  (bit read_word 23 =? 0) && (bit read_word 24 =? 0) && (bit read_word 25 =? 0) &&
  (bit read_word 26 =? 1) && (bit read_word 27 =? 1) && (bit read_word 28 =? 0) &&
  (bit read_word 29 =? 0) && (bit read_word 30 =? 0) && (Z.land (Z.shiftr read_word 31) 0xF =? 0).

(** ** The object *)
Record status := Status { data_handler_metrics : gmap string N; fem_status_chip : Z }.
Definition new_status : status := {| data_handler_metrics := ∅; fem_status_chip := 3 |}.

Definition SetDataHandlerStatus (h : handler) (s : status) : handler * status :=
  let '(h, metrics) := GetMetrics h in
  (h, {| data_handler_metrics := metrics; fem_status_chip := fem_status_chip s |}).

(** The object of the metrics, null when there are none; [dump] is the JSON
    library's. The metrics that were fetched are not the ones printed. *)
Definition json_metrics (s : status) : option (gmap string jvalue) :=
  let object := (λ n, JInt (Z.of_N n)) <$> data_handler_metrics s in
  if decide (object = ∅) then None else Some object.
Definition JsonHandlerStatus (dump : option (gmap string jvalue) → string) (h : handler) (s : status) : handler * string :=
  let '(h, metrics) := GetMetrics h in (h, dump (json_metrics s)).

(** [map[key]]: 0 when the key is absent. *)
Definition metric (s : status) (key : string) : N := default 0%N (data_handler_metrics s !! key).

Inductive monitor_call :=
  | setRunNumber (n : N) | setNumEvents (n : N) | setNumDmaLoops (n : N) | setReceivedMbytes (n : N)
  | setAvgEventSize (n : N) | setNumFiles (n : N) | setNumRwBufferOverflow (n : N)
  | setStartMarker (n : N) | setEndMarker (n : N) | setPpsCount (n : N)
  | updateErrorBitWord (b : N) (word : N)
  | setBoardStatus (l : list Z).

Section status.
Context (drv : driver) `{ErrorBits}.

(** [uninit]: what the two arrays on the stack hold. *)
Definition GetFemStatus (s : status) (uninit : list Z) (board_number : Z) : st pcie (list Z) :=
  PCIeRecvBuffer drv 1 0 1 1 0 uninit ;;
  PCIeSendBuffer drv 1 0 1 [cmd_word board_number (fem_status_chip s) 20 0x0; 0] ;;
  r ← PCIeRecvBuffer drv 1 0 2 1 0 uninit;
  mret (take 1 r.2).

Definition GetMinimalStatus (s : status) uninit (board_number : Z) (is_fem : bool) : st pcie bool :=
  l ← GetFemStatus s uninit board_number;
  mret (if is_fem then CheckFemStatus l board_number else CheckXmitStatus l).

Definition GetBoardStatus (s : status) uninit (board_number : Z) : st pcie Z :=
  l ← GetFemStatus s uninit board_number;
  mret (match l with [] => 0 | w :: _ => Z.land w 0x7FFFFFFF end).

(** One bit per board; only the first board is checked as the XMIT module. *)
Fixpoint minimal_statuses (s : status) uninit (boards : list Z) (b : Z) (is_fem : bool) (res : Z) :
    st pcie Z :=
  match boards with
  | [] => mret res
  | board :: boards =>
      ok ← GetMinimalStatus s uninit (u32 board) is_fem;
      minimal_statuses s uninit boards (b + 1) true (u32 (res + Z.shiftl (Z.b2z ok) b))
  end.
Fixpoint board_statuses (s : status) uninit (boards : list Z) : st pcie (list Z) :=
  match boards with
  | [] => mret []
  | board :: boards =>
      res ← GetBoardStatus s uninit (u32 board);
      l ← board_statuses s uninit boards;
      mret (res :: l)
  end.

Definition metric_calls (s : status) : list monitor_call :=
  [setRunNumber (metric s "run_number"); setNumEvents (metric s "num_events");
   setNumDmaLoops (metric s "num_dma_loops"); setReceivedMbytes (metric s "mega_bytes_received");
   setAvgEventSize (metric s "event_size_words"); setNumFiles (metric s "num_files");
   setNumRwBufferOverflow (metric s "num_rw_buffer_overflow");
   setStartMarker (metric s "event_start_markers"); setEndMarker (metric s "event_end_markers");
   setEndMarker (metric s "event_end_markers"); setPpsCount (metric s "pps_count")] ++
  ((λ b, updateErrorBitWord b (metric s "datahandler_error_bitword")) <$>
   [bit_dma_timeout; bit_free_dma_buffer_error; bit_switch_file_close_error;
    bit_switch_file_open_error; bit_send_pulse_train_error; bit_failed_write;
    bit_failed_locking_dma_buffers; bit_trigger_file_open_error; bit_pps_file_open_error;
    bit_disk_full; bit_disk_failover]).

Definition ReadStatus (s : status) uninit (boards : list Z) (minimal_status : bool) :
    st pcie (list monitor_call) :=
  initialized ← st_read is_initialized;
  if negb initialized then mret (metric_calls s ++ [setBoardStatus (replicate (length boards) 0)])
  else
    status_vec ← (if minimal_status
                  then (w ← minimal_statuses s uninit boards 0 false 0; mret [w])
                  else board_statuses s uninit boards);
    mret (metric_calls s ++ [setBoardStatus status_vec]).
End status.

(** Before the first [SetDataHandlerStatus] nothing is printed, whatever the
    counters are; and the counters since the last status are lost. *)
Lemma JsonHandlerStatus_stale dump h :
  (JsonHandlerStatus dump h new_status).2 = dump None ∧
  prev_event_count (JsonHandlerStatus dump h new_status).1 = m_event_count h.
Proof. done. Qed.
(** What is printed is what the last status reported, key by key. *)
Lemma JsonHandlerStatus_printed dump h h' s key :
  let '(_, s') := SetDataHandlerStatus h s in
  ∃ object, (JsonHandlerStatus dump h' s').2 = dump (Some object) ∧
    object !! key = (λ n, JInt (Z.of_N n)) <$> ((GetMetrics h).2 !! key).
Proof.
  unfold SetDataHandlerStatus, JsonHandlerStatus, json_metrics. destruct (GetMetrics h) as [h1 metrics] eqn:E.
  destruct (GetMetrics h') as [h2 ?]. cbn. rewrite decide_False.
  - eexists. split; [reflexivity|]. by rewrite lookup_fmap.
  - rewrite fmap_empty_iff. injection E as _ <-. apply insert_non_empty.
Qed.

(** ** Fields of a word *)
Section fields.
Implicit Types (w m v : Z).

(** Fields (shift, width, value); the word has them all. *)
Definition has_fields (fields : list (Z * Z * Z)) w : bool :=
  forallb (λ '(k, n, v), Z.land (Z.shiftr w k) (Z.ones n) =? v) fields.
Definition fields_mask (fields : list (Z * Z * Z)) : Z :=
  foldr (λ '(k, n, _), Z.lor (Z.shiftl (Z.ones n) k)) 0 fields.
Definition fields_value (fields : list (Z * Z * Z)) : Z :=
  foldr (λ '(k, _, v), Z.lor (Z.shiftl v k)) 0 fields.
(** Each value fits its field and no two fields overlap. *)
Fixpoint fields_ok (fields : list (Z * Z * Z)) : Prop :=
  match fields with
  | [] => True
  | (k, n, v) :: fields =>
      0 ≤ k ∧ 0 ≤ n ∧ 0 ≤ v < 2 ^ n ∧
      Z.land (Z.shiftl (Z.ones n) k) (fields_mask fields) = 0 ∧ fields_ok fields
  end.

Lemma field_masked w k n v :
  0 ≤ k → 0 ≤ n → 0 ≤ v < 2 ^ n →
  Z.land (Z.shiftr w k) (Z.ones n) = v ↔ Z.land w (Z.shiftl (Z.ones n) k) = Z.shiftl v k.
Proof.
  intros Hk Hn Hv.
  assert (Z.land w (Z.shiftl (Z.ones n) k) = Z.shiftl (Z.land (Z.shiftr w k) (Z.ones n)) k) as ->.
  { apply Z.bits_inj'. intros i Hi. rewrite Z.land_spec. destruct (decide (i < k)).
    - rewrite !Z.shiftl_spec_low by lia. apply andb_false_r.
    - rewrite !Z.shiftl_spec by lia. rewrite Z.land_spec, Z.shiftr_spec by lia.
      by replace (i - k + k) with i by lia. }
  split; [by intros ->|].
  intros E. apply (f_equal (λ x, Z.shiftr x k)) in E.
  by rewrite !Z.shiftr_shiftl_l, !Z.sub_diag, !Z.shiftl_0_r in E by lia.
Qed.

Lemma value_in_mask fields :
  fields_ok fields → Z.land (fields_value fields) (fields_mask fields) = fields_value fields.
Proof.
  induction fields as [|[[k n] v] fields IH]; [done|]. intros (Hk & Hn & Hv & Hdis & Hok).
  cbn [fields_value fields_mask foldr]. fold (fields_value fields) (fields_mask fields).
  assert (Z.land (Z.shiftl v k) (Z.shiftl (Z.ones n) k) = Z.shiftl v k) as Hself.
  { apply field_masked; [done..|]. rewrite Z.shiftr_shiftl_l, Z.sub_diag, Z.shiftl_0_r by lia.
    rewrite land_ones_mod by done. by apply Z.mod_small. }
  set (v1 := Z.shiftl v k) in *. set (m1 := Z.shiftl (Z.ones n) k) in *.
  assert (Z.land v1 (fields_mask fields) = 0) as H1 by by rewrite <-Hself, <-Z.land_assoc, Hdis, Z.land_0_r.
  assert (Z.land (fields_value fields) m1 = 0) as H2.
  { rewrite <-(IH Hok), <-Z.land_assoc, (Z.land_comm (fields_mask fields)), Hdis. apply Z.land_0_r. }
  by rewrite Z.land_lor_distr_l, !Z.land_lor_distr_r, Hself, IH, H1, H2, Z.lor_0_r, Z.lor_0_l by done.
Qed.

Lemma has_fields_masked fields w :
  fields_ok fields → has_fields fields w = (Z.land w (fields_mask fields) =? fields_value fields).
Proof.
  intros Hok. apply Bool.eq_iff_eq_true. rewrite Z.eqb_eq.
  induction fields as [|[[k n] v] fields IH]; [cbn; by rewrite Z.land_0_r|].
  pose proof (value_in_mask _ Hok) as Hin. destruct Hok as (Hk & Hn & Hv & Hdis & Hok).
  cbn [has_fields forallb fields_value fields_mask foldr] in *.
  fold (has_fields fields w) (fields_value fields) (fields_mask fields) in *.
  rewrite andb_true_iff, Z.eqb_eq, IH, field_masked by done.
  set (m1 := Z.shiftl (Z.ones n) k) in *. set (v1 := Z.shiftl v k) in *.
  set (m2 := fields_mask fields) in *. set (v2 := fields_value fields) in *.
  assert (Z.land v1 m1 = v1) as Hv1.
  { apply field_masked; [done..|]. unfold v1. rewrite Z.shiftr_shiftl_l, Z.sub_diag, Z.shiftl_0_r by lia.
    rewrite land_ones_mod by done. by apply Z.mod_small. }
  assert (Z.land v2 m2 = v2) as Hv2 by by apply value_in_mask.
  assert (Z.land v1 m2 = 0) as H1 by by rewrite <-Hv1, <-Z.land_assoc, Hdis, Z.land_0_r.
  assert (Z.land v2 m1 = 0) as H2.
  { rewrite <-Hv2, <-Z.land_assoc, (Z.land_comm m2), Hdis. apply Z.land_0_r. }
  rewrite Z.land_lor_distr_r. split; [by intros [-> ->]|]. intros E. split.
  - apply (f_equal (λ x, Z.land x m1)) in E.
    rewrite !Z.land_lor_distr_l, <-!Z.land_assoc, Z.land_diag, (Z.land_comm m2), Hdis, Z.land_0_r in E.
    by rewrite Hv1, H2, !Z.lor_0_r in E.
  - apply (f_equal (λ x, Z.land x m2)) in E.
    rewrite !Z.land_lor_distr_l, <-!Z.land_assoc, Z.land_diag, Hdis, Z.land_0_r in E.
    by rewrite Hv2, H1, !Z.lor_0_l in E.
Qed.
End fields.

Definition fem_fields (b : Z) : list (Z * Z * Z) :=
  [(0, 8, 20); (11, 5, b); (16, 1, 0); (17, 1, 1); (18, 1, 1); (19, 1, 0); (21, 1, 1); (22, 1, 1);
   (23, 1, 1); (24, 1, 1); (25, 1, 1); (26, 1, 1); (27, 1, 1); (28, 4, 0x7)].
Definition xmit_fields : list (Z * Z * Z) :=
  [(16, 1, 1); (17, 1, 1); (18, 1, 1); (19, 1, 1); (20, 1, 1); (22, 1, 0); (23, 1, 0); (24, 1, 0);
   (25, 1, 0); (26, 1, 1); (27, 1, 1); (28, 1, 0); (29, 1, 0); (30, 1, 0); (31, 4, 0)].

Lemma CheckFemStatus_fields w rest b : CheckFemStatus (w :: rest) b = has_fields (fem_fields b) w.
Proof.
  unfold CheckFemStatus, has_fields, fem_fields, bit. cbn [forallb default lookup list_lookup].
  rewrite Z.shiftr_0_r, andb_true_r, !andb_assoc. done.
Qed.
Lemma CheckXmitStatus_fields w rest : CheckXmitStatus (w :: rest) = has_fields xmit_fields w.
Proof.
  unfold CheckXmitStatus, has_fields, xmit_fields, bit. cbn [forallb default lookup list_lookup].
  rewrite andb_true_r, !andb_assoc. done.
Qed.

(** The bit-by-bit checks of a status word are comparisons under a mask. A
    board's word passes exactly when, neutrino pre-buffer bit and bits 8 to 10
    aside, it is 0x7FE60014 with the board's number in bits 11 to 15; the XMIT
    word exactly when its upper half, bit 21 aside, is 0x0C1F. *)
Theorem status_checks_are_masks w rest b :
  0 ≤ w < 2 ^ 32 → 0 ≤ b < 32 →
  CheckFemStatus (w :: rest) b =
    (Z.land w 0xFFEFF8FF =? Z.lor 0x14 (Z.lor (Z.shiftl b 11) 0x7FE60000)) ∧
  CheckXmitStatus (w :: rest) = (Z.land w 0xFFDF0000 =? 0x0C1F0000).
Proof.
  intros Hw Hb. rewrite CheckFemStatus_fields, CheckXmitStatus_fields. split.
  - rewrite has_fields_masked by (cbn; split_and!; (done || lia)). done.
  - rewrite has_fields_masked by (cbn; split_and!; (done || lia)).
    assert (Z.land w (Z.ones 32) = w) as Hw32.
    { rewrite Z.land_ones by lia. by apply Z.mod_small. }
    rewrite <-Hw32 at 1. rewrite <-Z.land_assoc. done.
Qed.

Lemma status_checks_are_masks_witness :
  0 ≤ 0x7FE67814 < 2 ^ 32 ∧ 0 ≤ 15 < 32 ∧ CheckFemStatus [0x7FE67814] 15 = true ∧
  CheckFemStatus [0xFFE67814] 15 = false ∧ CheckXmitStatus [0x0C1FFF00] = true.
Proof.
  split; [lia|]. split; [lia|].
  destruct (status_checks_are_masks 0x7FE67814 [] 15 ltac:(lia) ltac:(lia)) as [-> _].
  destruct (status_checks_are_masks 0xFFE67814 [] 15 ltac:(lia) ltac:(lia)) as [-> _].
  destruct (status_checks_are_masks 0x0C1FFF00 [] 15 ltac:(lia) ltac:(lia)) as [_ ->].
  vm_compute. split; [reflexivity|]. split; reflexivity.
Defined.

(** ** Querying the boards *)
Section query.
Context (drv : driver) `{ErrorBits}.

Definition request (h : handle) (chip board : Z) : handle * list Z :=
  (h, [cmd_word (u32 board) chip 20 0]).

Lemma GetFemStatus_spec s uninit b p :
  (0 < length uninit)%nat →
  let '(p', l) := GetFemStatus drv s uninit b p in
  transmitted p' = transmitted p ++ [(dev_handle_1 p, [cmd_word b (fem_status_chip s) 20 0])] ∧
  same_card p p' ∧ ∃ w, l = [w].
Proof.
  intros Hlen. unfold GetFemStatus.
  pose proof (quiet_spec _ p (PCIeRecvBuffer_quiet drv 1 0 1 1 0 uninit)) as H1.
  destruct (PCIeRecvBuffer drv 1 0 1 1 0 uninit p) as [p1 r1] eqn:E1. erewrite bind_eq by exact E1.
  destruct H1 as [T1 C1].
  pose proof (PCIeSendBuffer_direct drv 1 [cmd_word b (fem_status_chip s) 20 0; 0] p1 ltac:(lia)) as H2.
  change kDev1 with 1 in H2.
  destruct (PCIeSendBuffer drv 1 0 1 _ p1) as [p2 r2] eqn:E2. erewrite bind_eq by exact E2.
  destruct H2 as [T2 C2].
  pose proof (quiet_spec _ p2 (PCIeRecvBuffer_quiet drv 1 0 2 1 0 uninit)) as H3.
  assert (∃ st w t, (PCIeRecvBuffer drv 1 0 2 1 0 uninit p2).2 = (st, w :: t)) as (st & w & t & Hout).
  { unfold PCIeRecvBuffer. erewrite bind_eq by reflexivity. cbn [Z.eqb Pos.eqb orb Z.modulo Z.div].
    destruct uninit as [|x [|y u]]; [cbn in Hlen; lia| |]; eexists _, _, _; reflexivity. }
  destruct (PCIeRecvBuffer drv 1 0 2 1 0 uninit p2) as [p3 r3] eqn:E3. erewrite bind_eq by exact E3.
  destruct H3 as [T3 C3]. cbn [snd mret st_mret] in *. rewrite Hout. cbn [snd take].
  rewrite T3, T2, T1. destruct C1 as (Hh & C1). split; [|split; [|by exists w]].
  - change (transmitted p ++ [(dev_handle_1 p1, [u32 (cmd_word b (fem_status_chip s) 20 0)])] =
      transmitted p ++ [(dev_handle_1 p, [cmd_word b (fem_status_chip s) 20 0])]).
    by rewrite Hh, cmd_word_u32.
  - etrans; [by split|]. by etrans.
Qed.

Lemma board_statuses_spec s uninit boards p :
  (0 < length uninit)%nat →
  let '(p', l) := board_statuses drv s uninit boards p in
  transmitted p' = transmitted p ++ (request (dev_handle_1 p) (fem_status_chip s) <$> boards) ∧
  same_card p p' ∧ length l = length boards ∧ Forall (λ w, ∃ v, w = Z.land v 0x7FFFFFFF) l.
Proof.
  intros Hlen. revert p. induction boards as [|b boards IH]; intros p; cbn [board_statuses].
  { cbn. rewrite app_nil_r. by split_and!. }
  unfold GetBoardStatus. pose proof (GetFemStatus_spec s uninit (u32 b) p Hlen) as H1.
  destruct (GetFemStatus drv s uninit (u32 b) p) as [p1 l1] eqn:E1.
  destruct H1 as (T1 & C1 & w & ->). erewrite bind_eq by (erewrite bind_eq by exact E1; reflexivity).
  pose proof (IH p1) as H2. destruct (board_statuses drv s uninit boards p1) as [p2 l2] eqn:E2.
  erewrite bind_eq by exact E2. destruct H2 as (T2 & C2 & L2 & F2). cbn [mret st_mret]. split_and!.
  - rewrite T2, T1, <-app_assoc. destruct C1 as (-> & _). done.
  - by etrans.
  - cbn. by rewrite L2.
  - constructor; [by exists w|done].
Qed.

Lemma minimal_statuses_spec s uninit boards b is_fem res p :
  (0 < length uninit)%nat →
  let '(p', _) := minimal_statuses drv s uninit boards b is_fem res p in
  transmitted p' = transmitted p ++ (request (dev_handle_1 p) (fem_status_chip s) <$> boards) ∧
  same_card p p'.
Proof.
  intros Hlen. revert b is_fem res p.
  induction boards as [|x boards IH]; intros b is_fem res p; cbn [minimal_statuses].
  { cbn. by rewrite app_nil_r. }
  unfold GetMinimalStatus. pose proof (GetFemStatus_spec s uninit (u32 x) p Hlen) as H1.
  destruct (GetFemStatus drv s uninit (u32 x) p) as [p1 l1] eqn:E1.
  destruct H1 as (T1 & C1 & w & ->). erewrite bind_eq by (erewrite bind_eq by exact E1; reflexivity).
  match goal with |- context [minimal_statuses _ _ _ _ ?b' ?f' ?r' p1] => pose proof (IH b' f' r' p1) as H2 end.
  destruct (minimal_statuses drv s uninit boards _ _ _ p1) as [p2 r2].
  destruct H2 as (T2 & C2). split; [|by etrans].
  rewrite T2, T1, <-app_assoc. destruct C1 as (-> & _). done.
Qed.

(** [ReadStatus] reports the metrics it holds, then the boards. While the
    cards are not open it touches no hardware and reports one zero per board.
    Once they are, it sends exactly one status request to each board, in order,
    and reports one 31-bit word per board in the same order (one summary word in
    the minimal mode). *)
Theorem ReadStatus_queries s boards minimal p x y :
  let '(p', calls) := ReadStatus drv s [x; y] boards minimal p in
  if is_initialized p
  then transmitted p' = transmitted p ++ (request (dev_handle_1 p) (fem_status_chip s) <$> boards) ∧
       same_card p p' ∧
       ∃ l, calls = metric_calls s ++ [setBoardStatus l] ∧
         if minimal then length l = 1%nat
         else length l = length boards ∧ Forall (λ w, ∃ v, w = Z.land v 0x7FFFFFFF) l
  else p' = p ∧ calls = metric_calls s ++ [setBoardStatus (replicate (length boards) 0)].
Proof.
  unfold ReadStatus. rewrite (bind_eq _ _ p p (is_initialized p)) by done.
  destruct (is_initialized p); cbn [negb]; [|done]. destruct minimal.
  - pose proof (minimal_statuses_spec s [x; y] boards 0 false 0 p ltac:(cbn; lia)) as H1.
    destruct (minimal_statuses drv s [x; y] boards 0 false 0 p) as [p1 w] eqn:E1.
    erewrite bind_eq by (erewrite bind_eq by exact E1; reflexivity). destruct H1 as [T1 C1].
    split; [done|]. split; [done|]. by exists [w].
  - pose proof (board_statuses_spec s [x; y] boards p ltac:(cbn; lia)) as H1.
    destruct (board_statuses drv s [x; y] boards p) as [p1 l] eqn:E1.
    erewrite bind_eq by exact E1. destruct H1 as (T1 & C1 & L1 & F1).
    split; [done|]. split; [done|]. by exists l.
Qed.
End query.
