(* ===== verification/SlowReadout.v ===== *)
(** * The read-out paths that are not used (src/src/data/data_handler.cpp)

    [ReadoutViaController], a read-out through the controller board instead of the
    DMA, and [FastDataWrite], a write thread without event building; both are
    declared and never called. [PinThread] and [GetStatus] too. The sleeps and the
    print-out of the header are left out. *)
From Stdlib Require Import Ascii String Lia ZArith NArith.
From stdpp Require Import base tactics list numbers option strings.
From S2P Require Import Prelude CppString Config Pcie Wire HwConsts HardwareDevice EventBuilder DataHandler.
Local Open Scope Z_scope.

(** ** [ReadoutViaController] *)
(** The n-th look at what the other threads share. *)
Record slow_world := SlowWorld {
  sw_running : nat → bool;                (** is_running_ and event_count_ < num_events_ *)
  sw_room : nat → bool                    (** data_queue_.write has room *)
}.
Record slow := Slow {
  hw : bench;
  word_arr : list Z;                      (** DATABUFFSIZE words *)
  tick : nat;
  queued : list (list Z);                 (** the records put on the queue *)
  stop_write_ : bool
}.
#[export] Instance slow_eta : RecordEta slow := λ s, Slow (hw s) (word_arr s) (tick s) (queued s) (stop_write_ s).
Definition new_slow (b : bench) : slow := Slow b (replicate (N.to_nat DATABUFFSIZE) 0) 0 [] false.

Section controller_readout.
Context (drv : driver) (w : slow_world) (trigger_module : Z).
Notation act := (st_err slow).

Definition on_bench {A} (c : st_err bench A) : act A := λ s,
  let '(b, a) := c (hw s) in (s <| hw := b |>, a).
Definition look {A} (f : slow_world → nat → A) : act A := λ s, (s <| tick ::= S |>, Some (f w (tick s))).

Definition fem_number : Z := 13.
Definition num_controller_triggers : nat := 1.

(** The words of a header or of the data that follows are copied over the start of
    [word_arr]: past its end the copy is undefined. *)
Definition copy_words (n : nat) : act () := λ s,
  if decide (n ≤ N.to_nat DATABUFFSIZE)%nat
  then (s <| word_arr ::= λ a, take n (read_array (hw s)) ++ drop n a |>, Some ())
  else (s, None).
(** A record is lost when the queue is full. *)
Definition enqueue : act () :=
  room <~ look sw_room ;;
  if room : bool then λ s, (s <| queued ::= λ q, q ++ [word_arr s] |>, Some ()) else st_ret ().

Definition word_at (s : slow) (i : nat) : Z := default 0 (read_array (hw s) !! i).
(** The number of data words a header announces. *)
Definition announced (s : slow) : Z :=
  Z.land (Z.shiftr (word_at s 1) 16) 0xFFF + Z.shiftl (Z.land (word_at s 1) 0xFFF) 12.

Definition read_header : act () :=
  on_bench (recv drv 1 5 1) ;;~
  on_bench (command drv fem_number 3 mb_feb_a_rdhed 0x0) ;;~
  on_bench (st_modify (λ b, b <| read_array ::= λ a, replicate 5 0 ++ drop 5 a |>)) ;;~
  on_bench (recv drv 2 5 1) ;;~
  copy_words 6 ;;~ enqueue.
Definition read_event : act () :=
  nread <~ (λ s, (s, Some (announced s))) ;;
  let nword := (nread + 1) / 2 in
  on_bench (recv drv 1 nword 1) ;;~
  on_bench (command drv fem_number mb_feb_pass_add mb_feb_a_rdbuf 0x0) ;;~
  on_bench (recv drv 2 nword 1) ;;~
  copy_words (Z.to_nat nword) ;;~ enqueue.
Fixpoint repeat_times (n : nat) (body : act ()) : act () :=
  match n with O => st_ret () | S n => body ;;~ repeat_times n body end.
Definition trigger_pass : act () :=
  repeat_times num_controller_triggers (on_bench (command drv trigger_module 0 mb_trig_calib 0x0) ;;~ st_ret ()) ;;~
  on_bench (command drv fem_number 3 mb_feb_mod_number fem_number) ;;~
  repeat_times num_controller_triggers (read_header ;;~ read_event).

Fixpoint trigger_loop (fuel : nat) : act () :=
  match fuel with
  | O => st_get None
  | S fuel =>
      running <~ look sw_running ;;
      if negb running then st_ret () else trigger_pass ;;~ trigger_loop fuel
  end.
Definition ReadoutViaController (fuel : nat) : act () :=
  on_bench (command drv trigger_module 0 mb_trig_calib_delay 0x10) ;;~
  on_bench (command drv fem_number 3 10 0x1) ;;~
  on_bench (command drv trigger_module 0 mb_trig_run 0x1) ;;~
  trigger_loop fuel ;;~
  on_bench (command drv 0 1 mb_cntrl_set_run_off 0x0) ;;~
  st_modify (λ s, s <| stop_write_ := true |>).
End controller_readout.

(** ** [FastDataWrite] *)
(** The n-th look: whether the next record is on the queue by then, and the flag. *)
Record fast_world := FastWorld {
  fw_open : string → bool;
  fw_stop : nat → bool;                   (** stop_write_ *)
  fw_arrived : nat → bool
}.
Record fast := Fast {
  fast_arr : list Z;
  fast_tick : nat;
  arriving : list (list Z);               (** the records of the queue, and the ones to come *)
  opened : bool;
  written : list (list Z)                 (** to the file *)
}.
#[export] Instance fast_eta : RecordEta fast := λ s, Fast (fast_arr s) (fast_tick s) (arriving s) (opened s) (written s).

Section fast_write.
Context (w : fast_world).
Notation act := (st_err fast).
(** A write to a file that did not open is lost. *)
Definition write_record : act () := λ s,
  (if opened s then s <| written ::= λ l, l ++ [fast_arr s] |> else s, Some ()).
(** [data_queue_.read] *)
Definition read_record : act bool := λ s,
  let s' := s <| fast_tick ::= S |> in
  match arriving s with
  | ws :: rest => if fw_arrived w (fast_tick s) then (s' <| fast_arr := ws |> <| arriving := rest |>, Some true) else (s', Some false)
  | [] => (s', Some false)
  end.
Definition is_empty : act bool := λ s,
  (s <| fast_tick ::= S |>, Some (match arriving s with _ :: _ => negb (fw_arrived w (fast_tick s)) | [] => true end)).
Definition stopped : act bool := λ s, (s <| fast_tick ::= S |>, Some (fw_stop w (fast_tick s))).

Fixpoint read_loop (fuel : nat) : act () :=
  match fuel with
  | O => st_get None
  | S fuel => ok <~ read_record ;; if ok : bool then write_record ;;~ read_loop fuel else st_ret ()
  end.
Fixpoint run_loop (read_fuel fuel : nat) : act () :=
  match fuel with
  | O => st_get None
  | S fuel => stop <~ stopped ;; if stop : bool then st_ret () else read_loop read_fuel ;;~ run_loop read_fuel fuel
  end.
Fixpoint rest_loop (fuel : nat) : act () :=
  match fuel with
  | O => st_get None
  | S fuel => empty <~ is_empty ;; if empty : bool then st_ret () else read_record ;;~ write_record ;;~ rest_loop fuel
  end.
Definition FastDataWrite (h : handler) (read_fuel fuel : nat) : act () :=
  st_modify (λ s, s <| opened := fw_open w (data_file_name h) |> <| fast_arr := replicate (N.to_nat DATABUFFSIZE) 0 |>) ;;~
  run_loop read_fuel fuel ;;~
  rest_loop read_fuel.

(** *** Every record is written, once and in order *)
Definition file_of (s : fast) : list (list Z) := written s ++ (if opened s then arriving s else []).
Definition writes (s s' : fast) : Prop :=
  file_of s' = file_of s ∧ opened s' = opened s ∧ (length (arriving s') ≤ length (arriving s))%nat ∧ (fast_tick s < fast_tick s')%nat.
Lemma writes_trans s1 s2 s3 : writes s1 s2 → writes s2 s3 → writes s1 s3.
Proof. intros (? & ? & ? & ?) (? & ? & ? & ?). split_and!; [congruence|congruence|lia|lia]. Qed.
(** A record that is taken is written. *)
Lemma take_and_write s ws rest :
  arriving s = ws :: rest → fw_arrived w (fast_tick s) = true →
  ∃ s1 s2, read_record s = (s1, Some true) ∧ write_record s1 = (s2, Some ()) ∧ writes s s2 ∧ arriving s2 = rest.
Proof.
  intros Ha Hw. unfold read_record. rewrite Ha, Hw. eexists _, _. split; [reflexivity|]. split; [reflexivity|].
  unfold writes, file_of. cbn. destruct (opened s) eqn:Ho; cbn; rewrite ?Ho, ?Ha; cbn; rewrite <- ?app_assoc; split_and!; try done; lia.
Qed.
Lemma read_loop_writes fuel s :
  (length (arriving s) < fuel)%nat → ∃ s', read_loop fuel s = (s', Some ()) ∧ writes s s'.
Proof.
  revert s. induction fuel as [|fuel IH]; intros s Hlt; [lia|]. cbn [read_loop].
  destruct (arriving s) as [|ws rest] eqn:Ha.
  { eexists. unfold st_bind, read_record. rewrite Ha. split; [reflexivity|]. unfold writes, file_of. cbn. split_and!; try done; lia. }
  destruct (fw_arrived w (fast_tick s)) eqn:Hw.
  2: { eexists. unfold st_bind, read_record. rewrite Ha, Hw. split; [reflexivity|]. unfold writes, file_of. cbn. split_and!; try done; lia. }
  destruct (take_and_write _ _ _ Ha Hw) as (s1 & s2 & E1 & E2 & H2 & Ha2). unfold st_bind. rewrite E1, E2.
  destruct (IH s2) as (s3 & E3 & H3); [rewrite Ha2; cbn in Hlt; lia|]. exists s3. split; [exact E3|by eapply writes_trans].
Qed.
Lemma run_loop_writes stop read_fuel fuel s :
  (∀ t, (stop ≤ t)%nat → fw_stop w t = true) → (stop - fast_tick s < fuel)%nat → (length (arriving s) < read_fuel)%nat →
  ∃ s' t, run_loop read_fuel fuel s = (s', Some ()) ∧ writes s s' ∧ fw_stop w t = true ∧ (t < fast_tick s')%nat.
Proof.
  intros Hstop. revert s. induction fuel as [|fuel IH]; intros s Hlt Hlen; [lia|]. cbn [run_loop].
  unfold st_bind at 1, stopped. set (s1 := s <| fast_tick ::= S |>).
  assert (writes s s1) as H1 by (unfold writes, file_of; cbn; split_and!; try done; lia).
  destruct (fw_stop w (fast_tick s)) eqn:Hs; [exists s1, (fast_tick s); split_and!; [done..|cbn; lia]|].
  assert (fast_tick s < stop)%nat by (destruct (decide (stop ≤ fast_tick s)%nat); [rewrite Hstop in Hs by done; done|lia]).
  destruct (read_loop_writes read_fuel s1) as (s2 & E2 & H2); [cbn; lia|]. unfold st_bind. rewrite E2.
  pose proof H2 as (_ & _ & Hl2 & Ht2). cbn in Hl2, Ht2.
  destruct (IH s2) as (s3 & t & E3 & H3 & Hst & Ht); [lia|lia|]. exists s3, t. split; [exact E3|].
  split; [|done]. eapply writes_trans; [exact H1|]. by eapply writes_trans.
Qed.
Lemma rest_loop_writes fuel s :
  (∀ t, (fast_tick s ≤ t)%nat → fw_arrived w t = true) → (length (arriving s) < fuel)%nat →
  ∃ s', rest_loop fuel s = (s', Some ()) ∧ writes s s' ∧ arriving s' = [].
Proof.
  revert s. induction fuel as [|fuel IH]; intros s Hw Hlt; [lia|]. cbn [rest_loop]. unfold st_bind at 1, is_empty.
  set (s1 := s <| fast_tick ::= S |>).
  assert (writes s s1) as H1 by (unfold writes, file_of; cbn; split_and!; try done; lia).
  destruct (arriving s) as [|ws rest] eqn:Ha; [by exists s1|]. rewrite Hw by done. cbn [negb].
  destruct (take_and_write s1 ws rest) as (s2 & s3 & E2 & E3 & H3 & Ha3); [done|apply Hw; cbn; lia|].
  unfold st_bind. rewrite E2, E3. pose proof H3 as (_ & _ & _ & Ht3). cbn in Ht3.
  destruct (IH s3) as (s4 & E4 & H4 & Ha4); [intros t Ht; apply Hw; lia|rewrite Ha3; cbn in Hlt; lia|].
  exists s4. split; [exact E4|]. split; [|done]. eapply writes_trans; [exact H1|]. by eapply writes_trans.
Qed.
(** Told to stop after the last record is on the queue, the thread ends with every
    record in the file, or with none when the file could not be opened. *)
Lemma FastDataWrite_file stop h read_fuel fuel s :
  (∀ t, (stop ≤ t)%nat → fw_stop w t = true) → (∀ t t', fw_stop w t = true → (t ≤ t')%nat → fw_arrived w t' = true) →
  written s = [] → (stop < fuel)%nat → (length (arriving s) < read_fuel)%nat →
  ∃ s', FastDataWrite h read_fuel fuel s = (s', Some ()) ∧
        written s' = if fw_open w (data_file_name h) then arriving s else [].
Proof.
  intros Hstop Harr Hnil Hfuel Hlen. unfold FastDataWrite. unfold st_bind at 1, st_modify. set (s1 := _ <| fast_arr := _ |>).
  destruct (run_loop_writes stop read_fuel fuel s1 Hstop) as (s2 & t & E2 & H2 & Hst & Ht); [cbn; lia|done|].
  unfold st_bind. rewrite E2. pose proof H2 as (Hf2 & Ho2 & Hl2 & _).
  destruct (rest_loop_writes read_fuel s2) as (s3 & E3 & H3 & Ha3);
    [intros t' Ht'; apply (Harr t); [done|lia]|change (arriving s) with (arriving s1) in Hlen; lia|].
  exists s3. split; [exact E3|]. pose proof H3 as (Hf3 & Ho3 & _ & _). rewrite Hf2 in Hf3. unfold file_of in Hf3.
  rewrite Ha3 in Hf3. change (written s1) with (written s) in Hf3. rewrite Hnil in Hf3.
  change (opened s1) with (fw_open w (data_file_name h)) in Hf3. change (arriving s1) with (arriving s) in Hf3.
  destruct (opened s3); by rewrite ?app_nil_r in Hf3.
Qed.
End fast_write.

(** ** [PinThread], [GetStatus] *)
(** The core and the priority asked for; the errors are logged only. *)
Inductive sched_call := SetAffinity (core : N) | SetFifoPriority (priority : Z).
Definition PinThread (core_id : N) : list sched_call := [SetAffinity core_id; SetFifoPriority 70].
Definition GetStatus : list Z := [1].

(** ** What the controller read-out sends *)
Section scripts.
Context (drv : driver) (w : slow_world) (m : Z).
Definition slow_prologue : list item := [Cmd m 0 mb_trig_calib_delay 0x10; Cmd fem_number 3 10 1; Cmd m 0 mb_trig_run 1].
Definition header_script : list item :=
  [Cmd m 0 mb_trig_calib 0; Cmd fem_number 3 mb_feb_mod_number fem_number; Cmd fem_number 3 mb_feb_a_rdhed 0].
Definition pass_script : list item := header_script ++ [Cmd fem_number mb_feb_pass_add mb_feb_a_rdbuf 0].

(** From [s] to [s'] the commands of [sc] leave the card, and nothing is said of
    the flag. *)
Definition slow_progress (sc : list item) (s s' : slow) : Prop :=
  progress_to sc (hw s) (hw s') ∧ stop_write_ s' = stop_write_ s ∧ (tick s ≤ tick s')%nat.
Lemma slow_app sc1 sc2 s1 s2 s3 : slow_progress sc1 s1 s2 → slow_progress sc2 s2 s3 → slow_progress (sc1 ++ sc2) s1 s3.
Proof. intros (? & ? & ?) (? & ? & ?). split; [by eapply progress_app|]. split; [congruence|lia]. Qed.


(** The code ends after the commands [sc], or is undefined after the first ones. *)
Definition may_send {A} (c : st_err slow A) (sc : list item) : Prop := ∀ s, ready (hw s) →
  ∃ s' r sc', c s = (s', r) ∧ slow_progress sc' s s' ∧ if r then sc' = sc else sc' `prefix_of` sc.
Lemma may_bind {A B} (c : st_err slow A) (k : A → st_err slow B) sc1 sc2 :
  may_send c sc1 → (∀ a, may_send (k a) sc2) → may_send (st_bind c k) (sc1 ++ sc2).
Proof.
  intros Hc Hk s Hs. destruct (Hc s Hs) as (s1 & [a|] & sc & E & P1 & Hsc); unfold st_bind; rewrite E.
  - subst. destruct (Hk a s1) as (s2 & r & sc & E2 & P2 & Hsc); [apply P1|]. exists s2, r, (sc1 ++ sc).
    split; [done|]. split; [by eapply slow_app|]. destruct r; [by subst|by apply prefix_app].
  - exists s1, None, sc. split_and!; [done..|]. by apply prefix_app_r.
Qed.
Lemma may_assoc {A B C} (c : st_err slow A) (f : A → st_err slow B) (k : B → st_err slow C) sc :
  may_send (st_bind c (λ a, st_bind (f a) k)) sc → may_send (st_bind (st_bind c f) k) sc.
Proof.
  intros H s Hs. destruct (H s Hs) as (s' & r & sc' & E & P). exists s', r, sc'. split; [|done].
  unfold st_bind in *. destruct (c s) as [s1 [a|]]; [|done]. by destruct (f a s1) as [s2 [b|]].
Qed.
Lemma may_skip {A B} (c : st_err slow A) (k : A → st_err slow B) sc :
  may_send c [] → (∀ a, may_send (k a) sc) → may_send (st_bind c k) sc.
Proof. apply may_bind. Qed.
Lemma may_cons {A B} (c : st_err slow A) (k : A → st_err slow B) i sc :
  may_send c [i] → (∀ a, may_send (k a) sc) → may_send (st_bind c k) (i :: sc).
Proof. apply may_bind. Qed.
Lemma may_same {A} (c : st_err slow A) :
  (∀ s, ∃ s' r, c s = (s', r) ∧ hw s' = hw s ∧ stop_write_ s' = stop_write_ s ∧ (tick s ≤ tick s')%nat) → may_send c [].
Proof.
  intros Hc s Hs. destruct (Hc s) as (s' & r & E & Hb & Hst & Ht). exists s', r, []. split; [done|].
  split; [|by destruct r]. split; [|by split]. rewrite Hb. by apply progress_refl.
Qed.
Lemma may_bench {A} (c : st_err bench A) sc : sends c sc → may_send (on_bench c) sc.
Proof.
  intros Hc s Hs. destruct (Hc _ Hs) as (b & a & E & P). unfold on_bench. rewrite E.
  eexists _, (Some a), sc. split; [reflexivity|]. by split; [|done].
Qed.
Lemma may_command i ichip cmd data : may_send (on_bench (command drv i ichip cmd data)) [Cmd i ichip cmd data].
Proof. apply may_bench, command_sends. Qed.
Lemma may_recv istart nword ipr : may_send (on_bench (recv drv istart nword ipr)) [].
Proof. apply may_bench, recv_sends. Qed.
Lemma may_ret {A} (a : A) : may_send (st_ret a) [].
Proof. apply may_same. intros s. by exists s, (Some a). Qed.
Lemma may_enqueue : may_send (enqueue w) [].
Proof.
  apply may_same. intros s. unfold enqueue, st_bind, look. destruct (sw_room w (tick s)); (eexists _, _; split; [reflexivity|]); split_and!; cbn; done || lia.
Qed.
Lemma may_copy n : may_send (copy_words n) [].
Proof. apply may_same. intros s. unfold copy_words. case_decide; (eexists _, _; split; [reflexivity|done]). Qed.
Lemma may_look {A} (f : slow → A) : may_send (λ s, (s, Some (f s))) [].
Proof. apply may_same. intros s. by eexists _, _. Qed.
Lemma may_clear : may_send (on_bench (st_modify (λ b, b <| read_array ::= λ a, replicate 5 0 ++ drop 5 a |>))) [].
Proof.
  apply may_bench. intros s Hs. eexists _, (). split; [reflexivity|]. destruct (progress_refl s Hs) as (R & C & P). by split.
Qed.
End scripts.
Ltac may_step :=
  lazymatch goal with
  | |- may_send (on_bench (command _ _ _ _ _)) _ => apply may_command
  | |- may_send (on_bench (recv _ _ _ _)) _ => apply may_recv
  | |- may_send (on_bench (st_modify _)) _ => apply may_clear
  | |- may_send (copy_words _) _ => apply may_copy
  | |- may_send (enqueue _) _ => apply may_enqueue
  | |- may_send (st_ret _) _ => apply may_ret
  | |- may_send (λ _, _) _ => apply may_look
  | |- may_send (st_bind (st_bind _ _) _) _ => apply may_assoc
  | |- may_send (st_bind (on_bench (command _ _ _ _ _)) _) _ => apply may_cons; [apply may_command|intros ?]
  | |- may_send (st_bind _ _) _ => apply may_skip; [|intros ?]
  end.
Ltac may_script := repeat may_step.

Section runs.
Context (drv : driver) (w : slow_world) (m : Z).
Lemma trigger_pass_sends : may_send (trigger_pass drv w m) (pass_script m).
Proof.
  unfold trigger_pass, pass_script, header_script, num_controller_triggers, repeat_times, read_header, read_event. cbn [app].
  may_script.
Qed.
(** The loop makes a number of passes: all of them while the run is on. *)
Lemma trigger_loop_sends stop fuel s :
  (∀ t, (stop ≤ t)%nat → sw_running w t = false) → ready (hw s) → (stop - tick s < fuel)%nat →
  ∃ n, (n ≤ stop - tick s)%nat ∧ ∃ s' r sc', trigger_loop drv w m fuel s = (s', r) ∧ slow_progress sc' s s' ∧
    let all := concat (replicate n (pass_script m)) in
    if r then sc' = all else sc' `prefix_of` all.
Proof.
  intros Hstop. revert s. induction fuel as [|fuel IH]; intros s Hs Hfuel; [lia|]. cbn [trigger_loop].
  unfold st_bind at 1, look. set (s1 := s <| tick ::= S |>).
  assert (slow_progress [] s s1) as P1 by (split; [by apply progress_refl|split; [done|cbn; lia]]).
  destruct (sw_running w (tick s)) eqn:Hrun; cbn [negb].
  2: { exists 0%nat. split; [lia|]. by exists s1, (Some ()), []. }
  assert (tick s < stop)%nat by (destruct (decide (stop ≤ tick s)%nat); [rewrite Hstop in Hrun by done; done|lia]).
  destruct (trigger_pass_sends s1) as (s2 & [u|] & sc & E2 & P2 & Hsc); [apply P1|..]; unfold st_bind; rewrite E2.
  - subst sc. pose proof P2 as (_ & _ & Ht2). cbn in Ht2.
    destruct (IH s2) as (n & Hn & s3 & r & sc' & E3 & P3 & Hsc'); [apply P2|lia|].
    exists (S n). split; [lia|]. exists s3, r, (pass_script m ++ sc'). split; [exact E3|].
    split; [exact (slow_app _ _ _ _ _ P1 (slow_app _ _ _ _ _ P2 P3))|].
    cbv zeta in *. cbn [replicate concat]. destruct r; [by rewrite Hsc'|by apply prefix_app].
  - exists 1%nat. split; [lia|]. exists s2, None, sc. split; [done|]. split; [exact (slow_app _ _ _ _ _ P1 P2)|].
    cbv zeta. cbn [replicate concat]. by rewrite app_nil_r.
Qed.

(** The read-out ends once the run does: it sends the set-up, the commands of each
    trigger and the end of the run, and tells the write thread to stop; unless the
    words that a header announces do not fit the record: the copy past its end is
    undefined, and nothing more can be said. *)
Lemma ReadoutViaController_sends stop fuel b :
  (∀ t, (stop ≤ t)%nat → sw_running w t = false) → ready b → (stop < fuel)%nat →
  ∃ n, (n ≤ stop)%nat ∧
    let script := slow_prologue m ++ concat (replicate n (pass_script m)) ++ [Cmd 0 1 mb_cntrl_set_run_off 0] in
    match ReadoutViaController drv w m fuel (new_slow b) with
    | (s, Some _) => progress_to script b (hw s) ∧ stop_write_ s = true
    | (s, None) => stop_write_ s = false ∧ ∃ sc, sc `prefix_of` script ∧ progress_to sc b (hw s)
    end.
Proof.
  intros Hstop Hb Hfuel. set (s0 := new_slow b).
  assert (may_send (on_bench (command drv m 0 mb_trig_calib_delay 0x10) ;;~ on_bench (command drv fem_number 3 10 0x1) ;;~
    on_bench (command drv m 0 mb_trig_run 0x1)) (slow_prologue m)) as Hpro by (unfold slow_prologue; may_script).
  destruct (Hpro s0 Hb) as (s1 & r1 & sc1 & E1 & P1 & Hsc1).
  assert (ReadoutViaController drv w m fuel s0 = (
    (on_bench (command drv m 0 mb_trig_calib_delay 0x10) ;;~ on_bench (command drv fem_number 3 10 0x1) ;;~
      on_bench (command drv m 0 mb_trig_run 0x1)) ;;~ trigger_loop drv w m fuel ;;~
    on_bench (command drv 0 1 mb_cntrl_set_run_off 0x0) ;;~ st_modify (λ s, s <| stop_write_ := true |>)) s0) as ->.
  { unfold ReadoutViaController, st_bind. repeat case_match; simplify_eq; done. }
  unfold st_bind at 1. rewrite E1. destruct r1 as [u1|].
  2: { exists 0%nat. split; [lia|]. split; [apply P1|]. exists sc1. split; [|apply P1]. by apply prefix_app_r. }
  subst sc1. pose proof P1 as (_ & _ & Ht1).
  destruct (trigger_loop_sends stop fuel s1 Hstop) as (n & Hn & s2 & r2 & sc2 & E2 & P2 & Hsc2); [apply P1|lia|].
  exists n. split; [lia|]. unfold st_bind at 1. rewrite E2. pose proof (slow_app _ _ _ _ _ P1 P2) as P12. cbv zeta in Hsc2. destruct r2 as [u2|].
  2: { split; [apply P12|]. exists (slow_prologue m ++ sc2). split; [|apply P12]. apply prefix_app. by apply prefix_app_r. }
  subst sc2. destruct (may_command drv 0 1 mb_cntrl_set_run_off 0x0 s2) as (s3 & [u3|] & sc3 & E3 & P3 & Hsc3); [apply P12|..];
    unfold st_bind; rewrite E3.
  - subst sc3. split; [|done]. rewrite app_assoc. exact (proj1 (slow_app _ _ _ _ _ P12 P3)).
  - split; [apply (slow_app _ _ _ _ _ P12 P3)|]. eexists. split; [|exact (proj1 (slow_app _ _ _ _ _ P12 P3))].
    rewrite <- app_assoc. do 2 apply prefix_app. done.
Qed.

(** The header is not checked: a data block longer than a record is copied past
    the end of it. *)
Lemma read_event_too_long s :
  ready (hw s) → Z.of_N DATABUFFSIZE < (announced s + 1) / 2 → (read_event drv w s).2 = None.
Proof.
  intros Hs Hlong. unfold read_event. set (nword := (announced s + 1) / 2) in *.
  assert (∀ {A B} (c : st_err bench A) (k : A → st_err slow B) sc s, sends c sc → ready (hw s) →
    (∀ a s', ready (hw s') → (k a s').2 = None) → (st_bind (on_bench c) k s).2 = None) as Hstep.
  { intros A B c k sc s' Hc Hr Hk. destruct (Hc _ Hr) as (b & a & E & P). unfold st_bind, on_bench. rewrite E. apply Hk, P. }
  unfold st_bind at 1. fold nword. cbv zeta. eapply Hstep; [apply recv_sends|done|]. intros _ s1 H1.
  eapply Hstep; [apply command_sends|done|]. intros _ s2 H2. eapply Hstep; [apply recv_sends|done|]. intros _ s3 _.
  unfold st_bind, copy_words. rewrite decide_False by lia. done.
Qed.
End runs.
