(* ===== verification/DmaReadout.v ===== *)
(** * The read thread: [DataHandler::ReadoutDMARead]
    (src/src/data/data_handler.cpp)

    The thread programs one DMA transfer after another, waits for each, and puts
    the blocks on the queue. It shares flags and the queue with other threads: a
    [world] gives the value of each shared read, whichever way the others are
    scheduled, and the thread's own stores are recorded in order as effects. *)
From Stdlib Require Import Lia ZArith NArith.
From stdpp Require Import base tactics sets list numbers option.
From S2P Require Import Prelude Threads Config Pcie Wire HwConsts TriggerControl EventBuilder DataHandler.
Local Open Scope Z_scope.

(** What the thread's n-th shared read returns. *)
Record world := World {
  w_running : nat → bool;    (** is_running_ *)
  w_events : nat → N;        (** event_count_ *)
  w_room : nat → bool;       (** data_queue_.write() has room *)
  w_now : nat → Z;           (** steady_clock::now(), in milliseconds *)
  w_block : list bus_op → list Z  (** the DMA buffer, after what the bus saw *)
}.

(** The thread's stores to what it shares. *)
Inductive effect :=
  | ELoops (n : N)            (** dma_loop_count_ *)
  | EEnqueue (ws : list Z)    (** data_queue_.write succeeded *)
  | EResync (k : N)           (** resync_at_block_.store(k) *)
  | ETimeout                  (** dma_timeout_ = true *)
  | EOverflow                 (** read_write_buff_overflow_ = true, the count incremented *)
  | EStopWrite                (** stop_write_ = true *)
  | EStopRunning              (** is_running_ = false *)
  | ELockFailed               (** failed_locking_dma_buffers_ = true *)
  | EFreeError                (** free_dma_buffer_error_ = true *)
  | ERunError (code : N)      (** run_error_bit_ *)
  | EStartTrigger             (** the software trigger thread is started *)
  | EStopTrigger.             (** trigger_.StopTrigger(true), and the thread is joined *)

Record reader := Reader {
  card : pcie;
  tick : nat;
  loops : N;
  blocks_enqueued : N;
  is_first_event : bool;
  word_arr : list Z;
  effects : list effect
}.
#[export] Instance reader_eta : RecordEta reader := λ s,
  Reader (card s) (tick s) (loops s) (blocks_enqueued s) (is_first_event s) (word_arr s) (effects s).

(** The state in which the thread starts: the locals, and the static array. *)
Definition new_reader (p : pcie) : reader := {|
  card := p; tick := 0; loops := 0; blocks_enqueued := 0; is_first_event := true;
  word_arr := replicate (N.to_nat DATABUFFSIZE) 0; effects := []
|}.

Section reader.
Context (drv : driver) (w : world) `{ErrorBits} (h : handler).
(** [num_dma_byte] is static: it keeps the size of the process's first run. *)
Context (num_dma_byte : Z).
Notation rd := (st_err reader).

Definition on_bus {A} (c : st pcie A) : rd A := λ s,
  let '(p, a) := c (card s) in (s <| card := p |>, Some a).
Definition look {A} (f : world → nat → A) : rd A := λ s, (s <| tick ::= S |>, Some (f w (tick s))).
Definition emit (e : effect) : rd () := st_modify (λ s, s <| effects ::= λ l, l ++ [e] |>).
Definition write_reg (off data : Z) : rd () :=
  on_bus (WriteReg32 drv kDev2 cs_bar off data) ;;~ st_ret ().

Definition SetRecvBuffer : rd bool :=
  init_buffer <~ on_bus (DmaContigBufferLock drv 1 (Z.of_N (DMABUFFSIZE h))) ;;
  if negb init_buffer then st_ret false
  else
    init_buffer <~ on_bus (DmaContigBufferLock drv 2 (Z.of_N (DMABUFFSIZE h))) ;;
    if negb init_buffer then st_ret false
    else
      write_reg tx_md_reg 0x00002000 ;;~
      write_reg cs_dma_msi_abort dma_abort ;;~
      write_reg cs_dma_msi_abort 0 ;;~
      st_ret true.

Definition ClearDmaOnAbort : rd () :=
  on_bus (ReadReg64 drv kDev2 cs_bar t1_cs_reg) ;;~
  on_bus (ReadReg64 drv kDev2 cs_bar t2_cs_reg) ;;~
  write_reg cs_dma_msi_abort dma_abort ;;~
  write_reg cs_dma_msi_abort 0.

(** [fuel] bounds the polls; running out of it is no result. *)
Fixpoint wait_loop (deadline : Z) (fuel : nat) : rd bool :=
  match fuel with
  | O => st_get None
  | S fuel =>
      running <~ look w_running ;;
      if negb running then st_ret false
      else
        data <~ on_bus (ReadReg32 drv kDev2 cs_bar cs_dma_cntrl) ;;
        if Z.land data dma_in_progress =? 0 then st_ret true
        else
          now <~ look w_now ;;
          if deadline <=? now then emit ETimeout ;;~ st_ret false
          else wait_loop deadline fuel
  end.
Definition WaitForDma (fuel : nat) : rd bool :=
  now <~ look w_now ;; wait_loop (now + Z.of_N (dma_abort_wait_ms h)) fuel.

(** [dma_num] is static, so it is 1 for both values of [iv]. *)
Definition dma_num : Z := 1.

Definition arm_receiver (r_cs_reg : Z) : rd () :=
  first <~ (λ s, (s, Some (is_first_event s))) ;;
  (if first : bool then write_reg r_cs_reg cs_init else st_ret ()) ;;~
  write_reg r_cs_reg (u32 (cs_start + num_dma_byte)).

Definition start_dma : rd () :=
  arm_receiver r1_cs_reg ;;~ arm_receiver r2_cs_reg ;;~
  st_modify (λ s, s <| is_first_event := false |>) ;;~
  low <~ on_bus (GetBufferPageAddrLower dma_num) ;;
  write_reg cs_dma_add_low_reg low ;;~
  high <~ on_bus (GetBufferPageAddrUpper dma_num) ;;
  write_reg cs_dma_add_high_reg high ;;~
  write_reg cs_dma_by_cnt num_dma_byte ;;~
  is_ <~ on_bus (GetBufferPageAddrUpper dma_num) ;;
  write_reg cs_dma_cntrl (if is_ =? 0 then dma_tr12 + dma_3dw_rec else dma_tr12 + dma_4dw_rec).

Definition send_trigger (iv : nat) : rd () :=
  if decide (iv = 0%nat) then
    on_bus (TriggerControl.SendStartTrigger drv (software_trig h) (ext_trig h) (trigger_module h))
  else if software_trig h then
    on_bus (TriggerControl.SendStartTrigger drv (software_trig h) (ext_trig h) (trigger_module h))
  else st_ret ().

(** After a timeout in a run that goes on: abort, re-arm, and announce the gap. *)
Definition recover_dma : rd () :=
  on_bus (ReadReg64 drv kDev2 cs_bar cs_dma_by_cnt) ;;~
  emit ETimeout ;;~
  on_bus (DmaSyncIo drv dma_num) ;;~
  ClearDmaOnAbort ;;~
  write_reg r1_cs_reg cs_init ;;~
  write_reg r2_cs_reg cs_init ;;~
  st_modify (λ s, s <| is_first_event := true |>) ;;~
  k <~ (λ s, (s, Some (blocks_enqueued s))) ;;
  emit (EResync k).

(** [std::memcpy] of DMABUFFSIZE bytes into the static array. *)
Definition copy_block (block : list Z) (arr : list Z) : list Z :=
  let n := N.to_nat (DMABUFFSIZE h / 4) in take n block ++ drop n arr.

Definition enqueue_block : rd () :=
  block <~ on_bus (st_read (λ p, w_block w (bus p))) ;;
  st_modify (λ s, s <| word_arr ::= copy_block block |>) ;;~
  room <~ look w_room ;;
  if room : bool then
    arr <~ (λ s, (s, Some (word_arr s))) ;;
    emit (EEnqueue arr) ;;~
    st_modify (λ s, s <| blocks_enqueued ::= N.succ |>)
  else
    emit EOverflow ;;~
    k <~ (λ s, (s, Some (blocks_enqueued s))) ;;
    emit (EResync k).

(** One pass of the inner loop; false when it breaks out. *)
Definition dma_pass (fuel iv : nat) : rd bool :=
  on_bus (DmaSyncCpu drv dma_num) ;;~
  start_dma ;;~
  send_trigger iv ;;~
  done <~ WaitForDma fuel ;;
  if negb done then
    running <~ look w_running ;;
    if negb running then ClearDmaOnAbort ;;~ st_ret false
    else recover_dma ;;~ st_ret true
  else
    on_bus (DmaSyncIo drv dma_num) ;;~
    enqueue_block ;;~
    st_ret true.

Definition dma_loop (fuel : nat) : rd () :=
  go_on <~ dma_pass fuel 0 ;;
  (if go_on : bool then dma_pass fuel 1 ;;~ st_ret () else st_ret ()) ;;~
  st_modify (λ s, s <| loops ::= N.succ |>) ;;~
  n <~ (λ s, (s, Some (loops s))) ;;
  emit (ELoops n).

Fixpoint run_loop (wait_fuel fuel : nat) : rd () :=
  match fuel with
  | O => st_get None
  | S fuel =>
      running <~ look w_running ;;
      if negb running then st_ret ()
      else
        events <~ look w_events ;;
        if (events <? num_events h)%N then dma_loop wait_fuel ;;~ run_loop wait_fuel fuel
        else st_ret ()
  end.

Definition end_run : rd () :=
  (if software_trig h then emit EStopTrigger else st_ret ()) ;;~
  on_bus (TriggerControl.SendStopTrigger drv (software_trig h) (ext_trig h) (trigger_module h)) ;;~
  emit EStopWrite ;;~
  freed <~ on_bus (FreeDmaContigBuffers drv) ;;
  if negb freed then emit EFreeError else st_ret ().

Definition abort_start : rd () :=
  emit ELockFailed ;;~
  emit EStopRunning ;;~
  emit EStopWrite ;;~
  on_bus (FreeDmaContigBuffers drv) ;;~
  emit (ERunError err_acquire_pcie_dma_buff).

Definition ReadoutDMARead (fuel : nat) : rd () :=
  emit (ELoops 0) ;;~
  locked <~ SetRecvBuffer ;;
  if negb locked then abort_start
  else
    (if software_trig h then emit EStartTrigger else st_ret ()) ;;~
    run_loop fuel fuel ;;~
    end_run.
End reader.

(** ** The resynchronisation protocol

    Read from the effects: how many blocks were enqueued, and whether a gap (a
    timeout or a dropped block) has not been announced yet. A gap is announced
    with the index of the next block, and no block is enqueued before. *)
Definition protocol_step (st : N * bool) (e : effect) : option (N * bool) :=
  match e with
  | EEnqueue _ => if st.2 then None else Some (N.succ st.1, false)
  | EResync k => if decide (k = st.1) then Some (st.1, false) else None
  | ETimeout | EOverflow => Some (st.1, true)
  | _ => Some st
  end.
Definition protocol (effs : list effect) : option (N * bool) :=
  foldl (λ o e, o ≫= λ st, protocol_step st e) (Some (0%N, false)) effs.

Lemma protocol_snoc effs e : protocol (effs ++ [e]) = protocol effs ≫= λ st, protocol_step st e.
Proof. unfold protocol. by rewrite foldl_snoc. Qed.

(** ** The transfers, read from the bus

    Starting a DMA of both links is a store of one of two commands in the control
    register of the second card. The transfer is over when the buffer is synced for the
    processor; it completed when the last look at the register had found it no longer in
    progress, and is lost otherwise, or when another is started over it. *)
Inductive transfer :=
  | Completed (ops : list bus_op)  (** what the bus saw up to its end *)
  | Lost.
Record dma_log := DmaLog {
  seen : list bus_op;
  closed : list transfer;
  open : option bool               (** a transfer is on; whether the last look found it complete *)
}.
Section transfers.
Context (drv : driver) (dev : handle).

Definition starts_dma (op : bus_op) : bool :=
  match op with
  | Write32 d bar off v =>
      (bar =? cs_bar) && (off =? cs_dma_cntrl) &&
      ((v =? dma_tr12 + dma_3dw_rec) || (v =? dma_tr12 + dma_4dw_rec)) && bool_decide (d = dev)
  | _ => false
  end.
Definition looks_at_dma (op : bus_op) : bool :=
  match op with
  | Read32 d bar off => (bar =? cs_bar) && (off =? cs_dma_cntrl) && bool_decide (d = dev)
  | _ => false
  end.
Definition log_step (s : dma_log) (op : bus_op) : dma_log :=
  let l := seen s ++ [op] in
  if starts_dma op then DmaLog l (closed s ++ match open s with Some _ => [Lost] | None => [] end) (Some false)
  else if looks_at_dma op
  then DmaLog l (closed s) ((λ _, Z.land (drv_value drv l) dma_in_progress =? 0) <$> open s)
  else
    match op, open s with
    | SyncIo Buf1, Some complete => DmaLog l (closed s ++ [if complete then Completed l else Lost]) None
    | _, _ => DmaLog l (closed s) (open s)
    end.
(** The operations [ops], made after [before]. *)
Definition log_from (before ops : list bus_op) : dma_log := foldl log_step (DmaLog before [] None) ops.
Definition transfers (before ops : list bus_op) : list transfer := closed (log_from before ops).

Lemma log_from_seen before ops : seen (log_from before ops) = before ++ ops.
Proof.
  unfold log_from. induction ops as [|op ops IH] using rev_ind; [by rewrite app_nil_r|].
  rewrite foldl_snoc, app_assoc, <-IH. unfold log_step. by repeat case_match.
Qed.
Lemma log_from_snoc before ops op : log_from before (ops ++ [op]) = log_step (log_from before ops) op.
Proof. unfold log_from. by rewrite foldl_snoc. Qed.

(** Operations that neither start a transfer nor end one. *)
Definition neutral (op : bus_op) : Prop := starts_dma op = false ∧ op ≠ SyncIo Buf1.
Lemma log_neutral before ops ops' :
  Forall neutral ops' →
  closed (log_from before (ops ++ ops')) = closed (log_from before ops) ∧
  (is_Some (open (log_from before (ops ++ ops'))) ↔ is_Some (open (log_from before ops))).
Proof.
  induction ops' as [|op ops' IH] using rev_ind; [by rewrite app_nil_r|].
  rewrite Forall_app, Forall_singleton. intros [Hn [Hs Hb]].
  rewrite app_assoc, log_from_snoc. destruct (IH Hn) as [<- <-]. generalize (log_from before (ops ++ ops')). intros s.
  unfold log_step. rewrite Hs. destruct (looks_at_dma op); [cbn; by rewrite fmap_is_Some|].
  destruct op as [| | | | | | | |b| | | | |]; try done. by destruct b.
Qed.

(** Code on the bus that does neither, and keeps the second card. *)
Definition near (p p' : pcie) : Prop :=
  dev_handle_2 p' = dev_handle_2 p ∧ ∃ ops, bus p' = bus p ++ ops ∧ Forall neutral ops.
Class Bystander {A} (c : st pcie A) := bystander p : near p (c p).1.
Lemma by_ret {A} (a : A) : Bystander (mret a).
Proof. intros p. split; [done|]. exists []. by rewrite app_nil_r. Qed.
Lemma by_read {A} (f : pcie → A) : Bystander (st_read f).
Proof. intros p. split; [done|]. exists []. by rewrite app_nil_r. Qed.
Lemma by_update f :
  (∀ p, bus (f p) = bus p ∧ dev_handle_2 (f p) = dev_handle_2 p) → Bystander (st_update f).
Proof. intros Hf p. destruct (Hf p) as [Hb Hh]. split; [done|]. exists []. by rewrite app_nil_r. Qed.
Lemma by_call op : neutral op → Bystander (bus_call op).
Proof. intros Hop p. split; [done|]. exists [op]. by split; [|constructor]. Qed.
Lemma by_bind {A B} (c : st pcie A) (k : A → st pcie B) :
  Bystander c → (∀ a, Bystander (k a)) → Bystander (c ≫= k).
Proof.
  intros Hc Hk p. unfold mbind, st_mbind. destruct (Hc p) as [H1 (ops1 & B1 & N1)].
  destruct (c p) as [p1 a]. destruct (Hk a p1) as [H2 (ops2 & B2 & N2)]. cbn [fst] in *.
  split; [congruence|]. exists (ops1 ++ ops2). rewrite B2, B1, app_assoc. split; [done|]. by apply Forall_app.
Qed.
Lemma by_poll n i h : Bystander (poll_dma drv n i h).
Proof.
  revert i. induction n as [|n IH]; intros i; cbn [poll_dma]; [apply by_ret|].
  apply by_bind; [apply by_bind; [by apply by_call|intros ?; apply by_read]|].
  intros d. destruct (_ =? _); [apply by_ret|apply IH].
Qed.
Lemma by_send_words h ws : Bystander (send_words h ws).
Proof.
  induction ws as [|x ws IH]; cbn [send_words]; [apply by_ret|]. apply by_bind; [by apply by_call|done].
Qed.
End transfers.

Ltac bystand :=
  repeat lazymatch goal with
  | |- Bystander _ (mret _) => apply by_ret
  | |- Bystander _ (st_read _) => apply by_read
  | |- Bystander _ (st_update _) => apply by_update; intros ?; split; reflexivity
  | |- Bystander _ (mbind _ _) => apply by_bind; [|intros ?]
  | |- Bystander _ (bus_call _) => apply by_call; split; [reflexivity|discriminate]
  | |- Bystander _ (poll_dma _ _ _ _) => apply by_poll
  | |- Bystander _ (send_words _ _) => apply by_send_words
  | |- Bystander _ (let _ := _ in _) => cbv zeta
  | |- Bystander _ (if ?b then _ else _) => destruct b
  | |- Bystander _ (match ?b with _ => _ end) => destruct b
  | |- Bystander _ _ =>
      progress unfold GetDeviceHandle, call_value, call_status, write_cs, program_dma, buf_page, must,
        setup_transmitter, WriteReg32, ReadReg64, ReadReg32, DmaSyncCpu, GetBufferPageAddrLower, buffer_of,
        GetBufferPageAddrUpper, FreeDmaContigBuffers, free_buffer, DmaContigBufferLock, lock_buffer,
        SendStartTrigger, SendStopTrigger, send_word, PCIeSendBuffer
  end.

(** ** What the thread tells of its transfers *)
Inductive response :=
  | Put (ws : list Z)     (** the block was enqueued *)
  | Dropped (k : N)       (** it was not, and the gap announced *)
  | Missed (k : N).       (** a gap was announced after a timeout *)
(** The answers so far; whether the last incident was a block dropped. *)
Definition respond (st : list response * bool) (e : effect) : list response * bool :=
  match e with
  | EEnqueue ws => (st.1 ++ [Put ws], st.2)
  | EResync k => (st.1 ++ [if st.2 then Dropped k else Missed k], st.2)
  | ETimeout => (st.1, false)
  | EOverflow => (st.1, true)
  | _ => st
  end.
Definition told (effs : list effect) : list response * bool := foldl respond ([], false) effs.
Definition responses (effs : list effect) : list response := (told effs).1.
Lemma told_snoc effs e : told (effs ++ [e]) = respond (told effs) e.
Proof. unfold told. by rewrite foldl_snoc. Qed.

Section proofs.
Context (drv : driver) (w : world) `{ErrorBits} (h : handler) (num_dma_byte : Z).
(** The run is stopped before the thread's [stop]-th shared read, and the DMA
    buffer holds what the configuration asked for. *)
Context (stop : nat).
Hypothesis Hstop : ∀ t, w_running w t = bool_decide (t < stop)%nat.
Notation block_words := (N.to_nat (DMABUFFSIZE h / 4)).
Hypothesis Hblock : ∀ l, length (w_block w l) = block_words.
Hypothesis Hfits : (block_words ≤ N.to_nat DATABUFFSIZE)%nat.
(** The card as the thread finds it. *)
Context (p0 : pcie).
Notation rd := (st_err reader).
Notation dev := (dev_handle_2 p0).
Notation log_of := (log_from drv dev (bus p0)).

(** What is enqueued is a record of the queue's width; a block is dropped only when the
    queue had no room. *)
Definition effect_ok (e : effect) : Prop :=
  match e with
  | EEnqueue ws => length ws = N.to_nat DATABUFFSIZE
  | EOverflow => ∃ t, w_room w t = false
  | EStopWrite | EStopRunning => False
  | _ => True
  end.
(** The answer a transfer is due: a completed one is enqueued as it was in the DMA buffer,
    or dropped; a lost one is announced. *)
Definition answered (t : transfer) (r : response) : Prop :=
  match t, r with
  | Completed l, Put ws => take block_words ws = w_block w l
  | Completed _, Dropped _ | Lost, Missed _ => True
  | _, _ => False
  end.

(** Whether a transfer is on. *)
Inductive shape := Idle | Started | Found (complete : bool) | Whichever.
Definition fits (sh : shape) (o : option bool) : Prop :=
  match sh with Idle => o = None | Started => is_Some o | Found b => o = Some b | Whichever => True end.
(** [due]: the transfer that is over and not answered. *)
Record Inv (owed : bool) (due : list transfer) (sh : shape) (s : reader) : Prop := {
  inv_protocol : protocol (effects s) = Some (blocks_enqueued s, owed);
  inv_effects : Forall effect_ok (effects s);
  inv_width : length (word_arr s) = N.to_nat DATABUFFSIZE;
  inv_kind : owed = true → (told (effects s)).2 = false;
  inv_card : dev_handle_2 (card s) = dev;
  inv_log : ∃ ops past, bus (card s) = bus p0 ++ ops ∧ closed (log_of ops) = past ++ due ∧
    Forall2 answered past (responses (effects s)) ∧ fits sh (open (log_of ops))
}.
Definition Loop (s : reader) : Prop :=
  Inv false [] Idle s ∨ (stop ≤ tick s)%nat ∧ ∃ owed, Inv owed [] Whichever s.

Notation ends := (Threads.ends tick).
Notation Bystander := (Bystander dev).

(** Assertions that code beside the transfers keeps. *)
Class Stable (P : reader → Prop) := stable : ∀ s p, P s → near dev (card s) p → P (s <| card := p |>).
Lemma Inv_near o due sh sh' s p :
  Inv o due sh s → near dev (card s) p →
  (∀ a b, fits sh a → (is_Some b ↔ is_Some a) → fits sh' b) → Inv o due sh' (s <| card := p |>).
Proof.
  intros [] [Hh (ops' & Hb & Hn)] Hsh. destruct inv_log0 as (ops & past & Hbus & Hc & Ha & Hf).
  split; try done; [cbn; congruence|]. destruct (log_neutral drv dev (bus p0) ops ops' Hn) as [Hc' Ho'].
  exists (ops ++ ops'), past. split; [cbn; by rewrite Hb, Hbus, app_assoc|]. rewrite Hc'. split; [done|]. split; [done|].
  by eapply Hsh.
Qed.
Definition steady_shape (sh : shape) : bool := match sh with Found _ => false | _ => true end.
Lemma Inv_stable o due sh : steady_shape sh = true → Stable (Inv o due sh).
Proof.
  intros Hsh s p Hs Hn. eapply Inv_near; [done|done|]. intros a b Ha Hab. destruct sh; cbn in *; try done.
  - subst a. destruct b; [|done]. destruct Hab as [Hab _]. by destruct Hab.
  - by apply Hab.
Qed.
#[local] Instance Idle_stable o due : Stable (Inv o due Idle).
Proof. by apply Inv_stable. Qed.
#[local] Instance Started_stable o due : Stable (Inv o due Started).
Proof. by apply Inv_stable. Qed.
#[local] Instance Whichever_stable o due : Stable (Inv o due Whichever).
Proof. by apply Inv_stable. Qed.
Lemma Inv_weaken o due sh s : Inv o due sh s → Inv o due Whichever s.
Proof. intros []. split; try done. destruct inv_log0 as (ops & past & ? & ? & ? & _). by exists ops, past. Qed.

Lemma ends_bus {A} (c : st pcie A) P : Bystander c → Stable P → ends (on_bus c) P (λ _, P).
Proof.
  intros Hc HP s Hs. unfold on_bus. pose proof (Hc (card s)) as Hn. destruct (c (card s)) as [p a].
  eexists _, _. split; [done|]. split; [done|]. by apply HP.
Qed.
Lemma ends_write_reg off data P :
  off ≠ cs_dma_cntrl → Stable P → ends (write_reg drv off data) P (λ _, P).
Proof.
  intros Hoff HP. apply (ends_bind _ _ _ (λ _, P)); [|intros ?; apply ends_pure]. apply ends_bus; [|done].
  unfold WriteReg32, call_status. apply by_bind; [unfold GetDeviceHandle; bystand|intros d].
  apply by_bind; [|intros ?; bystand]. apply by_bind; [|intros ?; bystand]. apply by_call. split; [|discriminate].
  unfold starts_dma. rewrite (proj2 (Z.eqb_neq off cs_dma_cntrl)) by done. by rewrite andb_false_r.
Qed.

(** The three operations of a transfer. *)
Lemma push_log o due due' sh sh' s op :
  Inv o due sh s →
  (∀ ops past, bus (card s) = bus p0 ++ ops → closed (log_of ops) = past ++ due → fits sh (open (log_of ops)) →
     closed (log_of (ops ++ [op])) = past ++ due' ∧ fits sh' (open (log_of (ops ++ [op])))) →
  Inv o due' sh' (s <| card := push [op] (card s) |>).
Proof.
  intros [] Hop. destruct inv_log0 as (ops & past & Hbus & Hc & Ha & Hf). split; try done.
  destruct (Hop ops past Hbus Hc Hf) as [Hc' Hf']. exists (ops ++ [op]), past. split_and!; try done.
  cbn. by rewrite Hbus, app_assoc.
Qed.
Lemma ends_start data :
  data = dma_tr12 + dma_3dw_rec ∨ data = dma_tr12 + dma_4dw_rec →
  ends (write_reg drv cs_dma_cntrl data) (Inv false [] Idle) (λ _, Inv false [] Started).
Proof.
  intros Hdata s Hs. eexists _, (). split; [reflexivity|]. split; [done|].
  apply (push_log _ [] [] Idle); [done|]. intros ops past _ Hc Hf. rewrite log_from_snoc. unfold log_step.
  match goal with |- context [starts_dma dev ?op] => assert (starts_dma dev op = true) as -> end.
  { cbn. rewrite (inv_card _ _ _ _ Hs). destruct Hdata as [-> | ->]; cbn; by rewrite bool_decide_true. }
  cbn in Hf. rewrite Hf, Hc, !app_nil_r. split; [done|]. by eexists.
Qed.
Lemma ends_look_dma o due :
  ends (on_bus (ReadReg32 drv kDev2 cs_bar cs_dma_cntrl)) (Inv o due Started)
    (λ data, Inv o due (Found (Z.land data dma_in_progress =? 0))).
Proof.
  intros s Hs. eexists _, _. split; [reflexivity|]. split; [done|]. cbn [kDev2].
  apply (push_log _ due due Started); [done|]. intros ops past Hbus Hc [b Hf]. rewrite log_from_snoc. unfold log_step.
  match goal with |- context [looks_at_dma dev ?op] => assert (looks_at_dma dev op = true) as -> end.
  { cbn. rewrite (inv_card _ _ _ _ Hs). cbn. by rewrite bool_decide_true. }
  cbn -[Z.land drv_value]. rewrite Hf. split; [done|]. cbn -[Z.land]. by rewrite log_from_seen, <-Hbus.
Qed.
Definition over (complete : bool) (s : reader) : transfer := if complete then Completed (bus (card s)) else Lost.
Lemma ends_sync o complete :
  ends (on_bus (DmaSyncIo drv dma_num)) (Inv o [] (Found complete)) (λ _ s, Inv o [over complete s] Idle s).
Proof.
  intros s Hs. eexists _, _. split; [reflexivity|]. split; [done|].
  apply (push_log _ [] [_] (Found complete)); [done|]. intros ops past Hbus Hc Hf. rewrite log_from_snoc. unfold log_step.
  cbn in Hf |- *. rewrite Hf, Hc, app_nil_r. split; [|done]. cbn. unfold over. cbn. by rewrite log_from_seen, <-Hbus.
Qed.
(** The look at the bytes that remain, after one at the register. *)
Lemma ends_remain o complete :
  ends (on_bus (ReadReg64 drv kDev2 cs_bar cs_dma_by_cnt)) (Inv o [] (Found complete)) (λ _, Inv o [] (Found complete)).
Proof.
  intros s Hs. eexists _, _. split; [reflexivity|]. split; [done|].
  apply (push_log _ [] [] (Found complete)); [done|]. intros ops past Hbus Hc Hf. rewrite log_from_snoc. unfold log_step.
  cbn in Hf |- *. by rewrite Hf, Hc.
Qed.

(** A store that answers no transfer. *)
Definition answers (e : effect) : bool := match e with EEnqueue _ | EResync _ => true | _ => false end.
Lemma Inv_emit o o' e due sh s :
  Inv o due sh s → effect_ok e → answers e = false → e ≠ EOverflow →
  protocol_step (blocks_enqueued s, o) e = Some (blocks_enqueued s, o') → (e = ETimeout ∨ o' = o) →
  Inv o' due sh (s <| effects ::= λ l, l ++ [e] |>).
Proof.
  intros [] Hok Ha Hno Hstep Ho. split; cbn; try done.
  - rewrite protocol_snoc, inv_protocol0. exact Hstep.
  - apply Forall_app. split; [done|by constructor].
  - rewrite told_snoc. intros ->. destruct e; cbn in *; try done; naive_solver.
  - destruct inv_log0 as (ops & past & Hb & Hc & Hr & Hf). exists ops, past. split_and!; try done.
    unfold responses. rewrite told_snoc. by destruct e.
Qed.
Lemma ends_emit o o' e due sh :
  effect_ok e → answers e = false → e ≠ EOverflow → (∀ n, protocol_step (n, o) e = Some (n, o')) →
  (e = ETimeout ∨ o' = o) → ends (emit e) (Inv o due sh) (λ _, Inv o' due sh).
Proof. intros ????? s Hs. eexists _, _. split; [done|]. split; [done|]. by eapply Inv_emit. Qed.
(** The answer that is due. *)
Lemma Inv_answer o o' t r e n s :
  Inv o [t] Idle s → effect_ok e → protocol_step (blocks_enqueued s, o) e = Some (n, o') →
  respond (told (effects s)) e = (responses (effects s) ++ [r], (told (effects s)).2) → answered t r → o' = false →
  Inv o' [] Idle (s <| effects ::= λ l, l ++ [e] |> <| blocks_enqueued := n |>).
Proof.
  intros [] Hok Hstep Hr Ha ->. split; cbn; try done.
  - by rewrite protocol_snoc, inv_protocol0.
  - apply Forall_app. split; [done|by constructor].
  - destruct inv_log0 as (ops & past & Hb & Hc & Hpast & Hf). exists ops, (past ++ [t]).
    rewrite app_nil_r. split_and!; try done. unfold responses at 1. rewrite told_snoc, Hr.
    apply Forall2_app; [done|]. by repeat constructor.
Qed.

Lemma look_running o due sh s :
  Inv o due sh s → ∃ s' b, look w w_running s = (s', Some b) ∧ tick s' = S (tick s) ∧ Inv o due sh s' ∧
    b = bool_decide (tick s < stop)%nat.
Proof. intros []. eexists _, _. split; [done|]. split; [done|]. split; [by split|]. apply Hstop. Qed.

(** The wait: the transfer was found complete, or timed out, or the run was stopped. *)
Definition waited (found : bool) (s : reader) : Prop :=
  if found then Inv false [] (Found true) s
  else Inv true [] (Found false) s ∨ (stop ≤ tick s)%nat ∧ Inv false [] Started s.
Lemma ends_wait_loop deadline fuel :
  ends (wait_loop drv w deadline fuel) (λ s, Inv false [] Started s ∧ 0 < fuel ∧ stop < tick s + fuel)%nat waited.
Proof.
  induction fuel as [|fuel IH]; intros s (Hs & Hpos & Hfuel); [lia|]. cbn [wait_loop].
  destruct (look_running _ _ _ s Hs) as (s1 & b & Hrun & Ht & Hs1 & ->).
  unfold st_bind at 1. rewrite Hrun. case_bool_decide as Hlt; cbn [negb].
  2: { exists s1, false. split; [done|]. split; [lia|]. right. split; [lia|done]. }
  destruct (ends_look_dma false [] s1 Hs1) as (s2 & data & Hbus & Ht2 & Hs2).
  unfold st_bind at 1. rewrite Hbus. destruct (Z.land data dma_in_progress =? 0).
  { exists s2, true. split; [done|]. split; [lia|done]. }
  unfold st_bind at 1. cbn [look]. set (s3 := s2 <| tick ::= S |>).
  assert (Inv false [] (Found false) s3) as Hs3 by (by destruct Hs2; split). case_match.
  - eexists _, false. split; [done|]. split; [cbn; lia|]. left. by eapply Inv_emit; [exact Hs3|..|left].
  - destruct (IH s3) as (s4 & b & Hloop & Ht4 & Hb).
    { split; [|unfold s3; cbn [tick update_field]; lia]. destruct Hs3. split; try done.
      destruct inv_log0 as (ops & past & Hb & Hc & Hr & Hf). exists ops, past. split_and!; try done. by eexists. }
    exists s4, b. rewrite Hloop. split; [done|]. split; [|done]. unfold s3 in Ht4. cbn in Ht4. lia.
Qed.
Lemma ends_WaitForDma fuel :
  (stop < fuel)%nat → ends (WaitForDma drv w h fuel) (Inv false [] Started) waited.
Proof.
  intros Hfuel s Hs. unfold WaitForDma, st_bind. cbn [look].
  destruct (ends_wait_loop (w_now w (tick s) + Z.of_N (dma_abort_wait_ms h)) fuel (s <| tick ::= S |>))
    as (s' & b & Heq & Ht & Hb).
  { split; [by destruct Hs; split|]. cbn. lia. }
  exists s', b. rewrite Heq. split; [done|]. split; [|done]. cbn in Ht. lia.
Qed.

(** Straight-line code on the cards, beside the transfers. *)
Ltac on_card :=
  repeat lazymatch goal with
  | |- ends (st_bind (write_reg _ cs_dma_cntrl _) _) _ _ => fail
  | |- ends (st_bind (write_reg _ _ _) _) _ _ => eapply ends_bind; [apply ends_write_reg; [discriminate|exact _]|intros ?; cbv beta]
  | |- ends (st_bind (on_bus _) _) _ _ => eapply ends_bind; [apply ends_bus; [bystand|exact _]|intros ?; cbv beta]
  | |- ends (write_reg _ _ _) _ _ => apply ends_write_reg; [discriminate|exact _]
  | |- ends (on_bus _) _ _ => apply ends_bus; [bystand|exact _]
  | |- ends (st_ret _) _ _ => apply ends_pure
  end.
Lemma ends_clear P : Stable P → ends (ClearDmaOnAbort drv) P (λ _, P).
Proof. intros HP. unfold ClearDmaOnAbort. on_card. Qed.

Lemma ends_arm P off :
  Stable P → off ≠ cs_dma_cntrl → ends (arm_receiver drv num_dma_byte off) P (λ _, P).
Proof.
  intros HP Hoff. unfold arm_receiver. eapply (ends_bind _ _ _ (λ _, P)); [intros s Hs; by eexists _, _|].
  intros first. eapply (ends_bind _ _ _ (λ _, P)); [|intros ?; by apply ends_write_reg].
  destruct first; [by apply ends_write_reg|apply ends_pure].
Qed.
Lemma ends_modify f P Q : (∀ s, P s → tick (f s) = tick s ∧ Q (f s)) → ends (st_modify f) P (λ _, Q).
Proof. intros Hf s Hs. destruct (Hf s Hs) as [Ht HQ]. eexists _, (). split; [done|]. split; [lia|done]. Qed.
Lemma ends_start_dma : ends (start_dma drv num_dma_byte) (Inv false [] Idle) (λ _, Inv false [] Started).
Proof.
  unfold start_dma. do 2 (eapply ends_bind; [apply ends_arm; [exact _|discriminate]|intros ?; cbv beta]).
  eapply ends_bind; [apply (ends_modify _ _ (Inv false [] Idle)); intros s Hs; split; [done|by destruct Hs; split]|].
  intros ?; cbv beta. on_card. apply ends_start. case_match; auto.
Qed.
Lemma ends_send_trigger o due sh iv :
  steady_shape sh = true → ends (send_trigger drv h iv) (Inv o due sh) (λ _, Inv o due sh).
Proof.
  intros Hsh. pose proof (Inv_stable o due sh Hsh) as HP. unfold send_trigger.
  destruct (decide _); [|destruct (software_trig h)]; on_card.
Qed.

(** The announcement of a transfer that is lost. *)
Lemma ends_announce o :
  ends (st_bind (λ s, (s, Some (blocks_enqueued s))) (λ k, emit (EResync k)))
    (λ s, Inv o [Lost] Idle s ∧ (told (effects s)).2 = false) (λ _, Inv false [] Idle).
Proof.
  intros s [Hs Hk]. eexists _, (). split; [done|]. split; [done|].
  apply (Inv_answer o false Lost (Missed (blocks_enqueued s)) (EResync (blocks_enqueued s)) (blocks_enqueued s) s);
    try done; cbn; [by rewrite decide_True|by rewrite Hk].
Qed.
Lemma ends_recover : ends (recover_dma drv) (Inv true [] (Found false)) (λ _, Inv false [] Idle).
Proof.
  unfold recover_dma. eapply ends_bind; [apply ends_remain|intros ?; cbv beta].
  eapply ends_bind; [apply (ends_emit _ true); try done; by left|intros ?; cbv beta].
  eapply (ends_bind _ _ _ (λ _, Inv true [Lost] Idle)); [apply (ends_sync true false)|intros ?; cbv beta].
  eapply ends_bind; [apply ends_clear, _|intros ?; cbv beta]. on_card.
  eapply ends_bind; [|intros ?; apply (ends_announce true)].
  apply ends_modify. intros s Hs. split; [done|]. split; [by destruct Hs; split|]. by apply (inv_kind _ _ _ _ Hs).
Qed.

Lemma copy_block_spec l arr :
  length arr = N.to_nat DATABUFFSIZE →
  length (copy_block h (w_block w l) arr) = N.to_nat DATABUFFSIZE ∧
  take block_words (copy_block h (w_block w l) arr) = w_block w l.
Proof.
  intros Harr. unfold copy_block. rewrite (take_ge (w_block w l)) by (rewrite Hblock; done).
  rewrite length_app, Hblock, length_drop, Harr. split; [lia|]. apply take_app_length'. by rewrite Hblock.
Qed.
Lemma ends_enqueue :
  ends (enqueue_block w h) (λ s, Inv false [Completed (bus (card s))] Idle s) (λ _, Inv false [] Idle).
Proof.
  intros s Hs. unfold enqueue_block, st_bind, on_bus, st_read, look, st_modify. cbv zeta.
  destruct (copy_block_spec (bus (card s)) (word_arr s) (inv_width _ _ _ _ Hs)) as [Hlen Htake].
  change (bus (card (s <| card := card s |>))) with (bus (card s)).
  set (s1 := (_ <| word_arr ::= _ |>) <| tick ::= S |>).
  assert (Inv false [Completed (bus (card s))] Idle s1 ∧ word_arr s1 = copy_block h (w_block w (bus (card s))) (word_arr s)
    ∧ effects s1 = effects s) as (Hs1 & Harr & He) by (by destruct Hs; split_and!; [split|..]).
  destruct (w_room w (tick _)) eqn:Hroom.
  - eexists _, (). split; [done|]. split; [cbn; lia|].
    apply (Inv_answer false false (Completed (bus (card s))) (Put (word_arr s1)) (EEnqueue (word_arr s1))
      (N.succ (blocks_enqueued s1)) s1); try done; cbn [effect_ok answered]; by rewrite Harr.
  - set (s2 := s1 <| effects ::= λ l, l ++ [EOverflow] |>).
    eexists _, (). split; [reflexivity|]. split; [cbn; lia|].
    destruct Hs1 as [Hp Hf Hw Hk Hc Hl]. split; cbn; try done.
    + rewrite !protocol_snoc. change (protocol (effects s)) with (protocol (effects s1)). rewrite Hp. cbn. by rewrite decide_True.
    + rewrite !Forall_app, !Forall_singleton. split; [|done]. split; [exact Hf|by eexists].
    + destruct Hl as (ops & past & Hb & Hc' & Hr & Ho). exists ops, (past ++ [Completed (bus (card s))]).
      rewrite app_nil_r. split_and!; try done. unfold responses. rewrite !told_snoc. cbn.
      apply Forall2_app; [exact Hr|]. by repeat constructor.
Qed.

(** A pass that goes on leaves every transfer answered; one that does not was stopped. *)
Definition passed (go_on : bool) (s : reader) : Prop := if go_on then Inv false [] Idle s else Loop s.
Lemma ends_dma_pass fuel iv :
  (stop < fuel)%nat → ends (dma_pass drv w h num_dma_byte fuel iv) (Inv false [] Idle) passed.
Proof.
  intros Hfuel. unfold dma_pass. on_card. eapply ends_bind; [apply ends_start_dma|intros ?; cbv beta].
  eapply ends_bind; [by apply ends_send_trigger|intros ?; cbv beta].
  eapply ends_bind; [by apply ends_WaitForDma|]. intros [|]; cbn [negb].
  - eapply ends_bind; [apply ends_sync|intros ?; cbv beta]. unfold over.
    eapply ends_bind; [apply ends_enqueue|intros ?; cbv beta]. apply (ends_ret true passed).
  - intros s Hs. assert (∃ o sh, Inv o [] sh s ∧ (tick s < stop → o = true ∧ sh = Found false)%nat) as (o & sh & Hi & Hrun)
      by (destruct Hs as [Hs|[Ht Hs]]; eexists _, _; (split; [exact Hs|]); [done|lia]).
    destruct (look_running o [] sh s Hi) as (s1 & b & Hl & Ht & Hs1 & ->).
    unfold st_bind at 1. rewrite Hl. case_bool_decide as Hlt; cbn [negb].
    + destruct (Hrun Hlt) as [-> ->]. destruct (ends_recover s1 Hs1) as (s2 & [] & Heq & Ht2 & Hs2).
      exists s2, true. unfold st_bind. rewrite Heq. split; [done|]. split; [lia|done].
    + destruct (ends_clear _ (Whichever_stable o []) s1 (Inv_weaken _ _ _ _ Hs1)) as (s2 & [] & Heq & Ht2 & Hs2).
      exists s2, false. unfold st_bind. rewrite Heq. split; [done|]. split; [lia|].
      right. split; [lia|by exists o].
Qed.

Lemma Loop_emit_loops s n :
  Loop s → Loop (s <| loops ::= n |> <| effects ::= λ l, l ++ [ELoops (loops (s <| loops ::= n |>))] |>).
Proof.
  assert (∀ o sh, Inv o [] sh s →
    Inv o [] sh (s <| loops ::= n |> <| effects ::= λ l, l ++ [ELoops (loops (s <| loops ::= n |>))] |>)) as Hi.
  { intros o sh Hs. apply (Inv_emit o o); try done; [by destruct Hs; split|by right]. }
  intros [Hs|(Ht & o & Hs)]; [left; by apply Hi|]. right. split; [done|]. exists o. by apply Hi.
Qed.
Lemma ends_dma_loop fuel :
  (stop < fuel)%nat → ends (dma_loop drv w h num_dma_byte fuel) (Inv false [] Idle) (λ _, Loop).
Proof.
  intros Hfuel s Hs. unfold dma_loop.
  destruct (ends_dma_pass fuel 0 Hfuel s Hs) as (s1 & go_on & Heq & Ht & Hs1).
  unfold st_bind at 1. rewrite Heq.
  assert (∃ s2, (if go_on then dma_pass drv w h num_dma_byte fuel 1 ;;~ st_ret () else st_ret ()) s1 =
    (s2, Some ()) ∧ (tick s1 ≤ tick s2)%nat ∧ Loop s2) as (s2 & Heq2 & Ht2 & Hs2).
  { destruct go_on; [|by exists s1].
    destruct (ends_dma_pass fuel 1 Hfuel s1 Hs1) as (s2 & go_on & Heq2 & Ht2 & Hs2).
    exists s2. unfold st_bind. rewrite Heq2. split; [done|]. split; [done|].
    destruct go_on; [by left|done]. }
  unfold st_bind at 1. rewrite Heq2. eexists _, (). split; [done|].
  split; [cbn; lia|]. by apply Loop_emit_loops.
Qed.
Lemma ends_run_loop wait_fuel fuel :
  (stop < wait_fuel)%nat →
  ends (run_loop drv w h num_dma_byte wait_fuel fuel)
    (λ s, Loop s ∧ 0 < fuel ∧ stop < tick s + fuel)%nat (λ _, Loop).
Proof.
  intros Hwait. induction fuel as [|fuel IH]; intros s (Hs & Hpos & Hfuel); [lia|]. cbn [run_loop].
  assert (∃ o sh, Inv o [] sh s ∧ (tick s < stop → o = false ∧ sh = Idle)%nat) as (o & sh & Hi & Hrun)
    by (destruct Hs as [Hs|(Ht & o & Hs)]; eexists _, _; (split; [exact Hs|]); [done|lia]).
  destruct (look_running o [] sh s Hi) as (s1 & b & Hl & Ht & Hs1 & ->).
  unfold st_bind at 1. rewrite Hl. case_bool_decide as Hlt; cbn [negb].
  2: { exists s1, (). split; [done|]. split; [lia|]. right. split; [lia|]. exists o. by eapply Inv_weaken. }
  destruct (Hrun Hlt) as [-> ->].
  unfold st_bind at 1. cbn [look]. set (s2 := s1 <| tick ::= S |>).
  assert (Inv false [] Idle s2) as Hs2 by (by destruct Hs1; split). case_match.
  - destruct (ends_dma_loop wait_fuel Hwait s2 Hs2) as (s3 & [] & Heq & Ht3 & Hs3).
    unfold st_bind at 1. rewrite Heq. unfold s2 in Ht3. cbn in Ht3.
    destruct (IH s3) as (s4 & [] & Heq4 & Ht4 & Hs4).
    { split; [done|]. lia. }
    exists s4, (). rewrite Heq4. split; [done|]. split; [lia|done].
  - exists s2, (). split; [done|]. unfold s2. split; [cbn; lia|]. by left.
Qed.

Lemma ends_set_recv P : Stable P → ends (SetRecvBuffer drv h) P (λ _, P).
Proof.
  intros HP. unfold SetRecvBuffer. on_card. case_match; on_card. case_match; on_card.
Qed.
(** What the thread stores last: the end of a run, or the failed start of one. *)
Definition end_effects (l : list effect) : Prop :=
  ∃ a b, l = a ++ [EStopWrite] ++ b ∧ a = (if software_trig h then [EStopTrigger] else []) ∧
    (b = [] ∨ b = [EFreeError]).
Definition failed_start : list effect :=
  [ELockFailed; EStopRunning; EStopWrite; ERunError err_acquire_pcie_dma_buff].

Lemma near_trans p q r : near dev p q → near dev q r → near dev p r.
Proof.
  intros [H1 (a & B1 & N1)] [H2 (b & B2 & N2)]. split; [congruence|]. exists (a ++ b).
  rewrite B2, B1, app_assoc. split; [done|]. by apply Forall_app.
Qed.
Lemma free_bystander : Bystander (FreeDmaContigBuffers drv).
Proof. bystand. Qed.
Lemma stop_bystander : Bystander (SendStopTrigger drv (software_trig h) (ext_trig h) (trigger_module h)).
Proof. bystand. Qed.
Lemma end_run_effects s :
  ∃ s' tail, end_run drv h s = (s', Some ()) ∧ effects s' = effects s ++ tail ∧
    blocks_enqueued s' = blocks_enqueued s ∧ end_effects tail ∧ near dev (card s) (card s').
Proof.
  unfold end_run, end_effects, st_bind, on_bus.
  pose proof (stop_bystander (card s)) as Htrig.
  assert (∃ start, (if software_trig h then emit EStopTrigger else st_ret ()) s = (s <| effects ::= λ l, l ++ start |>, Some ())
    ∧ start = if software_trig h then [EStopTrigger] else []) as (start & -> & Hstart).
  { destruct (software_trig h); eexists; (split; [|reflexivity]); [done|]. cbn. rewrite app_nil_r. by destruct s. }
  cbn [card update_field]. change (card (s <| effects ::= λ l, l ++ start |>)) with (card s).
  destruct (SendStopTrigger drv _ _ _ (card s)) as [q1 x1]. cbn [fst] in Htrig. cbn [emit st_modify].
  pose proof (free_bystander q1) as Hfree. set (s1 := _ <| effects ::= _ |>).
  change (card s1) with q1. destruct (FreeDmaContigBuffers drv q1) as [q2 freed]. cbn [fst] in Hfree.
  pose proof (near_trans _ _ _ Htrig Hfree) as Hnear.
  destruct freed; cbn [negb]; eexists _, _; (split; [reflexivity|]);
    (split; [cbn; rewrite <-!app_assoc; reflexivity|]); (split; [done|]); (split; [|done]).
  - exists start, []. by rewrite Hstart; auto.
  - exists start, [EFreeError]. by rewrite Hstart; auto.
Qed.

Lemma ReadoutDMARead_run fuel :
  (stop < fuel)%nat →
  ∃ s body tail n owed ops,
    ReadoutDMARead drv w h num_dma_byte fuel (new_reader p0) = (s, Some ()) ∧
    effects s = body ++ tail ∧ bus (card s) = bus p0 ++ ops ∧
    protocol body = Some (n, owed) ∧ n = blocks_enqueued s ∧ Forall effect_ok body ∧
    Forall2 answered (transfers drv dev (bus p0) ops) (responses body) ∧
    (end_effects tail ∨ body = [ELoops 0] ∧ tail = failed_start).
Proof.
  intros Hfuel. unfold ReadoutDMARead. unfold st_bind at 1, emit at 1, st_modify at 1.
  set (s0 := (new_reader p0) <| effects ::= _ |>).
  assert (Inv false [] Idle s0) as Hs0.
  { split; [done|by repeat constructor|apply length_replicate|done|done|]. exists [], [].
    split; [by rewrite app_nil_r|]. by repeat constructor. }
  set (P := λ s, Inv false [] Idle s ∧ effects s = [ELoops 0]).
  assert (Stable P) as HP.
  { intros s p [Hs He] Hn. split; [by apply Idle_stable|done]. }
  destruct (ends_set_recv P HP s0 (conj Hs0 eq_refl)) as (s1 & locked & Heq & Ht & Hs1 & Heff).
  unfold st_bind at 1. rewrite Heq.
  assert (∀ s q, (∃ sh o, Inv o [] sh s) → near dev (card s) q →
    ∃ ops, bus q = bus p0 ++ ops ∧ Forall2 answered (transfers drv dev (bus p0) ops) (responses (effects s))) as Hall.
  { intros s q (sh & o & Hs) Hn. destruct (Whichever_stable o [] s q (Inv_weaken _ _ _ _ Hs) Hn) as [_ _ _ _ _ Hl].
    destruct Hl as (ops & past & Hb & Hc & Hr & _). exists ops. split; [done|]. unfold transfers.
    by rewrite Hc, app_nil_r. }
  destruct locked; cbn [negb].
  - set (start := if software_trig h then emit EStartTrigger else st_ret ()).
    assert (∃ s2, start s1 = (s2, Some ()) ∧ Inv false [] Idle s2) as (s2 & Heq2 & Hs2).
    { unfold start. destruct (software_trig h); [|by exists s1]. eexists. split; [done|].
      apply (Inv_emit false false); try done. by right. }
    unfold st_bind at 1. rewrite Heq2.
    destruct (ends_run_loop fuel fuel Hfuel s2) as (s3 & [] & Heq3 & Ht3 & Hs3).
    { split; [by left|]. lia. }
    unfold st_bind at 1. rewrite Heq3.
    assert (∃ sh o, Inv o [] sh s3) as Hi by (destruct Hs3 as [?|(_ & o & ?)]; eauto).
    destruct (end_run_effects s3) as (s4 & tail & Heq4 & Heff4 & Hn4 & Htail & Hnear).
    destruct (Hall s3 (card s4) Hi Hnear) as (ops & Hb & Hans). destruct Hi as (sh & o & []).
    exists s4, (effects s3), tail, (blocks_enqueued s3), o, ops. rewrite Heq4. split_and!; try done. by left.
  - unfold abort_start, st_bind, on_bus. cbn [emit st_modify].
    set (s2 := _ <| effects ::= _ |>). pose proof (free_bystander (card s2)) as Hfree.
    destruct (FreeDmaContigBuffers drv (card s2)) as [p5 freed].
    destruct (Hall s1 p5) as (ops & Hb & Hans); [eauto|exact Hfree|].
    destruct Hs1. eexists _, (effects s1), failed_start, (blocks_enqueued s1), false, ops.
    split; [reflexivity|]. split; [cbn; by rewrite <-!app_assoc|]. split_and!; try done. right. split; [exact Heff|done].
Qed.
(** What the thread stores once its loop is over says nothing of blocks. *)
Lemma protocol_app a b : protocol (a ++ b) = foldl (λ o e, o ≫= λ st, protocol_step st e) (protocol a) b.
Proof. unfold protocol. by rewrite foldl_app. Qed.
Lemma end_protocol body tail st :
  protocol body = Some st → end_effects tail ∨ tail = failed_start →
  protocol (body ++ tail) = Some st ∧ responses (body ++ tail) = responses body ∧ EStopWrite ∈ tail.
Proof.
  intros Hp Ht. rewrite protocol_app, Hp. unfold responses, told. rewrite foldl_app.
  destruct Ht as [(a & b & -> & -> & [->| ->])| ->]; [destruct (software_trig h)..|]; (split; [done|]); (split; [done|]); set_solver.
Qed.

(** All the effects of a stopped run, in one line of the protocol. *)
Lemma ReadoutDMARead_stores fuel :
  (stop < fuel)%nat →
  ∃ s st ops, ReadoutDMARead drv w h num_dma_byte fuel (new_reader p0) = (s, Some ()) ∧
    protocol (effects s) = Some st ∧ EStopWrite ∈ effects s ∧ bus (card s) = bus p0 ++ ops ∧
    Forall2 answered (transfers drv dev (bus p0) ops) (responses (effects s)).
Proof.
  intros Hfuel. destruct (ReadoutDMARead_run fuel Hfuel)
    as (s & body & tail & n & owed & ops & Hr & He & Hb & Hp & _ & _ & Hans & Ht).
  exists s, (n, owed), ops. rewrite He. split; [done|].
  destruct (end_protocol body tail (n, owed) Hp) as (Hp' & Hr' & Hstopw); [naive_solver|].
  split; [done|]. split; [apply elem_of_app; by right|]. split; [done|]. by rewrite Hr'.
Qed.

(** C3. A run of the read thread that is stopped always returns, whatever the
    cards answer and however the other threads are scheduled. Its bus shows the DMA
    transfers: each is started by a store of the command, and had completed if the last look
    at the card's register before the buffer was synced found it no longer in progress. The
    thread's stores answer them one by one and in order: a transfer that completed is
    enqueued, as the DMA buffer was then and in a record of the queue's width, or, only if the
    queue had no room, dropped and the gap announced; one that did not is announced and nothing
    of it enqueued; the only transfer left unanswered is one that was on when the run was
    stopped. Each announcement names the index of the next block to be enqueued, and after a
    timeout or a dropped block it comes before another block. The thread then stores
    [stop_write_] once; when the DMA buffers cannot be locked no transfer is made, nothing is
    enqueued and the run is stopped with the error code. *)
Theorem ReadoutDMARead_protocol fuel :
  (stop < fuel)%nat →
  ∃ s body tail n owed ops,
    ReadoutDMARead drv w h num_dma_byte fuel (new_reader p0) = (s, Some ()) ∧
    effects s = body ++ tail ∧ bus (card s) = bus p0 ++ ops ∧
    protocol body = Some (n, owed) ∧ n = blocks_enqueued s ∧ Forall effect_ok body ∧
    Forall2 answered (transfers drv dev (bus p0) ops) (responses body) ∧
    (end_effects tail ∨ body = [ELoops 0] ∧ tail = failed_start).
Proof. apply ReadoutDMARead_run. Qed.
End proofs.

(** ** A stopped run, evaluated *)
Definition demo_world : world := {|
  w_running := λ t, bool_decide (t < 40)%nat; w_events := λ _, 0%N; w_room := λ t, negb (bool_decide (t = 7))%nat;
  w_now := Z.of_nat; w_block := λ l, [Z.of_nat (length l); 7]
|}.
Definition demo_run : handler := new_handler <| DMABUFFSIZE := 8%N |> <| num_events := 5%N |>.

(** What the queue and the resynchronisation index see of a run on a card that
    answers: a dropped block, then the gap announced, then the next block. *)
Definition queue_view (e : effect) : option (list Z + N) :=
  match e with
  | EEnqueue ws => Some (inl (take 2 ws))
  | EResync k => Some (inr k)
  | _ => None
  end.
Definition demo_transfer (t : transfer) : option nat := match t with Completed l => Some (length l) | Lost => None end.
Example demo_run_view :
  let '(s, r) := @ReadoutDMARead demo_driver demo_world demo_error_bits demo_run 8 41 (new_reader new_pcie) in
  r = Some () ∧ take 4 (omap queue_view (effects s)) = [inl [28; 7]; inr 1%N; inl [58; 7]; inl [67; 7]]
  ∧ take 4 (demo_transfer <$> transfers demo_driver None [] (bus (card s))) = [Some 28; Some 37; Some 58; Some 67]%nat
  ∧ last (effects s) (ELoops 0) = EStopWrite.
Proof. vm_compute. auto. Qed.
(** The card's transfers never end: each is lost, announced, and nothing is enqueued. *)
Definition stuck_driver : driver := {|
  drv_status _ := 0; drv_open _ := None; drv_lock_addr _ := 0x1000; drv_recv_data _ := []; drv_user_continues _ := false;
  drv_value l := match last l LibInit with Read32 (Some _) _ _ => 0x80000000 | _ => 0 end
|}.
Example demo_stuck_view :
  let p := new_pcie <| dev_handle_2 := Some 2%nat |> in
  let h := demo_run <| dma_abort_wait_ms := 3%N |> in
  let '(s, r) := @ReadoutDMARead stuck_driver demo_world demo_error_bits h 8 41 (new_reader p) in
  r = Some () ∧ take 2 (transfers stuck_driver (Some 2%nat) [] (bus (card s))) = [Lost; Lost]
  ∧ take 2 (responses (effects s)) = [Missed 0; Missed 0].
Proof. vm_compute. by split_and!. Qed.

Lemma ReadoutDMARead_protocol_witness :
  ∃ s body tail n owed ops,
    @ReadoutDMARead demo_driver demo_world demo_error_bits demo_run 8 41 (new_reader new_pcie) = (s, Some ()) ∧
    effects s = body ++ tail ∧ bus (card s) = [] ++ ops ∧
    protocol body = Some (n, owed) ∧ n = blocks_enqueued s ∧ Forall (effect_ok demo_world) body ∧
    Forall2 (answered demo_world demo_run) (transfers demo_driver None [] ops) (responses body) ∧
    (end_effects demo_run tail ∨ body = [ELoops 0] ∧ tail = @failed_start demo_error_bits).
Proof.
  apply (@ReadoutDMARead_protocol demo_driver demo_world demo_error_bits demo_run 8 40).
  - intros t. reflexivity.
  - intros l. reflexivity.
  - assert (DMABUFFSIZE demo_run / 4 ≤ DATABUFFSIZE)%N by (vm_compute; discriminate). lia.
  - lia.
Defined.
