(* ===== verification/Pipeline.v ===== *)
(** * The data path of a run: [DataHandler::CollectData]
    (src/src/data/data_handler.cpp)

    [CollectData] starts the read thread and the write thread, which share the
    queue, [resync_at_block_] and [stop_write_]. This file runs the two together:
    the read thread as the stores it makes (the effects of DmaReadout), the write
    thread as EventBuilder has it, the queue access by access (SpscQueue). A
    schedule says whose turn it is; a turn is one access to what is shared. *)
From Stdlib Require Import Lia ZArith NArith.
From stdpp Require Import base tactics sets list numbers option.
From S2P Require Import Prelude EventBuilder Resync SpscQueue Config Pcie HwConsts TriggerControl DataHandler DmaReadout.
Local Open Scope Z_scope.

(** Where the write thread is. *)
Inductive wphase :=
  | WPrologue                          (** its locals are set, [resync_at_block_] is not *)
  | WOuter                             (** at [while (!stop_write_.load())] *)
  | WReading                           (** in [data_queue_.read(word_arr)] *)
  | WPopped (ws : list Z)              (** a block was read, the request is to be loaded *)
  | WClearing (k : N) (ws : list Z)    (** the request [k] is due and is to be cleared *)
  | WDone.

(** Whose turn it is; [Others]: a disk stop ([RequestDiskStop]) by another thread. *)
Inductive turn := ReadThread | WriteThread | Others.
#[export] Instance turn_eq_dec : EqDecision turn.
Proof. solve_decision. Defined.

Record state (D : Type) := State {
  todo : list effect;                      (** what the read thread has still to store *)
  data_queue : queue (list Z);
  q_producer : producer (list Z);
  q_consumer : consumer (list Z);
  resync_index : N;                        (** resync_at_block_ *)
  stop_flag : bool;                        (** stop_write_ *)
  phase : wphase;
  writer : wstate D;
  checked : list (option N * list Z);      (** ghost: the blocks processed, with the request loaded *)
  overtaken : bool                         (** ghost: a request was stored over one that counts *)
}.
Arguments State {D}. Arguments todo {D}. Arguments data_queue {D}. Arguments q_producer {D}.
Arguments q_consumer {D}. Arguments resync_index {D}. Arguments stop_flag {D}. Arguments phase {D}.
Arguments writer {D}. Arguments checked {D}. Arguments overtaken {D}.
#[export] Instance state_eta {D} : RecordEta (state D) := λ s,
  State (todo s) (data_queue s) (q_producer s) (q_consumer s) (resync_index s) (stop_flag s)
    (phase s) (writer s) (checked s) (overtaken s).

Section machine.
Context {D : Type} `{WriterEnv D}.
Context (bufsize chunk n : nat).
Implicit Types (s : state D) (d : D).

(** A request is stored over one that is not consumed yet, and names another
    block; or the write thread is about to store [kNoResync] over it. *)
Definition overtakes s (k : N) : bool :=
  match phase s with
  | WPrologue | WClearing _ _ => true
  | _ => negb (resync_index s =? kNoResync)%N && negb (resync_index s =? k)%N
  end.

(** A turn of the read thread: its next store. [data_queue_.write] takes three
    turns; one that found no room is a look at a queue that is full. *)
Definition read_turn s : option (state D) :=
  match todo s with
  | [] => None
  | EEnqueue ws :: es =>
      match q_producer s with
      | PIdle =>
          match write_check ws (data_queue s) with
          | PIdle => None
          | p => Some (s <| q_producer := p |>)
          end
      | PChecked _ _ _ as p =>
          let '(q, p) := write_construct p (data_queue s) in
          Some (s <| data_queue := q |> <| q_producer := p |>)
      | PConstructed _ _ as p =>
          let '(q, p) := write_publish p (data_queue s) in
          Some (s <| data_queue := q |> <| q_producer := p |> <| todo := es |>)
      end
  | EOverflow :: es =>
      match write_check [] (data_queue s) with
      | PIdle => Some (s <| todo := es |>)
      | _ => None
      end
  | EResync k :: es =>
      Some (s <| todo := es |> <| resync_index := k |> <| overtaken ::= orb (overtakes s k) |>)
  | EStopWrite :: es => Some (s <| todo := es |> <| stop_flag := true |>)
  | _ :: es => Some (s <| todo := es |>)
  end.

(** The block [ws], [k] being the request that was loaded. *)
Definition process (k : N) (ws : list Z) s : state D :=
  s <| writer ::= process_block bufsize chunk n (Some k, ws) |>
    <| checked ::= λ l, l ++ [(Some k, ws)] |> <| phase := WReading |>.

Definition write_turn s : option (state D) :=
  match phase s with
  | WPrologue => Some (s <| resync_index := kNoResync |> <| phase := WOuter |>)
  | WOuter =>
      if stop_flag s || env_stop_write (w_env (writer s))
      then Some (s <| writer ::= final_flush |> <| phase := WDone |>)
      else Some (s <| phase := WReading |>)
  | WReading =>
      match q_consumer s with
      | CIdle =>
          match read_check (data_queue s) with
          | CIdle => Some (s <| phase := WOuter |>)
          | c => Some (s <| q_consumer := c |>)
          end
      | CChecked _ _ as c =>
          let '(q, c) := read_take c (data_queue s) in
          Some (s <| data_queue := q |> <| q_consumer := c |>)
      | CTaken (Some ws) _ as c =>
          let '(q, c) := read_publish c (data_queue s) in
          Some (s <| data_queue := q |> <| q_consumer := c |> <| phase := WPopped ws |>)
      | CTaken None _ => None
      end
  | WPopped ws =>
      let k := resync_index s in
      if (k <=? blocks_read (writer s))%N then Some (s <| phase := WClearing k ws |>)
      else Some (process k ws s)
  | WClearing k ws => Some (process k ws (s <| resync_index := kNoResync |>))
  | WDone => None
  end.

Definition take_turn (t : turn) s : option (state D) :=
  match t with
  | ReadThread => read_turn s
  | WriteThread => write_turn s
  | Others => Some (s <| stop_flag := true |>)
  end.

(** A thread that cannot move lets its turn pass. *)
Definition pipeline (sched : list turn) s : state D :=
  foldl (λ s t, default s (take_turn t s)) s sched.

(** The threads are started on an empty queue; the index keeps the value of the
    run before, and the stop flag is down ([Reset], and the constructor). *)
Definition collect (effs : list effect) (q : queue (list Z)) (old : N) d : state D := {|
  todo := effs; data_queue := q; q_producer := PIdle; q_consumer := CIdle; resync_index := old;
  stop_flag := false; phase := WPrologue; writer := init_writer bufsize (open_first_file d);
  checked := []; overtaken := false
|}.
End machine.

(** What the queue and the resynchronisation see of the stores. *)
Definition actions_of (effs : list effect) : list action :=
  omap (λ e, match e with EEnqueue ws => Some (Enqueue ws) | EResync _ => Some Request | _ => None end) effs.
Definition blocks_of (effs : list effect) : list (list Z) :=
  omap (λ e, match e with EEnqueue ws => Some ws | _ => None end) effs.
Definition protocol_from (st : N * bool) (effs : list effect) : option (N * bool) :=
  foldl (λ o e, o ≫= λ st, protocol_step st e) (Some st) effs.

Lemma protocol_from_cons st e effs :
  is_Some (protocol_from st (e :: effs)) →
  ∃ st', protocol_step st e = Some st' ∧ is_Some (protocol_from st' effs).
Proof.
  unfold protocol_from. cbn. destruct (protocol_step st e) as [st'|]; [by exists st'|].
  intros [x Hx]. exfalso. by induction effs.
Qed.

(** ** The cuts *)
Section cuts.
Context {D : Type} `{WriterEnvLaws D}.
Context (bufsize chunk n width : nat).
(** The stores of the run, and the thread as it starts. *)
Context (effs : list effect) (w_init : wstate D) (log0 : list (list Z)).
Local Open Scope N_scope.
Implicit Types (q : list (list Z)) (ck : list (option N * list Z)) (es : list effect).

Notation after ck := (process_blocks bufsize chunk n ck w_init).

(** The value of the index and the cut that is pending, by where the thread is. *)
Definition index_ok (ph : wphase) (p : N) (pending : option N) (r : N) : Prop :=
  match ph with
  | WPrologue => pending = None
  | WClearing k _ => k = p ∧ pending = Some p
  | _ => r = default kNoResync pending
  end.

(** [q]: the blocks popped and not processed, then those in the queue. *)
Record cut_ok_at ck ph (r : N) es q cur evs pending (owed : bool) : Prop := CutOk {
  cut_sim : simulates bufsize chunk width log0 (after ck) cur evs;
  cut_read : blocks_read (after ck) = N.of_nat (length ck);
  cut_index : index_ok ph (N.of_nat (length ck)) pending r;
  cut_range k : pending = Some k → N.of_nat (length ck) ≤ k ≤ N.of_nat (length ck + length q);
  cut_protocol : is_Some (protocol_from (N.of_nat (length ck + length q), owed) es);
  cut_small : N.of_nat (length ck + length q + length es) < kNoResync;
  cut_events : intended n (actions_of effs) None =
    (evs ++ due (block_events n) q (N.of_nat (length ck)) pending (actions_of es) cur)%list;
  cut_fits : Forall (eq true) (due (block_fits width n) q (N.of_nat (length ck)) pending (actions_of es) cur)
}.
Definition cut_ok ck ph r es q : Prop := ∃ cur evs pending owed, cut_ok_at ck ph r es q cur evs pending owed.

Lemma cut_quiet ck ph r e es q :
  actions_of [e] = [] → (∀ x o, ∃ o', protocol_step (x, o) e = Some (x, o')) →
  cut_ok ck ph r (e :: es) q → cut_ok ck ph r es q.
Proof.
  intros Hact Hstep (cur & evs & pending & owed & []).
  apply protocol_from_cons in cut_protocol0 as ([x o] & Hst & Hp).
  destruct (Hstep (N.of_nat (length ck + length q)) owed) as [o' Hst']. simplify_eq.
  assert (actions_of (e :: es) = actions_of es) as E.
  { unfold actions_of in *. cbn in *. by case_match. }
  rewrite E in *. exists cur, evs, pending, o. split; try done. cbn [length] in *. lia.
Qed.

Lemma cut_publish ck ph r ws es q :
  cut_ok ck ph r (EEnqueue ws :: es) q → cut_ok ck ph r es (q ++ [ws]).
Proof.
  intros (cur & evs & pending & owed & []).
  apply protocol_from_cons in cut_protocol0 as ([x o] & Hst & Hp). cbn in Hst.
  destruct owed; [done|]. simplify_eq.
  exists cur, evs, pending, false. split; rewrite ?length_app; cbn [length] in *; try done.
  - intros k Hk. apply cut_range0 in Hk. lia.
  - by replace (N.of_nat (length ck + (length q + 1))) with (N.succ (N.of_nat (length ck + length q))) by lia.
  - lia.
  - rewrite due_enqueue; [exact cut_events0|]. intros k Hk. apply cut_range0 in Hk. lia.
  - rewrite due_enqueue; [exact cut_fits0|]. intros k Hk. apply cut_range0 in Hk. lia.
Qed.

Lemma cut_request ck ph r k es q :
  (∀ k ws, ph ≠ WClearing k ws) → ph ≠ WPrologue → r = kNoResync ∨ r = k →
  cut_ok ck ph r (EResync k :: es) q → cut_ok ck ph k es q.
Proof.
  intros Hph Hph' Hr (cur & evs & pending & owed & []).
  apply protocol_from_cons in cut_protocol0 as ([x o] & Hst & Hp). cbn in Hst.
  destruct (decide _) as [->|]; [|done]. simplify_eq. cbn [length] in *.
  assert (r = default kNoResync pending) as Hidx by (destruct ph; try done; naive_solver). subst r.
  replace (N.of_nat (length ck + length q)) with (N.of_nat (length ck) + N.of_nat (length q)) in * by lia.
  assert (pending = None ∨ pending = Some (N.of_nat (length ck) + N.of_nat (length q))) as Hpend.
  { destruct pending as [j|]; [right|by left]. f_equal. cbn in Hr.
    destruct (cut_range0 j eq_refl). destruct Hr; lia. }
  exists cur, evs, (Some (N.of_nat (length ck) + N.of_nat (length q))), false. split; try done.
  - destruct ph; try done. naive_solver.
  - intros j [= <-]. lia.
  - by rewrite Nat2N.inj_add.
  - lia.
  - rewrite (due_request _ _ _ pending); [exact cut_events0|done].
  - rewrite (due_request _ _ _ pending); [exact cut_fits0|done].
Qed.

(** Phases in which the index says what is pending. *)
Definition plain (ph : wphase) : Prop := match ph with WPrologue | WClearing _ _ => False | _ => True end.
Lemma cut_phase ck ph ph' r es q : plain ph → plain ph' → cut_ok ck ph r es q → cut_ok ck ph' r es q.
Proof.
  intros Hp Hp' (cur & evs & pending & owed & []). exists cur, evs, pending, owed.
  split; try done. destruct ph, ph'; done.
Qed.
Lemma cut_start ck r ph es q :
  plain ph → cut_ok ck WPrologue r es q → cut_ok ck ph kNoResync es q.
Proof.
  intros Hp (cur & evs & pending & owed & []). exists cur, evs, pending, owed.
  split; try done. cbn in cut_index0. subst. by destruct ph.
Qed.
Lemma cut_due ck ws r es q :
  r ≤ blocks_read (after ck) → cut_ok ck (WPopped ws) r es q → cut_ok ck (WClearing r ws) r es q.
Proof.
  intros Hr (cur & evs & pending & owed & []). exists cur, evs, pending, owed.
  split; try done. cbn in *. rewrite cut_read0 in Hr. destruct pending as [k|]; cbn in *; subst r; [|lia].
  destruct (cut_range0 k eq_refl). split; [lia|]. f_equal. lia.
Qed.

(** A block is processed with the request [k]: the cut is made when it is due. *)
Lemma due_process {E} (F : option (list Z) → list Z → option (list Z) * list E) ws q p pending acts cur :
  (∀ j, pending = Some j → p ≤ j) →
  due F (ws :: q) p pending acts cur =
    let cur := if decide (pending = Some p) then None else cur in
    ((F cur ws).2 ++ due F q (N.succ p) (if decide (pending = Some p) then None else pending) acts (F cur ws).1)%list.
Proof.
  intros Hp. cbn [due]. destruct (F _ ws) as [cur' out]. f_equal.
  destruct (decide (pending = Some p)) as [->|]; [|done]. apply due_past. lia.
Qed.

Lemma block_read_next k ws w :
  blocks_read (process_block bufsize chunk n (Some k, ws) w) = N.succ (blocks_read w).
Proof.
  unfold process_block. edestruct (process_words_resync bufsize chunk) as [-> _]. cbn.
  unfold resync_check. by repeat case_match.
Qed.

(** The buffer holds a chunk of the longest events. *)
Context (Hroom : (chunk * width ≤ bufsize)%nat) (Hchunk : (0 < chunk)%nat) (Hwidth : (0 < width)%nat).

Lemma sim_process k ws w cur evs :
  simulates bufsize chunk width log0 w cur evs →
  let cur0 := if (k <=? blocks_read w) then None else cur in
  Spec.fits width cur0 (take n ws) = true →
  simulates bufsize chunk width log0 (process_block bufsize chunk n (Some k, ws) w)
    (block_events n cur0 ws).1 (evs ++ (block_events n cur0 ws).2).
Proof.
  intros Hsim cur0 Hfit. pose proof (sim_blocks bufsize chunk n width Hroom Hchunk Hwidth log0
    [(Some k, ws)] w cur evs (block_events n cur0 ws).1 ((block_events n cur0 ws).2 ++ []) Hsim) as Hs.
  rewrite app_nil_r in Hs. apply Hs; cbn.
  - unfold Spec.cut_before. cbn. unfold cur0, block_events. destruct (k <=? blocks_read w).
    + destruct (Spec.scan None _). cbn. by rewrite app_nil_r.
    + destruct (Spec.scan cur _). cbn. by rewrite app_nil_r.
  - unfold Spec.cut_before. cbn. unfold cur0 in Hfit. destruct (k <=? blocks_read w); by rewrite Hfit.
Qed.

Lemma cut_process ck ph k ws r r' es q :
  ph = WPopped ws ∧ r = k ∧ r' = k ∧ blocks_read (after ck) < k ∨ ph = WClearing k ws ∧ r' = kNoResync →
  cut_ok ck ph r es (ws :: q) → cut_ok (ck ++ [(Some k, ws)]) WReading r' es q.
Proof.
  intros Hph (cur & evs & pending & owed & []). set (p := N.of_nat (length ck)) in *.
  assert (N.of_nat (length (ck ++ [(Some k, ws)])) = N.succ p) as Hp by (rewrite length_app; cbn; lia).
  assert (∀ j, pending = Some j → p ≤ j) as Hge by (intros j Hj; by apply cut_range0 in Hj as []).
  assert ((k <=? p) = bool_decide (pending = Some p) ∧
    r' = default kNoResync (if decide (pending = Some p) then None else pending)) as [Hcut Hr'].
  { rewrite cut_read0 in Hph. destruct Hph as [(-> & -> & -> & Hk)|[-> ->]]; cbn in cut_index0.
    - case_decide as Hd; [subst; cbn in Hk; lia|]. rewrite bool_decide_false by done.
      split; [by apply N.leb_gt|done].
    - destruct cut_index0 as [-> ->]. rewrite decide_True by done.
      rewrite bool_decide_true by done. split; [by apply N.leb_refl|done]. }
  rewrite due_process in cut_events0 by done. rewrite due_process in cut_fits0 by done. cbn zeta in *.
  set (cur0 := if decide (pending = Some p) then None else cur) in *.
  apply Forall_app in cut_fits0 as [Hfit Hfits]. cbn in Hfit. apply Forall_cons_1 in Hfit as [Hfit _].
  assert (cur0 = if k <=? p then None else cur) as Hcur0.
  { rewrite Hcut. unfold cur0. case_decide; by case_bool_decide. }
  assert (after (ck ++ [(Some k, ws)]) = process_block bufsize chunk n (Some k, ws) (after ck)) as Hafter.
  { unfold process_blocks. by rewrite foldl_app. }
  exists (block_events n cur0 ws).1, (evs ++ (block_events n cur0 ws).2),
    (if decide (pending = Some p) then None else pending), owed.
  replace (length ck + length (ws :: q))%nat with (length (ck ++ [(Some k, ws)]) + length q)%nat in *
    by (rewrite length_app; cbn; lia).
  split; rewrite ?Hp, ?Hafter; try done.
  - rewrite Hcur0, <-cut_read0. apply sim_process; [done|]. by rewrite cut_read0, <-Hcur0.
  - by rewrite block_read_next, cut_read0.
  - intros j Hj. case_decide as Hd; [done|]. destruct (cut_range0 j Hj).
    assert (j ≠ p) by congruence. lia.
  - by rewrite <-app_assoc.
Qed.
End cuts.

(** ** Every turn *)
Section turns.
Context {D : Type} `{WriterEnvLaws D}.
Context (bufsize chunk n width : nat).
Context (Hroom : (chunk * width ≤ bufsize)%nat) (Hchunk : (0 < chunk)%nat) (Hwidth : (0 < width)%nat).
Context (effs : list effect) (w_init : wstate D) (log0 : list (list Z)).
Implicit Types (s : state D) (l : list (list Z)).

Notation cuts := (cut_ok bufsize chunk n width effs w_init log0).
Notation after ck := (process_blocks bufsize chunk n ck w_init).

(** The block the write thread holds, and what it leaves when it is done. *)
Definition in_hand (ph : wphase) : list (list Z) :=
  match ph with WPopped ws | WClearing _ ws => [ws] | _ => [] end.
Definition ended (ph : wphase) (w : wstate D) : wstate D :=
  match ph with WDone => final_flush w | _ => w end.

(** The cuts are followed when no event is too long, the requests are those of
    the protocol and fewer than 2^64 stores are made. *)
Definition well_formed : Prop :=
  intended_fit width n (actions_of effs) ∧ is_Some (protocol effs) ∧
  (N.of_nat (length effs) < kNoResync)%N.

Record inv s l : Prop := MkInv {
  inv_rep : represents (data_queue s) (q_producer s) (q_consumer s) l;
  inv_producer : match q_producer s with
                 | PIdle => True
                 | PChecked v _ _ | PConstructed v _ => ∃ es, todo s = EEnqueue v :: es
                 end;
  inv_consumer : q_consumer s ≠ CIdle → phase s = WReading;
  inv_blocks : blocks_of effs =
    map snd (checked s) ++ in_hand (phase s) ++ l ++ blocks_of (todo s);
  inv_writer : writer s = ended (phase s) (after (checked s));
  inv_cuts : well_formed → overtaken s = false →
    cuts (checked s) (phase s) (resync_index s) (todo s) (in_hand (phase s) ++ l)
}.

(** A store that puts nothing in the queue and asks for nothing. *)
Definition quiet_store (e : effect) : Prop :=
  match e with EEnqueue _ | EResync _ => False | _ => True end.
Lemma quiet_protocol e :
  quiet_store e → actions_of [e] = [] ∧ ∀ x o, ∃ o', protocol_step (x, o) e = Some (x, o').
Proof. by destruct e; cbn; eauto. Qed.

Lemma inv_quiet s l e es f :
  todo s = e :: es → quiet_store e → inv s l → inv (s <| todo := es |> <| stop_flag ::= f |>) l.
Proof.
  intros Htodo He []. destruct (quiet_protocol e He) as [Hact Hstep]. rewrite Htodo in *.
  assert (q_producer s = PIdle) as Hp by (destruct (q_producer s); [done|naive_solver..]).
  split; cbn; rewrite ?Hp in *; try done.
  - rewrite inv_blocks0. by destruct e.
  - intros Hw Ho. eapply cut_quiet; eauto.
Qed.

Lemma write_check_offers v (q : queue (list Z)) :
  write_check v q = PIdle ∨ ∃ i next, write_check v q = PChecked v i next.
Proof. unfold write_check. case_match; eauto. Qed.

Lemma read_turn_inv s s' l : inv s l → read_turn s = Some s' → ∃ l', inv s' l'.
Proof.
  intros Hinv Hturn. unfold read_turn in Hturn. destruct (todo s) as [|e es] eqn:Htodo; [done|].
  assert (quiet_store e → ∀ f, inv (s <| todo := es |> <| stop_flag ::= f |>) l) as Hquiet
    by (intros; by eapply inv_quiet).
  destruct e; simplify_eq; try by (exists l; apply (Hquiet I id)).
  - destruct Hinv. rewrite Htodo in *. destruct (q_producer s) as [|v i next|v next] eqn:Hp.
    + destruct (write_check_spec _ _ _ ws inv_rep0) as [Hrep _].
      destruct (write_check_offers ws (data_queue s)) as [Hc|(i & next & Hc)]; rewrite Hc in *; simplify_eq.
      exists l. split; cbn; rewrite ?Htodo; try done. by exists es.
    + destruct inv_producer0 as [es' [= -> ->]]. simplify_eq/=. exists l.
      split; cbn; rewrite ?Htodo; try (done || by eauto).
      by apply write_construct_spec in inv_rep0.
    + destruct inv_producer0 as [es' [= -> ->]]. simplify_eq/=. exists (l ++ [v]).
      split; cbn; rewrite ?Htodo; try done.
      * by apply write_publish_spec in inv_rep0.
      * by rewrite <-!app_assoc.
      * intros Hw Ho. rewrite app_assoc. by apply cut_publish, inv_cuts0.
  - exists l. destruct Hinv. rewrite Htodo in *.
    assert (q_producer s = PIdle) as Hp by (destruct (q_producer s); [done|naive_solver..]).
    split; cbn; rewrite ?Hp in *; try done. intros Hw [Hov Ho]%orb_false_iff.
    unfold overtakes in Hov. specialize (inv_cuts0 Hw Ho).
    eapply cut_request; [| | |exact inv_cuts0].
    + by intros k' ws E; rewrite E in Hov.
    + by intros E; rewrite E in Hov.
    + destruct (phase s); try done; apply andb_false_iff in Hov;
        rewrite !negb_false_iff, !N.eqb_eq in Hov; done.
  - exists l. case_match; simplify_eq. apply (Hquiet I id).
  - exists l. apply (Hquiet I (λ _, true)).
Qed.
Lemma read_publish_block q p ws next l :
  represents q p (CTaken (Some ws) next) l →
  ∃ l', l = ws :: l' ∧ represents (read_publish (CTaken (Some ws) next) q).1 p CIdle l'.
Proof.
  intros Hrep. apply read_publish_spec in Hrep as [Hh Hrep]. destruct l as [|x l]; [done|].
  cbn in Hh. simplify_eq. by exists l.
Qed.

Lemma inv_process s l ph k ws r :
  (ph = WPopped ws ∧ resync_index s = k ∧ r = k ∧ (blocks_read (writer s) < k)%N ∨
   ph = WClearing k ws ∧ r = kNoResync) →
  phase s = ph → inv s l → inv (process bufsize chunk n k ws (s <| resync_index := r |>)) l.
Proof.
  intros Hph Hphase []. assert (in_hand (phase s) = [ws] ∧ writer s = after (checked s)) as [Hhand Hw].
  { rewrite inv_writer0, Hphase. by destruct Hph as [(-> & _)|[-> _]]. }
  rewrite Hhand in *. split; cbn; try done.
  - by rewrite map_app, <-app_assoc.
  - by rewrite Hw; unfold process_blocks; rewrite foldl_app.
  - intros Hwf Ho. rewrite Hw in Hph.
    apply (cut_process bufsize chunk n width effs w_init log0 Hroom Hchunk Hwidth _ ph _ _ (resync_index s));
      [naive_solver|]. rewrite <-Hphase. by apply inv_cuts0.
Qed.

Lemma inv_plain s l ph c :
  plain (phase s) → plain ph → phase s ≠ WDone → in_hand ph = in_hand (phase s) →
  represents (data_queue s) (q_producer s) c l → (c ≠ CIdle → ph = WReading) →
  inv s l → inv (s <| phase := ph |> <| q_consumer := c |> <| writer := ended ph (writer s) |>) l.
Proof.
  intros Hp Hp' Hd Hhand Hrep Hc [].
  assert (writer s = after (checked s)) as Hw by (rewrite inv_writer0; by destruct (phase s)).
  split; cbn; rewrite ?Hhand; try done; [by rewrite Hw|].
  intros Hwf Ho. eapply cut_phase; [..|by apply inv_cuts0]; done.
Qed.

(** What is left in the queue once the consumer has moved. *)
Definition after_read (c : consumer (list Z)) l : list (list Z) :=
  match c with CTaken _ _ => tail l | _ => l end.

Lemma idle_reader s l : inv s l → phase s ≠ WReading → q_consumer s = CIdle.
Proof. intros [] Hp. destruct (q_consumer s); [done|naive_solver..]. Qed.

Lemma write_turn_inv s s' l :
  inv s l → write_turn bufsize chunk n s = Some s' → inv s' (after_read (q_consumer s) l).
Proof.
  intros Hinv Hturn. unfold write_turn in Hturn. pose proof (idle_reader _ _ Hinv) as Hidle.
  pose proof (inv_rep _ _ Hinv) as Hrep.
  destruct (phase s) as [| | |ws|k ws|] eqn:Hph; simplify_eq; try (rewrite Hidle by done; cbn [after_read]).
  - destruct Hinv. rewrite Hph in *. split; cbn; try done; [by rewrite Hidle|].
    intros Hwf Ho. eapply cut_start; [done|by apply inv_cuts0].
  - rewrite Hidle in Hrep by done. destruct (stop_flag s || _); simplify_eq.
    + apply (inv_plain s l WDone (q_consumer s)); rewrite ?Hph, ?Hidle; done.
    + apply (inv_plain s l WReading (q_consumer s)); rewrite ?Hph, ?Hidle; done.
  - destruct (q_consumer s) as [|i next|[ws|] next] eqn:Hc; simplify_eq/=.
    + destruct (read_check_spec _ _ _ Hrep) as [Hrep' _].
      destruct (read_check (data_queue s)) eqn:Hr; simplify_eq.
      * apply (inv_plain s l WOuter (q_consumer s)); rewrite ?Hph, ?Hc; done.
      * destruct Hinv. split; cbn; rewrite ?Hph in *; done.
      * unfold read_check in Hr. by case_match.
    + apply read_take_spec in Hrep. destruct Hinv. split; cbn; rewrite ?Hph in *; done.
    + apply read_publish_block in Hrep as (l' & -> & Hrep).
      destruct Hinv. rewrite Hph in *. split; cbn; try done.
      intros Hwf Ho. eapply cut_phase; [| |by apply inv_cuts0]; done.
  - destruct (N.leb_spec (resync_index s) (blocks_read (writer s))) as [Hle|Hlt]; simplify_eq.
    + destruct Hinv. rewrite Hph in *. cbn in inv_writer0. split; cbn; try done; [by rewrite Hidle|].
      intros Hwf Ho. apply cut_due; [by rewrite <-inv_writer0|by apply inv_cuts0].
    + apply (inv_process s l (WPopped ws) (resync_index s) ws (resync_index s)); [|done..].
      left. by split_and!.
  - apply (inv_process s l (WClearing k ws)); [|done..]. by right.
Qed.

Lemma turn_inv t s s' l : inv s l → take_turn bufsize chunk n t s = Some s' → ∃ l', inv s' l'.
Proof.
  destruct t; [apply read_turn_inv|intros; eexists; by eapply write_turn_inv|].
  intros [] [= <-]. by exists l.
Qed.

Lemma pipeline_inv sched s l : inv s l → ∃ l', inv (pipeline bufsize chunk n sched s) l'.
Proof.
  revert s l. induction sched as [|t sched IH]; intros s l Hs; [by exists l|]. cbn.
  destruct (take_turn bufsize chunk n t s) as [s'|] eqn:Ht; [|by eapply IH].
  apply (turn_inv _ _ _ _ Hs) in Ht as [l' Hl']. by eapply IH.
Qed.
(** *** The end of the write thread *)
Lemma write_turn_moves s l :
  inv s l → phase s ≠ WDone → is_Some (write_turn bufsize chunk n s).
Proof.
  intros [] Hd. unfold write_turn. destruct (phase s); try done.
  - by destruct (stop_flag s || _).
  - pose proof (rep_consumer _ _ _ _ inv_rep0) as Hc.
    destruct (q_consumer s) as [|i next|[ws|] next]; try done; [by destruct (read_check _)|].
    destruct Hc as (_ & Hl & Hh). by destruct l.
  - by destruct (_ <=? _)%N.
Qed.

(** A bound on the turns the write thread takes once the stop flag is up. *)
Definition left_turns s l : nat :=
  match phase s with
  | WDone => 0
  | WOuter => 1
  | WPrologue => 2
  | WReading => match q_consumer s with
                | CIdle => 2 + 5 * length l
                | CChecked _ _ => 1 + 5 * length l
                | CTaken _ _ => 5 * length l
                end
  | WPopped _ => 4 + 5 * length l
  | WClearing _ _ => 3 + 5 * length l
  end.

Lemma write_turn_decreases s s' l :
  inv s l → stop_flag s = true → write_turn bufsize chunk n s = Some s' →
  (left_turns s' (after_read (q_consumer s) l) < left_turns s l)%nat ∧
  todo s' = todo s ∧ stop_flag s' = true ∧ size_ (data_queue s') = size_ (data_queue s).
Proof.
  intros Hinv Hstop Hturn. unfold write_turn in Hturn. unfold left_turns.
  pose proof (idle_reader _ _ Hinv) as Hidle. pose proof (rep_consumer _ _ _ _ (inv_rep _ _ Hinv)) as Hc.
  destruct (phase s) as [| | |ws|k ws|] eqn:Hph; try rewrite Hidle in * by done; simplify_eq/=.
  - split_and!; (done || lia).
  - rewrite Hstop in Hturn. simplify_eq/=. split_and!; (done || lia).
  - destruct (q_consumer s) as [|i next|[ws|] next]; simplify_eq/=.
    + destruct (read_check (data_queue s)) eqn:Hr; simplify_eq/=; rewrite ?Hph; [split_and!; (done || lia)..|].
      unfold read_check in Hr. by case_match.
    + rewrite Hph. split_and!; (done || lia).
    + destruct Hc as (_ & Hl & _). destruct l; [done|]. cbn. split_and!; (done || lia).
  - destruct (_ <=? _)%N; simplify_eq/=; rewrite ?Hidle by done; split_and!; (done || lia).
  - rewrite Hidle by done. split_and!; (done || lia).
Qed.

Lemma write_thread_ends sched s l :
  inv s l → todo s = [] → stop_flag s = true →
  (left_turns s l ≤ length (filter (λ t, t = WriteThread) sched))%nat →
  phase (pipeline bufsize chunk n sched s) = WDone.
Proof.
  revert s l. induction sched as [|t sched IH]; intros s l Hinv Htodo Hstop Hlen; cbn.
  { unfold left_turns in Hlen. cbn in Hlen. destruct (phase s); try done; [lia..| |lia|lia].
    pose proof (rep_consumer _ _ _ _ (inv_rep _ _ Hinv)) as Hc. destruct (q_consumer s); [lia..|].
    destruct Hc as (_ & Hl & _). destruct l; [done|]. cbn in Hlen. lia. }
  rewrite filter_cons in Hlen. destruct t; cbn [take_turn].
  - unfold read_turn. rewrite Htodo. eapply IH; [done..|]. by rewrite decide_False in Hlen.
  - rewrite decide_True in Hlen by done. cbn in Hlen.
    destruct (write_turn bufsize chunk n s) as [s'|] eqn:Hw; cbn.
    + destruct (write_turn_decreases _ _ _ Hinv Hstop Hw) as (Hlt & Ht & Hs & _).
      eapply IH; [by eapply write_turn_inv|congruence|done|lia].
    + apply (IH _ l); try done.
      assert (phase s = WDone) as Hd.
      { destruct (phase s) eqn:E; try done; exfalso; (edestruct (write_turn_moves s l Hinv) as [? ?]; congruence). }
      unfold left_turns. rewrite Hd. lia.
  - rewrite decide_False in Hlen by done. apply (IH _ l); try done. by destruct Hinv.
Qed.
End turns.

(** ** From the start of the run *)
Section start.
Context {D : Type} `{WriterEnvLaws D}.
Context (bufsize chunk n width : nat).
Context (Hroom : (chunk * width ≤ bufsize)%nat) (Hchunk : (0 < chunk)%nat) (Hwidth : (0 < width)%nat).
Context (effs : list effect) (d : D).
Notation w_init := (init_writer bufsize (open_first_file d)).

Lemma collect_inv q old :
  rep q [] → inv bufsize chunk n width effs w_init (env_handed d) (collect bufsize effs q old d) [].
Proof.
  intros Hq. split; cbn; try done. intros (Hfit & Hp & Hlen) _.
  exists None, [], None, false. split; cbn; try done.
  - rewrite <-(open_first_file_handed d). by apply sim_init.
Qed.

(** Once the thread is done: the chunks and the final write hold a prefix of the
    intended events, all of them when nothing is left. *)
Lemma done_events s l :
  inv bufsize chunk n width effs w_init (env_handed d) s l →
  well_formed n width effs → overtaken s = false → phase s = WDone →
  ∃ groups pending rest,
    intended n (actions_of effs) None = concat groups ++ pending ++ rest ∧
    Forall (λ g, length g = chunk) groups ∧ (length pending < chunk)%nat ∧
    env_handed (w_env (writer s)) = env_handed d ++ map (λ g, concat g) groups ++ [concat pending] ∧
    event_count (writer s) = N.of_nat (length (concat groups ++ pending)) ∧
    (todo s = [] → l = [] → rest = []).
Proof.
  intros [] Hwf Ho Hd. destruct (inv_cuts0 Hwf Ho) as (cur & evs & pend & owed & []).
  rewrite Hd in *. cbn in inv_writer0. rewrite inv_writer0.
  destruct (final_flush_frame (process_blocks bufsize chunk n (checked s) w_init)) as (-> & -> & _).
  destruct cut_sim0, sim_groups as (groups & pending & Hevs & Hg & Hh & Hlen & _ & _ & Htake & _).
  eexists groups, pending, _. rewrite cut_events0, Hh, Htake, Hevs, <-!app_assoc.
  split_and!; try done; [lia|by rewrite <-Hevs; destruct sim_ends as (_ & _ & ->)|].
  intros Ht Hl. by rewrite Ht, Hl.
Qed.
End start.

Lemma isEmpty_nil (q : queue (list Z)) p l : represents q p CIdle l → isEmpty q = true → l = [].
Proof.
  intros Hrep He. apply read_check_spec in Hrep as [_ Hrep]. apply Hrep.
  unfold isEmpty in He. unfold read_check. by rewrite He.
Qed.

(** What no turn changes: the size of the queue, and a stop flag that is up. *)
Section frames.
Context {D : Type} `{WriterEnv D} (bufsize chunk n : nat).
Implicit Types (s : state D).

Lemma construct_size (p : producer (list Z)) q : size_ (write_construct p q).1 = size_ q.
Proof. by destruct p. Qed.
Lemma publish_size (p : producer (list Z)) q : size_ (write_publish p q).1 = size_ q.
Proof. by destruct p. Qed.
Lemma take_size (c : consumer (list Z)) q : size_ (read_take c q).1 = size_ q.
Proof. by destruct c. Qed.
Lemma release_size (c : consumer (list Z)) q : size_ (read_publish c q).1 = size_ q.
Proof. by destruct c. Qed.

Definition will_stop s : Prop := stop_flag s = true ∨ EStopWrite ∈ todo s.

Lemma turn_frame t s s' :
  take_turn bufsize chunk n t s = Some s' →
  size_ (data_queue s') = size_ (data_queue s) ∧ (will_stop s → will_stop s').
Proof.
  unfold will_stop. destruct t; cbn [take_turn].
  - unfold read_turn. destruct (todo s) as [|e es] eqn:Ht; [done|].
    assert (e ≠ EStopWrite → stop_flag s = true ∨ EStopWrite ∈ e :: es → stop_flag s = true ∨ EStopWrite ∈ es)
      as Hes by (rewrite elem_of_cons; naive_solver).
    destruct e; intros Hturn; simplify_eq/=; try (split; [done|by apply Hes]).
    + destruct (q_producer s); simplify_eq/=; [case_match; simplify_eq/=| |]; rewrite ?Ht; split; try done;
        intros Hw; by apply Hes.
    + case_match; simplify_eq/=. split; [done|by apply Hes].
    + by auto.
  - unfold write_turn. intros Hturn.
    repeat case_match; simplify_eq/=; done.
  - intros [= <-]. by auto.
Qed.

Lemma pipeline_frame sched s :
  size_ (data_queue (pipeline bufsize chunk n sched s)) = size_ (data_queue s) ∧
  (will_stop s → will_stop (pipeline bufsize chunk n sched s)).
Proof.
  revert s. induction sched as [|t sched IH]; intros s; [done|]. cbn.
  destruct (take_turn bufsize chunk n t s) as [s'|] eqn:Ht; cbn; [|apply IH].
  destruct (turn_frame _ _ _ Ht) as [<- Hw]. destruct (IH s') as [Hs Hw']. auto.
Qed.
End frames.

(** The two threads with the sizes of data_handler.h. *)
Definition data_path {D} `{WriterEnv D} (dma_bytes : N) (effs : list effect) (q : queue (list Z))
    (old : N) (d : D) (sched : list turn) : state D :=
  pipeline (N.to_nat EVENTBUFFSIZE) EVENTCHUNK (N.to_nat (dma_bytes / 4)) sched
    (collect (N.to_nat EVENTBUFFSIZE) effs q old d).

(** ** The stream of a run: its transfers, with what became of their blocks *)
Definition kept (r : response) : bool := match r with Put _ => true | _ => false end.
Definition arrival (w : world) (t : transfer) (kept : bool) : action :=
  match t, kept with Completed l, true => Enqueue (w_block w l) | _, _ => Request end.
Definition arrivals (w : world) (ts : list transfer) (effs : list effect) : list action :=
  zip_with (arrival w) ts (kept <$> responses effs).

Lemma actions_of_responses effs :
  actions_of effs = (λ r, match r with Put ws => Enqueue ws | _ => Request end) <$> responses effs.
Proof.
  induction effs as [|e effs IH] using rev_ind; [done|].
  unfold actions_of in *. rewrite omap_app, IH. unfold responses. rewrite told_snoc.
  destruct e; cbn; rewrite ?fmap_app, ?app_nil_r; try done. by destruct (told effs).2.
Qed.
(** Reading the blocks that were enqueued is reading the DMA buffer. *)
Lemma arrivals_outputs {E} w n (F : option (list Z) → list Z → option (list Z) * list E) h ts effs cur :
  (∀ l, take n (w_block w l) = w_block w l) → (∀ cur a b, take n a = take n b → F cur a = F cur b) →
  n = N.to_nat (DMABUFFSIZE h / 4) → Forall2 (answered w h) ts (responses effs) →
  outputs F (actions_of effs) cur = outputs F (arrivals w ts effs) cur.
Proof.
  intros Htake HF -> Hans. rewrite actions_of_responses. unfold arrivals. revert cur.
  induction Hans as [|t r ts rs Ha Hans IH]; intros cur; [done|]. cbn.
  destruct t as [l|], r as [ws|k|k]; cbn in Ha |- *; try done; try by rewrite IH.
  rewrite (HF cur ws (w_block w l)) by (by rewrite Htake). destruct (F cur (w_block w l)). by rewrite IH.
Qed.

Section properties.
Context {D : Type} `{WriterEnvLaws D}.
Implicit Types (d : D) (q : queue (list Z)) (sched : list turn) (effs : list effect).
Notation width := (N.to_nat DATABUFFSIZE).

Lemma data_path_inv dma_bytes effs q old d sched :
  rep q [] → ∃ l, inv (N.to_nat EVENTBUFFSIZE) EVENTCHUNK (N.to_nat (dma_bytes / 4)) width effs
    (init_writer (N.to_nat EVENTBUFFSIZE) (open_first_file d)) (env_handed d)
    (data_path dma_bytes effs q old d sched) l.
Proof.
  intros Hq. destruct buffer_nonempty as [_ Hw]. eapply (pipeline_inv _ _ _ _ buffer_holds_chunk_events chunk_pos Hw).
  by apply (collect_inv _ _ _ _ buffer_holds_chunk_events chunk_pos Hw).
Qed.

Lemma data_path_queued dma_bytes effs q old d sched l :
  let s := data_path dma_bytes effs q old d sched in
  represents (data_queue s) (q_producer s) (q_consumer s) l → zlen l ≤ capacity q.
Proof.
  intros s Hrep%rep_bound. unfold capacity in *. unfold s, data_path in Hrep.
  by rewrite (proj1 (pipeline_frame _ _ _ _ _)) in Hrep.
Qed.

(** C2. The data path, end to end: the events that are written are those of the blocks the DMA
    transfers completed. The transfers are read from what the read thread did on the bus; the
    stream is cut where one was lost or its block dropped. Whatever the cards answer, and for
    every interleaving of the read thread and the write thread, access by access, in which the
    write thread has finished and no resync request was stored over one that still counts
    ([request_erased] shows what happens otherwise), and if no event is longer than a block of
    the queue: the write thread has written a prefix of those events: whole events, in order,
    [EVENTCHUNK] to a chunk, the rest in the final write. It is all of them when nothing was
    left in the queue. *)
Theorem CollectData_writes_events drv w `{ErrorBits} h num_dma_byte stop p fuel :
  let n := N.to_nat (DMABUFFSIZE h / 4) in
  (∀ t, w_running w t = bool_decide (t < stop)%nat) → (∀ l, length (w_block w l) = n) →
  (n ≤ width)%nat → (stop < fuel)%nat →
  ∃ r ops, ReadoutDMARead drv w h num_dma_byte fuel (new_reader p) = (r, Some ()) ∧
    bus (card r) = bus p ++ ops ∧
    let stream := arrivals w (transfers drv (dev_handle_2 p) (bus p) ops) (effects r) in
    ∀ q old d sched,
      let s := data_path (DMABUFFSIZE h) (effects r) q old d sched in
      rep q [] → (N.of_nat (length (effects r)) < kNoResync)%N →
      intended_fit width n stream → overtaken s = false → phase s = WDone →
      ∃ groups pending rest,
        intended n stream None = concat groups ++ pending ++ rest ∧
        Forall (λ g, length g = EVENTCHUNK) groups ∧ (length pending < EVENTCHUNK)%nat ∧
        env_handed (w_env (writer s)) = env_handed d ++ map (λ g, concat g) groups ++ [concat pending] ∧
        event_count (writer s) = N.of_nat (length (concat groups ++ pending)) ∧
        (todo s = [] → isEmpty (data_queue s) = true → rest = []).
Proof.
  intros n Hstop Hblock Hfits Hfuel.
  destruct (ReadoutDMARead_stores drv w h num_dma_byte stop Hstop Hblock Hfits p fuel Hfuel)
    as (r & st & ops & Hrun & Hprot & _ & Hbus & Hans).
  exists r, ops. split; [done|]. split; [done|]. intros stream.
  assert (∀ l, take n (w_block w l) = w_block w l) as Htake by (intros l; by rewrite take_ge by (by rewrite Hblock)).
  intros q old d sched s Hq Hlen Hfit Ho Hd.
  assert (intended n (actions_of (effects r)) None = intended n stream None) as Heq.
  { apply (arrivals_outputs w n (block_events n) h); [done| |done|done]. intros ??? E; unfold block_events; by rewrite E. }
  assert (intended_fit width n (actions_of (effects r))) as Hfit'.
  { unfold intended_fit in *. rewrite (arrivals_outputs w n (block_fits width n) h (transfers drv (dev_handle_2 p) (bus p) ops));
      [exact Hfit|done| |done|done]. intros ??? E; unfold block_fits; by rewrite E. }
  destruct (data_path_inv (DMABUFFSIZE h) (effects r) q old d sched Hq) as [l Hinv].
  destruct buffer_nonempty as [_ Hw].
  destruct (done_events _ _ _ _ buffer_holds_chunk_events chunk_pos Hw _ _ _ _ Hinv) as (groups & pending & rest & Hi & ? & ? & ? & ? & Hrest);
    [by split_and!|done|done|].
  exists groups, pending, rest. rewrite <-Heq. split_and!; try done.
  intros Ht He. apply Hrest; [done|]. eapply isEmpty_nil; [|exact He].
  assert (q_consumer s = CIdle) as <- by (eapply idle_reader; [exact Hinv|by rewrite Hd]).
  apply (inv_rep _ _ _ _ _ _ _ _ _ Hinv).
Qed.

(** C12. Unconditionally: the blocks the write thread has processed, then the one
    it holds, then those in the queue, then those the read thread has still to
    enqueue are the blocks of the run, in order; the queue holds as many as it has
    room for at most; and the write thread is [DataWrite] on the blocks it has
    processed. *)
Theorem CollectData_keeps_order dma_bytes effs q old d sched :
  rep q [] →
  let s := data_path dma_bytes effs q old d sched in
  ∃ queued,
    blocks_of effs = map snd (checked s) ++ in_hand (phase s) ++ queued ++ blocks_of (todo s) ∧
    zlen queued ≤ capacity q ∧
    writer s = ended (phase s)
      (process_blocks (N.to_nat EVENTBUFFSIZE) EVENTCHUNK (N.to_nat (dma_bytes / 4)) (checked s)
         (init_writer (N.to_nat EVENTBUFFSIZE) (open_first_file d))).
Proof.
  intros Hq s. destruct (data_path_inv dma_bytes effs q old d sched Hq) as [l []].
  exists l. split_and!; try done. by apply data_path_queued in inv_rep0.
Qed.

(** C13. The write thread ends: once the read thread has made its last store, of a
    run in which it told the write thread to stop, every schedule that gives the
    write thread five turns for each block the queue can hold, and four more,
    brings it to its end, whatever the other threads do. *)
Theorem DataWrite_finishes dma_bytes effs q old d before after :
  rep q [] → EStopWrite ∈ effs → todo (data_path dma_bytes effs q old d before) = [] →
  (Z.to_nat (5 * capacity q + 4) ≤ length (filter (λ t, t = WriteThread) after))%nat →
  phase (data_path dma_bytes effs q old d (before ++ after)) = WDone.
Proof.
  intros Hq Hstop Htodo Hlen. destruct (data_path_inv dma_bytes effs q old d before Hq) as [l Hinv].
  pose proof (data_path_queued _ _ _ _ _ _ _ (inv_rep _ _ _ _ _ _ _ _ _ Hinv)) as Hb.
  destruct (pipeline_frame (N.to_nat EVENTBUFFSIZE) EVENTCHUNK (N.to_nat (dma_bytes / 4)) before
    (collect (N.to_nat EVENTBUFFSIZE) effs q old d)) as [_ Hw].
  fold (data_path dma_bytes effs q old d before) in Hw. destruct Hw as [Hw|Hw]; [by right| |].
  - unfold data_path, pipeline. rewrite foldl_app. destruct buffer_nonempty as [_ Hpos].
    eapply (write_thread_ends _ _ _ _ buffer_holds_chunk_events chunk_pos Hpos); [exact Hinv|done|done|].
    etrans; [|exact Hlen]. unfold left_turns. repeat case_match; lia.
  - rewrite Htodo in Hw. by apply not_elem_of_nil in Hw.
Qed.
End properties.

(** ** Runs, evaluated

    A card whose transfers always complete, each with one event of two words; the
    run is stopped after a few of them. *)
Definition demo_path_world : world := {|
  w_running := λ t, bool_decide (t < 30)%nat; w_events := λ _, 0%N; w_room := λ _, true;
  w_now := Z.of_nat; w_block := λ _, [0xFFFFFFFF; 0xE0000000]
|}.
#[local] Notation demo_reader :=
  (@ReadoutDMARead demo_driver demo_path_world demo_error_bits demo_run 8 31 (new_reader new_pcie)).1.
(** The threads take turns; then the write thread runs alone. *)
Definition demo_schedule : list turn :=
  concat (replicate 60 [ReadThread; WriteThread]) ++ replicate 40 WriteThread.
#[local] Notation demo_path :=
  (data_path (DMABUFFSIZE demo_run) (effects demo_reader) (new_queue 4) 5 (@nil (list Z)) demo_schedule).

(** The last block is left behind: the write thread finds the queue empty, the
    read thread enqueues its last block and raises the stop flag, and the write
    thread leaves its loop without looking at the queue again. *)
Example last_block_left :
  let effs := [EEnqueue [0xFFFFFFFF; 0xE0000000]; EStopWrite] in
  let s := data_path 8 effs (new_queue 4) 5 ([] : list (list Z))
             ([WriteThread; WriteThread; WriteThread] ++ replicate 4 ReadThread ++ [WriteThread]) in
  phase s = WDone ∧ todo s = [] ∧ overtaken s = false ∧ isEmpty (data_queue s) = false ∧
  intended 2 (actions_of effs) None = [[0xFFFFFFFF; 0xE0000000]] ∧ env_handed (w_env (writer s)) = [[]].
Proof. vm_compute. by split_and!. Qed.

(** A request stored between the write thread's load and its clearing is erased. *)
Example request_erased :
  let effs := [EResync 0; EEnqueue [0xFFFFFFFF; 7]; EResync 1; EEnqueue [8; 0xE0000000]; EStopWrite] in
  let s := data_path 8 effs (new_queue 4) 5 ([] : list (list Z))
             ([WriteThread; ReadThread; ReadThread; ReadThread; ReadThread] ++ replicate 5 WriteThread
              ++ [ReadThread] ++ replicate 3 WriteThread ++ replicate 3 ReadThread ++ replicate 9 WriteThread
              ++ [ReadThread] ++ replicate 2 WriteThread) in
  phase s = WDone ∧ todo s = [] ∧ overtaken s = true ∧ isEmpty (data_queue s) = true ∧
  intended 2 (actions_of effs) None = [] ∧
  env_handed (w_env (writer s)) = [[0xFFFFFFFF; 7; 8; 0xE0000000]].
Proof. vm_compute. by split_and!. Qed.

(** In this run everything is written. *)
Definition demo_stream : list action :=
  arrivals demo_path_world (transfers demo_driver None [] (bus (card demo_reader))) (effects demo_reader).
Lemma demo_path_ends :
  let s := demo_path in
  phase s = WDone ∧ todo s = [] ∧ overtaken s = false ∧ isEmpty (data_queue s) = true ∧
  intended_fit (N.to_nat DATABUFFSIZE) (N.to_nat (DMABUFFSIZE demo_run / 4)) demo_stream ∧
  (N.of_nat (length (effects demo_reader)) <? kNoResync)%N = true ∧
  intended (N.to_nat (DMABUFFSIZE demo_run / 4)) demo_stream None = replicate 7 [0xFFFFFFFF; 0xE0000000].
Proof. split_and!; vm_compute; [reflexivity|reflexivity|reflexivity|reflexivity|repeat constructor|reflexivity|reflexivity]. Qed.

Lemma demo_block_fits : (N.to_nat (DMABUFFSIZE demo_run / 4) ≤ N.to_nat DATABUFFSIZE)%nat.
Proof. assert (DMABUFFSIZE demo_run / 4 ≤ DATABUFFSIZE)%N by (vm_compute; discriminate). lia. Qed.

Lemma new_queue_rep : rep (new_queue 4 : queue (list Z)) [].
Proof. apply new_queue_represents. lia. Qed.

Lemma CollectData_writes_events_witness :
  ∃ groups pending,
    concat groups ++ pending = replicate 7 [0xFFFFFFFF; 0xE0000000] ∧
    env_handed (w_env (writer demo_path)) = map (λ g, concat g) groups ++ [concat pending].
Proof.
  destruct (@CollectData_writes_events (list (list Z)) _ _ demo_driver demo_path_world demo_error_bits
    demo_run 8 30 new_pcie 31) as (r & ops & Hr & Hops & Hall);
    [intros t; reflexivity|intros l; reflexivity|exact demo_block_fits|lia|].
  assert (r = demo_reader) as -> by (rewrite Hr; reflexivity).
  assert (bus new_pcie ++ ops = ops) as E by reflexivity. rewrite E in Hops. subst ops. clear E.
  change (dev_handle_2 new_pcie) with (None : handle) in Hall. change (bus new_pcie) with (@nil bus_op) in Hall.
  cbv zeta in Hall. pose proof demo_path_ends as Hends. unfold demo_stream in Hends. cbv zeta in Hends.
  destruct Hends as (Hphase & Htodo & Hov & Hempty & Hfit & Hlen & Hint).
  destruct (Hall (new_queue 4) 5%N [] demo_schedule new_queue_rep) as
    (groups & pending & rest & Hevs & _ & _ & Hh & _ & Hrest);
    [apply N.ltb_lt; exact Hlen|exact Hfit|exact Hov|exact Hphase|].
  exists groups, pending. split; [|exact Hh].
  rewrite (Hrest Htodo Hempty), app_nil_r in Hevs. rewrite <-Hevs. exact Hint.
Defined.

Lemma CollectData_keeps_order_witness :
  ∃ queued, blocks_of (effects demo_reader) =
    map snd (checked demo_path) ++ in_hand (phase demo_path) ++ queued
      ++ blocks_of (todo demo_path) ∧ zlen queued ≤ 3.
Proof.
  destruct (CollectData_keeps_order (DMABUFFSIZE demo_run) (effects demo_reader) (new_queue 4) 5
    (@nil (list Z)) demo_schedule new_queue_rep) as (queued & H1 & H2 & _). exists queued. split; [exact H1|exact H2].
Defined.

(** The read thread alone first, then the write thread. *)
Lemma DataWrite_finishes_witness :
  let effs := [EEnqueue [0xFFFFFFFF; 0xE0000000]; EStopWrite] in
  todo (data_path 8 effs (new_queue 4) 5 ([] : list (list Z)) (replicate 4 ReadThread)) = [] ∧
  phase (data_path 8 effs (new_queue 4) 5 ([] : list (list Z))
    (replicate 4 ReadThread ++ replicate 19 WriteThread)) = WDone.
Proof.
  intros effs. assert (todo (data_path 8 effs (new_queue 4) 5 ([] : list (list Z)) (replicate 4 ReadThread)) = [])
    as Htodo by (vm_compute; reflexivity).
  split; [exact Htodo|]. apply DataWrite_finishes; [exact new_queue_rep| |exact Htodo|vm_compute; lia].
  by apply elem_of_cons; right; apply elem_of_cons; left.
Defined.
