(* ===== verification/TriggerReadout.v ===== *)
(** * The trigger and PPS threads: [DataHandler::TriggerDMARead],
    [DataHandler::PollTriggerPPS] (src/src/data/data_handler.cpp)

    Both fill an array of 250 records and write it to a file when it is full, when
    the run's disk changes and when the run ends. As for the read thread, a
    [shared] gives what the other threads and the file system answer, and the
    records taken and what happens to them are recorded in order. The parsed
    trigger file is disabled at compile time ([kWriteParsedTriggerSidecar]). *)
From Stdlib Require Import Lia ZArith NArith String.
From stdpp Require Import base tactics list numbers option strings.
From S2P Require Import Prelude Threads Config Pcie HwConsts DataHandler.
Local Open Scope Z_scope.

(** What a thread's n-th shared read returns. *)
Record shared := Shared {
  sh_running : nat → bool;                (** is_running_ *)
  sh_segment : nat → N;                   (** trigger_segment_file_num_ *)
  sh_place : nat → string * N;            (** the same with data_basedir_, under the lock *)
  sh_open : nat → string → bool;          (** the file could be opened *)
  sh_now : nat → Z                        (** system_clock::now(), in milliseconds *)
}.

(** What happens to the records [R] of a thread. *)
Inductive record_event (R : Type) :=
  | Reply (w0 w1 : Z)                     (** what the PPS register answered *)
  | Take (r : R)                          (** stored in the array *)
  | Write (name : string) (rs : list R)   (** written to the open file *)
  | Discard (rs : list R)                 (** the array emptied with no file open *)
  | Open (name : string) (ok : bool).
Arguments Reply {R}. Arguments Take {R}. Arguments Write {R}. Arguments Discard {R}. Arguments Open {R}.

Definition BUFFER_SIZE : nat := 250.

(** A thread: its file, its array up to [read_counter], the segment it has open. *)
Record collector (R : Type) := Collector {
  card : pcie;
  tick : nat;
  file : option string;
  buffer : list R;
  open_segment : N;
  counter : Z;
  log : list (record_event R)
}.
Arguments Collector {R}. Arguments card {R}. Arguments tick {R}. Arguments file {R}.
Arguments buffer {R}. Arguments open_segment {R}. Arguments counter {R}. Arguments log {R}.
#[export] Instance collector_eta R : RecordEta (collector R) := λ s,
  Collector (card s) (tick s) (file s) (buffer s) (open_segment s) (counter s) (log s).

Definition new_collector {R} (p : pcie) : collector R := {|
  card := p; tick := 0; file := None; buffer := []; open_segment := 0; counter := 0; log := []
|}.

Section collect.
Context {R : Type} (sh : shared) (name_of : string → N → string).
Notation col := (st_err (collector R)).

Definition on_bus {A} (c : st pcie A) : col A := λ s,
  let '(p, a) := c (card s) in (s <| card := p |>, Some a).
Definition look {A} (f : shared → nat → A) : col A := λ s, (s <| tick ::= S |>, Some (f sh (tick s))).
Definition note (e : record_event R) : col () := st_modify (λ s, s <| log ::= λ l, l ++ [e] |>).
Definition get {A} (f : collector R → A) : col A := λ s, (s, Some (f s)).

(** The array goes to the file, or nowhere; [read_counter = 0]. *)
Definition empty_buffer : col () := λ s,
  (note (match file s with Some name => Write name (buffer s) | None => Discard (buffer s) end) ;;~
   st_modify (λ s, s <| buffer := [] |>)) s.
Definition flush : col () := λ s,
  match buffer s with [] => (s, Some ()) | _ => empty_buffer s end.

Definition open_file (name : string) : col () :=
  ok <~ look (λ sh t, sh_open sh t name) ;;
  note (Open name ok) ;;~
  st_modify (λ s, s <| file := if ok : bool then Some name else None |>).
Definition reopen : col () :=
  place <~ look sh_place ;; open_file (name_of place.1 place.2).

(** The store is out of the array's bounds when it is full. *)
Definition take_record (r : R) : col () := λ s,
  if decide (length (buffer s) < BUFFER_SIZE)%nat
  then (note (Take r) ;;~ st_modify (λ s, s <| buffer ::= λ l, l ++ [r] |>)) s
  else (s, None).
Definition flush_if_full : col () := λ s,
  if decide (BUFFER_SIZE ≤ length (buffer s))%nat then empty_buffer s else (s, Some ()).

(** The run's disk changed: [switch] empties what it empties, then the files of
    the new segment are opened. *)
Definition handle_disk_switch (leave : col ()) : col () :=
  segment <~ look sh_segment ;;
  current <~ get open_segment ;;
  if (segment =? current)%N then st_ret ()
  else leave ;;~ reopen ;;~ st_modify (λ s, s <| open_segment := segment |>).
End collect.

(** ** [TriggerDMARead] *)
Section trigger.
Context (drv : driver) (sh : shared) (h : handler).
Notation col := (st_err (collector (Z * Z))).

Definition read_trig_data_ctr : col Z :=
  data <~ on_bus (ReadReg64 drv kDev1 cs_bar t2_cs_reg) ;;
  st_ret (Z.land (Z.shiftr data 32) 0xffffff).

Definition read_record : col () :=
  trig_data0 <~ on_bus (ReadReg64 drv kDev1 t2_tr_bar 0x0) ;;
  trig_data1 <~ on_bus (ReadReg64 drv kDev1 t2_tr_bar 0x0) ;;
  take_record (trig_data0, trig_data1) ;;~
  flush_if_full ;;~
  st_modify (λ s, s <| counter ::= λ c, u64 (c - 16) |>).

Definition trigger_name : string → N → string := BuildTriggerRawFileName h.
Definition trigger_switch : col () := handle_disk_switch sh trigger_name flush.

Fixpoint drain (trig_data_ctr : Z) (fuel : nat) : col () :=
  match fuel with
  | O => st_get None
  | S fuel =>
      running <~ look sh sh_running ;;
      ctr <~ get counter ;;
      if negb (running && (16 <=? u64 (ctr - trig_data_ctr))) then st_ret ()
      else
        trigger_switch ;;~
        read_record ;;~
        trig_data_ctr <~ read_trig_data_ctr ;;
        drain trig_data_ctr fuel
  end.

Fixpoint trigger_loop (drain_fuel fuel : nat) : col () :=
  match fuel with
  | O => st_get None
  | S fuel =>
      running <~ look sh sh_running ;;
      if negb running then st_ret ()
      else
        trigger_switch ;;~
        trig_data_ctr <~ read_trig_data_ctr ;;
        drain trig_data_ctr drain_fuel ;;~
        running <~ look sh sh_running ;;
        if negb running then st_ret () else trigger_loop drain_fuel fuel
  end.

Definition start_trigger_receiver : col () :=
  on_bus (WriteReg32 drv kDev1 cs_bar tx_mode_reg 0xf0000008) ;;~
  on_bus (WriteReg32 drv kDev1 cs_bar r2_cs_reg cs_init) ;;~
  on_bus (WriteReg32 drv kDev1 cs_bar r2_cs_reg (u32 (cs_start + 0xffffff))) ;;~
  st_ret ().

Definition TriggerDMARead (fuel : nat) : col () :=
  st_modify (λ s, s <| counter := 0xFFFFFF |>) ;;~
  open_file sh (trigger_name (data_basedir h) 0) ;;~
  start_trigger_receiver ;;~
  trigger_loop fuel fuel ;;~
  flush.
End trigger.

(** ** [PollTriggerPPS] *)
Record pps_sample := PPSSample { timestamp : Z; pps_frame : Z; pps_ticks : Z; pps_div : Z }.

Section pps.
Context (drv : driver) (sh : shared) (h : handler).
Notation col := (st_err (collector pps_sample)).

Definition kFrameSpan : Z := u64 (Z.of_N (drift_size h) + 1).
Definition num_status_words : Z := 2.

(** The latched time stamp of the trigger module: register 35. *)
Definition read_pps (read_array : list Z) : col (list Z) :=
  on_bus (PCIeRecvBuffer drv kDev1 0 1 num_status_words 0 read_array) ;;~
  on_bus (PCIeSendBuffer drv kDev1 0 1 [cmd_word (trigger_module h) 3 35 0x0; 0]) ;;~
  r <~ on_bus (PCIeRecvBuffer drv kDev1 0 2 num_status_words 0 read_array) ;;
  let words := r.2 in
  note (Reply (default 0 (words !! 0%nat)) (default 0 (words !! 1%nat))) ;;~
  st_ret words.

Definition frame_of (w0 : Z) : Z := Z.land w0 0xFFFFFF.
Definition sample_of (w1 : Z) : Z := Z.land w1 0xFFF.
Definition div_of (w1 : Z) : Z := Z.shiftr (Z.land w1 0x70000) 16.
Definition valid_reply (w0 : Z) : bool := (Z.land w0 0xFF000000 =? 0) && negb (frame_of w0 =? 0).
Definition timestamp_of (w0 w1 : Z) : Z := u64 (frame_of w0 * kFrameSpan + sample_of w1).

Definition store_sample (w0 w1 : Z) : col () :=
  now <~ look sh sh_now ;;
  take_record (PPSSample now (frame_of w0) (sample_of w1) (div_of w1)) ;;~
  st_modify (λ s, s <| counter ::= Z.succ |>) ;;~
  flush_if_full.

Definition pps_name : string → N → string := BuildPpsFileName h.
(** With no file open the array is kept for the next file. *)
Definition pps_leave : col () := λ s,
  match file s with Some _ => flush s | None => (s, Some ()) end.

(** A pass with the last time stamp seen; the one after. *)
Definition pps_pass (read_array : list Z) (last_ts : option Z) : col (list Z * option Z) :=
  handle_disk_switch sh pps_name pps_leave ;;~
  words <~ read_pps read_array ;;
  let w0 := default 0 (words !! 0%nat) in
  let w1 := default 0 (words !! 1%nat) in
  if negb (valid_reply w0) then st_ret (words, last_ts)
  else
    let ts := timestamp_of w0 w1 in
    match last_ts with
    | None => st_ret (words, Some ts)
    | Some last => if ts =? last then st_ret (words, Some last) else store_sample w0 w1 ;;~ st_ret (words, Some ts)
    end.

Fixpoint pps_loop (read_array : list Z) (last_ts : option Z) (fuel : nat) : col () :=
  match fuel with
  | O => st_get None
  | S fuel =>
      running <~ look sh sh_running ;;
      if negb running then st_ret ()
      else
        r <~ pps_pass read_array last_ts ;;
        pps_loop r.1 r.2 fuel
  end.

Definition PollTriggerPPS (fuel : nat) : col () :=
  open_file sh (pps_name (data_basedir h) 0) ;;~
  pps_loop [0; 0] None fuel ;;~
  flush.
End pps.

(** ** What becomes of the records *)
Section replay.
Context {R : Type} (named : string → Prop).
Implicit Types (l : list (record_event R)) (b : list R) (f : option string).

(** A log, the file open after it and what is left in the array: what is written
    is the array, in the file opened last, of 250 records at most. *)
Inductive replays : list (record_event R) → option string → list R → Prop :=
  | replays_first name (ok : bool) :
      named name → replays [Open name ok] (if ok then Some name else None) []
  | replays_open l f b name (ok : bool) :
      replays l f b → named name → replays (l ++ [Open name ok]) (if ok then Some name else None) b
  | replays_reply l f b w0 w1 : replays l f b → replays (l ++ [Reply w0 w1]) f b
  | replays_take l f b r :
      replays l f b → (length b < BUFFER_SIZE)%nat → replays (l ++ [Take r]) f (b ++ [r])
  | replays_write l name b :
      replays l (Some name) b → (length b ≤ BUFFER_SIZE)%nat → replays (l ++ [Write name b]) (Some name) []
  | replays_discard l b : replays l None b → replays (l ++ [Discard b]) None [].

Definition taken l : list R := omap (λ e, match e with Take r => Some r | _ => None end) l.
Definition replies l : list (Z * Z) := omap (λ e, match e with Reply w0 w1 => Some (w0, w1) | _ => None end) l.
Definition flushed l : list R :=
  concat (omap (λ e, match e with Write _ rs | Discard rs => Some rs | _ => None end) l).
Definition written l : list R := concat (omap (λ e, match e with Write _ rs => Some rs | _ => None end) l).
Definition opens_ok l : Prop := ∀ name ok, Open name ok ∈ l → ok = true.
Definition writes_bounded l : Prop := ∀ name rs, Write name rs ∈ l → (length rs ≤ BUFFER_SIZE)%nat.
Definition opens_named l : Prop := ∀ name ok, Open name ok ∈ l → named name.

Lemma taken_app l l' : taken (l ++ l') = taken l ++ taken l'.
Proof. apply omap_app. Qed.
Lemma flushed_app l l' : flushed (l ++ l') = flushed l ++ flushed l'.
Proof. unfold flushed. by rewrite omap_app, concat_app. Qed.
Lemma written_app l l' : written (l ++ l') = written l ++ written l'.
Proof. unfold written. by rewrite omap_app, concat_app. Qed.

(** Every record taken was written or discarded, in order, or is in the array. *)
Lemma replays_conserves l f b : replays l f b → taken l = flushed l ++ b.
Proof.
  induction 1 as [|? ? ? ? ? ? IH|? ? ? ? ? ? IH|? ? ? ? ? IH|? ? ? ? IH|? ? ? IH]; [done|..];
    rewrite taken_app, flushed_app, IH; unfold flushed, taken; cbn;
    by rewrite ?app_nil_r, ?app_assoc.
Qed.

Lemma replays_all_written l f b : replays l f b → opens_ok l → f ≠ None ∧ flushed l = written l.
Proof.
  induction 1 as [name ok|l f b name ok Hl IH|l f b w0 w1 Hl IH|l f b r Hl IH|l name b Hl IH|l b Hl IH]; intros Hok.
  1: { rewrite (Hok name ok) by by left. done. }
  all: assert (opens_ok l) as Hl' by (intros ???; eapply Hok, elem_of_app; eauto);
    destruct (IH Hl') as [Hf Hw]; rewrite flushed_app, written_app, Hw.
  - rewrite (Hok name ok) by (apply elem_of_app; right; by left). done.
  - done.
  - done.
  - done.
  - done.
Qed.

Lemma replays_bounded l f b : replays l f b → writes_bounded l.
Proof.
  intros Hl name rs. induction Hl; intros Hin.
  1: by apply list_elem_of_singleton in Hin.
  all: apply elem_of_app in Hin as [Hin|Hin%list_elem_of_singleton]; [by apply IHHl|]; by simplify_eq.
Qed.
Lemma replays_named l f b : replays l f b → opens_named l.
Proof.
  intros Hl name ok. induction Hl; intros Hin.
  1: { apply list_elem_of_singleton in Hin. by simplify_eq. }
  all: apply elem_of_app in Hin as [Hin|Hin%list_elem_of_singleton]; [by apply IHHl|]; by simplify_eq.
Qed.
End replay.

(** ** Triples *)
Section collect_proofs.
Context {R : Type} (sh : shared) (name_of : string → N → string) (named : string → Prop).
Hypothesis Hnamed : ∀ t, named (name_of (sh_place sh t).1 (sh_place sh t).2).
(** What a thread keeps true of the records taken, the replies and its counter. *)
Context (X : list R → list (Z * Z) → Z → Prop).
Notation col := (st_err (collector R)).
Notation ends := (Threads.ends (@tick R)).

Definition Good (n : nat) (s : collector R) : Prop :=
  replays named (log s) (file s) (buffer s) ∧ (length (buffer s) < n)%nat ∧
  X (taken (log s)) (replies (log s)) (counter s).
Notation Full := (Good (S BUFFER_SIZE)).
Notation Inv := (Good BUFFER_SIZE).

Lemma ends_collector_bus {A} (c : st pcie A) n : ends (on_bus c) (Good n) (λ _, Good n).
Proof.
  intros s Hs. unfold on_bus. destruct (c (card s)) as [p a]. eexists _, _. split; [done|]. by split.
Qed.
Lemma ends_look {A} (f : shared → nat → A) n : ends (look sh f) (Good n) (λ _, Good n).
Proof. intros s Hs. eexists _, _. split; [done|]. split; [cbn; lia|done]. Qed.
Lemma ends_get {A} (f : collector R → A) n : ends (get f) (Good n) (λ _, Good n).
Proof. intros s Hs. by eexists _, _. Qed.

Lemma ends_empty_buffer : ends empty_buffer Full (λ _, Inv).
Proof.
  intros s (Hr & Hlen & HX). unfold empty_buffer, note, st_bind, st_modify.
  eexists _, (). split; [reflexivity|]. split; [done|]. split_and!; cbn.
  - destruct (file s); [apply replays_write; [done|lia]|by apply replays_discard].
  - unfold BUFFER_SIZE. lia.
  - unfold taken, replies in *. rewrite !omap_app. destruct (file s); cbn; by rewrite !app_nil_r.
Qed.
Lemma ends_flush : ends flush Inv (λ _ s, Inv s ∧ buffer s = []).
Proof.
  intros s Hs. unfold flush. destruct (buffer s) as [|r b] eqn:Hb; [by exists s, ()|].
  destruct (ends_empty_buffer s) as (s' & [] & E & Ht & Hs').
  { destruct Hs as (? & ? & ?). split_and!; [done|lia|done]. }
  exists s', (). split; [done|]. split; [done|]. split; [done|].
  unfold empty_buffer, note, st_bind, st_modify in E. by injection E as <-.
Qed.
Lemma ends_flush_if_full : ends flush_if_full Full (λ _, Inv).
Proof.
  intros s Hs. unfold flush_if_full. case_decide; [by apply ends_empty_buffer|].
  exists s, (). destruct Hs as (? & ? & ?). split; [done|]. split; [done|]. split_and!; [done|lia|done].
Qed.

Lemma Good_open name (ok : bool) n s :
  Good n s → named name →
  Good n (s <| log ::= λ l, l ++ [Open name ok] |> <| file := if ok then Some name else None |>).
Proof.
  intros (Hr & Hlen & HX) Hname. split_and!; cbn; [by apply replays_open with (file s)|done|].
  unfold taken, replies in *. by rewrite !omap_app, !app_nil_r.
Qed.
Lemma ends_reopen n : ends (reopen sh name_of) (Good n) (λ _, Good n).
Proof.
  intros s Hs. unfold reopen, open_file, note, st_bind, look, st_modify. eexists _, ().
  split; [reflexivity|]. split; [cbn; lia|]. refine (Good_open _ _ _ _ _ (Hnamed _)).
  by destruct Hs as (? & ? & ?).
Qed.

Lemma ends_disk_switch leave :
  ends leave Inv (λ _, Inv) → ends (handle_disk_switch sh name_of leave) Inv (λ _, Inv).
Proof.
  intros Hleave. unfold handle_disk_switch.
  eapply ends_bind; [apply ends_look|intros segment; cbv beta].
  eapply ends_bind; [apply ends_get|intros current; cbv beta].
  case_match; [apply ends_pure|].
  eapply ends_bind; [apply Hleave|intros ?; cbv beta].
  eapply ends_bind; [apply ends_reopen|intros ?; cbv beta].
  intros s Hs. eexists _, (). split; [reflexivity|]. by split.
Qed.
End collect_proofs.

(** The steps that change what a thread keeps true. *)
Section step_proofs.
Context {R : Type} (named : string → Prop) (X X' : list R → list (Z * Z) → Z → Prop).
Notation ends := (Threads.ends (@tick R)).

Lemma ends_take_record r :
  (∀ rs reps c, X rs reps c → X' (rs ++ [r]) reps c) →
  ends (take_record r) (Good named X BUFFER_SIZE) (λ _, Good named X' (S BUFFER_SIZE)).
Proof.
  intros HX s (Hr & Hlen & Hs). unfold take_record. rewrite decide_True by done.
  unfold note, st_bind, st_modify. eexists _, (). split; [reflexivity|]. split; [done|]. split_and!; cbn.
  - by apply replays_take.
  - rewrite length_app. cbn. lia.
  - unfold taken, replies in *. rewrite !omap_app. cbn. rewrite app_nil_r. by apply HX.
Qed.
Lemma ends_reply w0 w1 n :
  (∀ rs reps c, X rs reps c → X' rs (reps ++ [(w0, w1)]) c) →
  ends (note (Reply w0 w1)) (Good named X n) (λ _, Good named X' n).
Proof.
  intros HX s (Hr & Hlen & Hs). unfold note, st_modify. eexists _, (). split; [reflexivity|].
  split; [done|]. split_and!; cbn; [by apply replays_reply|done|].
  unfold taken, replies in *. rewrite !omap_app. cbn. rewrite app_nil_r. by apply HX.
Qed.
Lemma ends_counter f n :
  (∀ rs reps c, X rs reps c → X' rs reps (f c)) →
  ends (st_modify (λ s, s <| counter ::= f |>)) (Good named X n) (λ _, Good named X' n).
Proof.
  intros HX s (Hr & Hlen & Hs). eexists _, (). split; [reflexivity|]. split; [done|]. split_and!; [done..|].
  by apply HX.
Qed.
Lemma ends_X {A} (c : st_err (collector R) A) P n :
  (∀ rs reps c, X rs reps c → X' rs reps c) →
  ends c P (λ _, Good named X n) → ends c P (λ _, Good named X' n).
Proof.
  intros HX Hc. eapply ends_weaken; [exact Hc|done|]. intros a s (? & ? & ?). split_and!; [done..|by apply HX].
Qed.
End step_proofs.

(** ** The trigger thread *)
Section trigger_proofs.
Context (drv : driver) (sh : shared) (h : handler) (stop : nat).
Hypothesis Hstop : ∀ t, sh_running sh t = bool_decide (t < stop)%nat.

(** The names a trigger file may have: the run's first file, or one of a later
    segment on a disk the run was on. *)
Definition trigger_file_of (name : string) : Prop :=
  name = trigger_name h (data_basedir h) 0 ∨
  ∃ t, name = trigger_name h (sh_place sh t).1 (sh_place sh t).2.
(** The counter is what the card still has to send: 16 bytes a record. *)
Definition countdown (lag : Z) (rs : list (Z * Z)) (_ : list (Z * Z)) (c : Z) : Prop :=
  c = u64 (0xFFFFFF - 16 * (Z.of_nat (length rs) - lag)).
Notation Inv := (Good trigger_file_of (countdown 0) BUFFER_SIZE).
Notation ends := (Threads.ends (@tick (Z * Z))).

Lemma trigger_places t : trigger_file_of (trigger_name h (sh_place sh t).1 (sh_place sh t).2).
Proof. right. by exists t. Qed.

Lemma ends_trigger_switch : ends (trigger_switch sh h) Inv (λ _, Inv).
Proof.
  apply ends_disk_switch; [apply trigger_places|].
  eapply ends_weaken; [apply ends_flush|done|]. by intros a s [? _].
Qed.

Lemma ends_read_record : ends (read_record drv) Inv (λ _, Inv).
Proof.
  unfold read_record. do 2 (eapply ends_bind; [apply ends_collector_bus|intros ?; cbv beta]).
  eapply ends_bind; [apply (ends_take_record _ _ (countdown 1))|intros ?; cbv beta].
  { unfold countdown. intros rs _ c ->. rewrite length_app. cbn. do 2 f_equal. lia. }
  eapply ends_bind; [apply ends_flush_if_full|intros ?; cbv beta].
  apply ends_counter. unfold countdown, u64. intros rs _ c ->. rewrite Zminus_mod_idemp_l. f_equal. lia.
Qed.

Lemma look_sh_running s :
  Inv s → ∃ s', look sh sh_running s = (s', Some (bool_decide (tick s < stop)%nat)) ∧
    tick s' = S (tick s) ∧ Inv s'.
Proof. intros Hs. eexists. split; [unfold look; by rewrite Hstop|]. split; [done|]. by destruct Hs as (? & ? & ?). Qed.

Lemma ends_read_ctr : ends (read_trig_data_ctr drv) Inv (λ _, Inv).
Proof.
  unfold read_trig_data_ctr. eapply ends_bind; [apply ends_collector_bus|intros ?; cbv beta]. apply ends_pure.
Qed.

Lemma ends_drain ctr fuel :
  ends (drain drv sh h ctr fuel) (λ s, Inv s ∧ 0 < fuel ∧ stop < tick s + fuel)%nat (λ _, Inv).
Proof.
  revert ctr. induction fuel as [|fuel IH]; intros ctr s (Hs & Hpos & Hfuel); [lia|]. cbn [drain].
  destruct (look_sh_running s Hs) as (s1 & E & Ht & Hs1). unfold st_bind at 1. rewrite E.
  unfold st_bind at 1. cbn [get]. case_bool_decide as Hlt; cbn [andb negb].
  2: { exists s1, (). split; [done|]. split; [lia|done]. }
  case_match; [exists s1, (); split; [done|]; split; [lia|done]|].
  assert (ends (trigger_switch sh h ;;~ read_record drv ;;~ read_trig_data_ctr drv) Inv (λ _, Inv)) as Hbody.
  { eapply ends_bind; [apply ends_trigger_switch|intros ?; cbv beta].
    eapply ends_bind; [apply ends_read_record|intros ?; cbv beta]. apply ends_read_ctr. }
  destruct (Hbody s1 Hs1) as (s2 & ctr' & E2 & Ht2 & Hs2).
  destruct (IH ctr' s2) as (s3 & [] & E3 & Ht3 & Hs3). { split; [done|]. lia. }
  exists s3, (). split; [|split; [lia|done]]. rewrite <-E3. revert E2. unfold st_bind.
  destruct (trigger_switch sh h s1) as [t1 [[]|]]; [|done].
  destruct (read_record drv t1) as [t2 [[]|]]; [|done]. by intros ->.
Qed.

Lemma ends_trigger_loop drain_fuel fuel :
  (stop < drain_fuel)%nat →
  ends (trigger_loop drv sh h drain_fuel fuel) (λ s, Inv s ∧ 0 < fuel ∧ stop < tick s + fuel)%nat (λ _, Inv).
Proof.
  intros Hdrain. induction fuel as [|fuel IH]; intros s (Hs & Hpos & Hfuel); [lia|]. cbn [trigger_loop].
  destruct (look_sh_running s Hs) as (s1 & E & Ht & Hs1). unfold st_bind at 1. rewrite E.
  case_bool_decide as Hlt; cbn [negb]; [|exists s1, (); split; [done|]; split; [lia|done]].
  destruct (ends_trigger_switch s1 Hs1) as (s2 & [] & E2 & Ht2 & Hs2). unfold st_bind at 1. rewrite E2.
  destruct (ends_read_ctr s2 Hs2) as (s3 & ctr & E3 & Ht3 & Hs3). unfold st_bind at 1. rewrite E3.
  destruct (ends_drain ctr drain_fuel s3) as (s4 & [] & E4 & Ht4 & Hs4). { split; [done|]. lia. }
  unfold st_bind at 1. rewrite E4.
  destruct (look_sh_running s4 Hs4) as (s5 & E5 & Ht5 & Hs5). unfold st_bind at 1. rewrite E5.
  case_bool_decide as Hlt5; cbn [negb]; [|exists s5, (); split; [done|]; split; [lia|done]].
  destruct (IH s5) as (s6 & [] & E6 & Ht6 & Hs6). { split; [done|]. lia. }
  exists s6, (). rewrite E6. split; [done|]. split; [lia|done].
Qed.

Lemma ends_start_receiver : ends (start_trigger_receiver drv) Inv (λ _, Inv).
Proof.
  unfold start_trigger_receiver. do 3 (eapply ends_bind; [apply ends_collector_bus|intros ?; cbv beta]). apply ends_pure.
Qed.
(** The first file is open, the counter full. *)
Lemma ends_start_trigger p :
  ∃ s' u, open_file sh (trigger_name h (data_basedir h) 0)
    ((new_collector p) <| counter := 0xFFFFFF |>) = (s', Some u) ∧ Inv s' ∧ tick s' = 1%nat.
Proof.
  eexists _, (). split; [reflexivity|]. split; [|done]. split_and!; cbn; [|unfold BUFFER_SIZE; lia|done].
  apply replays_first. by left.
Qed.

(** C10. A trigger thread that is stopped returns, whatever the card answers and
    however often the disk changes, without a store out of its array. Every record
    read from the card was written to the file open at that time or, when that
    file could not be opened, dropped, in the order read and once; if every file
    could be opened all of them were written. No write has more than 250 records,
    every file is the run's or one of its later segments', and the counter went
    down by 16 bytes a record. *)
Theorem TriggerDMARead_conserves p fuel :
  (stop < fuel)%nat →
  ∃ s, TriggerDMARead drv sh h fuel (new_collector p) = (s, Some ()) ∧ buffer s = [] ∧
    taken (log s) = flushed (log s) ∧ (opens_ok (log s) → written (log s) = taken (log s)) ∧
    writes_bounded (log s) ∧ opens_named trigger_file_of (log s) ∧
    counter s = u64 (0xFFFFFF - 16 * Z.of_nat (length (taken (log s)))).
Proof.
  intros Hfuel. unfold TriggerDMARead.
  destruct (ends_start_trigger p) as (s1 & [] & E1 & Hs1 & _).
  unfold st_bind at 1, st_modify. unfold st_bind at 1. rewrite E1.
  assert (ends (start_trigger_receiver drv ;;~ trigger_loop drv sh h fuel fuel ;;~ flush)
    Inv (λ _ s, Inv s ∧ buffer s = [])) as Hrest.
  { intros s Hs. destruct (ends_start_receiver s Hs) as (s2 & [] & E2 & Ht2 & Hs2).
    destruct (ends_trigger_loop fuel fuel Hfuel s2) as (s3 & [] & E3 & Ht3 & Hs3). { split; [done|]. lia. }
    destruct (ends_flush trigger_file_of (countdown 0) s3 Hs3) as (s4 & [] & E4 & Ht4 & Hs4).
    exists s4, (). unfold st_bind. rewrite E2, E3, E4. split; [done|]. split; [lia|done]. }
  destruct (Hrest s1 Hs1) as (s & [] & E & _ & (Hr & _ & Hc) & Hb).
  exists s. rewrite Hb in Hr. pose proof (replays_conserves _ _ _ _ Hr) as Hcons. rewrite app_nil_r in Hcons.
  split; [exact E|]. split; [done|]. split; [done|].
  split; [intros Hok; rewrite Hcons; symmetry; by eapply replays_all_written|].
  split; [by eapply replays_bounded|]. split; [by eapply replays_named|].
  unfold countdown in Hc. by rewrite Z.sub_0_r in Hc.
Qed.
End trigger_proofs.

(** ** The PPS thread *)
Section pps_reference.
Context (h : handler).
Implicit Types v : list (Z * Z).

(** The reference: of the replies that are valid, those whose time stamp differs
    from the one before; the first only sets the reference. A reply is valid when
    bits 24 to 31 of its first word are clear and the frame below them is not 0. *)
Definition reply_ts (r : Z * Z) : Z := u64 (r.1 mod 2 ^ 24 * u64 (Z.of_N (drift_size h) + 1) + r.2 mod 2 ^ 12).
Definition reply_fields (r : Z * Z) : Z * Z * Z := (r.1 mod 2 ^ 24, r.2 mod 2 ^ 12, r.2 / 2 ^ 16 mod 2 ^ 3).
Definition genuine (r : Z * Z) : Prop := r.1 / 2 ^ 24 mod 2 ^ 8 = 0 ∧ r.1 mod 2 ^ 24 ≠ 0.
#[export] Instance genuine_dec r : Decision (genuine r).
Proof. unfold genuine. apply _. Defined.
Definition valid_replies v : list (Z * Z) := filter genuine v.
Definition edge (ab : (Z * Z) * (Z * Z)) : option (Z * Z * Z) :=
  if decide (reply_ts ab.1 = reply_ts ab.2) then None else Some (reply_fields ab.2).
Definition edges_of v : list (Z * Z * Z) := omap edge (zip v (tail v)).
Definition pps_edges v : list (Z * Z * Z) := edges_of (valid_replies v).
Definition sample_fields (s : pps_sample) : Z * Z * Z := (pps_frame s, pps_ticks s, pps_div s).

Lemma frame_of_mod w : frame_of w = w mod 2 ^ 24.
Proof. unfold frame_of. by rewrite <- (Z.land_ones w 24). Qed.
Lemma sample_of_mod w : sample_of w = w mod 2 ^ 12.
Proof. unfold sample_of. by rewrite <- (Z.land_ones w 12). Qed.
Lemma div_of_mod w : div_of w = w / 2 ^ 16 mod 2 ^ 3.
Proof. unfold div_of. by rewrite Z.shiftr_land, <- (Z.land_ones _ 3), <- Z.shiftr_div_pow2. Qed.
Lemma timestamp_of_ts w0 w1 : timestamp_of h w0 w1 = reply_ts (w0, w1).
Proof. unfold timestamp_of, reply_ts. by rewrite frame_of_mod, sample_of_mod. Qed.
Lemma valid_reply_genuine w0 w1 : valid_reply w0 = bool_decide (genuine (w0, w1)).
Proof.
  apply eq_true_iff_eq. unfold valid_reply. rewrite frame_of_mod, bool_decide_eq_true. unfold genuine.
  rewrite andb_true_iff, negb_true_iff, Z.eqb_eq, Z.eqb_neq. cbn [fst].
  assert (Z.land w0 0xFF000000 = w0 / 2 ^ 24 mod 2 ^ 8 * 2 ^ 24) as ->; [|lia].
  rewrite <- Z.land_ones, <- Z.shiftr_div_pow2, <- Z.shiftl_mul_pow2, Z.shiftl_land by done.
  apply Z.bits_inj'. intros n Hn. change 0xFF000000 with (Z.shiftl (Z.ones 8) 24). rewrite !Z.land_spec.
  destruct (decide (n < 24)).
  - by rewrite (Z.shiftl_spec_low (Z.ones 8)), !andb_false_r by done.
  - rewrite (Z.shiftl_spec (Z.shiftr w0 24)), Z.shiftr_spec by lia. by replace (n - 24 + 24) with n by lia.
Qed.

Lemma edges_of_snoc v x :
  edges_of (v ++ [x]) = edges_of v ++ match last v with Some a => option_list (edge (a, x)) | None => [] end.
Proof.
  unfold edges_of. induction v as [|a v IH]; [done|]. destruct v as [|b v].
  - cbn. by destruct (edge (a, x)).
  - change (last (a :: b :: v)) with (last (b :: v)). cbn [app tail zip zip_with omap list_omap] in *.
    rewrite IH. by destruct (edge (a, b)).
Qed.

(** What the thread knows of the replies so far. *)
Definition pps_state (last_ts : option Z) (lag : Z) (rs : list pps_sample) v (c : Z) : Prop :=
  sample_fields <$> rs = pps_edges v ∧ c = Z.of_nat (length rs) - lag ∧
  last_ts = reply_ts <$> last (valid_replies v).
(** A reply has been read, and not been looked at yet. *)
Definition pps_reading (last_ts : option Z) (w0 w1 : Z) (rs : list pps_sample) v (c : Z) : Prop :=
  ∃ v', v = v' ++ [(w0, w1)] ∧ pps_state last_ts 0 rs v' c.

Lemma valid_replies_snoc v w0 w1 :
  valid_replies (v ++ [(w0, w1)]) = valid_replies v ++ if valid_reply w0 then [(w0, w1)] else [].
Proof.
  unfold valid_replies. rewrite filter_app, (valid_reply_genuine w0 w1). f_equal.
  case_bool_decide; [by rewrite filter_cons_True|by rewrite filter_cons_False].
Qed.

Lemma pps_invalid last_ts w0 w1 rs v c :
  valid_reply w0 = false → pps_reading last_ts w0 w1 rs v c → pps_state last_ts 0 rs v c.
Proof.
  intros Hw (v' & -> & Hrs & Hc & Hlast). unfold pps_state, pps_edges.
  by rewrite valid_replies_snoc, Hw, app_nil_r.
Qed.
Lemma pps_first w0 w1 rs v c :
  valid_reply w0 = true → pps_reading None w0 w1 rs v c → pps_state (Some (reply_ts (w0, w1))) 0 rs v c.
Proof.
  intros Hw (v' & -> & Hrs & Hc & Hlast). unfold pps_state, pps_edges.
  rewrite valid_replies_snoc, Hw, edges_of_snoc, last_snoc. destruct (last (valid_replies v')); [done|].
  by rewrite app_nil_r.
Qed.
Lemma pps_same w0 w1 rs v c :
  valid_reply w0 = true → pps_reading (Some (reply_ts (w0, w1))) w0 w1 rs v c →
  pps_state (Some (reply_ts (w0, w1))) 0 rs v c.
Proof.
  intros Hw (v' & -> & Hrs & Hc & Hlast). unfold pps_state, pps_edges.
  rewrite valid_replies_snoc, Hw, edges_of_snoc, last_snoc. destruct (last (valid_replies v')) as [a|]; [|done].
  cbn in Hlast. unfold edge. rewrite decide_True by (cbn; congruence). cbn. by rewrite app_nil_r.
Qed.
Lemma pps_new last_ts w0 w1 now rs v c :
  valid_reply w0 = true → last_ts ≠ reply_ts (w0, w1) → pps_reading (Some last_ts) w0 w1 rs v c →
  pps_state (Some (reply_ts (w0, w1))) 1 (rs ++ [PPSSample now (frame_of w0) (sample_of w1) (div_of w1)]) v c.
Proof.
  intros Hw Hne (v' & -> & Hrs & Hc & Hlast). unfold pps_state, pps_edges.
  rewrite valid_replies_snoc, Hw, edges_of_snoc, last_snoc. destruct (last (valid_replies v')) as [a|]; [|done].
  cbn in Hlast. unfold edge. rewrite decide_False by (cbn; congruence). rewrite fmap_app, Hrs, length_app.
  cbn -[Z.modulo Z.div]. unfold sample_fields, reply_fields.
  cbn [pps_frame pps_ticks pps_div fst snd]. rewrite frame_of_mod, sample_of_mod, div_of_mod.
  split_and!; [done|lia|done].
Qed.
End pps_reference.

Section pps_proofs.
Context (drv : driver) (sh : shared) (h : handler) (stop : nat).
Hypothesis Hstop : ∀ t, sh_running sh t = bool_decide (t < stop)%nat.
Notation ends := (Threads.ends (@tick pps_sample)).

Definition pps_file_of (name : string) : Prop :=
  name = pps_name h (data_basedir h) 0 ∨ ∃ t, name = pps_name h (sh_place sh t).1 (sh_place sh t).2.
Notation Inv last_ts := (Good pps_file_of (pps_state h last_ts 0) BUFFER_SIZE).

Lemma ends_pps_switch last_ts :
  ends (handle_disk_switch sh (pps_name h) pps_leave) (Inv last_ts) (λ _, Inv last_ts).
Proof.
  apply ends_disk_switch; [intros t; right; by exists t|]. intros s Hs. unfold pps_leave.
  destruct (file s); [|by exists s, ()]. destruct (ends_flush _ _ s Hs) as (s' & [] & E & Ht & Hs' & _).
  by exists s', ().
Qed.

Lemma ends_store_sample last_ts w0 w1 :
  valid_reply w0 = true → last_ts ≠ reply_ts h (w0, w1) →
  ends (store_sample sh w0 w1) (Good pps_file_of (pps_reading h (Some last_ts) w0 w1) BUFFER_SIZE)
    (λ _, Inv (Some (reply_ts h (w0, w1)))).
Proof.
  intros Hw Hne. unfold store_sample. eapply ends_bind; [apply ends_look|intros now; cbv beta].
  eapply ends_bind; [apply (ends_take_record _ _ (pps_state h (Some (reply_ts h (w0, w1))) 1))|intros ?; cbv beta].
  { intros rs v c. by apply pps_new. }
  eapply ends_bind; [apply (ends_counter _ _ (pps_state h (Some (reply_ts h (w0, w1))) 0))|intros ?; cbv beta].
  { intros rs v c (? & -> & ?). split_and!; [done|lia|done]. }
  apply ends_flush_if_full.
Qed.

Lemma ends_read_pps arr last_ts :
  ends (read_pps drv h arr) (Inv last_ts)
    (λ words, Good pps_file_of (pps_reading h last_ts (default 0 (words !! 0%nat)) (default 0 (words !! 1%nat))) BUFFER_SIZE).
Proof.
  unfold read_pps. do 2 (eapply ends_bind; [apply ends_collector_bus|intros ?; cbv beta]).
  eapply ends_bind; [apply ends_collector_bus|intros r; cbv beta zeta].
  eapply ends_bind; [apply (ends_reply _ _ (pps_reading h last_ts (default 0 (r.2 !! 0%nat)) (default 0 (r.2 !! 1%nat))))|intros ?; cbv beta].
  { intros rs v c Hs. by exists v. }
  apply (ends_ret _ (λ words, Good pps_file_of (pps_reading h last_ts (default 0 (words !! 0%nat))
    (default 0 (words !! 1%nat))) BUFFER_SIZE)).
Qed.

Lemma ends_pps_pass arr last_ts :
  ends (pps_pass drv sh h arr last_ts) (Inv last_ts) (λ r, Inv r.2).
Proof.
  unfold pps_pass. eapply ends_bind; [apply ends_pps_switch|intros ?; cbv beta].
  eapply ends_bind; [apply ends_read_pps|intros words; cbv beta zeta].
  set (w0 := default 0 (words !! 0%nat)). set (w1 := default 0 (words !! 1%nat)).
  assert (∀ ts, (∀ rs v c, pps_reading h last_ts w0 w1 rs v c → pps_state h ts 0 rs v c) →
    ends (st_ret (words, ts)) (Good pps_file_of (pps_reading h last_ts w0 w1) BUFFER_SIZE) (λ r, Inv r.2)) as Hret.
  { intros ts HX s (? & ? & Hs). exists s, (words, ts). split; [done|]. split; [done|]. split_and!; [done..|]. by apply HX. }
  destruct (valid_reply w0) eqn:Hw; cbn [negb].
  2: { apply Hret. intros rs v c. by apply pps_invalid. }
  rewrite timestamp_of_ts. destruct last_ts as [last_ts|].
  2: { apply Hret. intros rs v c. by apply pps_first. }
  destruct (Z.eqb_spec (reply_ts h (w0, w1)) last_ts) as [<-|Hne].
  - apply Hret. intros rs v c. by apply pps_same.
  - eapply ends_bind; [apply ends_store_sample; done|intros ?; cbv beta].
    apply (ends_ret (words, Some (reply_ts h (w0, w1))) (λ r, Inv r.2)).
Qed.

Lemma ends_pps_loop arr last_ts fuel :
  ends (pps_loop drv sh h arr last_ts fuel) (λ s, Inv last_ts s ∧ 0 < fuel ∧ stop < tick s + fuel)%nat
    (λ _ s, ∃ ts, Inv ts s).
Proof.
  revert arr last_ts. induction fuel as [|fuel IH]; intros arr last_ts s (Hs & Hpos & Hfuel); [lia|].
  cbn [pps_loop]. unfold st_bind at 1, look. rewrite Hstop. set (s1 := s <| tick ::= S |>).
  assert (Inv last_ts s1) as Hs1 by by destruct Hs as (? & ? & ?).
  assert (tick s1 = S (tick s)) as Ht1 by done.
  case_bool_decide as Hlt; cbn [negb]; [|exists s1, (); split; [done|]; split; [lia|by exists last_ts]].
  destruct (ends_pps_pass arr last_ts s1 Hs1) as (s2 & [arr' ts'] & E2 & Ht2 & Hs2).
  unfold st_bind. rewrite E2.
  destruct (IH arr' ts' s2) as (s3 & [] & E3 & Ht3 & Hs3). { split; [done|]. lia. }
  exists s3, (). split; [exact E3|]. split; [lia|done].
Qed.

(** C14. A PPS thread that is stopped returns, without a store out of its array.
    The records it takes are those of the reference: of the valid replies of the
    time stamp register, the ones whose time stamp differs from that of the valid
    reply before; the PPS counter counts them. Each is written, in order and once,
    to the file open at that time, or dropped when there is none; if every file
    could be opened all of them are written. *)
Theorem PollTriggerPPS_edges p fuel :
  (stop < fuel)%nat →
  ∃ s, PollTriggerPPS drv sh h fuel (new_collector p) = (s, Some ()) ∧ buffer s = [] ∧
    sample_fields <$> taken (log s) = pps_edges h (replies (log s)) ∧
    counter s = Z.of_nat (length (taken (log s))) ∧
    taken (log s) = flushed (log s) ∧ (opens_ok (log s) → written (log s) = taken (log s)) ∧
    writes_bounded (log s) ∧ opens_named pps_file_of (log s).
Proof.
  intros Hfuel. unfold PollTriggerPPS.
  assert (∃ s1, open_file sh (pps_name h (data_basedir h) 0) (new_collector p) = (s1, Some ()) ∧ Inv None s1)
    as (s1 & E1 & Hs1).
  { eexists. split; [reflexivity|]. split_and!; cbn; [|unfold BUFFER_SIZE; lia|done]. apply replays_first. by left. }
  unfold st_bind at 1. rewrite E1.
  destruct (ends_pps_loop [0; 0] None fuel s1) as (s2 & [] & E2 & _ & ts & Hs2). { split; [done|]. lia. }
  destruct (ends_flush _ _ s2 Hs2) as (s & [] & E & _ & (Hr & _ & Hx & Hc & _) & Hb).
  exists s. rewrite Hb in Hr. pose proof (replays_conserves _ _ _ _ Hr) as Hcons. rewrite app_nil_r in Hcons.
  split; [unfold st_bind; by rewrite E2|]. split; [done|]. split; [exact Hx|]. split; [lia|]. split; [done|].
  split; [intros Hok; rewrite Hcons; symmetry; by eapply replays_all_written|].
  split; [by eapply replays_bounded|by eapply replays_named].
Qed.
End pps_proofs.


(** ** Stopped threads, evaluated *)
(** A card whose register values grow with the operations made on it. *)
Definition counting_driver : driver := {|
  drv_status _ := 0; drv_open _ := Some 0%nat; drv_lock_addr _ := 0x1000;
  drv_value ops := Z.of_nat (length ops) / 14 * 2 ^ 32 + 5;
  drv_recv_data _ := []; drv_user_continues _ := false
|}.
(** The disk changes once. *)
Definition demo_shared : shared := {|
  sh_running t := bool_decide (t < 16)%nat; sh_segment t := if decide (t < 6)%nat then 0%N else 1%N;
  sh_place _ := ("/b"%string, 1%N); sh_open _ _ := true; sh_now := Z.of_nat
|}.

Example demo_trigger_files :
  let '(s, r) := TriggerDMARead counting_driver demo_shared new_handler 17 (new_collector new_pcie) in
  r = Some () ∧ length (taken (log s)) = 6%nat ∧
  omap (λ e, match e with Write name rs => Some (name, length rs) | _ => None end) (log s) =
    [("/trigger_data/trigger_raw_0.bin", 1%nat); ("/b/trigger_data/trigger_raw_0_1.bin", 5%nat)]%string.
Proof. vm_compute. done. Qed.

Lemma TriggerDMARead_conserves_witness :
  ∃ s, TriggerDMARead counting_driver demo_shared new_handler 17 (new_collector new_pcie) = (s, Some ()) ∧
    taken (log s) = flushed (log s) ∧ writes_bounded (log s).
Proof.
  destruct (TriggerDMARead_conserves counting_driver demo_shared new_handler 16 (λ t, eq_refl) new_pcie 17
    ltac:(lia)) as (s & E & _ & Hc & _ & Hb & _).
  exists s. split; [exact E|]. split; [exact Hc|exact Hb].
Defined.

Example demo_pps_records :
  let '(s, r) := PollTriggerPPS counting_driver demo_shared new_handler 17 (new_collector new_pcie) in
  r = Some () ∧ length (replies (log s)) = 6%nat ∧ length (taken (log s)) = 3%nat.
Proof. vm_compute. done. Qed.

Lemma PollTriggerPPS_edges_witness :
  ∃ s, PollTriggerPPS counting_driver demo_shared new_handler 17 (new_collector new_pcie) = (s, Some ()) ∧
    sample_fields <$> taken (log s) = pps_edges new_handler (replies (log s)).
Proof.
  destruct (PollTriggerPPS_edges counting_driver demo_shared new_handler 16 (λ t, eq_refl) new_pcie 17
    ltac:(lia)) as (s & E & _ & Hs & _).
  exists s. split; [exact E|exact Hs].
Defined.
