(* ===== verification/Controller.v ===== *)
(** * The controller: [Controller] and [RunStopCoordinator]
    (src/src/control/controller.cpp, controller.h, run_stop_coordinator.cpp, .h)

    Commands from the hub move the controller through its states and configure
    the hardware; a second thread polls the status every two seconds and stops a
    run whose disks are full. Classes declared in submodules (the command codes,
    the ground parameters, the monitor) are parameters; what is sent to the
    monitor and to the hub is recorded. An exception that leaves a handler, or a
    call of [std::terminate], is [None]. *)
From Stdlib Require Import Lia ZArith NArith String.
From stdpp Require Import base tactics list numbers option strings gmap.
From S2P Require Import Prelude CppString StorageUtils Config Json SpscQueue DataHandler Pcie HwConsts HardwareDevice TriggerControl XmitControl ChargeFem LightFem Status.
Local Open Scope Z_scope.

Inductive State := kIdle | kConfigured | kRunning | kStopped.
#[export] Instance State_eq_dec : EqDecision State.
Proof. solve_decision. Defined.
Definition state_code (s : State) : Z :=
  match s with kIdle => 0 | kConfigured => 1 | kRunning => 2 | kStopped => 3 end.

Inductive RunStopReason := kNone | kDiskFull.
#[export] Instance RunStopReason_eq_dec : EqDecision RunStopReason.
Proof. solve_decision. Defined.

(** [GetStateName]. *)
Definition GetStateName (s : State) : string :=
  match s with
  | kIdle => "Idle" | kConfigured => "Configure" | kRunning => "Running" | kStopped => "Stopped"
  end.

(** The command codes, declared in a submodule. *)
Class CommandCodes := {
  TPC_Configure : Z; TPC_Start_Run : Z; TPC_Stop_Run : Z; TPC_Reset_Run : Z;
  TPC_Query_Hardware_Status : Z; COM_HeartBeat : Z; TPC_Hardware_Status : Z;
  command_codes_differ : NoDup [TPC_Configure; TPC_Start_Run; TPC_Stop_Run; TPC_Reset_Run;
                                TPC_Query_Hardware_Status; COM_HeartBeat]
}.

(** [TpcConfigs], declared in a submodule: what its getters return. *)
Record tpc_params := TpcParams {
  getSummedPeakThresh : Z; getChannelMultiplicity : Z; getRoiDelay0 : Z; getRoiDelay1 : Z;
  getRoiPrecount : Z; getRoiPeakWindow : Z; getEnableTop : Z; getEnableMiddle : Z;
  getEnableBottom : Z; getNumRoiWords : Z; getRoiDeadtime : Z; getUnbiasedLightSamples : Z;
  getFifoBlocksize : Z; getDiscThreshold0 : list Z; getDiscThreshold1 : list Z;
  getTriggerSource : string; getSoftwareTriggerRateHz : Z; getTpcDeadTime : Z; getDriftSize : Z;
  getDmaBufferkB : Z; getPrescale : list Z; getLightTrigPrescale : Z
}.
#[export] Instance tpc_params_eta : RecordEta tpc_params := λ t,
  TpcParams (getSummedPeakThresh t) (getChannelMultiplicity t) (getRoiDelay0 t) (getRoiDelay1 t)
    (getRoiPrecount t) (getRoiPeakWindow t) (getEnableTop t) (getEnableMiddle t)
    (getEnableBottom t) (getNumRoiWords t) (getRoiDeadtime t) (getUnbiasedLightSamples t)
    (getFifoBlocksize t) (getDiscThreshold0 t) (getDiscThreshold1 t)
    (getTriggerSource t) (getSoftwareTriggerRateHz t) (getTpcDeadTime t) (getDriftSize t)
    (getDmaBufferkB t) (getPrescale t) (getLightTrigPrescale t).

(** What is stored in the monitor and sent to the hub; a packet holds the
    monitor's values when it is sent. *)
Inductive telem :=
  | Monitor (c : monitor_call)
  | ErrorBitWord (w : Z)
  | ReadoutState (s : State)
  | LastCommand (command : Z)
  | LastCommandStatus (acknowledge : Z)
  | Packet (code : Z)
  | Printed.

(** Calls to the host, besides those of the data handler. *)
Inductive host_call :=
  | RunSetupScript
  | OpenRunIdForWriting
  | WriteDataBaseDirConf (dir : string)
  | WriteConfigLog (file : string)
  | CreateDataThread.
Record host := Host {
  host_os : list host_call → os;
  host_run_id_writable : list host_call → bool;
  host_config : list host_call → string → option document;   (** None: no JSON document *)
  host_files : string → option firmware;
  host_thread_ok : list host_call → bool;                     (** no exception from std::thread *)
  host_join : list host_call → handler → bench → handler * bench (** the threads' last steps *)
}.

Record controller := Controller {
  current_state_ : State;
  is_configured_ : bool;
  print_status_ : bool;
  run_id_ : Z;
  data_basedir_ : string;
  readout_basedir_ : string;
  board_slots_ : list Z;
  setup_config_ : document;
  config_ : document;
  tpc_configs_ : tpc_params;
  pending_reason_ : RunStopReason;
  data_thread_ : bool;               (** data_thread_.joinable() *)
  bench_ : bench;                    (** *pcie_interface_, *buffers_ *)
  trigger_ctrl_ : trigger_control;
  data_handler_ : handler;
  status_ : status;
  (** /run_number/run_id.txt: None when it cannot be opened, then the number
      extracted from it, if any *)
  run_id_file : option (option Z);
  telemetry : list telem;
  host_calls : list host_call
}.
#[export] Instance controller_eta : RecordEta controller := λ s,
  Controller (current_state_ s) (is_configured_ s) (print_status_ s) (run_id_ s) (data_basedir_ s)
    (readout_basedir_ s) (board_slots_ s) (setup_config_ s) (config_ s) (tpc_configs_ s)
    (pending_reason_ s) (data_thread_ s) (bench_ s) (trigger_ctrl_ s) (data_handler_ s) (status_ s)
    (run_id_file s) (telemetry s) (host_calls s).

Section controller.
Context (drv : driver) (sys : kernel) (host : host) `{ErrorBits} `{CommandCodes}.
(** [TOTAL_LIGHT_CHANNELS] and [TpcConfigs::deserialize] (false when it throws)
    are declared in a submodule; [uninit] is what the arrays on the stack hold. *)
Context (TOTAL_LIGHT_CHANNELS : nat) (deserialize : list Z → tpc_params → tpc_params * bool).
Context (uninit : list Z).
Notation ctl := (st_err controller).

Definition host_do (c : host_call) : ctl () := st_modify (λ s, s <| host_calls ::= λ l, l ++ [c] |>).
Definition report (t : telem) : ctl () := st_modify (λ s, s <| telemetry ::= λ l, l ++ [t] |>).
Definition get_field {A} (f : controller → A) : ctl A := λ s, (s, Some (f s)).
Definition os_of (s : controller) : os := host_os host (host_calls s).
Definition on_bench {A} (c : st_err bench A) : ctl A := λ s,
  let '(b, a) := c (bench_ s) in (s <| bench_ := b |>, a).
Definition on_pcie {A} (c : st pcie A) : ctl A := on_bench (on_card c).

(** ** The run number *)
Definition PersistRunId : ctl bool := λ s,
  match run_id_file s with
  | None => (s <| run_id_ := 0 |>, Some false)
  | Some content =>
      let s := s <| run_id_ := match content with None => 0 | Some n => u32 (n + 1) end |> in
      let writable := host_run_id_writable host (host_calls s) in
      let s := s <| host_calls ::= λ l, l ++ [OpenRunIdForWriting] |> in
      if writable then (s <| run_id_file := Some (Some (run_id_ s)) |>, Some true)
      else (s <| run_id_ := 0 |>, Some false)
  end.

(** ** The disk of a run *)
Definition refuse_disk : ctl bool := report (ErrorBitWord (Z.of_N bit_disk_full)) ;;~ st_ret false.
Definition accept_pick (pick : PickResult) : ctl bool :=
  if negb (ok pick) then refuse_disk
  else
    st_modify (λ s, s <| data_basedir_ := path pick |>) ;;~
    host_do (WriteDataBaseDirConf (path pick)) ;;~
    st_ret true.

Definition SelectNvmeDataDirForRun : ctl bool := λ s,
  let o := os_of s in
  if PickMaxFreeEnabled o then accept_pick (SelectNvmeDataDir o true kDiskRunStartMinFreeBytes) s
  else
    let current_free := GetFreeBytes o (data_basedir_ s) in
    let enough := match current_free with
                  | Some f => (kDiskRunStartMinFreeBytes <=? f)%N | None => false end in
    if enough then st_ret true s
    else
      match GetNvmeCandidatesFromEnv o with
      | c0 :: c1 :: _ => accept_pick (PickSsd0First o c0 c1 kDiskRunStartMinFreeBytes) s
      | _ => refuse_disk s
      end.

(** ** The configuration *)
Definition LoadConfig (config_file : string) : ctl (option document) := λ s,
  (s, Some (host_config host (host_calls s) config_file)).

Definition jints (l : list Z) : jvalue := JArray (JInt <$> l).
(** The number of channels to add, a [size_t]. *)
Definition extra_channels (n : nat) : nat :=
  N.to_nat (u64N (N.of_nat TOTAL_LIGHT_CHANNELS + 2 ^ 64 - N.of_nat n)).
Definition pad_thresholds (extra : nat) (l : list Z) : list Z := l ++ replicate extra 0xFFF.
Definition light_vector (z : Z) : jvalue := jints (replicate TOTAL_LIGHT_CHANNELS (u32 z)).

(** The stores of [SetConfigFromComm], in order. *)
Definition comm_light_fem (t : tpc_params) : list (string * string * jvalue) :=
  let extra := extra_channels (length (getDiscThreshold0 t)) in
  [("light_fem", "cosmic_summed_adc_thresh", JInt (getSummedPeakThresh t));
   ("light_fem", "cosmic_multiplicity", JInt (getChannelMultiplicity t));
   ("light_fem", "pmt_delay_0", JInt (getRoiDelay0 t));
   ("light_fem", "pmt_delay_1", JInt (getRoiDelay1 t));
   ("light_fem", "pmt_precount", light_vector (getRoiPrecount t));
   ("light_fem", "pmt_window", JInt (getRoiPeakWindow t));
   ("light_fem", "pmt_enable_top", JInt (getEnableTop t));
   ("light_fem", "pmt_enable_middle", JInt (getEnableMiddle t));
   ("light_fem", "pmt_enable_lower", JInt (getEnableBottom t));
   ("light_fem", "sipm_words", JInt (getNumRoiWords t));
   ("light_fem", "sipm_deadtime", light_vector (getRoiDeadtime t));
   ("light_fem", "pmt_gate_size", JInt (getUnbiasedLightSamples t));
   ("light_fem", "pmt_beam_size", JInt (getUnbiasedLightSamples t));
   ("light_fem", "pmt_blocksize", JInt (getFifoBlocksize t));
   ("light_fem", "channel_thresh0", jints (pad_thresholds extra (getDiscThreshold0 t)));
   ("light_fem", "channel_thresh1", jints (pad_thresholds extra (getDiscThreshold1 t)))].

Definition comm_trigger (t : tpc_params) : list (string * string * jvalue) :=
  [("trigger", "trigger_source", JString (getTriggerSource t));
   ("trigger", "software_trigger_rate_hz", JInt (getSoftwareTriggerRateHz t));
   ("trigger", "dead_time", JInt (getTpcDeadTime t));
   ("readout_windows", "timesize", JInt (getDriftSize t));
   ("data_handler", "dma_buffer_size_kb", JInt (getDmaBufferkB t))].

(** [prescales.at(i) = v], in the object the getter refers to. *)
Definition set_prescale (i : nat) (v : Z) : ctl () := λ s,
  if decide (i < length (getPrescale (tpc_configs_ s)))%nat
  then (s <| tpc_configs_ ::= λ t, t <| getPrescale ::= <[i := v]> |> |>, Some ())
  else (s, None).

(** [config] is the member [config_]; false when an exception was caught, and
    the caller's document becomes null. *)
Definition comm_stores : ctl () :=
  st_modify (λ s, s <| config_ ::= doc_sets (comm_light_fem (tpc_configs_ s)) |>) ;;~
  st_modify (λ s, s <| config_ ::= doc_sets (comm_trigger (tpc_configs_ s)) |>) ;;~
  t <~ get_field tpc_configs_ ;;
  set_prescale 1 (getLightTrigPrescale t) ;;~
  set_prescale 7 (getLightTrigPrescale t) ;;~
  st_modify (λ s, s <| config_ ::= doc_set "trigger" "prescale" (jints (getPrescale (tpc_configs_ s))) |>).

Definition SetConfigFromComm (config_vec : list Z) : ctl bool := λ s,
  let '(t, ok) := deserialize config_vec (tpc_configs_ s) in
  let s := s <| tpc_configs_ := t |> in
  if negb ok then (s, Some false)
  else match comm_stores s with
       | (s, Some _) => (s, Some true)
       | (s, None) => (s, Some false)
       end.
(** Without ground parameters: the light board's values, one for every channel. *)
Definition local_light (k : string) : ctl () :=
  v <~ get_field (λ s, doc_get (config_ s) "light_fem" k) ;;
  n <~ st_get (get_uint32 v) ;;
  st_modify (λ s, s <| config_ ::= doc_set "light_fem" k (light_vector n) |>).
(** [config_["trigger"]["prescale"].at(i) = v]. *)
Definition set_prescale_value (i : nat) : ctl () :=
  v <~ get_field (λ s, doc_get (config_ s) "trigger" "light_trig_prescale") ;;
  old <~ get_field (λ s, doc_get (config_ s) "trigger" "prescale") ;;
  match old with
  | JArray l =>
      if decide (i < length l)%nat
      then st_modify (λ s, s <| config_ ::= doc_set "trigger" "prescale" (JArray (<[i := v]> l)) |>)
      else st_get None
  | _ => st_get None
  end.
Definition SetLocalConfig : ctl () :=
  local_light "pmt_precount" ;;~ local_light "sipm_deadtime" ;;~
  local_light "channel_thresh0" ;;~ local_light "channel_thresh1" ;;~
  set_prescale_value 1 ;;~ set_prescale_value 7.

(** ** [Configure] *)
(** [config_[s][k].get<T>()]. *)
Definition cfg {A} (get : jvalue → option A) (s k : string) : ctl A :=
  v <~ get_field (λ c, doc_get (config_ c) s k) ;; st_get (get v).
Definition cfg_store (s k : string) (v : jvalue) : ctl () :=
  st_modify (λ c, c <| config_ ::= doc_set s k v |>).

(** What the run adds to the configuration. *)
Definition complete_config : ctl () := λ s,
  let run := to_string (Z.to_N (run_id_ s)) in
  (st_modify (λ s, s <| config_ ::= λ d, doc_update d (setup_config_ s) |>) ;;~
   host_do (WriteConfigLog (data_basedir_ s +:+ "/config_logs/run_" +:+ run +:+ ".json")) ;;~
   cfg_store "data_handler" "data_basedir" (JString (data_basedir_ s)) ;;~
   cfg_store "hardware" "readout_basedir" (JString (readout_basedir_ s)) ;;~
   cfg_store "data_handler" "subrun" (JInt (run_id_ s))) s.

Definition add_slot (k : string) (f : Z → Z) : ctl () :=
  n <~ cfg get_int "crate" k ;; st_modify (λ s, s <| board_slots_ ::= λ l, l ++ [f n] |>).
Definition add_board_slots : ctl () :=
  add_slot "xmit_slot" id ;;~ add_slot "charge_fem_slot" id ;;~
  add_slot "charge_fem_slot" (λ n, i32 (n + 1)) ;;~
  add_slot "last_charge_slot" id ;;~ add_slot "light_fem_slot" id.

Definition slot_ids : ctl (Z * Z) :=
  d <~ get_field config_ ;;
  if doc_contains d "controller" "slot_id_0" && doc_contains d "controller" "slot_id_1" then
    s0 <~ cfg get_int "controller" "slot_id_0" ;;
    if 0 <? s0 then s1 <~ cfg get_int "controller" "slot_id_1" ;; st_ret (s0, s1)
    else
      s1 <~ cfg get_int "controller" "slot_id_1" ;;
      st_ret (if 0 <? s1 then (s0, s1) else (1, 1))
  else st_ret (1, 1).

(** [if (ret_value != 0x0) setErrorBitWord(ret_value)], after each device. *)
Definition configured_by (c : ctl N) : ctl () :=
  ret_value <~ c ;; if (ret_value =? 0)%N then st_ret () else report (ErrorBitWord (Z.of_N ret_value)).
Definition configure_trigger (c : config) : ctl N := λ s,
  let '(s, r) := on_bench (TriggerControl.Configure drv c (trigger_ctrl_ s)) s in
  match r with
  | Some (t, ret) => (s <| trigger_ctrl_ := t |>, Some ret)
  | None => (s, None)
  end.
Definition configure_data_handler (c : config) : ctl N := λ s,
  let '(h, ret) := DataHandler.Configure sys c (data_handler_ s) in
  (s <| data_handler_ := h |>, Some ret).
(** [nword] is the value of the charge FEM's static variable of that name. *)
Definition configure_devices (nword : Z) : ctl () :=
  c <~ get_field (λ s, reader (config_ s)) ;;
  configured_by (on_bench (PcieControl_Configure drv)) ;;~
  configured_by (on_bench (XmitControl_Configure drv (host_files host) c)) ;;~
  configured_by (on_bench (LightFem_Configure drv (host_files host) TOTAL_LIGHT_CHANNELS c)) ;;~
  configured_by (on_bench (ChargeFem_Configure drv (host_files host) c nword)) ;;~
  configured_by (configure_trigger c) ;;~
  configured_by (configure_data_handler c).

Definition init_pcie : ctl Z :=
  device_id_0 <~ cfg get_int "controller" "device_id_0" ;;
  device_id_1 <~ cfg get_int "controller" "device_id_1" ;;
  slots <~ slot_ids ;;
  on_pcie (InitPCIeDevices drv device_id_0 device_id_1 slots.1 slots.2).

Definition configure_hardware (nword : Z) : ctl bool :=
  complete_config ;;~
  print_status <~ cfg get_bool "controller" "print_status" ;;
  st_modify (λ s, s <| print_status_ := print_status |>) ;;~
  add_board_slots ;;~
  ret <~ init_pcie ;;
  if negb (ret =? 0) then report (ErrorBitWord ret) ;;~ st_ret false
  else
    configure_devices nword ;;~
    st_modify (λ s, s <| is_configured_ := true |>) ;;~
    st_ret true.

Definition Configure (nword : Z) (args : list Z) : ctl bool :=
  PersistRunId ;;~
  selected <~ SelectNvmeDataDirForRun ;;
  if negb selected then st_ret false
  else
    match args with
    | [] => st_ret false
    | config_file_number :: more =>
        basedir <~ get_field readout_basedir_ ;;
        loaded <~ LoadConfig (basedir +:+ "/tpc_configs/data_config/test_" +:+
                              to_string (Z.to_N config_file_number) +:+ ".json") ;;
        st_modify (λ s, s <| config_ := default ∅ loaded |>) ;;~
        match loaded with
        | None => st_ret false
        | Some _ =>
            set <~ (match more with
                    | [] => SetLocalConfig ;;~ st_ret true
                    | _ => SetConfigFromComm args
                    end) ;;
            if negb set then st_modify (λ s, s <| config_ := ∅ |>) ;;~ st_ret false
            else configure_hardware nword
        end
    end.

(** ** Runs *)
Definition SetRun (run : bool) : ctl () :=
  st_modify (λ s, s <| data_handler_ ::= DataHandler.SetRun run |>).

(** Assigning to a thread that is joinable ends the process. *)
Definition StartRun : ctl bool :=
  SetRun true ;;~
  (λ s,
    let created := host_thread_ok host (host_calls s) in
    let s := s <| host_calls ::= λ l, l ++ [CreateDataThread] |> in
    if negb created then (SetRun false ;;~ st_ret false) s
    else if data_thread_ s then (s, None)
    else (s <| data_thread_ := true |>, Some true)).

Definition StopRun : ctl bool :=
  SetRun false ;;~
  (λ s,
    if data_thread_ s then
      let '(h, b) := host_join host (host_calls s) (data_handler_ s) (bench_ s) in
      (s <| data_handler_ := h |> <| bench_ := b |> <| data_thread_ := false |>, Some true)
    else (s, Some true)).

Definition Reset : ctl bool :=
  PersistRunId ;;~
  st_modify (λ s, s <| config_ ::= doc_set "data_handler" "subrun" (JInt (run_id_ s)) |>) ;;~
  st_modify (λ s, s <| data_handler_ ::= λ h, (DataHandler.Reset sys (Z.to_N (run_id_ s)) h).1 |>) ;;~
  st_ret true.

(** ** [RunStopCoordinator] *)
Definition Poll : ctl () := st_modify (λ s,
  if DiskStopRequested (data_handler_ s) then s <| pending_reason_ := kDiskFull |> else s).
Definition ShouldStopRun (s : controller) : bool := bool_decide (pending_reason_ s ≠ kNone).
Definition ClearPendingReason : ctl () := st_modify (λ s, s <| pending_reason_ := kNone |>).

Definition setState (st : State) : ctl () := st_modify (λ s, s <| current_state_ := st |>).
Definition report_state : ctl () := st <~ get_field current_state_ ;; report (ReadoutState st).

Definition ApplyPendingRunStop : ctl () :=
  st <~ get_field current_state_ ;;
  if bool_decide (st ≠ kRunning) then st_ret ()
  else
    Poll ;;~
    should_stop <~ get_field ShouldStopRun ;;
    if negb should_stop then st_ret ()
    else
      setState kStopped ;;~ StopRun ;;~ report_state ;;~ ClearPendingReason.

(** ** Status *)
Definition SetDataHandlerStatus : ctl () := st_modify (λ s,
  let '(h, st) := Status.SetDataHandlerStatus (data_handler_ s) (status_ s) in
  s <| data_handler_ := h |> <| status_ := st |>).
Definition ReadStatus : ctl () :=
  SetDataHandlerStatus ;;~
  st <~ get_field status_ ;;
  boards <~ get_field board_slots_ ;;
  calls <~ on_pcie (Status.ReadStatus drv st uninit boards false) ;;
  st_modify (λ s, s <| telemetry ::= λ l, l ++ (Monitor <$> calls) |>) ;;~
  print_status <~ get_field print_status_ ;;
  report (if negb print_status then Packet TPC_Hardware_Status else Printed).

(** A pass of the loop of [StatusControl]. *)
Definition StatusControl_pass : ctl () := ApplyPendingRunStop ;;~ ReadStatus.

(** ** Commands *)
Definition HandleCommand (nword command : Z) (arguments : list Z) : ctl bool :=
  st <~ get_field current_state_ ;;
  if (command =? TPC_Configure) && bool_decide (st = kIdle) then
    host_do RunSetupScript ;;~
    configured <~ get_field is_configured_ ;;
    status <~ (if configured : bool then st_ret true else Configure nword arguments) ;;
    (if status : bool then setState kConfigured else st_ret ()) ;;~
    report_state ;;~
    st_ret status
  else if (command =? TPC_Start_Run) && bool_decide (st = kConfigured) then
    setState kRunning ;;~ StartRun ;;~ report_state ;;~ st_ret true
  else if (command =? TPC_Stop_Run) && bool_decide (st = kRunning) then
    setState kStopped ;;~ StopRun ;;~ report_state ;;~ st_ret true
  else if (command =? TPC_Reset_Run) && bool_decide (st = kStopped) then
    Reset ;;~ setState kConfigured ;;~ report_state ;;~ st_ret true
  else if command =? TPC_Query_Hardware_Status then
    configured <~ get_field is_configured_ ;;
    (if configured : bool then ReadStatus else st_ret ()) ;;~
    report_state ;;~
    st_ret true
  else
    report_state ;;~ st_ret false.

Definition SendCallback (command : Z) (success : bool) : ctl () :=
  report (LastCommand command) ;;~
  report (LastCommandStatus (if success then 0xFAB else 0xDEAD)) ;;~
  report (Packet command).

(** A pass of the loop of [ReceiveCommand]. *)
Definition ReceiveCommand_pass (nword command : Z) (arguments : list Z) : ctl () :=
  response <~ HandleCommand nword command arguments ;;
  if command =? COM_HeartBeat then st_ret () else SendCallback command response.
End controller.

(** ** The constructor *)
Definition new_trigger : trigger_control := {|
  TriggerControl.is_running := false; prescale_vec := []; TriggerControl.software_trigger_rate := 0;
  TriggerControl.trigger_module := 0; TriggerControl.ext_trig := false; light_trig := false;
  TriggerControl.software_trig := false; iframe_length := 0; static_mask1 := None; static_mask8 := None
|}.
(** [uninit_print]: the value of [print_status_], which nothing initialises. *)
Definition new_controller (uninit_print : bool) (readout_basedir data_basedir : string)
    (setup_config : document) (params : tpc_params) (buffers : list Z * list Z * list Z)
    (run_file : option (option Z)) : controller := {|
  current_state_ := kIdle; is_configured_ := false; print_status_ := uninit_print; run_id_ := 0;
  data_basedir_ := data_basedir; readout_basedir_ := readout_basedir; board_slots_ := [];
  setup_config_ := setup_config; config_ := ∅; tpc_configs_ := params; pending_reason_ := kNone;
  data_thread_ := false;
  bench_ := {| HardwareDevice.card := new_pcie; buf_send := buffers.1.1; carray := buffers.1.2;
               read_array := buffers.2 |};
  trigger_ctrl_ := new_trigger; data_handler_ := new_handler; status_ := new_status;
  run_id_file := run_file; telemetry := []; host_calls := []
|}.
