(* ===== verification/ControllerFacts.v ===== *)
(** * What the controller guarantees

    The state machine over any interleaving of commands, status passes and steps
    of the data threads; the automatic stop; the disk, the run number and the
    configuration a run gets. *)
From Stdlib Require Import Lia ZArith NArith String.
From stdpp Require Import base tactics list numbers option strings gmap relations.
From S2P Require Import Prelude CppString StorageUtils Config Json SpscQueue DataHandler Pcie HwConsts HardwareDevice TriggerControl XmitControl ChargeFem LightFem Status Controller.
Local Open Scope Z_scope.

(** ** Frames: what a piece of code leaves alone *)
Class Keeps {A B} (f : controller → B) (c : st_err controller A) := keeps s : f (c s).1 = f s.

Section frames.
Context {B : Type} (f : controller → B).
#[export] Instance keeps_ret {A} (a : A) : Keeps f (st_ret a).
Proof. by intros s. Qed.
#[export] Instance keeps_get {A} (o : option A) : Keeps f (st_get o).
Proof. by intros s. Qed.
#[export] Instance keeps_field {A} (g : controller → A) : Keeps f (get_field g).
Proof. by intros s. Qed.
#[export] Instance keeps_bind {A C} (c : st_err controller A) (k : A → st_err controller C) :
  Keeps f c → (∀ a, Keeps f (k a)) → Keeps f (st_bind c k).
Proof.
  intros Hc Hk s. unfold st_bind. pose proof (Hc s) as E. destruct (c s) as [s1 [a|]]; [|done].
  by rewrite Hk.
Qed.
End frames.

(** A result that leaves [f] alone, for any value of the hidden parts. *)
Ltac keeps_step :=
  lazymatch goal with
  | |- Keeps _ (st_bind _ _) => apply keeps_bind; [|intros ?]
  | |- Keeps _ (st_ret _) => apply keeps_ret
  | |- Keeps _ (st_get _) => apply keeps_get
  | |- Keeps _ (get_field _) => apply keeps_field
  | |- Keeps _ (st_modify _) => intros ?; first [reflexivity | cbn; repeat case_match; reflexivity]
  | |- Keeps _ (match _ with _ => _ end) => case_match
  | |- Keeps _ (if _ then _ else _) => case_match
  | |- Keeps _ _ => apply _
  end.
Ltac keeps := repeat keeps_step.

Lemma keeps_run {A B} (f : controller → B) (c : st_err controller A) s s' r :
  Keeps f c → c s = (s', r) → f s' = f s.
Proof. intros Hc E. rewrite <-(Hc s). by rewrite E. Qed.
(** Adds to the context that each completed step left [f] alone. *)
Ltac keep_runs f :=
  repeat match goal with
  | E : ?c ?s = (?s', ?r) |- _ =>
      lazymatch type of s with controller => idtac end;
      let K := fresh "K" in
      try assert (f s' = f s) as K by (refine (keeps_run f c s s' r _ E); keeps);
      let T := type of E in change (id T) in E
  end; unfold id in *.

Section frame_lemmas.
Context (drv : driver) (sys : kernel) (host : host) `{ErrorBits} `{CommandCodes}.
Context (TOTAL_LIGHT_CHANNELS : nat) (deserialize : list Z → tpc_params → tpc_params * bool).
Context (uninit : list Z).

(** The fields that only the state machine's own steps assign. *)
Definition machine (s : controller) : State * RunStopReason * bool :=
  (current_state_ s, pending_reason_ s, data_thread_ s).
Definition control (s : controller) : State * RunStopReason * bool * bool :=
  (machine s, is_configured_ s).
(** With the hardware and the data handler: what preparing a configuration leaves alone. *)
Definition core (s : controller) : State * RunStopReason * bool * bool * bench * handler :=
  (control s, bench_ s, data_handler_ s).

#[export] Instance core_control {A} (c : st_err controller A) : Keeps core c → Keeps control c | 50.
Proof. intros Hc s. specialize (Hc s). unfold core in Hc. congruence. Qed.

#[export] Instance report_keeps t : Keeps core (report t).
Proof. by intros s. Qed.
#[export] Instance host_do_keeps c : Keeps core (host_do c).
Proof. by intros s. Qed.
#[export] Instance PersistRunId_keeps : Keeps core (PersistRunId host).
Proof. intros s. unfold PersistRunId. by repeat case_match. Qed.
#[export] Instance accept_pick_keeps pick : Keeps core (accept_pick pick).
Proof. unfold accept_pick, refuse_disk. keeps. Qed.
#[export] Instance SelectNvme_keeps : Keeps core (SelectNvmeDataDirForRun host).
Proof.
  intros s. unfold SelectNvmeDataDirForRun. cbv zeta.
  repeat case_match; first [done|apply accept_pick_keeps].
Qed.
#[export] Instance set_prescale_keeps i v : Keeps core (set_prescale i v).
Proof. intros s. unfold set_prescale. by case_decide. Qed.
#[export] Instance comm_stores_keeps : Keeps core (comm_stores TOTAL_LIGHT_CHANNELS).
Proof. unfold comm_stores. keeps. Qed.
#[export] Instance SetConfigFromComm_keeps v : Keeps core (SetConfigFromComm TOTAL_LIGHT_CHANNELS deserialize v).
Proof.
  intros s. unfold SetConfigFromComm. destruct (deserialize _ _) as [t ok].
  case_match; [done|]. pose proof (comm_stores_keeps (s <| tpc_configs_ := t |>)) as E.
  by destruct (comm_stores _ _) as [s1 [a|]].
Qed.
#[export] Instance SetLocalConfig_keeps : Keeps core (SetLocalConfig TOTAL_LIGHT_CHANNELS).
Proof. unfold SetLocalConfig, local_light, set_prescale_value. keeps. Qed.
#[export] Instance complete_config_keeps : Keeps core complete_config.
Proof. by intros s. Qed.
#[export] Instance add_board_slots_keeps : Keeps core add_board_slots.
Proof. unfold add_board_slots, add_slot, cfg. keeps. Qed.
#[export] Instance slot_ids_keeps : Keeps core slot_ids.
Proof. unfold slot_ids, cfg. keeps. Qed.
#[export] Instance LoadConfig_keeps file : Keeps core (LoadConfig host file).
Proof. by intros s. Qed.

#[export] Instance on_bench_keeps {A} (c : st_err bench A) : Keeps control (on_bench c).
Proof. intros s. unfold on_bench. by destruct (c (bench_ s)). Qed.
#[export] Instance on_pcie_keeps {A} (c : st pcie A) : Keeps control (on_pcie c).
Proof. apply on_bench_keeps. Qed.
#[export] Instance configure_trigger_keeps c : Keeps control (configure_trigger drv c).
Proof. intros s. unfold configure_trigger, on_bench. repeat case_match; by simplify_eq/=. Qed.
#[export] Instance configure_data_handler_keeps c : Keeps control (configure_data_handler sys c).
Proof. intros s. unfold configure_data_handler. by case_match. Qed.
#[export] Instance configured_by_keeps c : Keeps control c → Keeps control (configured_by c).
Proof. unfold configured_by. intros Hc. keeps. Qed.
#[export] Instance configure_devices_keeps nword :
  Keeps control (configure_devices drv sys host TOTAL_LIGHT_CHANNELS nword).
Proof. unfold configure_devices. keeps. Qed.

(** What follows a call that may fail, once the call has returned. *)
Lemma st_bind_run {A C} (c : st_err controller A) (k : A → st_err controller C) s s1 a :
  c s = (s1, Some a) → st_bind c k s = k a s1.
Proof. intros E. unfold st_bind. by rewrite E. Qed.

(** *** The configuration *)
Definition pcie_ready (s : controller) : bool := is_initialized (HardwareDevice.card (bench_ s)).

Lemma InitPCIeDevices_ready dev1 dev2 slot0 slot1 p p' ret :
  InitPCIeDevices drv dev1 dev2 slot0 slot1 p = (p', ret) → is_initialized p = false →
  is_initialized p' = bool_decide (ret = 0).
Proof.
  unfold InitPCIeDevices, open_device, close_if_open, lock_buffer, call_status, call_value, bus_call.
  cbv zeta. generalize (replicate (Z.to_nat (CONFIGDMABUFFSIZE / 4)) 0) as zeros. intros zeros.
  unfold mbind, st_mbind, mret, st_mret, st_read, st_update. intros E Hp. rewrite Hp in E.
  repeat (case_match; simplify_eq); try done.
Qed.

#[export] Instance cfg_keeps {A} (get : jvalue → option A) k1 k2 : Keeps core (cfg get k1 k2).
Proof. unfold cfg. keeps. Qed.

Lemma control_eq s s' : control s' = control s → machine s' = machine s ∧ is_configured_ s' = is_configured_ s.
Proof. unfold control. intros E. split; [exact (f_equal fst E)|exact (f_equal snd E)]. Qed.
Lemma core_ready s s' : core s' = core s → pcie_ready s' = pcie_ready s.
Proof. unfold core, pcie_ready. congruence. Qed.

Lemma init_pcie_outcome s s' ret :
  init_pcie drv s = (s', Some ret) →
  control s' = control s ∧ (pcie_ready s = false → pcie_ready s' = bool_decide (ret = 0)).
Proof.
  unfold init_pcie. intros E. apply st_bind_ok in E as (s1 & d0 & E1 & E).
  apply st_bind_ok in E as (s2 & d1 & E2 & E). apply st_bind_ok in E as (s3 & slots & E3 & E).
  keep_runs core. assert (core s3 = core s) as Hcore by congruence.
  split; [unfold core in *; keep_runs control; congruence|].
  rewrite <-(core_ready _ _ Hcore). unfold on_pcie, on_bench, on_card in E.
  destruct (InitPCIeDevices _ _ _ _ _ _) as [p' r] eqn:Hinit. simplify_eq.
  exact (InitPCIeDevices_ready _ _ _ _ _ _ _ Hinit).
Qed.

Lemma configure_hardware_outcome nword s s' b :
  configure_hardware drv sys host TOTAL_LIGHT_CHANNELS nword s = (s', Some b) →
  machine s' = machine s ∧ is_configured_ s' = b || is_configured_ s ∧
  (b = false → pcie_ready s = false → pcie_ready s' = false).
Proof.
  unfold configure_hardware. intros E.
  apply st_bind_ok in E as (s1 & [] & E1 & E). apply st_bind_ok in E as (s2 & pr & E2 & E).
  apply st_bind_ok in E as (s3 & [] & E3%st_modify_ok & E). apply st_bind_ok in E as (s4 & [] & E4 & E).
  apply st_bind_ok in E as (s5 & ret & [Hc Hr]%init_pcie_outcome & E).
  keep_runs core.
  assert (core s3 = core s2) as Hmod by by subst s3.
  assert (core s4 = core s) as Hcore by congruence.
  rewrite (core_ready _ _ Hcore) in Hr.
  assert (control s5 = control s) as Hs5 by (unfold core in Hcore; congruence).
  destruct (control_eq _ _ Hs5) as [Hm Hconf].
  destruct (ret =? 0) eqn:Hret; cbn [negb] in E.
  - apply st_bind_ok in E as (s6 & [] & E6 & E). unfold st_bind, st_modify, st_ret in E.
    injection E as <- <-. apply keeps_run with (f := control), control_eq in E6 as [Hm6 _]; [|apply _].
    split; [|done].
    change (machine s6 = machine s). congruence.
  - apply st_bind_ok in E as (s6 & [] & E6 & E). injection E as <- <-.
    unfold report, st_modify in E6. injection E6 as <-. split_and!; [done|done|].
    intros _ Hp. change (pcie_ready s5 = false). rewrite (Hr Hp). by apply bool_decide_eq_false, Z.eqb_neq.
Qed.

Notation Configure := (Configure drv sys host TOTAL_LIGHT_CHANNELS deserialize).
Lemma Configure_outcome nword args s s' b :
  Configure nword args s = (s', Some b) →
  machine s' = machine s ∧ is_configured_ s' = b || is_configured_ s ∧
  (b = false → pcie_ready s = false → pcie_ready s' = false).
Proof.
  assert (∀ s', core s' = core s → machine s' = machine s ∧ is_configured_ s' = false || is_configured_ s ∧
    (false = false → pcie_ready s = false → pcie_ready s' = false)) as Hcore.
  { intros t Ht. split_and!; [| |intros _; by rewrite (core_ready _ _ Ht)].
    all: apply (f_equal (fst ∘ fst)), control_eq in Ht as [??]; done. }
  unfold Controller.Configure. intros E.
  apply st_bind_ok in E as (s1 & ? & E1 & E). apply st_bind_ok in E as (s2 & sel & E2 & E).
  destruct sel; cbn [negb] in E; [|injection E as <- <-; apply Hcore; keep_runs core; congruence].
  destruct args as [|n more]; [injection E as <- <-; apply Hcore; keep_runs core; congruence|].
  apply st_bind_ok in E as (s3 & ? & E3 & E). apply st_bind_ok in E as (s4 & loaded & E4 & E).
  apply st_bind_ok in E as (s5 & [] & ->%st_modify_ok & E).
  keep_runs core. set (s5 := s4 <| config_ := _ |>) in *.
  assert (core s5 = core s) as Hs5 by (change (core s4 = core s); congruence).
  destruct loaded; [|injection E as <- <-; by apply Hcore].
  apply st_bind_ok in E as (s6 & ok & E6 & E).
  assert (core s6 = core s) as Hs6.
  { rewrite <-Hs5. refine (keeps_run core _ _ _ _ _ E6). destruct more; keeps. }
  destruct ok; cbn [negb] in E.
  - apply configure_hardware_outcome in E as (Hm & Hc & Hr).
    rewrite (core_ready _ _ Hs6) in Hr.
    apply (f_equal (fst ∘ fst)), control_eq in Hs6 as [??]. split_and!; [congruence|congruence|done].
  - injection E as <- <-. by apply Hcore.
Qed.

(** *** Commands and status passes *)
Lemma StopRun_stops s :
  ∃ s', StopRun host s = (s', Some true) ∧ data_thread_ s' = false ∧
    current_state_ s' = current_state_ s ∧ pending_reason_ s' = pending_reason_ s ∧
    is_configured_ s' = is_configured_ s ∧ telemetry s' = telemetry s.
Proof.
  unfold StopRun, Controller.SetRun, st_bind, st_modify. cbn. destruct (data_thread_ s) eqn:Ht; [|by eexists].
  destruct (host_join host _ _ _) as [h b]. by eexists.
Qed.

Lemma StartRun_starts s :
  data_thread_ s = false →
  ∃ s' b, StartRun host s = (s', Some b) ∧ data_thread_ s' = b ∧
    current_state_ s' = current_state_ s ∧ pending_reason_ s' = pending_reason_ s ∧
    is_configured_ s' = is_configured_ s ∧ telemetry s' = telemetry s ∧
    DataHandler.is_running (data_handler_ s') = b.
Proof.
  intros Ht. unfold StartRun, Controller.SetRun, st_bind, st_modify. cbn.
  destruct (host_thread_ok host (host_calls s)); cbn; [rewrite Ht|]; by eexists _, _.
Qed.

Lemma PersistRunId_total s : ∃ s' b, PersistRunId host s = (s', Some b).
Proof. unfold PersistRunId. repeat case_match; by eexists _, _. Qed.

Lemma Reset_resets s :
  ∃ s', Controller.Reset sys host s = (s', Some true) ∧ control s' = control s ∧
    pcie_ready s' = pcie_ready s.
Proof.
  unfold Controller.Reset. destruct (PersistRunId_total s) as (s1 & b & E).
  rewrite (st_bind_run _ _ _ _ _ E). eexists. split; [reflexivity|].
  apply (keeps_run core) in E; [|apply _]. split; [exact (f_equal (fst ∘ fst) E)|exact (core_ready _ _ E)].
Qed.

Notation ReadStatus := (Controller.ReadStatus drv uninit).
(** A status pass always returns, and leaves cards that are not open alone. *)
Lemma ReadStatus_reads s :
  ∃ s', ReadStatus s = (s', Some ()) ∧ control s' = control s ∧
    (pcie_ready s = false → pcie_ready s' = false).
Proof.
  unfold Controller.ReadStatus, Controller.SetDataHandlerStatus. unfold st_bind at 1, st_modify at 1.
  destruct (Status.SetDataHandlerStatus _ _) as [h st].
  set (s1 := s <| data_handler_ := h |> <| status_ := st |>).
  assert (control s1 = control s ∧ pcie_ready s1 = pcie_ready s) as [Hc Hp] by done.
  rewrite !(st_bind_run (get_field _) _ _ _ _ eq_refl).
  assert (∃ s2 calls, on_pcie (Status.ReadStatus drv (status_ s1) uninit (board_slots_ s1) false) s1 =
    (s2, Some calls) ∧ control s2 = control s1 ∧ (pcie_ready s1 = false → pcie_ready s2 = false))
    as (s2 & calls & E & Hc2 & Hp2).
  { unfold on_pcie, on_bench, on_card.
    destruct (Status.ReadStatus _ _ _ _ _ _) as [p calls] eqn:E. eexists _, _. split; [reflexivity|].
    split; [done|]. intros Hp1. unfold pcie_ready in Hp1. unfold Status.ReadStatus, mbind, st_mbind, st_read in E.
    rewrite Hp1 in E. cbn in E. injection E as <- _. exact Hp1. }
  rewrite (st_bind_run _ _ _ _ _ E). eexists. split; [reflexivity|].
  split; [change (control s2 = control s); congruence|]. intros ?. apply Hp2. congruence.
Qed.

(** What stopping does to a controller: the same for the command and the coordinator. *)
Definition stopped (s : controller) : controller :=
  (StopRun host (s <| current_state_ := kStopped |>)).1 <| telemetry ::= λ l, l ++ [ReadoutState kStopped] |>.

Lemma stopped_fields s :
  current_state_ (stopped s) = kStopped ∧ pending_reason_ (stopped s) = pending_reason_ s ∧
  data_thread_ (stopped s) = false ∧ is_configured_ (stopped s) = is_configured_ s ∧
  telemetry (stopped s) = telemetry s ++ [ReadoutState kStopped].
Proof.
  unfold stopped. destruct (StopRun_stops (s <| current_state_ := kStopped |>)) as (s' & -> & H1 & H2 & H3 & H4 & H5).
  cbn in *. split_and!; congruence.
Qed.

Lemma stop_command nword args s :
  current_state_ s = kRunning →
  HandleCommand drv sys host TOTAL_LIGHT_CHANNELS deserialize uninit nword TPC_Stop_Run args s = (stopped s, Some true).
Proof.
  intros Hs. unfold HandleCommand. rewrite (st_bind_run (get_field _) _ _ _ _ eq_refl), Hs.
  rewrite !bool_decide_eq_false_2, bool_decide_eq_true_2, !andb_false_r, Z.eqb_refl by done.
  cbn [andb]. rewrite (st_bind_run (setState _) _ _ _ _ eq_refl).
  destruct (StopRun_stops (s <| current_state_ := kStopped |>)) as (s' & E & _ & H2 & _).
  rewrite (st_bind_run _ _ _ _ _ E). unfold stopped. rewrite E.
  cbn in H2. unfold report_state, report, st_bind, get_field, st_modify, st_ret. by rewrite H2.
Qed.

Lemma ApplyPendingRunStop_eq s :
  ApplyPendingRunStop host s =
  (if bool_decide (current_state_ s = kRunning) &&
      (DiskStopRequested (data_handler_ s) || bool_decide (pending_reason_ s ≠ kNone))
   then (stopped s) <| pending_reason_ := kNone |> else s, Some ()).
Proof.
  unfold ApplyPendingRunStop. rewrite (st_bind_run (get_field _) _ _ _ _ eq_refl).
  destruct (decide (current_state_ s = kRunning)) as [Hs|Hs].
  2: by rewrite (bool_decide_eq_false_2 _ Hs), (bool_decide_eq_true_2 _ Hs).
  rewrite (bool_decide_eq_true_2 _ Hs), bool_decide_eq_false_2 by tauto. cbn [andb].
  set (r := if DiskStopRequested (data_handler_ s) then kDiskFull else pending_reason_ s).
  rewrite (st_bind_run Poll _ s (s <| pending_reason_ := r |>) ()).
  2: { unfold Poll, st_modify, r. case_match; [done|]. by destruct s. }
  rewrite (st_bind_run (get_field _) _ _ _ _ eq_refl). unfold ShouldStopRun.
  assert (DiskStopRequested (data_handler_ s) || bool_decide (pending_reason_ s ≠ kNone) = bool_decide (r ≠ kNone)) as ->.
  { unfold r. by destruct (DiskStopRequested (data_handler_ s)). }
  change (pending_reason_ (s <| pending_reason_ := r |>)) with r. case_bool_decide as Hr; cbn [negb].
  - rewrite (st_bind_run (setState _) _ _ _ _ eq_refl).
    unfold stopped, StopRun, Controller.SetRun, st_bind, st_modify, report_state, report, get_field, ClearPendingReason, st_bind, st_modify.
    cbn. destruct (data_thread_ s); [|done]. by destruct (host_join host _ _ _).
  - destruct (DiskStopRequested (data_handler_ s)) eqn:Hd; [by unfold r in Hr|].
    unfold r. by destruct s.
Qed.

(** *** The state machine *)
Inductive transition : State → Z → State → Prop :=
  | t_configure : transition kIdle TPC_Configure kConfigured
  | t_start : transition kConfigured TPC_Start_Run kRunning
  | t_stop : transition kRunning TPC_Stop_Run kStopped
  | t_reset : transition kStopped TPC_Reset_Run kConfigured
  | t_query st : transition st TPC_Query_Hardware_Status st.

Lemma transition_fun st command st1 st2 :
  transition st command st1 → transition st command st2 → st1 = st2.
Proof.
  pose proof command_codes_differ as Hd. rewrite !NoDup_cons in Hd. set_unfold.
  destruct 1; inversion 1; subst; try done; exfalso; naive_solver.
Qed.

(** What holds between two handlers. *)
Record good (s : controller) : Prop := {
  good_thread : data_thread_ s = true → current_state_ s = kRunning;
  good_configured : is_configured_ s = bool_decide (current_state_ s ≠ kIdle);
  good_pending : pending_reason_ s = kNone;
  good_pcie : current_state_ s = kIdle → pcie_ready s = false
}.
Definition reported (s : controller) : Prop := last (telemetry s) = Some (ReadoutState (current_state_ s)).

Lemma good_same s s' :
  good s → control s' = control s → (pcie_ready s = false → pcie_ready s' = false) → good s'.
Proof.
  intros [Ht Hc Hp Hi] [Hm Hconf]%control_eq Hready. unfold machine in Hm. injection Hm as Hst Hpend Hthread.
  split; rewrite ?Hst, ?Hthread, ?Hconf, ?Hpend; try done. intros Hidle. by apply Hready, Hi.
Qed.

Lemma report_state_run {C} (k : () → st_err controller C) s :
  st_bind report_state k s = k () (s <| telemetry ::= λ l, l ++ [ReadoutState (current_state_ s)] |>).
Proof. done. Qed.
Lemma good_report s t : good s → good (s <| telemetry ::= λ l, l ++ [t] |>).
Proof. intros Hs. by apply (good_same s). Qed.
Lemma reported_report s : reported (s <| telemetry ::= λ l, l ++ [ReadoutState (current_state_ s)] |>).
Proof. unfold reported. cbn. by rewrite last_snoc. Qed.

Notation HandleCommand := (HandleCommand drv sys host TOTAL_LIGHT_CHANNELS deserialize uninit).

(** The result of a command, for each branch of the handler. *)
Definition handled (command : Z) (s : controller) (r : controller * option bool) : Prop :=
  match r with
  | (s', Some true) =>
      good s' ∧ reported s' ∧ transition (current_state_ s) command (current_state_ s')
  | (s', Some false) =>
      good s' ∧ reported s' ∧ current_state_ s' = current_state_ s ∧
      (current_state_ s = kIdle ∧ command = TPC_Configure ∨
       (∀ st', ¬ transition (current_state_ s) command st') ∧
       s' = s <| telemetry ::= λ l, l ++ [ReadoutState (current_state_ s)] |>)
  | (_, None) => current_state_ s = kIdle ∧ command = TPC_Configure
  end.

Lemma handled_configure nword args s :
  good s → current_state_ s = kIdle →
  handled TPC_Configure s (HandleCommand nword TPC_Configure args s).
Proof.
  intros Hs Hidle. unfold Controller.HandleCommand.
  rewrite (st_bind_run (get_field _) _ _ _ _ eq_refl), Hidle, Z.eqb_refl, bool_decide_eq_true_2 by done.
  cbn [andb]. rewrite (st_bind_run (host_do _) _ _ _ _ eq_refl).
  rewrite (st_bind_run (get_field _) _ _ _ _ eq_refl). set (s1 := s <| host_calls ::= _ |>).
  assert (is_configured_ s1 = false) as ->.
  { change (is_configured_ s = false). rewrite (good_configured _ Hs). rewrite Hidle; done. }
  destruct (Configure nword args s1) as [s2 [ok|]] eqn:E.
  2: { unfold st_bind at 1. by rewrite E. }
  rewrite (st_bind_run _ _ _ _ _ E). apply Configure_outcome in E as (Hm & Hc & Hr).
  change (machine s1) with (machine s) in Hm. change (pcie_ready s1) with (pcie_ready s) in Hr.
  change (is_configured_ s1) with (is_configured_ s) in Hc.
  unfold machine in Hm. injection Hm as Hstate Hpend Hthread. destruct Hs as [Ht Hconf Hp Hpcie].
  assert (data_thread_ s2 = false) as Hno.
  { destruct (data_thread_ s2); [|done]. specialize (Ht (eq_sym Hthread)). congruence. }
  destruct ok; [rewrite (st_bind_run (setState _) _ _ _ _ eq_refl)|rewrite (st_bind_run (st_ret _) _ _ _ _ eq_refl)];
    rewrite report_state_run; cbn [handled st_ret].
  - split; [apply good_report; split; cbn; rewrite ?Hno; try done; try congruence; by rewrite Hc|].
    split; [apply (reported_report (s2 <| current_state_ := kConfigured |>))|]. cbn. rewrite Hidle. constructor.
  - split; [apply good_report; split; rewrite ?Hno; try congruence|].
    + rewrite Hc, Hconf, Hstate. done.
    + intros _. apply Hr; [done|by apply Hpcie].
    + split; [apply reported_report|]. split; [exact Hstate|by left].
Qed.

Lemma handled_other nword command args s :
  good s → (command = TPC_Configure → current_state_ s ≠ kIdle) →
  handled command s (HandleCommand nword command args s).
Proof.
  intros Hs Hnot. pose proof Hs as [Ht Hconf Hp Hpcie]. unfold Controller.HandleCommand.
  rewrite (st_bind_run (get_field _) _ _ _ _ eq_refl).
  assert ((command =? TPC_Configure) && bool_decide (current_state_ s = kIdle) = false) as ->.
  { apply andb_false_iff. destruct (Z.eqb_spec command TPC_Configure); [right|by left].
    apply bool_decide_eq_false_2. tauto. }
  case_match eqn:Hstart; [|case_match eqn:Hstop; [|case_match eqn:Hreset; [|case_match eqn:Hquery]]].
  - apply andb_prop in Hstart as [->%Z.eqb_eq Hst%bool_decide_eq_true].
    rewrite (st_bind_run (setState _) _ _ _ _ eq_refl).
    destruct (StartRun_starts (s <| current_state_ := kRunning |>)) as (s2 & b & E & H1 & H2 & H3 & H4 & _).
    { destruct (data_thread_ s) eqn:Hd; [|done]. specialize (Ht eq_refl). congruence. }
    rewrite (st_bind_run _ _ _ _ _ E), report_state_run. cbn [handled st_ret]. cbn in H2, H3, H4.
    split; [apply good_report; split; rewrite ?H2, ?H3, ?H4; try done; by rewrite Hconf, Hst|].
    split; [apply reported_report|]. cbn. rewrite H2, Hst. constructor.
  - apply andb_prop in Hstop as [->%Z.eqb_eq Hst%bool_decide_eq_true].
    rewrite (st_bind_run (setState _) _ _ _ _ eq_refl).
    destruct (StopRun_stops (s <| current_state_ := kStopped |>)) as (s2 & E & H1 & H2 & H3 & H4 & _).
    rewrite (st_bind_run _ _ _ _ _ E), report_state_run. cbn [handled st_ret]. cbn in H2, H3, H4.
    split; [apply good_report; split; rewrite ?H1, ?H2, ?H3, ?H4; try done; by rewrite Hconf, Hst|].
    split; [apply reported_report|]. cbn. rewrite H2, Hst. constructor.
  - apply andb_prop in Hreset as [->%Z.eqb_eq Hst%bool_decide_eq_true].
    destruct (Reset_resets s) as (s2 & E & [Hm H4]%control_eq & _).
    unfold machine in Hm. injection Hm as H1 H2 H3.
    rewrite (st_bind_run _ _ _ _ _ E), (st_bind_run (setState _) _ _ _ _ eq_refl), report_state_run.
    cbn [handled st_ret].
    split; [apply good_report; split; cbn; rewrite ?H2, ?H3, ?H4; try done|].
    { intros Hd. specialize (Ht Hd). congruence. } { by rewrite Hconf, Hst. }
    split; [apply (reported_report (s2 <| current_state_ := kConfigured |>))|]. cbn. rewrite Hst. constructor.
  - apply Z.eqb_eq in Hquery as ->. rewrite (st_bind_run (get_field _) _ _ _ _ eq_refl).
    assert (∃ s2, (if is_configured_ s then ReadStatus else st_ret ()) s = (s2, Some ()) ∧
      good s2 ∧ current_state_ s2 = current_state_ s) as (s2 & E & Hs2 & Hst).
    { destruct (is_configured_ s); [|by exists s]. destruct (ReadStatus_reads s) as (s2 & E & Hc & Hr).
      exists s2. split; [done|]. split; [by apply (good_same s)|]. exact (f_equal (fst ∘ fst ∘ fst) Hc). }
    rewrite (st_bind_run _ _ _ _ _ E), report_state_run. cbn [handled st_ret].
    split; [by apply good_report|]. split; [apply reported_report|]. cbn. rewrite Hst. constructor.
  - rewrite report_state_run. cbn [handled st_ret]. split; [by apply good_report|].
    split; [apply reported_report|]. split; [done|]. right. split; [|done].
    intros st' Htr. inversion Htr as [Ha Hb|Ha Hb|Ha Hb|Ha Hb|? Hb]; subst command.
    + by apply Hnot.
    + by rewrite <-Ha, Z.eqb_refl in Hstart.
    + by rewrite <-Ha, Z.eqb_refl in Hstop.
    + by rewrite <-Ha, Z.eqb_refl in Hreset.
    + by rewrite Z.eqb_refl in Hquery.
Qed.

(** What a command may do, in any state a run of the program reaches. *)
Lemma HandleCommand_handled nword command args s :
  good s → handled command s (HandleCommand nword command args s).
Proof.
  intros Hs. destruct (decide (command = TPC_Configure ∧ current_state_ s = kIdle)) as [[-> ?]|Hnot].
  - by apply handled_configure.
  - apply handled_other; [done|tauto].
Qed.

(** *** Reachable states *)
Notation ReceiveCommand_pass := (Controller.ReceiveCommand_pass drv sys host TOTAL_LIGHT_CHANNELS deserialize uninit).
Notation StatusControl_pass := (Controller.StatusControl_pass drv host uninit).
(** A pass of the command thread, a pass of the status thread, or whatever the
    data threads do while there are some. *)
Inductive step (s : controller) : controller → Prop :=
  | step_command nword command args s' : ReceiveCommand_pass nword command args s = (s', Some ()) → step s s'
  | step_status s' : StatusControl_pass s = (s', Some ()) → step s s'
  | step_data h b : data_thread_ s = true → step s (s <| data_handler_ := h |> <| bench_ := b |>).

Lemma stopped_good s :
  good s → current_state_ s = kRunning → good ((stopped s) <| pending_reason_ := kNone |>).
Proof.
  intros [_ Hconf _ _] Hst. destruct (stopped_fields s) as (H1 & _ & H3 & H4 & _).
  split; [| |done|].
  - change (data_thread_ (stopped s) = true → current_state_ (stopped s) = kRunning). by rewrite H3.
  - change (is_configured_ (stopped s) = bool_decide (current_state_ (stopped s) ≠ kIdle)).
    by rewrite H4, H1, Hconf, Hst.
  - change (current_state_ (stopped s) = kIdle → pcie_ready (stopped s) = false). by rewrite H1.
Qed.

Lemma step_good s s' : step s s' → good s → good s'.
Proof.
  intros Hstep Hs. destruct Hstep as [nword command args s' E|s' E|h b Hd].
  - apply st_bind_ok in E as (s1 & ok & E1 & E). pose proof (HandleCommand_handled nword command args s Hs) as Hh.
    rewrite E1 in Hh. assert (good s1) as Hs1 by (destruct ok; exact (proj1 Hh)).
    destruct (command =? COM_HeartBeat); [by injection E as <-|].
    injection E as <-. by apply (good_same s1).
  - unfold Controller.StatusControl_pass in E. rewrite (st_bind_run _ _ _ _ _ (ApplyPendingRunStop_eq s)) in E.
    destruct (ReadStatus_reads (if bool_decide (current_state_ s = kRunning) &&
      (DiskStopRequested (data_handler_ s) || bool_decide (pending_reason_ s ≠ kNone))
      then (stopped s) <| pending_reason_ := kNone |> else s)) as (s2 & E2 & Hc & Hr).
    rewrite E2 in E. injection E as <-. refine (good_same _ _ _ Hc Hr).
    case_match eqn:Hif; [|done]. apply andb_prop in Hif as [Hst%bool_decide_eq_true _].
    by apply stopped_good.
  - destruct Hs as [Ht Hconf Hp Hpcie]. split; try done. cbn. intros Hi. specialize (Ht Hd). congruence.
Qed.
Lemma reachable_good s0 s : good s0 → rtc step s0 s → good s.
Proof. intros Hs0 Hr. revert Hs0. induction Hr; eauto using step_good. Qed.
Lemma new_controller_good uninit_print readout data setup params buffers run_file :
  good (new_controller uninit_print readout data setup params buffers run_file).
Proof. done. Qed.

(** ** Properties *)

(** C11. Over any interleaving of commands, status passes and steps of the data
    threads, from the moment the controller is built: there are data threads only
    while the state is Running, the configured flag is up in every state but
    Idle, no automatic stop is left pending, and the cards are not open in Idle
    (so [InitPCIeDevices] never finds them open). *)
Theorem reachable_invariant print readout data setup params buffers run_file s :
  rtc step (new_controller print readout data setup params buffers run_file) s →
  (data_thread_ s = true → current_state_ s = kRunning) ∧
  is_configured_ s = bool_decide (current_state_ s ≠ kIdle) ∧
  pending_reason_ s = kNone ∧
  (current_state_ s = kIdle → pcie_ready s = false).
Proof.
  intros Hr. destruct (reachable_good _ _ (new_controller_good _ _ _ _ _ _ _) Hr) as [????]. done.
Qed.

(** C4. In every state the program reaches, a command that returns success moves
    the state machine along exactly one transition (Idle, Configured, Running,
    Stopped, Configured, or a status query); one that returns failure leaves the
    state, and unless it is a refused Configure the whole controller, as it was;
    the state is reported to the monitor after both. The only command an exception
    can leave is Configure in Idle: starting a run never meets a live thread. *)
Theorem HandleCommand_transitions print readout data setup params buffers run_file s nword command args :
  rtc step (new_controller print readout data setup params buffers run_file) s →
  match HandleCommand nword command args s with
  | (s', Some true) =>
      (∀ st', transition (current_state_ s) command st' ↔ st' = current_state_ s') ∧
      last (telemetry s') = Some (ReadoutState (current_state_ s'))
  | (s', Some false) =>
      current_state_ s' = current_state_ s ∧
      last (telemetry s') = Some (ReadoutState (current_state_ s')) ∧
      (current_state_ s = kIdle ∧ command = TPC_Configure ∨
       (∀ st', ¬ transition (current_state_ s) command st') ∧
       s' = s <| telemetry ::= λ l, l ++ [ReadoutState (current_state_ s)] |>)
  | (_, None) => current_state_ s = kIdle ∧ command = TPC_Configure
  end.
Proof.
  intros Hr. pose proof (HandleCommand_handled nword command args s
    (reachable_good _ _ (new_controller_good _ _ _ _ _ _ _) Hr)) as Hh.
  destruct (HandleCommand nword command args s) as [s' [[]|]]; cbn [handled] in Hh; [| |done].
  - destruct Hh as (_ & Hrep & Htr). split; [|done]. intros st'. split; [by intros ?; eapply transition_fun|by intros ->].
  - destruct Hh as (_ & Hrep & Hst & Hno). by split_and!.
Qed.

(** C29. While a run lasts, the status thread's check of the disks does exactly
    what the Stop command does when a disk stop was requested, and nothing
    otherwise: the data threads are joined, the state is Stopped and reported. *)
Theorem disk_full_stops_run nword args s :
  current_state_ s = kRunning → pending_reason_ s = kNone →
  let s1 := (HandleCommand nword TPC_Stop_Run args s).1 in
  ApplyPendingRunStop host s =
    (if DiskStopRequested (data_handler_ s) then s1 <| pending_reason_ := kNone |> else s, Some ()) ∧
  current_state_ s1 = kStopped ∧ data_thread_ s1 = false ∧
  telemetry s1 = telemetry s ++ [ReadoutState kStopped].
Proof.
  intros Hst Hp. rewrite stop_command by done. cbn zeta. cbn [fst].
  destruct (stopped_fields s) as (H1 & H2 & H3 & H4 & H5). split_and!; try done.
  rewrite ApplyPendingRunStop_eq, Hst, Hp. cbn [bool_decide andb].
  by destruct (DiskStopRequested (data_handler_ s)).
Qed.
End frame_lemmas.

(** ** A run of the program, evaluated *)
#[export] Program Instance demo_codes : CommandCodes := {|
  TPC_Configure := 1; TPC_Start_Run := 2; TPC_Stop_Run := 3; TPC_Reset_Run := 4;
  TPC_Query_Hardware_Status := 5; COM_HeartBeat := 6; TPC_Hardware_Status := 7
|}.
Next Obligation. by apply (bool_decide_unpack _). Qed.
Definition demo_document : document :=
  doc_sets [("light_fem", "pmt_precount", JInt 1); ("light_fem", "sipm_deadtime", JInt 2);
    ("light_fem", "channel_thresh0", JInt 3); ("light_fem", "channel_thresh1", JInt 4);
    ("trigger", "prescale", JArray (replicate 9 (JInt 1))); ("trigger", "light_trig_prescale", JInt 5);
    ("controller", "print_status", JBool true); ("controller", "device_id_0", JInt 1);
    ("controller", "device_id_1", JInt 2);
    ("crate", "xmit_slot", JInt 3); ("crate", "charge_fem_slot", JInt 4);
    ("crate", "last_charge_slot", JInt 5); ("crate", "light_fem_slot", JInt 6);
    ("data_handler", "dma_buffer_size_kb", JInt 500); ("data_handler", "num_events", JInt 100);
    ("data_handler", "pps_sample_period", JInt 1); ("data_handler", "read_core_id", JInt 1);
    ("data_handler", "write_core_id", JInt 2); ("crate", "trig_slot", JInt 7);
    ("trigger", "software_trigger_rate_hz", JInt 10); ("trigger", "trigger_source", JString "light");
    ("readout_windows", "drift_size", JInt 255)] ∅.
Definition demo_host : host := {|
  host_os _ := demo_os; host_run_id_writable _ := true; host_config _ _ := Some demo_document;
  host_files _ := Some (Fw [1; 2; 3] true); host_thread_ok _ := true; host_join _ h b := (h, b)
|}.
Definition demo_params : tpc_params := {|
  getSummedPeakThresh := 1; getChannelMultiplicity := 2; getRoiDelay0 := 3; getRoiDelay1 := 4;
  getRoiPrecount := 5; getRoiPeakWindow := 6; getEnableTop := 7; getEnableMiddle := 8;
  getEnableBottom := 9; getNumRoiWords := 10; getRoiDeadtime := 11; getUnbiasedLightSamples := 12;
  getFifoBlocksize := 13; getDiscThreshold0 := replicate 36 14; getDiscThreshold1 := replicate 36 15;
  getTriggerSource := "light"; getSoftwareTriggerRateHz := 16; getTpcDeadTime := 17; getDriftSize := 18;
  getDmaBufferkB := 19; getPrescale := replicate 9 20; getLightTrigPrescale := 21
|}.
Definition demo_start : controller :=
  new_controller true "/daq" "/write_data_nvme_ssd0" ∅ demo_params ([0;0],[0;0],[0;0]) (Some (Some 7)).
Definition demo_pass (c : Z) (s : controller) : controller * option () :=
  ReceiveCommand_pass demo_driver demo_kernel demo_host 40 (λ _ p, (p, true)) [] 1 c [3] s.

(** Configure, start, stop: the boards refuse the incomplete document, which is
    reported, and the commands succeed all the same. *)
Example demo_run_commands :
  let '(s, r) := (demo_pass 1 ;;~ demo_pass 2 ;;~ demo_pass 3) demo_start in
  r = Some () ∧ current_state_ s = kStopped ∧ run_id_ s = 8 ∧
  omap (λ t, match t with ReadoutState st => Some st | _ => None end) (telemetry s) =
    [kConfigured; kRunning; kStopped].
Proof. vm_compute. done. Qed.

Definition demo_configured : controller := (demo_pass 1 demo_start).1.
Definition demo_running : controller := (demo_pass 2 demo_configured).1.
Notation demo_step := (step demo_driver demo_kernel demo_host 40 (λ _ p, (p, true)) []).
Lemma demo_pass_step c s : (demo_pass c s).2 = Some () → demo_step s (demo_pass c s).1.
Proof.
  intros E. apply (step_command _ _ _ _ _ _ _ 1 c [3]). change (demo_pass c s = ((demo_pass c s).1, Some ())).
  by rewrite <-E, <-surjective_pairing.
Qed.
Lemma demo_running_reachable : rtc demo_step demo_start demo_running.
Proof.
  apply rtc_l with demo_configured; [apply demo_pass_step; vm_compute; reflexivity|].
  apply rtc_once, demo_pass_step. vm_compute. reflexivity.
Qed.

Lemma reachable_invariant_witness :
  rtc demo_step demo_start demo_running ∧ data_thread_ demo_running = true ∧ current_state_ demo_running = kRunning.
Proof.
  split; [exact demo_running_reachable|]. split; [vm_compute; reflexivity|].
  refine (proj1 (reachable_invariant demo_driver demo_kernel demo_host 40 (λ _ p, (p, true)) [] _ _ _ _ _ _ _ _ demo_running_reachable) _).
  vm_compute. reflexivity.
Defined.

Lemma HandleCommand_transitions_witness :
  rtc demo_step demo_start demo_running ∧
  match HandleCommand demo_driver demo_kernel demo_host 40 (λ _ p, (p, true)) [] 1 TPC_Stop_Run [] demo_running with
  | (s', Some true) => transition (current_state_ demo_running) TPC_Stop_Run (current_state_ s')
  | _ => False
  end.
Proof.
  split; [exact demo_running_reachable|].
  pose proof (HandleCommand_transitions demo_driver demo_kernel demo_host 40 (λ _ p, (p, true)) []
    _ _ _ _ _ _ _ _ 1 TPC_Stop_Run [] demo_running_reachable) as H.
  assert ((HandleCommand demo_driver demo_kernel demo_host 40 (λ _ p, (p, true)) [] 1 TPC_Stop_Run []
    demo_running).2 = Some true) as Hok by (vm_compute; reflexivity).
  destruct (HandleCommand _ _ _ _ _ _ _ _ _ _) as [s' r]. cbn in Hok. subst r.
  by apply (proj1 H).
Defined.

Definition demo_disk_full : controller :=
  demo_running <| data_handler_ ::= λ h, h <| disk_stop_requested := true |> |>.
Lemma disk_full_stops_run_witness :
  let s1 := (HandleCommand demo_driver demo_kernel demo_host 40 (λ _ p, (p, true)) [] 1 TPC_Stop_Run []
    demo_disk_full).1 in
  current_state_ demo_disk_full = kRunning ∧ pending_reason_ demo_disk_full = kNone ∧
  current_state_ s1 = kStopped ∧ data_thread_ s1 = false.
Proof.
  assert (current_state_ demo_disk_full = kRunning) as H1 by (vm_compute; reflexivity).
  assert (pending_reason_ demo_disk_full = kNone) as H2 by (vm_compute; reflexivity).
  pose proof (disk_full_stops_run demo_driver demo_kernel demo_host 40 (λ _ p, (p, true)) [] 1 []
    demo_disk_full H1 H2) as (_ & Hst & Hth & _).
  split; [exact H1|]. split; [exact H2|]. split; [exact Hst|exact Hth].
Defined.
