(* ===== verification/ControllerLife.v ===== *)
(** * The life of a controller (src/src/control/controller.cpp, src/daemon/tpc_daq.cpp)

    The constructor, the loop of commands, the destructor, and [TpcRunController],
    which runs them in a thread of the service. *)
From Stdlib Require Import Lia ZArith NArith String.
From stdpp Require Import base tactics list numbers option strings gmap relations.
From S2P Require Import Prelude CppString StorageUtils Config Json SpscQueue DataHandler Pcie HwConsts HardwareDevice TriggerControl Status Controller ControllerFacts.
Local Open Scope Z_scope.

(** ** The constructor *)
(** The two base directories, left empty when the variable is not set. *)
Definition GetEnvVariables (o : os) : string * string :=
  (default "" (os_getenv o "TPC_DAQ_BASEDIR"), default "" (os_getenv o "DATA_BASE_DIR"))%string.
Definition setup_file (readout_basedir : string) : string :=
  (readout_basedir +:+ "/tpc_configs/setup_config/setup_params.json")%string.
(** A set-up document that does not load is reported, and read all the same: [None]
    when that throws. *)
Definition Controller_constructor (o : os) (load : string → option document) (uninit_print : bool) (params : tpc_params)
    (buffers : list Z * list Z * list Z) (run_file : option (option Z)) : option controller :=
  let '(readout, data) := GetEnvVariables o in
  let setup_config := default ∅ (load (setup_file readout)) in
  log_to_file ← get_bool (doc_get setup_config "controller" "log_to_file");
  mret (new_controller uninit_print readout data setup_config params buffers run_file).

Section life.
Context (drv : driver) (sys : kernel) (host : host) `{ErrorBits} `{CommandCodes}.
Context (TOTAL_LIGHT_CHANNELS : nat) (deserialize : list Z → tpc_params → tpc_params * bool).
Context (uninit : list Z).
Notation ctl := (st_err controller).
Notation step := (step drv sys host TOTAL_LIGHT_CHANNELS deserialize uninit).

(** ** [Run] *)
(** The commands that arrive until [is_running_] is cleared. *)
Fixpoint ReceiveCommand (commands : list (Z * Z * list Z)) : ctl () :=
  match commands with
  | [] => st_ret ()
  | (nword, command, arguments) :: commands =>
      ReceiveCommand_pass drv sys host TOTAL_LIGHT_CHANNELS deserialize uninit nword command arguments ;;~ ReceiveCommand commands
  end.

(** ** The destructor *)
(** The interface to the cards is closed; then the member [data_thread_] is destroyed:
    [std::terminate] (no value) while it is joinable. *)
Definition Controller_destructor : ctl () :=
  on_pcie (close_interface drv) ;;~
  joinable <~ get_field data_thread_ ;;
  if joinable : bool then st_get None else st_ret ().

(** ** [TpcRunController] *)
Inductive life_outcome := NotConstructed | Ended (s : controller) | Terminated (s : controller).
(** What [Run] throws is caught. *)
Definition TpcRunController (constructed : option controller) (commands : list (Z * Z * list Z)) : life_outcome :=
  match constructed with
  | None => NotConstructed
  | Some s =>
      match Controller_destructor (ReceiveCommand commands s).1 with
      | (s, Some _) => Ended s
      | (s, None) => Terminated s
      end
  end.

(** ** When it ends, and when it is terminated *)
Notation Configure := (Configure drv sys host TOTAL_LIGHT_CHANNELS deserialize).
Notation ReceiveCommand_pass := (ReceiveCommand_pass drv sys host TOTAL_LIGHT_CHANNELS deserialize uninit).
#[local] Instance control_machine {A} (c : ctl A) : Keeps control c → Keeps machine c | 60.
Proof. intros Hc s. exact (f_equal fst (Hc s)). Qed.
#[local] Instance Configure_machine nword args : Keeps machine (Configure nword args).
Proof. unfold Controller.Configure, configure_hardware. keeps. Qed.

Lemma close_interface_closed p : is_initialized (close_interface drv p).1 = false.
Proof.
  unfold close_interface. unfold mbind, st_mbind, st_read, st_update.
  repeat match goal with |- context [let '(_, _) := ?c in _] => destruct c end. done.
Qed.
Lemma destructor_run s :
  ∃ b, Controller_destructor s = (s <| bench_ := b |>, if data_thread_ s then None else Some ()) ∧
       is_initialized (HardwareDevice.card b) = false.
Proof.
  unfold Controller_destructor, on_pcie, on_bench, on_card. unfold st_bind at 1.
  pose proof (close_interface_closed (HardwareDevice.card (bench_ s))) as Hclosed.
  destruct (close_interface drv (HardwareDevice.card (bench_ s))) as [p []]. exists ((bench_ s) <| HardwareDevice.card := p |>).
  split; [|exact Hclosed]. unfold st_bind, get_field. cbn. by destruct (data_thread_ s).
Qed.

Definition ReceiveCommand_left (s s' : controller) (r : option ()) : Prop :=
  if r then good s' ∧ rtc step s s' else data_thread_ s' = false.
Lemma HandleCommand_throws nword command args s s' :
  good s → HandleCommand drv sys host TOTAL_LIGHT_CHANNELS deserialize uninit nword command args s = (s', None) →
  machine s' = machine s ∧ current_state_ s = kIdle.
Proof.
  intros Hs E. pose proof (HandleCommand_handled drv sys host TOTAL_LIGHT_CHANNELS deserialize uninit nword command args s Hs) as Hh.
  rewrite E in Hh. destruct Hh as [Hidle ->]. split; [|done]. revert E. unfold Controller.HandleCommand.
  rewrite (st_bind_run (get_field _) _ _ _ _ eq_refl), Hidle, Z.eqb_refl, bool_decide_eq_true_2 by done.
  cbn [andb]. rewrite (st_bind_run (host_do _) _ _ _ _ eq_refl).
  rewrite (st_bind_run (get_field _) _ _ _ _ eq_refl). set (s1 := s <| host_calls ::= _ |>).
  assert (is_configured_ s1 = false) as ->
    by (change (is_configured_ s = false); rewrite (good_configured _ Hs), Hidle; done).
  pose proof (Configure_machine nword args s1) as Hm. unfold st_bind.
  destruct (Configure nword args s1) as [s2 [[]|]]; [done..|]. by intros [= <-].
Qed.
Lemma pass_left nword command args s :
  good s → let '(s', r) := ReceiveCommand_pass nword command args s in ReceiveCommand_left s s' r.
Proof.
  intros Hs. destruct (ReceiveCommand_pass nword command args s) as [s' [[]|]] eqn:E.
  - assert (step s s') as Hstep by by eapply step_command. split; [by eapply step_good|by apply rtc_once].
  - unfold ReceiveCommand_left. revert E. unfold Controller.ReceiveCommand_pass, st_bind.
    destruct (HandleCommand drv sys host TOTAL_LIGHT_CHANNELS deserialize uninit nword command args s) as [s1 [ok|]] eqn:E1.
    + by destruct (command =? COM_HeartBeat).
    + intros [= ->]. destruct (HandleCommand_throws _ _ _ _ _ Hs E1) as [Hm Hidle]. unfold machine in Hm. injection Hm as _ _ ->.
      destruct (data_thread_ s) eqn:Hd; [|done]. pose proof (good_thread _ Hs Hd). congruence.
Qed.
Lemma ReceiveCommand_good commands s :
  good s → let '(s', r) := ReceiveCommand commands s in ReceiveCommand_left s s' r.
Proof.
  revert s. induction commands as [|[[nword command] args] commands IH]; intros s Hs; [by split|]. cbn [ReceiveCommand].
  pose proof (pass_left nword command args s Hs) as Hp. unfold st_bind.
  destruct (ReceiveCommand_pass nword command args s) as [s1 [[]|]]; [|exact Hp]. destruct Hp as [Hs1 H1].
  specialize (IH s1 Hs1). destruct (ReceiveCommand commands s1) as [s2 [[]|]]; [|exact IH].
  destruct IH as [Hs2 H2]. split; [done|]. by etransitivity.
Qed.
End life.

Section outcome.
Context (drv : driver) (sys : kernel) (host : host) `{ErrorBits} `{CommandCodes}.
Context (TOTAL_LIGHT_CHANNELS : nat) (deserialize : list Z → tpc_params → tpc_params * bool).
Context (uninit : list Z).

(** The thread of the service, whatever commands arrive before it is told to stop: the
    controller is not constructed exactly when the set-up document does not say where to
    log; otherwise the cards are closed at the end, and the process is terminated,
    by the destructor of the data thread's handle, exactly when a run was on. *)
Theorem TpcRunController_outcome o load uninit_print params buffers run_file commands :
  let '(readout, _) := GetEnvVariables o in
  match TpcRunController drv sys host TOTAL_LIGHT_CHANNELS deserialize uninit
          (Controller_constructor o load uninit_print params buffers run_file) commands with
  | NotConstructed => get_bool (doc_get (default ∅ (load (setup_file readout))) "controller" "log_to_file") = None
  | Ended s => pcie_ready s = false ∧ data_thread_ s = false
  | Terminated s => pcie_ready s = false ∧ data_thread_ s = true ∧ current_state_ s = kRunning
  end.
Proof.
  unfold Controller_constructor. destruct (GetEnvVariables o) as [readout data].
  destruct (get_bool _) as [b|] eqn:Hlog; [|done]. cbv [mbind option_bind mret option_ret TpcRunController]; cbv iota beta.
  set (s0 := new_controller _ _ _ _ _ _ _). pose proof (new_controller_good uninit_print readout data
    (default ∅ (load (setup_file readout))) params buffers run_file) as Hs0. fold s0 in Hs0.
  pose proof (ReceiveCommand_good drv sys host TOTAL_LIGHT_CHANNELS deserialize uninit commands s0 Hs0) as Hrun.
  destruct (ReceiveCommand _ _ _ _ _ _ commands s0) as [s1 r]. cbn [fst].
  destruct (destructor_run drv s1) as (bench & -> & Hclosed). destruct (data_thread_ s1) eqn:Hd.
  - split; [exact Hclosed|]. split; [exact Hd|]. destruct r as [u|]; [|unfold ReceiveCommand_left in Hrun; congruence].
    destruct Hrun as [Hs1 _]. exact (good_thread _ Hs1 Hd).
  - split; [exact Hclosed|exact Hd].
Qed.
End outcome.

(** A service that is stopped in a run is terminated: the threads of the run still use
    what the destructor released, and nothing is written out. *)
Definition demo_load (file : string) : option document :=
  Some (doc_sets [("controller", "log_to_file", JBool false); ("controller", "print_status", JBool true);
    ("controller", "device_id_0", JInt 1); ("controller", "device_id_1", JInt 2)] ∅).
Definition demo_life (commands : list Z) : life_outcome :=
  TpcRunController demo_driver demo_kernel demo_host 40 (λ _ p, (p, true)) []
    (Controller_constructor demo_os demo_load true demo_params ([0;0],[0;0],[0;0]) (Some (Some 7))) ((λ c, (1, c, [3])) <$> commands).
Example stopped_in_a_run :
  match demo_life [TPC_Configure; TPC_Start_Run] with Terminated s => current_state_ s = kRunning | _ => False end ∧
  match demo_life [TPC_Configure; TPC_Start_Run; TPC_Stop_Run] with Ended s => current_state_ s = kStopped | _ => False end.
Proof. vm_compute. done. Qed.
