(* ===== verification/Shell.v ===== *)
(** * The interactive shell around the controller (src/main.cpp)

    [GetUserInput] reads a number from the terminal and gives the code of a command,
    [Run] sends the command to the controller, [main] starts and joins the threads. *)
From Stdlib Require Import Ascii String Lia ZArith NArith.
From stdpp Require Import base tactics list numbers option strings.
From S2P Require Import Prelude CppString Config Controller ControllerFacts.
Local Open Scope string_scope.
Local Open Scope Z_scope.

(** ** [std::cin] *)
(** [std::cin >> choice]: the number and what follows; [None] when there is none, or
    it does not fit an int. *)
Definition scan_int (s : string) : option (Z * string) :=
  '(neg, v, rest) ← read_number s;
  let z := if neg : bool then - Z.of_N v else Z.of_N v in
  if decide (- 2 ^ 31 ≤ z < 2 ^ 31) then Some (z, rest) else None.
(** [std::cin.ignore(max, '\n')]; what a failed [>>] took holds no newline, apart
    from the white space before it. *)
Fixpoint ignore_line (s : string) : string :=
  match s with
  | String c s => if Ascii.eqb c newline then s else ignore_line s
  | EmptyString => ""
  end.

Section shell.
Context `{CommandCodes}.

Definition menu (choice : Z) : option Z :=
  match choice with
  | 0 => Some TPC_Reset_Run
  | 1 => Some TPC_Configure
  | 2 => Some TPC_Start_Run
  | 3 => Some TPC_Stop_Run
  | 39 => Some TPC_Query_Hardware_Status
  | -1 => Some (-1)
  | _ => None
  end.
(** It calls itself until a choice is made. *)
Fixpoint GetUserInput (fuel : nat) (s : string) : option (Z * string) :=
  match fuel with
  | O => None
  | S fuel =>
      match scan_int s with
      | None => GetUserInput fuel (ignore_line (skip_spaces s))
      | Some (choice, rest) =>
          match menu choice with Some code => Some (code, rest) | None => GetUserInput fuel rest end
      end
  end.

(** ** [Run] *)
Inductive reply := StateChanged (name : string) | InvalidTransition.
Context {C : Type} (HandleCommand : Z → list Z → st_err C bool) (state_name : C → string).
Record shell := Shell { ctrl : C; terminal : string; replies : list reply }.
#[local] Instance shell_eta : RecordEta shell := λ s, Shell (ctrl s) (terminal s) (replies s).
Notation act := (st_err shell).

Definition command_of (input : Z) : Z := u16 (if u16 input =? 0x0 then 0xA else input).
Definition user_input (fuel : nat) : act Z := λ s,
  match GetUserInput fuel (terminal s) with
  | Some (code, rest) => (s <| terminal := rest |>, Some code)
  | None => (s, None)
  end.
Definition handle (command : Z) (arguments : list Z) : act bool := λ s,
  let '(c, r) := HandleCommand command arguments (ctrl s) in (s <| ctrl := c |>, r).
Definition Run_pass (input : Z) : act () :=
  ok <~ handle (command_of input) [1] ;;
  st_modify (λ s, s <| replies ::= λ l, (l ++ [if ok : bool then StateChanged (state_name (ctrl s)) else InvalidTransition])%list |>).
Fixpoint Run (input_fuel fuel : nat) : act () :=
  match fuel with
  | O => st_get None
  | S fuel =>
      input <~ user_input input_fuel ;;
      if input =? -1 then st_ret () else Run_pass input ;;~ Run input_fuel fuel
  end.
End shell.
Arguments shell C : clear implicits.
#[export] Existing Instance shell_eta.

(** ** [main] *)
Inductive main_thread := IoThread | StatusIoThread | CtrlThread.
Inductive main_call := Start (t : main_thread) | Init | RunShell | SetRunningFalse | StopContext (status : bool) | Join (t : main_thread).
(** The calls it makes and its exit code. *)
Definition main (init_ok : bool) : list main_call * Z :=
  let starting := [Start IoThread; Start StatusIoThread; Init] in
  if negb init_ok then
    ((starting ++ [SetRunningFalse; StopContext false; StopContext true; Join IoThread; Join StatusIoThread])%list, 1)
  else
    ((starting ++ [Start CtrlThread; RunShell; SetRunningFalse; StopContext false; StopContext true;
                  Join CtrlThread; Join IoThread; Join StatusIoThread])%list, 0).

(** Every thread is joined, after it was told to stop. *)
Lemma main_joins init_ok t :
  Start t ∈ (main init_ok).1 → ∃ before after, (main init_ok).1 = (before ++ Join t :: after)%list ∧
    Start t ∈ before ∧ SetRunningFalse ∈ before ∧ StopContext false ∈ before ∧ StopContext true ∈ before.
Proof.
  set (l := (main init_ok).1). intros Hs.
  set (n := (if init_ok then match t with CtrlThread => 8 | IoThread => 9 | StatusIoThread => 10 end
             else match t with IoThread => 6 | _ => 7 end)%nat).
  exists (take n l), (drop (S n) l). subst l n. destruct init_ok, t; cbn in *;
    try (rewrite !elem_of_cons, elem_of_nil in Hs; naive_solver); split_and!; rewrite ?elem_of_cons; try reflexivity; auto 12.
Qed.

(** ** What is typed is what the controller is asked *)
Definition enter : string := String newline "".
Definition typed (choices : list Z) : string := foldr (λ c s, enter ++ print_i64 c ++ s) "" choices.
Section typed.
Context `{CommandCodes} {C : Type} (HandleCommand : Z → list Z → st_err C bool) (state_name : C → string).
Notation Run := (Run HandleCommand state_name).
Notation Run_pass := (Run_pass HandleCommand state_name).

(** The controller is asked for each command in turn; the terminal is not read. *)
Definition ask_all (codes : list Z) : st_err (shell C) () := foldr (λ code rest, Run_pass code ;;~ rest) (st_ret ()) codes.
Definition seen (r : shell C * option ()) : C * list reply * option () := (ctrl r.1, replies r.1, r.2).

Lemma menu_cases choice code : menu choice = Some code → choice ∈ [0; 1; 2; 3; 39; -1].
Proof. unfold menu. repeat case_match; try done; intros _; rewrite !elem_of_cons; auto 10. Qed.
(** A choice followed by a new line is read; what is left begins with that line. *)
Lemma GetUserInput_typed fuel choice code rest :
  menu choice = Some code → GetUserInput (S fuel) (enter ++ print_i64 choice ++ enter ++ rest) = Some (code, enter ++ rest).
Proof.
  intros Hm. pose proof (menu_cases _ _ Hm) as Hc. cbn [GetUserInput].
  replace (scan_int _) with (Some (choice, enter ++ rest)); [by rewrite Hm|].
  repeat (apply elem_of_cons in Hc as [->|Hc]; [reflexivity|]). by apply elem_of_nil in Hc.
Qed.
Lemma typed_next choices : ∃ rest, typed choices ++ enter = enter ++ rest.
Proof. destruct choices as [|c l]; [by exists ""|]. cbn [typed foldr]. rewrite append_assoc. by eexists. Qed.
Lemma typed_cons c choices : typed (c :: choices) ++ enter = enter ++ print_i64 c ++ typed choices ++ enter.
Proof. unfold typed. cbn [foldr]. by rewrite !append_assoc. Qed.
(** The choices typed one after the other, -1 last, are the commands the controller
    is asked to handle, with one argument, in this order; nothing is asked after a
    command that throws, nor after -1. *)
Lemma Run_typed choices codes fuel s :
  Forall2 (λ choice code, menu choice = Some code ∧ code ≠ -1) choices codes →
  terminal s = typed (choices ++ [-1])%list ++ enter → (length choices < fuel)%nat →
  seen (Run 1 fuel s) = seen (ask_all codes s).
Proof.
  assert (∀ s', ctrl s = ctrl s' → replies s = replies s' →
    Forall2 (λ choice code, menu choice = Some code ∧ code ≠ -1) choices codes →
    terminal s = typed (choices ++ [-1])%list ++ enter → (length choices < fuel)%nat →
    seen (Run 1 fuel s) = seen (ask_all codes s')) as Hrun; [|by apply Hrun].
  intros s' Hc Hr Hall. revert fuel s s' Hc Hr. induction Hall as [|choice code choices codes [Hm Hne] Hall IH];
    intros [|fuel] s s' Hc Hr Ht Hlt; cbn [length] in Hlt; try lia; cbn [Shell.Run app] in *; unfold st_bind at 1, user_input; rewrite Ht, typed_cons.
  - change (typed [] ++ enter) with (enter ++ ""). rewrite (GetUserInput_typed 0 (-1) (-1) "" eq_refl). unfold seen. cbn. by rewrite Hc, Hr.
  - destruct (typed_next (choices ++ [-1])%list) as [rest E]. rewrite E, (GetUserInput_typed 0 choice code rest Hm).
    destruct (Z.eqb_spec code (-1)) as [?|_]; [done|]. cbn [ask_all foldr]. fold (ask_all codes).
    unfold Shell.Run_pass, handle, st_bind, st_modify. cbn. rewrite <- Hc.
    destruct (HandleCommand (command_of code) [1] (ctrl s)) as [c [ok|]]; cbn; [|unfold seen; cbn; by rewrite Hr].
    apply IH; cbn; [done| |done|lia]. by rewrite Hr.
Qed.
(** A line that is not a number is skipped. *)
Lemma GetUserInput_skips fuel a line rest :
  is_space a = false → is_digit a = false → a ≠ "-"%char → a ≠ "+"%char → string_has newline (String a line) = false →
  GetUserInput (S fuel) (String a line ++ enter ++ rest) = GetUserInput fuel rest.
Proof.
  intros Hs Hd Hm Hp Hl. cbn [GetUserInput String.append]. unfold scan_int, read_number. cbn [skip_spaces]. rewrite Hs.
  destruct (Ascii.eqb_spec a "-") as [?|_]; [done|]. destruct (Ascii.eqb_spec a "+") as [?|_]; [done|].
  cbn [span_digits]. rewrite Hd. cbn. f_equal. cbn [string_has] in Hl. apply orb_false_iff in Hl as [-> Hl].
  induction line as [|b line IH]; [done|]. cbn in *. apply orb_false_iff in Hl as [-> Hl]. by apply IH.
Qed.
(** At the end of the input it calls itself for ever. *)
Lemma GetUserInput_end fuel : GetUserInput fuel "" = None.
Proof. by induction fuel. Qed.
End typed.

(** The shell of the program: [Run] around [Controller::HandleCommand]. *)
Definition controller_shell drv sys host `{ErrorBits} `{CommandCodes} lights deserialize uninit nword :=
  Run (HandleCommand drv sys host lights deserialize uninit nword) (λ c, GetStateName (current_state_ c)).
Example shell_session :
  let start := Shell (C := list Z) [] ("1" ++ enter ++ "start" ++ enter ++ "2" ++ enter ++ "-1" ++ enter) [] in
  seen (Run (λ command _ l, ((l ++ [command])%list, Some (bool_decide (l = [])))) (λ _, "Configure") 2 3 start) =
  ([TPC_Configure; TPC_Start_Run], [StateChanged "Configure"; InvalidTransition], Some ()).
Proof. reflexivity. Qed.
