(* ===== verification/RunSetup.v ===== *)
(** * What a run is set up with: the run number, the disk, the configuration

    Properties of [PersistRunId], [SelectNvmeDataDirForRun], [SetConfigFromComm]
    and [Configure] of the controller (src/src/control/controller.cpp). *)
From Stdlib Require Import Lia ZArith NArith String.
From stdpp Require Import base tactics list numbers option strings gmap.
From S2P Require Import Prelude CppString StorageUtils Config Json SpscQueue DataHandler Pcie HwConsts HardwareDevice TriggerControl XmitControl ChargeFem LightFem Status Controller ControllerFacts.
Local Open Scope Z_scope.

(** ** The run number *)
Section run_number.
Context (host : host).

(** The numbers of the next [n] runs. *)
Fixpoint run_ids (n : nat) (s : controller) : list Z :=
  match n with
  | O => []
  | S n => let s := (PersistRunId host s).1 in run_id_ s :: run_ids n s
  end.
Definition first_id (content : option Z) : Z := match content with None => 0 | Some n => u32 (n + 1) end.

Hypothesis Hwritable : ∀ calls, host_run_id_writable host calls = true.

Lemma PersistRunId_persists s content :
  run_id_file s = Some content →
  ∃ s', PersistRunId host s = (s', Some true) ∧ run_id_ s' = first_id content ∧
    run_id_file s' = Some (Some (first_id content)).
Proof.
  intros Hf. unfold PersistRunId. rewrite Hf, Hwritable. by eexists.
Qed.

Lemma run_ids_from n s content k :
  run_id_file s = Some content → first_id content = u32 k → 0 ≤ k →
  run_ids n s = (λ i : nat, u32 (k + Z.of_nat i)) <$> seq 0 n.
Proof.
  revert s content k. induction n as [|n IH]; intros s content k Hf Hk Hpos; [done|]. cbn [run_ids].
  destruct (PersistRunId_persists s content Hf) as (s' & E & Hid & Hf').
  rewrite E. cbn [fst seq fmap list_fmap]. rewrite Hid. rewrite Hk in *. f_equal; [f_equal; lia|].
  rewrite (IH s' _ (k + 1) Hf'); [|unfold first_id, u32; by rewrite Zplus_mod_idemp_l|lia].
  rewrite <-fmap_S_seq, <-list_fmap_compose. apply list_fmap_ext. intros i x _. cbn. f_equal. lia.
Qed.

Lemma PersistRunId_range s s' r : PersistRunId host s = (s', r) → 0 ≤ run_id_ s' < 2 ^ 32.
Proof. unfold PersistRunId. intros E. repeat case_match; simplify_eq/=; try apply u32_range; lia. Qed.
Lemma run_ids_range n s : Forall (λ id, 0 ≤ id < 2 ^ 32) (run_ids n s).
Proof.
  revert s. induction n as [|n IH]; intros s; constructor; [|apply IH].
  unfold PersistRunId. repeat case_match; cbn; try apply u32_range; lia.
Qed.

(** C21. As long as the run number's file can be read and written, the numbers of
    up to 2^32 consecutive configured or reset runs are all different, and two
    different runs have no data file name in common, whatever the disks and the
    file indices. *)
Theorem runs_never_share_files n s content :
  run_id_file s = Some content → Z.of_nat n ≤ 2 ^ 32 →
  NoDup (run_ids n s) ∧
  ∀ i j a b, run_ids n s !! i = Some a → run_ids n s !! j = Some b → i ≠ j →
    ∀ k l d e, run_file (Z.to_N a) k d ≠ run_file (Z.to_N b) l e.
Proof.
  intros Hf Hn.
  assert (NoDup (run_ids n s)) as Hnd.
  { assert (0 ≤ first_id content) by (unfold first_id; destruct content; [apply u32_range|lia]).
    rewrite (run_ids_from n s content (first_id content) Hf); [|unfold first_id, u32; case_match; [by rewrite Zmod_mod|done]|done].
    apply NoDup_fmap_2_strong; [|apply NoDup_seq]. intros i j Hi%elem_of_seq Hj%elem_of_seq. unfold u32. intros E.
    apply Nat2Z.inj. assert (Z.of_nat i mod 2 ^ 32 = Z.of_nat j mod 2 ^ 32) as Hm.
    { rewrite <-(Z.add_simpl_l (first_id content) (Z.of_nat i)), <-(Z.add_simpl_l (first_id content) (Z.of_nat j)).
      by rewrite Zminus_mod, E, <-Zminus_mod. }
    rewrite !Z.mod_small in Hm; lia. }
  split; [done|]. intros i j a b Ha Hb Hij k l d e E. apply run_file_inj2 in E as [E _].
  pose proof (run_ids_range n s) as Hr. rewrite Forall_lookup in Hr.
  pose proof (Hr _ _ Ha). pose proof (Hr _ _ Hb). apply Hij.
  apply (proj1 (NoDup_alt _) Hnd i j a Ha). rewrite Hb. f_equal. lia.
Qed.
End run_number.

(** ** The disk *)
Section disk.
Context (host : host) `{ErrorBits}.

Lemma accept_pick_spec r s :
  accept_pick r s =
  if ok r
  then (s <| data_basedir_ := path r |> <| host_calls ::= λ l, l ++ [WriteDataBaseDirConf (path r)] |>, Some true)
  else (s <| telemetry ::= λ l, l ++ [ErrorBitWord (Z.of_N bit_disk_full)] |>, Some false).
Proof. unfold accept_pick. by destruct (ok r). Qed.

Lemma select_disk s :
  let o := host_os host (host_calls s) in
  let room := has_room o kDiskRunStartMinFreeBytes in
  ∃ s' accepted, SelectNvmeDataDirForRun host s = (s', Some accepted) ∧
    (accepted = true ↔
     Exists room (GetNvmeCandidatesFromEnv o) ∨ PickMaxFreeEnabled o = false ∧ room (data_basedir_ s)) ∧
    if accepted
    then room (data_basedir_ s') ∧
         (s' = s ∨ data_basedir_ s' ∈ GetNvmeCandidatesFromEnv o ∧
          host_calls s' = host_calls s ++ [WriteDataBaseDirConf (data_basedir_ s')])
    else s' = s <| telemetry ::= λ l, l ++ [ErrorBitWord (Z.of_N bit_disk_full)] |>.
Proof.
  cbn zeta. set (o := host_os host (host_calls s)). set (m := kDiskRunStartMinFreeBytes).
  assert (∀ r, good_pick o m r → (PickMaxFreeEnabled o = true ∨ ¬ has_room o m (data_basedir_ s)) →
    ∃ s' accepted, accept_pick r s = (s', Some accepted) ∧
    (accepted = true ↔ Exists (has_room o m) (GetNvmeCandidatesFromEnv o) ∨
       PickMaxFreeEnabled o = false ∧ has_room o m (data_basedir_ s)) ∧
    if accepted
    then has_room o m (data_basedir_ s') ∧
         (s' = s ∨ data_basedir_ s' ∈ GetNvmeCandidatesFromEnv o ∧
          host_calls s' = host_calls s ++ [WriteDataBaseDirConf (data_basedir_ s')])
    else s' = s <| telemetry ::= λ l, l ++ [ErrorBitWord (Z.of_N bit_disk_full)] |>) as Hpick.
  { intros r [Hok Hroom] Hcur. rewrite accept_pick_spec.
    destruct (ok r); eexists _, _; (split; [reflexivity|]).
    - destruct (Hroom eq_refl). split; [tauto|]. split; [done|]. by right.
    - split; [|done]. rewrite <-Hok. split; [done|]. intros [?|[? ?]]; [done|]. destruct Hcur; congruence. }
  unfold SelectNvmeDataDirForRun. cbv zeta. fold o m. change (os_of host s) with o.
  destruct (PickMaxFreeEnabled o) eqn:Hmode; [apply Hpick; [apply pick_max_good|by left]|].
  destruct (candidates_two o) as (c0 & c1 & E).
  assert (match GetFreeBytes o (data_basedir_ s) with Some f => (m <=? f)%N | None => false end =
    bool_decide (has_room o m (data_basedir_ s))) as ->.
  { case_bool_decide as Hroom; unfold has_room in Hroom.
    - destruct Hroom as (f & -> & Hf). by apply N.leb_le.
    - destruct (GetFreeBytes o (data_basedir_ s)) as [f|]; [|done]. apply N.leb_gt.
      destruct (decide (m ≤ f)%N); [|lia]. destruct Hroom. by exists f. }
  case_bool_decide as Hcur.
  - exists s, true. split; [done|]. split; [tauto|]. split; [done|by left].
  - rewrite E. rewrite <-E. apply Hpick; [by apply pick_ssd0_good|by right].
Qed.

(** A run is accepted exactly when a disk it may use has 5 GiB free: one of
    the two candidates, or, unless the emptiest disk is asked for, the disk it is
    on. An accepted run's disk has them; a new disk is written to the
    configuration. A refused run keeps its disk and reports a full disk. *)
Theorem SelectNvmeDataDirForRun_spec s :
  let o := host_os host (host_calls s) in
  let room := has_room o kDiskRunStartMinFreeBytes in
  ∃ s' accepted, SelectNvmeDataDirForRun host s = (s', Some accepted) ∧
    (accepted = true ↔
     Exists room (GetNvmeCandidatesFromEnv o) ∨ PickMaxFreeEnabled o = false ∧ room (data_basedir_ s)) ∧
    if accepted
    then room (data_basedir_ s') ∧
         (s' = s ∨ data_basedir_ s' ∈ GetNvmeCandidatesFromEnv o ∧
          host_calls s' = host_calls s ++ [WriteDataBaseDirConf (data_basedir_ s')])
    else s' = s <| telemetry ::= λ l, l ++ [ErrorBitWord (Z.of_N bit_disk_full)] |>.
Proof. apply select_disk. Qed.
End disk.

(** ** The ground parameters *)
Section ground.
Context (TOTAL_LIGHT_CHANNELS : nat) (deserialize : list Z → tpc_params → tpc_params * bool).

(** All the stores of [SetConfigFromComm] when nothing throws. *)
Definition comm_stores_list (t : tpc_params) : list (string * string * jvalue) :=
  comm_light_fem TOTAL_LIGHT_CHANNELS t ++ comm_trigger t ++
  [("trigger", "prescale", jints (<[7%nat := getLightTrigPrescale t]>
                                  (<[1%nat := getLightTrigPrescale t]> (getPrescale t))))].

#[local] Opaque doc_sets doc_set comm_light_fem comm_trigger.
Lemma SetConfigFromComm_run words s t :
  deserialize words (tpc_configs_ s) = (t, true) → (7 < length (getPrescale t))%nat →
  ∃ s', SetConfigFromComm TOTAL_LIGHT_CHANNELS deserialize words s = (s', Some true) ∧
    config_ s' = doc_sets (comm_stores_list t) (config_ s).
Proof.
  intros Hd Hlen. unfold SetConfigFromComm. rewrite Hd. cbn [negb]. unfold comm_stores.
  unfold st_bind, st_modify, get_field, set_prescale. cbv beta iota.
  rewrite decide_True by (cbn [tpc_configs_ getPrescale update_field]; lia).
  rewrite decide_True by (cbn [tpc_configs_ getPrescale update_field]; rewrite length_insert; lia).
  eexists. split; [reflexivity|]. unfold comm_stores_list. rewrite !doc_sets_app, doc_sets_one. reflexivity.
Qed.

#[local] Transparent doc_sets doc_set comm_light_fem comm_trigger.

(** The values stored as they are, by section and key. *)
Definition comm_numbers (t : tpc_params) : list (string * string * Z) :=
  [("light_fem", "cosmic_summed_adc_thresh", getSummedPeakThresh t);
   ("light_fem", "cosmic_multiplicity", getChannelMultiplicity t);
   ("light_fem", "pmt_delay_0", getRoiDelay0 t); ("light_fem", "pmt_delay_1", getRoiDelay1 t);
   ("light_fem", "pmt_window", getRoiPeakWindow t); ("light_fem", "pmt_enable_top", getEnableTop t);
   ("light_fem", "pmt_enable_middle", getEnableMiddle t); ("light_fem", "pmt_enable_lower", getEnableBottom t);
   ("light_fem", "sipm_words", getNumRoiWords t); ("light_fem", "pmt_gate_size", getUnbiasedLightSamples t);
   ("light_fem", "pmt_beam_size", getUnbiasedLightSamples t); ("light_fem", "pmt_blocksize", getFifoBlocksize t);
   ("trigger", "software_trigger_rate_hz", getSoftwareTriggerRateHz t); ("trigger", "dead_time", getTpcDeadTime t);
   ("readout_windows", "timesize", getDriftSize t); ("data_handler", "dma_buffer_size_kb", getDmaBufferkB t)].
Definition comm_vectors (t : tpc_params) : list (string * list Z) :=
  let pad l := l ++ replicate (TOTAL_LIGHT_CHANNELS - length (getDiscThreshold0 t)) 0xFFF in
  [("pmt_precount", replicate TOTAL_LIGHT_CHANNELS (u32 (getRoiPrecount t)));
   ("sipm_deadtime", replicate TOTAL_LIGHT_CHANNELS (u32 (getRoiDeadtime t)));
   ("channel_thresh0", pad (getDiscThreshold0 t)); ("channel_thresh1", pad (getDiscThreshold1 t))].

Lemma jints_int l : get_list get_int (jints l) = Some (i32 <$> l).
Proof. by apply get_list_map. Qed.
Lemma jints_uint32 l : get_list get_uint32 (jints l) = Some (u32 <$> l).
Proof. by apply get_list_map. Qed.

Lemma extra_channels_small n :
  (n ≤ TOTAL_LIGHT_CHANNELS)%nat → (N.of_nat TOTAL_LIGHT_CHANNELS < 2 ^ 64)%N →
  extra_channels TOTAL_LIGHT_CHANNELS n = (TOTAL_LIGHT_CHANNELS - n)%nat.
Proof.
  intros Hn Ht. unfold extra_channels, u64N.
  replace (N.of_nat TOTAL_LIGHT_CHANNELS + 2 ^ 64 - N.of_nat n)%N
    with (N.of_nat (TOTAL_LIGHT_CHANNELS - n) + 1 * 2 ^ 64)%N by lia.
  rewrite N.Div0.mod_add, N.mod_small by lia. lia.
Qed.

(** C31. The ground parameters: when they can be decoded, hold at least eight
    prescales and no more thresholds than there are light channels, the
    configuration reads back every number sent, every per-channel vector has one
    entry per light channel (the channels without a threshold get 0xFFF), the
    light trigger's prescale is in places 1 and 7, and every other key, the drift
    size among them, reads as before. *)
Theorem SetConfigFromComm_values words s t :
  deserialize words (tpc_configs_ s) = (t, true) → (7 < length (getPrescale t))%nat →
  (length (getDiscThreshold0 t) ≤ TOTAL_LIGHT_CHANNELS)%nat →
  length (getDiscThreshold1 t) = length (getDiscThreshold0 t) →
  (N.of_nat TOTAL_LIGHT_CHANNELS < 2 ^ 64)%N →
  ∃ s', SetConfigFromComm TOTAL_LIGHT_CHANNELS deserialize words s = (s', Some true) ∧
    let c := reader (config_ s') in
    Forall (λ '(sec, k, z), cfg_int c sec k = Some (i32 z)) (comm_numbers t) ∧
    Forall (λ '(k, l), cfg_list c "light_fem" k = Some (i32 <$> l) ∧ length l = TOTAL_LIGHT_CHANNELS)
      (comm_vectors t) ∧
    cfg_string c "trigger" "trigger_source" = Some (getTriggerSource t) ∧
    (∃ l, cfg_list c "trigger" "prescale" = Some l ∧ length l = length (getPrescale t) ∧
       ∀ i, l !! i = if decide (i = 1 ∨ i = 7)%nat then Some (u32 (getLightTrigPrescale t))
                     else u32 <$> getPrescale t !! i) ∧
    ∀ sec k, last_set (comm_stores_list t) sec k = None → doc_get (config_ s') sec k = doc_get (config_ s) sec k.
Proof.
  intros Hd Hp Hl Hl1 Ht. destruct (SetConfigFromComm_run words s t Hd Hp) as (s' & E & Hdoc).
  exists s'. split; [exact E|]. cbv zeta.
  assert (∀ sec k, doc_get (config_ s') sec k = default (doc_get (config_ s) sec k) (last_set (comm_stores_list t) sec k)) as Hget
    by (intros; rewrite Hdoc; apply doc_get_sets).
  split_and!.
  - repeat (constructor; [cbn [cfg_int reader]; by rewrite Hget|]). constructor.
  - pose proof (extra_channels_small _ Hl Ht) as Hextra.
    repeat (constructor; [split; [cbn [cfg_list reader]; rewrite Hget; cbn -[jints extra_channels u32]; rewrite ?Hextra; apply jints_int
      |rewrite ?length_app, ?length_replicate; lia]|]). constructor.
  - cbn [cfg_string reader]. by rewrite Hget.
  - eexists. split; [cbn [cfg_list reader]; rewrite Hget; apply jints_uint32|].
    split; [by rewrite length_fmap, !length_insert|]. intros i. rewrite list_lookup_fmap.
    case_decide as Hi.
    + destruct Hi as [->| ->]; [rewrite list_lookup_insert_ne by lia|]; rewrite list_lookup_insert_eq; rewrite ?length_insert; done || lia.
    + rewrite !list_lookup_insert_ne by (intros <-; apply Hi; auto). done.
  - intros sec k Hk. by rewrite Hget, Hk.
Qed.
End ground.

(** ** A successful Configure *)
Section configure.
Context (drv : driver) (sys : kernel) (host : host) `{ErrorBits} `{CommandCodes}.
Context (TOTAL_LIGHT_CHANNELS : nat) (deserialize : list Z → tpc_params → tpc_params * bool).

(** What the preparation of the configuration leaves alone, and what the rest does. *)
Definition chosen (s : controller) : string * string * Z * handler :=
  (data_basedir_ s, readout_basedir_ s, run_id_ s, data_handler_ s).
Definition settled (s : controller) : string * string * Z * handler * document :=
  (chosen s, config_ s).
#[local] Instance settled_chosen {A} (c : st_err controller A) : Keeps settled c → Keeps chosen c | 50.
Proof. intros Hc s. specialize (Hc s). unfold settled in Hc. congruence. Qed.

#[local] Instance set_prescale_chosen i v : Keeps chosen (set_prescale i v).
Proof. intros s. unfold set_prescale. by case_decide. Qed.
#[local] Instance comm_stores_chosen : Keeps chosen (comm_stores TOTAL_LIGHT_CHANNELS).
Proof. unfold comm_stores. keeps. Qed.
#[local] Instance SetConfigFromComm_chosen v : Keeps chosen (SetConfigFromComm TOTAL_LIGHT_CHANNELS deserialize v).
Proof.
  intros s. unfold SetConfigFromComm. destruct (deserialize _ _) as [t ok].
  case_match; [done|]. pose proof (comm_stores_chosen (s <| tpc_configs_ := t |>)) as E.
  by destruct (comm_stores _ _) as [s1 [a|]].
Qed.
#[local] Instance SetLocalConfig_chosen : Keeps chosen (SetLocalConfig TOTAL_LIGHT_CHANNELS).
Proof. unfold SetLocalConfig, local_light, set_prescale_value. keeps. Qed.
#[local] Instance LoadConfig_chosen file : Keeps chosen (LoadConfig host file).
Proof. by intros s. Qed.

#[local] Instance report_settled t : Keeps settled (report t).
Proof. by intros s. Qed.
#[local] Instance cfg_settled {A} (get : jvalue → option A) k1 k2 : Keeps settled (cfg get k1 k2).
Proof. unfold cfg. keeps. Qed.
#[local] Instance add_board_slots_settled : Keeps settled add_board_slots.
Proof. unfold add_board_slots, add_slot. keeps. Qed.
#[local] Instance slot_ids_settled : Keeps settled slot_ids.
Proof. unfold slot_ids. keeps. Qed.
#[local] Instance on_bench_settled {A} (c : st_err bench A) : Keeps settled (on_bench c).
Proof. intros s. unfold on_bench. by destruct (c (bench_ s)). Qed.
#[local] Instance init_pcie_settled : Keeps settled (init_pcie drv).
Proof. unfold init_pcie, on_pcie. keeps. Qed.
#[local] Instance configured_by_settled c : Keeps settled c → Keeps settled (configured_by c).
Proof. unfold configured_by. intros Hc. keeps. Qed.
#[local] Instance configure_trigger_settled c : Keeps settled (configure_trigger drv c).
Proof. intros s. unfold configure_trigger, on_bench. repeat case_match; by simplify_eq/=. Qed.

(** Choosing a disk changes none of these. *)
Definition picking (s : controller) : string * Z * handler := (readout_basedir_ s, run_id_ s, data_handler_ s).
Lemma SelectNvme_picking : Keeps picking (SelectNvmeDataDirForRun host).
Proof.
  assert (∀ pick, Keeps picking (accept_pick pick)) as Hpick.
  { intros pick. unfold accept_pick, refuse_disk. keeps; by intros ?. }
  intros s. unfold SelectNvmeDataDirForRun. cbv zeta. repeat case_match; first [done|apply Hpick].
Qed.

(** The document a run is configured with. *)
Lemma complete_config_spec s s' :
  complete_config s = (s', Some ()) → 0 ≤ run_id_ s < 2 ^ 32 →
  chosen s' = chosen s ∧
  let c := reader (config_ s') in
  cfg_string c "data_handler" "data_basedir" = Some (data_basedir_ s) ∧
  cfg_string c "hardware" "readout_basedir" = Some (readout_basedir_ s) ∧
  cfg_size c "data_handler" "subrun" = Some (Z.to_N (run_id_ s)).
Proof.
  intros E Hid. unfold complete_config, st_bind, st_modify, host_do, cfg_store in E. cbv zeta in E.
  injection E as <-. split; [done|]. cbv zeta. cbn [cfg_string cfg_size reader config_ update_field].
  rewrite !(doc_get_set_ne _ "data_handler" "subrun") by auto.
  rewrite !doc_get_set. rewrite !(doc_get_set_ne _ "hardware") by auto. rewrite doc_get_set.
  split_and!; try done. cbn. do 2 f_equal. unfold u64. apply Z.mod_small. lia.
Qed.

Lemma configured_by_run c s s' r :
  configured_by c s = (s', Some r) → ∃ s1 ret, c s = (s1, Some ret) ∧ settled s' = settled s1.
Proof.
  unfold configured_by. intros (s1 & ret & E & E')%st_bind_ok. exists s1, ret. split; [done|].
  refine (keeps_run settled _ _ _ _ _ E'). case_match; apply _.
Qed.

Lemma configure_devices_spec nword s s' :
  configure_devices drv sys host TOTAL_LIGHT_CHANNELS nword s = (s', Some ()) →
  config_ s' = config_ s ∧ data_basedir_ s' = data_basedir_ s ∧ readout_basedir_ s' = readout_basedir_ s ∧
  run_id_ s' = run_id_ s ∧
  data_handler_ s' = (DataHandler.Configure sys (reader (config_ s)) (data_handler_ s)).1.
Proof.
  unfold configure_devices. rewrite (st_bind_run (get_field _) _ _ _ _ eq_refl). intros E.
  do 5 (apply st_bind_ok in E as (? & [] & ? & E)). keep_runs settled.
  apply configured_by_run in E as (t & ret & E & Ht). unfold configure_data_handler in E.
  match goal with E : (let '(_, _) := DataHandler.Configure sys _ (data_handler_ ?u) in _) = _ |- _ =>
    assert (settled u = settled s) as Hu by congruence end.
  unfold settled, chosen in Hu, Ht. injection Hu as Hu1 Hu2 Hu3 Hu4 Hu5. rewrite Hu4 in E.
  destruct (DataHandler.Configure sys _ (data_handler_ s)) as [h' ret'].
  injection E as <- _. injection Ht as -> -> -> -> ->. done.
Qed.

Lemma configure_hardware_spec nword s s' :
  configure_hardware drv sys host TOTAL_LIGHT_CHANNELS nword s = (s', Some true) → 0 ≤ run_id_ s < 2 ^ 32 →
  data_basedir_ s' = data_basedir_ s ∧ run_id_ s' = run_id_ s ∧
  let c := reader (config_ s') in
  cfg_string c "data_handler" "data_basedir" = Some (data_basedir_ s) ∧
  cfg_string c "hardware" "readout_basedir" = Some (readout_basedir_ s) ∧
  cfg_size c "data_handler" "subrun" = Some (Z.to_N (run_id_ s)) ∧
  data_handler_ s' = (DataHandler.Configure sys c (data_handler_ s)).1.
Proof.
  unfold configure_hardware. intros E Hid.
  apply st_bind_ok in E as (s1 & [] & [Hs1 Hc]%complete_config_spec & E); [|done].
  apply st_bind_ok in E as (s2 & pr & E2 & E). apply st_bind_ok in E as (s3 & [] & ->%st_modify_ok & E).
  apply st_bind_ok in E as (s4 & [] & E4 & E). apply st_bind_ok in E as (s5 & ret & E5 & E).
  keep_runs settled. change (settled (s2 <| print_status_ := pr |>)) with (settled s2) in *.
  destruct (negb (ret =? 0)); [by apply st_bind_ok in E as (? & ? & _ & [=])|].
  apply st_bind_ok in E as (s6 & [] & (Hcfg & Hdir & _ & Hrun & Hh)%configure_devices_spec & E).
  injection E as <-. assert (settled s5 = settled s1) as Hset by congruence.
  unfold settled, chosen in Hset, Hs1. injection Hset as G1 G2 G3 G4 G5. injection Hs1 as F1 F2 F3 F4.
  cbn [data_basedir_ run_id_ config_ data_handler_ update_field]. rewrite Hdir, Hrun, Hcfg, Hh, G1, G3, G4, G5, F1, F3, F4.
  cbv zeta in Hc. tauto.
Qed.

Lemma Configure_prepares nword args s s' :
  Configure drv sys host TOTAL_LIGHT_CHANNELS deserialize nword args s = (s', Some true) →
  ∃ s1 s2 s3 b, PersistRunId host s = (s1, Some b) ∧ SelectNvmeDataDirForRun host s1 = (s2, Some true) ∧
    chosen s3 = chosen s2 ∧
    configure_hardware drv sys host TOTAL_LIGHT_CHANNELS nword s3 = (s', Some true).
Proof.
  unfold Configure. intros E.
  apply st_bind_ok in E as (s1 & b & E1 & E). apply st_bind_ok in E as (s2 & sel & E2 & E).
  destruct sel; cbn [negb] in E; [|done]. destruct args as [|n more]; [done|].
  apply st_bind_ok in E as (s3 & basedir & E3 & E). apply st_bind_ok in E as (s4 & loaded & E4 & E).
  apply st_bind_ok in E as (s5 & [] & ->%st_modify_ok & E). keep_runs chosen.
  destruct loaded; [|done]. apply st_bind_ok in E as (s6 & ok & E6 & E).
  assert (chosen s6 = chosen s2) as Hs6.
  { apply keeps_run with (f := chosen) in E6; [|destruct more; keeps]. rewrite E6.
    change (chosen s4 = chosen s2). congruence. }
  destruct ok; cbn [negb] in E; [|done]. by exists s1, s2, s6, b.
Qed.

(** C30. When Configure succeeds, the run's disk had its 5 GiB free when it was
    chosen, the configuration every device read names that disk, the run number
    just persisted and the code's own directory, and the data handler was
    configured with it: unless it reports an error, it starts file 0 of that run on
    that disk. *)
Theorem Configure_sets_up_run nword args s s' :
  Configure drv sys host TOTAL_LIGHT_CHANNELS deserialize nword args s = (s', Some true) →
  err_datahandler_get_config ≠ 0%N →
  let c := reader (config_ s') in
  let h' := data_handler_ s' in
  (∃ calls, has_room (host_os host calls) kDiskRunStartMinFreeBytes (data_basedir_ s')) ∧
  run_id_ s' = run_id_ (PersistRunId host s).1 ∧
  cfg_string c "data_handler" "data_basedir" = Some (data_basedir_ s') ∧
  cfg_string c "hardware" "readout_basedir" = Some (readout_basedir_ s) ∧
  cfg_size c "data_handler" "subrun" = Some (Z.to_N (run_id_ s')) ∧
  h' = (DataHandler.Configure sys c (data_handler_ s)).1 ∧
  ((DataHandler.Configure sys c (data_handler_ s)).2 = 0%N →
   write_file_name h' = readout_prefix (data_basedir_ s') (Z.to_N (run_id_ s')) ∧ file_count h' = 0%N).
Proof.
  intros E Herr. apply Configure_prepares in E as (s1 & s2 & s3 & b & E1 & E2 & Hs3 & E).
  pose proof (PersistRunId_range host _ _ _ E1) as Hid.
  destruct (select_disk host s1) as (s2' & acc & E2' & _ & Hroom). rewrite E2 in E2'. injection E2' as <- <-.
  assert (readout_basedir_ s2 = readout_basedir_ s ∧ run_id_ s2 = run_id_ s1 ∧ data_handler_ s2 = data_handler_ s)
    as (G2 & G3 & G4).
  { assert (data_handler_ s1 = data_handler_ s ∧ readout_basedir_ s1 = readout_basedir_ s) as [<- <-].
    { clear -E1. unfold PersistRunId in E1. by repeat case_match; simplify_eq/=. }
    pose proof (keeps_run picking _ _ _ _ SelectNvme_picking E2) as Hp. unfold picking in Hp. by injection Hp. }
  unfold chosen in Hs3. injection Hs3 as F1 F2 F3 F4.
  apply configure_hardware_spec in E as (H1 & H2 & H3 & H4 & H5 & H6); [|by rewrite F3, G3].
  cbv zeta. rewrite E1. cbn [fst].
  split; [eexists; rewrite H1, F1; exact (proj1 Hroom)|].
  split; [congruence|]. rewrite <-H1 in H3. split; [done|]. split; [by rewrite H4, F2, G2|].
  rewrite <-H2 in H5. split; [done|]. rewrite F4, G4 in H6. split; [done|].
  rewrite H6. unfold DataHandler.Configure. destruct (Configure_try sys _ _) as [h1 [u|]] eqn:Etry; cbn [snd fst]; [intros _|done].
  apply Configure_try_ok in Etry as (_ & Hname & Hcount & Hdir & Hrun).
  rewrite H3 in Hdir. rewrite H5 in Hrun. injection Hdir as Hdir. injection Hrun as Hrun.
  unfold clamp_dma_size. unfold name_ok in Hname.
  split; [|by case_match]. rewrite Hdir, Hrun, <-Hname. by case_match.
Qed.
End configure.

(** ** Evaluated *)
Lemma runs_never_share_files_witness :
  run_id_file demo_start = Some (Some 7) ∧ run_ids demo_host 3 demo_start = [8; 9; 10] ∧
  run_file (Z.to_N 8) 0 "/a" ≠ run_file (Z.to_N 10) 0 "/a".
Proof.
  assert (run_ids demo_host 3 demo_start = [8; 9; 10]) as H by (vm_compute; reflexivity).
  split; [reflexivity|]. split; [exact H|].
  destruct (runs_never_share_files demo_host (λ _, eq_refl) 3 demo_start (Some 7) eq_refl ltac:(lia)) as [_ Hne].
  rewrite H in Hne. exact (Hne 0%nat 2%nat 8 10 eq_refl eq_refl ltac:(lia) 0%nat 0%nat "/a"%string "/a"%string).
Defined.

Lemma SetConfigFromComm_values_witness :
  ∃ s', SetConfigFromComm 40 (λ _ p, (p, true)) [3; 1] demo_start = (s', Some true) ∧
    cfg_int (reader (config_ s')) "light_fem" "pmt_window" = Some 6.
Proof.
  destruct (SetConfigFromComm_values 40 (λ _ p, (p, true)) [3; 1] demo_start demo_params eq_refl
    ltac:(vm_compute; lia) ltac:(vm_compute; lia) eq_refl ltac:(vm_compute; reflexivity))
    as (s' & E & Hnum & _).
  exists s'. split; [exact E|]. rewrite Forall_lookup in Hnum. exact (Hnum 4%nat _ eq_refl).
Defined.

Lemma Configure_sets_up_run_witness :
  let r := Configure demo_driver demo_kernel demo_host 40 (λ _ p, (p, true)) 1 [3] demo_start in
  r.2 = Some true ∧
  write_file_name (data_handler_ r.1) = readout_prefix (data_basedir_ r.1) (Z.to_N (run_id_ r.1)).
Proof.
  cbv zeta. set (r := Configure _ _ _ _ _ _ _ _).
  assert (r.2 = Some true) as Hok by (vm_compute; reflexivity). split; [exact Hok|].
  assert (r = (r.1, Some true)) as E by (rewrite <-Hok; apply surjective_pairing).
  destruct (Configure_sets_up_run demo_driver demo_kernel demo_host 40 (λ _ p, (p, true)) 1 [3] demo_start r.1 E
    ltac:(vm_compute; discriminate)) as (_ & _ & _ & _ & _ & _ & Hh).
  refine (proj1 (Hh _)). vm_compute. reflexivity.
Defined.

