(* ===== verification/MirrorMeta.v ===== *)
(** * What the mirror reads off a file's name: [ParseFileMeta]
    (src/daemon/mirror_engine.cpp)

    The mirror copies the files of a run together, data files first. It finds the
    run, the kind and the segment of a file in its path; the names are those the
    data handler builds. *)
From Stdlib Require Import Ascii String Lia ZArith NArith.
From stdpp Require Import base tactics list numbers option strings.
From S2P Require Import Prelude CppString StorageUtils Config DataHandler.
Local Open Scope string_scope.

Definition UINT32_MAX : N := 2 ^ 32 - 1.
Definition kTofRunId : N := UINT32_MAX.

Definition ends_with (suffix path : string) : bool :=
  (String.length suffix <=? String.length path)%nat &&
  String.eqb (drop_string (String.length path - String.length suffix) path) suffix.
Definition IsTofPath (path : string) : bool :=
  bool_decide (is_Some (find "/tof_data/" path)) || ends_with "/tof_data" path.

Record file_meta := FileMeta { run_id : N; nvme_index : nat; priority : Z; segment : Z }.
#[export] Instance file_meta_eta : RecordEta file_meta := λ m,
  FileMeta (run_id m) (nvme_index m) (priority m) (segment m).
Definition default_meta : file_meta :=
  {| run_id := UINT32_MAX; nvme_index := 0; priority := 9; segment := 0 |}.

(** The loop over the digits: the value, wrapped to 64 bits, and their number. *)
Fixpoint parse_digits (parsed : N) (s : string) : N * nat :=
  match s with
  | String a s' =>
      if is_digit a then let '(v, k) := parse_digits (u64N (parsed * 10 + digit_val a)) s' in (v, S k)
      else (parsed, 0)
  | EmptyString => (parsed, 0)
  end.
(** The number at [offset] and the position after it; [None] for false. *)
Definition ParseUintAfter (path : string) (offset : nat) : option (N * nat) :=
  match parse_digits 0 (drop_string offset path) with
  | (_, 0) => None
  | (parsed, k) => if (UINT32_MAX <? parsed)%N then None else Some (parsed, offset + k)
  end.
Definition char_is (path : string) (i : nat) (c : ascii) : bool :=
  match char_at path i with Some a => Ascii.eqb a c | None => false end.
Definition parse_segment (path : string) (end_offset : nat) : Z :=
  i32 (Z.of_N (default 0%N (fst <$> ParseUintAfter path (end_offset + 1)))).

(** Each branch: the metadata so far, and whether the function returns it. *)
Definition parse_grams (path : string) (meta : file_meta) : file_meta * bool :=
  match find "pGRAMS_bin_" path with
  | None => (meta, false)
  | Some grams_pos =>
      match ParseUintAfter path (grams_pos + 11) with
      | None => (meta, false)
      | Some (run, end_) =>
          let meta := meta <| run_id := run |> in
          if char_is path end_ "_"
          then (meta <| priority := 1%Z |> <| segment := parse_segment path end_ |>, true)
          else (meta, false)
      end
  end.
Definition parse_raw (needle : string) (prio : Z) (path : string) (meta : file_meta) : file_meta * bool :=
  match find needle path with
  | None => (meta, false)
  | Some pos =>
      match ParseUintAfter path (pos + String.length needle) with
      | None => (meta, false)
      | Some (run, end_) =>
          let meta := meta <| run_id := run |> <| priority := prio |> in
          (if char_is path end_ "_" then meta <| segment := parse_segment path end_ |> else meta, true)
      end
  end.
Definition parse_run (path : string) (meta : file_meta) : file_meta * bool :=
  match find "/run_" path with
  | None => (meta, false)
  | Some run_pos =>
      match ParseUintAfter path (run_pos + 5) with
      | None => (meta, false)
      | Some (run, _) => (meta <| run_id := run |> <| priority := 4%Z |>, true)
      end
  end.

Definition ParseFileMeta (o : os) (path : string) : file_meta :=
  let meta := default_meta <| nvme_index := NvmeIndexForPath o path |> in
  if IsTofPath path then meta
  else
    let '(meta, done) := parse_grams path meta in
    if done then meta
    else
      let '(meta, done) := parse_raw "trigger_raw_" 2 path meta in
      if done then meta
      else
        let '(meta, done) := parse_raw "pps_data_" 3 path meta in
        if done then meta
        else (parse_run path meta).1.

(** ** Lemmas *)
Lemma u64N_add_mul x y : u64N (u64N x * 10 + y) = u64N (x * 10 + y).
Proof. unfold u64N. by rewrite N.Div0.add_mod, N.Div0.mul_mod_idemp_l, <-N.Div0.add_mod. Qed.

(** The loop wraps what an unbounded loop reads. *)
Lemma parse_digits_span acc s :
  parse_digits (u64N acc) s = let '(v, k, _) := span_digits acc s in (u64N v, k).
Proof.
  revert acc. induction s as [|a s IH]; intros acc; [done|]. cbn [parse_digits span_digits].
  destruct (is_digit a); [|done]. rewrite u64N_add_mul, IH.
  by destruct (span_digits _ s) as [[v k] r].
Qed.

Lemma ParseUintAfter_number a n rest :
  (n < 2 ^ 32)%N → match rest with String c _ => is_digit c = false | EmptyString => True end →
  ParseUintAfter (a ++ to_string n ++ rest) (String.length a) =
  Some (n, String.length (a ++ to_string n)).
Proof.
  intros Hn Hrest. unfold ParseUintAfter. rewrite drop_string_append.
  pose proof (parse_digits_span 0 (to_string n ++ rest)) as Hspan. change (u64N 0) with 0%N in Hspan.
  rewrite Hspan, span_digits_to_string by done. clear Hspan.
  pose proof (to_string_nonempty n). destruct (String.length (to_string n)) eqn:E; [lia|].
  assert (u64N n = n) as ->. { unfold u64N. rewrite N.mod_small; [done|]. lia. }
  destruct (N.ltb_spec UINT32_MAX n); [unfold UINT32_MAX in *; lia|].
  do 2 f_equal. rewrite length_append. lia.
Qed.

Lemma i32_small_N n : (n < 2 ^ 31)%N → i32 (Z.of_N n) = Z.of_N n.
Proof.
  intros Hn. unfold i32, u32. rewrite Z.mod_small by lia. cbv zeta. case_decide; lia.
Qed.

(** A file in a subdirectory, whose name starts with the needle. *)
Lemma find_in_name needle dir sub rest :
  string_has slash needle = false → needle ≠ "" → find needle dir = None → find needle sub = None →
  find needle (dir ++ String slash (sub ++ String slash (needle ++ rest))) =
  Some (String.length (dir ++ String slash (sub ++ String slash ""))).
Proof.
  intros Hn Hne Hd Hs. rewrite (find_before_char slash) by done. rewrite Hd.
  rewrite (find_before_char slash) by done. rewrite Hs, find_head. cbn.
  rewrite !length_append. cbn. rewrite length_append. cbn. f_equal. lia.
Qed.
Lemma find_not_in_name needle dir sub name :
  string_has slash needle = false → needle ≠ "" → find needle dir = None → find needle sub = None →
  find needle name = None → find needle (dir ++ String slash (sub ++ String slash name)) = None.
Proof.
  intros Hn Hne Hd Hs Hname. rewrite (find_before_char slash) by done. rewrite Hd.
  rewrite (find_before_char slash) by done. by rewrite Hs, Hname.
Qed.

(** The run, then the segment if there is one. *)
Lemma parse_number_at needle dir sub run rest :
  string_has slash needle = false → needle ≠ "" → find needle dir = None → find needle sub = None →
  (run < 2 ^ 32)%N → match rest with String c _ => is_digit c = false | EmptyString => True end →
  let path := dir ++ String slash (sub ++ String slash (needle ++ to_string run ++ rest)) in
  let before := dir ++ String slash (sub ++ String slash (needle ++ to_string run)) in
  (find needle path ≫= λ pos, ParseUintAfter path (pos + String.length needle)) =
    Some (run, String.length before) ∧ path = before ++ rest.
Proof.
  intros Hn Hne Hd Hs Hrun Hrest path before.
  assert (find needle path = Some (String.length (dir ++ String slash (sub ++ String slash "")))) as ->
    by (by apply find_in_name).
  cbn [mbind option_bind].
  assert (path = (dir ++ String slash (sub ++ String slash needle)) ++ to_string run ++ rest) as Hpath.
  { unfold path. rewrite append_assoc. cbn. by rewrite append_assoc. }
  split; [|unfold path, before; rewrite append_assoc; cbn; rewrite append_assoc; cbn; by rewrite append_assoc].
  rewrite Hpath.
  replace (_ + _)%nat with (String.length (dir ++ String slash (sub ++ String slash needle)))
    by (rewrite !length_append; cbn; rewrite !length_append; cbn; lia).
  rewrite ParseUintAfter_number by done. do 2 f_equal. unfold before.
  rewrite append_assoc. cbn. by rewrite append_assoc.
Qed.

Lemma parse_segment_at before n rest :
  (n < 2 ^ 31)%N → match rest with String c _ => is_digit c = false | EmptyString => True end →
  parse_segment (before ++ String "_" (to_string n ++ rest)) (String.length before) = Z.of_N n.
Proof.
  intros Hn Hrest. unfold parse_segment.
  replace (before ++ String "_" (to_string n ++ rest)) with ((before ++ "_") ++ to_string n ++ rest)
    by by rewrite append_assoc.
  replace (String.length before + 1)%nat with (String.length (before ++ "_")) by by rewrite length_append.
  rewrite ParseUintAfter_number by (try done; lia). cbn. by apply i32_small_N.
Qed.
Lemma char_is_after before c rest : char_is (before ++ String c rest) (String.length before) c = true.
Proof. unfold char_is. rewrite char_at_append. cbn. by rewrite Ascii.eqb_refl. Qed.

Lemma parse_grams_at o dir run i :
  find "pGRAMS_bin_" dir = None → (run < 2 ^ 32)%N → (N.of_nat i < 2 ^ 31)%N →
  parse_grams (run_file run i dir) (default_meta <| nvme_index := NvmeIndexForPath o (run_file run i dir) |>) =
  (FileMeta run (NvmeIndexForPath o (run_file run i dir)) 1 (Z.of_nat i), true).
Proof.
  intros Hd Hrun Hi.
  destruct (parse_number_at "pGRAMS_bin_" dir "readout_data" run (String "_" (to_string (N.of_nat i) ++ ".dat")))
    as [Hnum Hpath]; try done.
  assert (run_file run i dir = dir ++ String slash ("readout_data" ++ String slash ("pGRAMS_bin_" ++
    to_string run ++ String "_" (to_string (N.of_nat i) ++ ".dat")))) as Hfile.
  { unfold run_file, readout_prefix. by rewrite !append_assoc. }
  rewrite <-Hfile in *. unfold parse_grams.
  destruct (find "pGRAMS_bin_" (run_file run i dir)) as [pos|]; [|done].
  cbn [mbind option_bind] in Hnum. change (String.length "pGRAMS_bin_") with 11%nat in Hnum. rewrite Hnum.
  match type of Hnum with _ = Some (_, ?k) => set (end_ := k) in * end.
  assert (char_is (run_file run i dir) end_ "_" = true) as -> by (rewrite Hpath; apply char_is_after).
  assert (parse_segment (run_file run i dir) end_ = Z.of_nat i) as ->
    by (rewrite Hpath; unfold end_; rewrite parse_segment_at by done; lia).
  done.
Qed.

Lemma parse_raw_at o (needle sub : string) dir prio run seg :
  string_has slash needle = false → needle ≠ "" → find needle dir = None → find needle sub = None →
  (run < 2 ^ 32)%N → (seg < 2 ^ 31)%N →
  let path := dir ++ String slash (sub ++ String slash (needle ++ to_string run ++
    (if (0 <? seg)%N then String "_" (to_string seg ++ ".bin") else ".bin"))) in
  parse_raw needle prio path (default_meta <| nvme_index := NvmeIndexForPath o path |>) =
  (FileMeta run (NvmeIndexForPath o path) prio (Z.of_N seg), true).
Proof.
  intros Hn Hne Hd Hs Hrun Hseg path.
  destruct (parse_number_at needle dir sub run (if (0 <? seg)%N then String "_" (to_string seg ++ ".bin") else ".bin"))
    as [Hnum Hpath]; try done. { by destruct (0 <? seg)%N. }
  fold path in Hnum, Hpath. unfold parse_raw.
  destruct (find needle path) as [pos|]; [|done]. cbn [mbind option_bind] in Hnum. rewrite Hnum.
  match type of Hnum with _ = Some (_, ?k) => set (end_ := k) in * end.
  destruct (N.ltb_spec 0 seg).
  - assert (char_is path end_ "_" = true) as -> by (rewrite Hpath; apply char_is_after).
    assert (parse_segment path end_ = Z.of_N seg) as -> by (rewrite Hpath; by apply parse_segment_at).
    done.
  - assert (char_is path end_ "_" = false) as ->.
    { rewrite Hpath. unfold char_is, end_. by rewrite char_at_append. }
    by assert (seg = 0%N) as -> by lia.
Qed.

Lemma trigger_name_at h dir seg :
  BuildTriggerRawFileName h dir seg = dir ++ String slash ("trigger_data" ++ String slash ("trigger_raw_" ++
    to_string (run_number h) ++ (if (0 <? seg)%N then String "_" (to_string seg ++ ".bin") else ".bin"))).
Proof. unfold BuildTriggerRawFileName. destruct (0 <? seg)%N; by rewrite !append_assoc. Qed.
Lemma pps_name_at h dir seg :
  BuildPpsFileName h dir seg = dir ++ String slash ("pps_data" ++ String slash ("pps_data_" ++
    to_string (run_number h) ++ (if (0 <? seg)%N then String "_" (to_string seg ++ ".bin") else ".bin"))).
Proof. unfold BuildPpsFileName. destruct (0 <? seg)%N; by rewrite !append_assoc. Qed.

(** The characters a numbered name may have. *)
Lemma numbered_name_not c (needle : string) run seg :
  string_has c needle = false → is_digit c = false → Ascii.eqb "_" c = false → string_has c ".bin" = false →
  string_has c (needle ++ to_string run ++ (if (0 <? seg)%N then String "_" (to_string seg ++ ".bin") else ".bin")) = false.
Proof.
  intros Hn Hc Hu Hb. rewrite !string_has_append, Hn, (to_string_digits c run Hc). cbn [orb].
  destruct (0 <? seg)%N; [|done]. cbn [string_has]. by rewrite Hu, string_has_append, to_string_digits.
Qed.

(** C20. The mirror reads back the run, the kind and the segment of every file the
    data handler names: data files, trigger files and PPS files, of any run of
    32 bits and any segment of 31, on a disk whose path has none of the three
    name stems and outside the TOF directories. *)
Theorem ParseFileMeta_roundtrip o h dir i seg :
  find "pGRAMS_bin_" dir = None → find "trigger_raw_" dir = None → find "pps_data_" dir = None →
  (run_number h < 2 ^ 32)%N → (N.of_nat i < 2 ^ 31)%N → (seg < 2 ^ 31)%N →
  Forall (λ '(path, prio, segment),
    IsTofPath path = false →
    ParseFileMeta o path = FileMeta (run_number h) (NvmeIndexForPath o path) prio segment)
  [(run_file (run_number h) i dir, 1%Z, Z.of_nat i);
   (BuildTriggerRawFileName h dir seg, 2%Z, Z.of_N seg);
   (BuildPpsFileName h dir seg, 3%Z, Z.of_N seg)].
Proof.
  intros Hg Ht Hp Hrun Hi Hseg. repeat constructor; intros Htof; unfold ParseFileMeta; rewrite Htof.
  - by rewrite parse_grams_at.
  - rewrite trigger_name_at in *. unfold parse_grams. rewrite find_not_in_name; try done.
    + rewrite parse_raw_at; done.
    + apply (find_absent_char "G"); [done|]. by apply numbered_name_not.
  - rewrite pps_name_at in *. unfold parse_grams. rewrite find_not_in_name; try done.
    + unfold parse_raw at 1. rewrite find_not_in_name; try done.
      * rewrite parse_raw_at; done.
      * apply (find_absent_char "r"); [done|]. by apply numbered_name_not.
    + apply (find_absent_char "G"); [done|]. by apply numbered_name_not.
Qed.

Definition demo_run : handler := new_handler <| run_number := 7%N |>.
Lemma ParseFileMeta_roundtrip_witness :
  ParseFileMeta demo_os (run_file (run_number demo_run) 3 "/mnt/ssd1") = FileMeta 7 1 1 3.
Proof.
  assert (find "pGRAMS_bin_" "/mnt/ssd1" = None) as H1 by (vm_compute; reflexivity).
  assert (find "trigger_raw_" "/mnt/ssd1" = None) as H2 by (vm_compute; reflexivity).
  assert (find "pps_data_" "/mnt/ssd1" = None) as H3 by (vm_compute; reflexivity).
  assert (run_number demo_run < 2 ^ 32)%N as H4 by (vm_compute; reflexivity).
  assert (N.of_nat 3 < 2 ^ 31)%N as H5 by (vm_compute; reflexivity).
  assert (2 < 2 ^ 31)%N as H6 by (vm_compute; reflexivity).
  pose proof (ParseFileMeta_roundtrip demo_os demo_run "/mnt/ssd1" 3 2 H1 H2 H3 H4 H5 H6) as H.
  apply Forall_cons in H as [H _].
  assert (IsTofPath (run_file (run_number demo_run) 3 "/mnt/ssd1") = false) as Htof by (vm_compute; reflexivity).
  rewrite (H Htof). vm_compute. reflexivity.
Defined.
