(* ===== verification/MirrorQueue.v ===== *)
(** * The mirror's queue: [MirrorDaemon] (src/daemon/mirror_engine.cpp)

    The inotify thread and the backlog scan put files on the queue of their run;
    the worker takes the next one to copy. The accesses are under a mutex, so each
    operation is one step. *)
From Stdlib Require Import Ascii String Lia ZArith NArith.
From stdpp Require Import base tactics list numbers option strings gmap sets.
From S2P Require Import Prelude CppString StorageUtils Config DataHandler MirrorMeta.
Local Open Scope string_scope.

Record file_stat := FileStat { fs_size : N; fs_mtime : Z }.
#[export] Instance file_stat_eq_dec : EqDecision file_stat.
Proof. solve_decision. Defined.

Record pending_file := PendingFile { p_path : string; p_dst_path : string; p_meta : file_meta; p_size : N; p_mtime : Z }.

Definition StatFile (o : os) (path : string) : option file_stat :=
  match os_stat o path with
  | Some i => if st_isreg i then Some (FileStat (u64N (st_size i)) (st_mtime i)) else None
  | None => None
  end.
Definition PassesMinMtimeFilter (o : os) (min_mtime : Z) (path : string) : bool :=
  if (min_mtime =? 0)%Z then true
  else match StatFile o path with None => false | Some stat => (min_mtime <=? fs_mtime stat)%Z end.
Definition NeedsCopy (o : os) (src_path dst_path : string) : bool :=
  match StatFile o src_path with
  | None => false
  | Some src =>
      match StatFile o dst_path with
      | None => true
      | Some dst => negb (fs_size src =? fs_size dst)%N || (fs_mtime dst <? fs_mtime src)%Z
      end
  end.

(** [run_queues_] is a map ordered by run; a run without files has no entry. *)
Record mirror := Mirror {
  run_queues : gmap N (list pending_file);
  active_run_id : option N;
  tpc_copied_bytes : N;
  tof_copied_bytes : N;
  pending : gset string;
  state_ : gmap string file_stat
}.
#[export] Instance mirror_eta : RecordEta mirror := λ d,
  Mirror (run_queues d) (active_run_id d) (tpc_copied_bytes d) (tof_copied_bytes d) (pending d) (state_ d).
Definition new_mirror : mirror := {|
  run_queues := ∅; active_run_id := None; tpc_copied_bytes := 0; tof_copied_bytes := 0;
  pending := ∅; state_ := ∅
|}.

(** ** [Enqueue] *)
(** The file as it would be put on the queue. *)
Definition make_pending (o : os) (min_mtime : Z) (src_path : string) : option pending_file :=
  if negb (PassesMinMtimeFilter o min_mtime src_path) then None
  else
    src_stat ← StatFile o src_path;
    let nvme := NvmeIndexForPath o src_path in
    backup_root ← SelectBackupRootForCopy o nvme (fs_size src_stat);
    let dst_path := MirrorDestinationPathToRoot o src_path backup_root in
    if string_empty dst_path || negb (NeedsCopy o src_path dst_path) then None
    else
      let meta := (ParseFileMeta o src_path) <| nvme_index := nvme |> in
      Some (PendingFile src_path dst_path meta (fs_size src_stat) (fs_mtime src_stat)).

Definition queue_of (d : mirror) (run : N) : list pending_file := default [] (run_queues d !! run).
Definition Enqueue (o : os) (min_mtime : Z) (src_path : string) (d : mirror) : mirror :=
  match make_pending o min_mtime src_path with
  | None => d
  | Some f =>
      if decide (src_path ∈ pending d) then d
      else d <| pending ::= λ p, {[src_path]} ∪ p |>
             <| run_queues ::= λ q, <[run_id (p_meta f) := (default [] (q !! run_id (p_meta f)) ++ [f])%list]> q |>
  end.

(** ** [PopNext] *)
Definition better (run : N) (a b : pending_file) : bool :=
  let ma := p_meta a in let mb := p_meta b in
  if (run =? kTofRunId)%N then
    (p_mtime a <? p_mtime b)%Z || ((p_mtime a =? p_mtime b)%Z && String.ltb (p_path a) (p_path b))
  else
    (priority ma <? priority mb)%Z
    || ((priority ma =? priority mb)%Z && (segment ma <? segment mb)%Z)
    || ((priority ma =? priority mb)%Z && (segment ma =? segment mb)%Z && (nvme_index ma <? nvme_index mb)%nat)
    || ((priority ma =? priority mb)%Z && (segment ma =? segment mb)%Z && (nvme_index ma =? nvme_index mb)%nat
        && String.ltb (p_path a) (p_path b)).

(** The scan for the best file: the first of the best ones. *)
Fixpoint best_index (run : N) (files : list pending_file) (i best : nat) (b : pending_file) : nat * pending_file :=
  match files with
  | [] => (best, b)
  | f :: files =>
      if better run f b then best_index run files (S i) i f else best_index run files (S i) best b
  end.

Definition pick_from_run (run : N) (d : mirror) : mirror * option pending_file :=
  match queue_of d run with
  | [] => (d, None)
  | f :: files =>
      let '(best, job) := best_index run (f :: files) 0 0 f in
      let rest := delete best (f :: files) in
      (d <| run_queues ::= λ q, match rest with [] => delete run q | _ => <[run := rest]> q end |>
         <| active_run_id := Some run |>, Some job)
  end.

(** The first run of the map with files, among those [p] allows. *)
Definition has_files (p : N → bool) (d : mirror) : list N :=
  (filter (λ kv, p kv.1 = true ∧ kv.2 ≠ []) (map_to_list (run_queues d))).*1.
Definition first_run (p : N → bool) (d : mirror) : option N :=
  foldr (λ k o, Some (match o with None => k | Some m => N.min k m end)) None (has_files p d).

Definition is_tpc (run : N) : bool := negb (run =? kTofRunId)%N.
Definition has_tpc (d : mirror) : bool := bool_decide (has_files is_tpc d ≠ []).
Definition has_tof (d : mirror) : bool := bool_decide (queue_of d kTofRunId ≠ []).
Definition HasPending (d : mirror) : bool := bool_decide (has_files (λ _, true) d ≠ []).

(** The active run while it has files, then the first one [p] allows. *)
Definition pick_first (p : N → bool) (d : mirror) : mirror * option pending_file :=
  match first_run p d with Some run => pick_from_run run d | None => (d, None) end.
Definition pick_active (p : N → bool) (d : mirror) : mirror * option pending_file :=
  match active_run_id d with
  | Some run =>
      if p run then
        match pick_from_run run d with
        | (d', Some job) => (d', Some job)
        | (_, None) => pick_first p d
        end
      else pick_first p d
  | None => pick_first p d
  end.
Definition pick_tpc : mirror → mirror * option pending_file := pick_active is_tpc.

Definition reset_bytes (d : mirror) : mirror := d <| tof_copied_bytes := 0%N |> <| tpc_copied_bytes := 0%N |>.
Definition PopNext (d : mirror) : mirror * option pending_file :=
  let tpc_pending := has_tpc d in
  let tof_pending := has_tof d in
  let d := if negb tpc_pending || negb tof_pending then reset_bytes d else d in
  if tpc_pending && tof_pending then
    if (tof_copied_bytes d <=? tpc_copied_bytes d)%N then pick_from_run kTofRunId d else pick_tpc d
  else
    match active_run_id d with
    | Some run =>
        match pick_from_run run d with
        | (d, Some job) => (d, Some job)
        | (d, None) => pick_first (λ _, true) (d <| active_run_id := None |>)
        end
    | None => pick_first (λ _, true) d
    end.

(** ** The end of a job in [RunWorker] *)
Definition finish_job (job : pending_file) (copied : bool) (d : mirror) : mirror :=
  let d := if copied then
             if (run_id (p_meta job) =? kTofRunId)%N
             then d <| tof_copied_bytes ::= λ b, u64N (b + p_size job) |>
             else d <| tpc_copied_bytes ::= λ b, u64N (b + p_size job) |>
           else d in
  d <| pending ::= λ p, p ∖ {[p_path job]} |>.

(** ** The state file *)
Definition IsSynced (o : os) (src_path : string) (d : mirror) : bool :=
  match state_ d !! src_path with
  | None => false
  | Some stat =>
      match StatFile o src_path with
      | None => false
      | Some current => (fs_size current =? fs_size stat)%N && (fs_mtime current =? fs_mtime stat)%Z
      end
  end.
(** The entry kept in memory and appended to the file; None when the file is gone. *)
Definition SaveStateEntry (o : os) (src_path : string) (d : mirror) : mirror :=
  match StatFile o src_path with
  | None => d
  | Some stat => d <| state_ ::= <[src_path := stat]> |>
  end.

Local Close Scope string_scope.

(** ** The order of a run's files *)
Section order.
Context (run : N).
Notation lt a b := (better run a b = true).

(** No file of the list is better than [b]. *)
Definition best_of (files : list pending_file) (b : pending_file) : Prop :=
  Forall (λ f, better run f b = false) files.

Lemma ltb_compare (s t : string) : String.ltb s t = bool_decide (String.compare s t = Lt).
Proof. unfold String.ltb. by destruct (String.compare s t). Qed.
Lemma ascii_compare_trans a b c : Ascii.compare a b = Lt → Ascii.compare b c = Lt → Ascii.compare a c = Lt.
Proof. unfold Ascii.compare. rewrite !N.compare_lt_iff. lia. Qed.
Lemma ltb_trans (s t u : string) : String.ltb s t = true → String.ltb t u = true → String.ltb s u = true.
Proof.
  rewrite !ltb_compare, !bool_decide_eq_true. revert t u.
  induction s as [|a s IH]; intros [|b t] [|c u]; cbn; try done.
  destruct (Ascii.compare a b) eqn:E1; try done.
  - apply Ascii.compare_eq_iff in E1 as ->. destruct (Ascii.compare b c); try done. apply IH.
  - intros _. destruct (Ascii.compare b c) eqn:E2; try done.
    + apply Ascii.compare_eq_iff in E2 as ->. by rewrite E1.
    + by rewrite (ascii_compare_trans _ _ _ E1 E2).
Qed.
Lemma ltb_irrefl (s : string) : String.ltb s s = false.
Proof.
  rewrite ltb_compare, bool_decide_eq_false. induction s as [|a s IH]; [done|]. cbn.
  assert (Ascii.compare a a = Eq) as -> by (unfold Ascii.compare; apply N.compare_refl). done.
Qed.

(** The order as a relation on the four keys. *)
Definition key_lt (a b : pending_file) : Prop :=
  let ma := p_meta a in let mb := p_meta b in
  if decide (run = kTofRunId) then
    (p_mtime a < p_mtime b)%Z ∨ p_mtime a = p_mtime b ∧ String.ltb (p_path a) (p_path b) = true
  else
    (priority ma < priority mb)%Z ∨
    priority ma = priority mb ∧ ((segment ma < segment mb)%Z ∨
    segment ma = segment mb ∧ ((nvme_index ma < nvme_index mb)%nat ∨
    nvme_index ma = nvme_index mb ∧ String.ltb (p_path a) (p_path b) = true)).
Lemma better_key a b : lt a b ↔ key_lt a b.
Proof.
  unfold better, key_lt. destruct (N.eqb_spec run kTofRunId) as [E|E];
    [rewrite decide_True by done|rewrite decide_False by done];
    rewrite ?orb_true_iff, ?andb_true_iff, ?Z.ltb_lt, ?Z.eqb_eq, ?Nat.ltb_lt, ?Nat.eqb_eq; tauto.
Qed.
Lemma better_trans a b c : lt a b → lt b c → lt a c.
Proof.
  rewrite !better_key. unfold key_lt. pose proof (ltb_trans (p_path a) (p_path b) (p_path c)).
  case_decide; intuition lia.
Qed.
Lemma better_irrefl a : better run a a = false.
Proof.
  apply not_true_iff_false. rewrite better_key. unfold key_lt. pose proof (ltb_irrefl (p_path a)).
  case_decide; intuition (lia || congruence).
Qed.

(** The scan keeps a file at its index; no file it has passed is better. *)
Lemma best_index_spec (all : list pending_file) (files : list pending_file) (i best : nat) (b : pending_file) :
  drop i all = files → best_of (take i all) b → all !! best = Some b →
  let '(k, job) := best_index run files i best b in all !! k = Some job ∧ best_of all job.
Proof.
  revert i best b. induction files as [|f files IH]; intros i best b Hdrop Hbest Hb; cbn.
  - split; [done|]. rewrite <- (take_drop i all), Hdrop, app_nil_r. done.
  - assert (all !! i = Some f) as Hi
      by (by rewrite <- (Nat.add_0_r i), <- lookup_drop, Hdrop).
    assert (drop (S i) all = files) as Hdrop' by (by rewrite <- (Nat.add_1_r i), <- drop_drop, Hdrop).
    assert (take (S i) all = take i all ++ [f]) as Htake by (by apply take_S_r).
    destruct (better run f b) eqn:E; apply IH; try done; rewrite Htake; apply Forall_app;
      repeat constructor; try done.
    + eapply Forall_impl; [exact Hbest|]. intros g Hg. apply not_true_iff_false. intros Hgf.
      pose proof (better_trans _ _ _ Hgf E). congruence.
    + apply better_irrefl.
Qed.
Lemma best_index_top f files :
  let '(k, job) := best_index run (f :: files) 0 0 f in
  (f :: files) !! k = Some job ∧ best_of (f :: files) job.
Proof. apply best_index_spec; [done|constructor|done]. Qed.
End order.

(** ** The files waiting *)
Definition all_files (d : mirror) : list pending_file := concat (map_to_list (run_queues d)).*2.
Definition other_files (run : N) (d : mirror) : list pending_file :=
  concat (map_to_list (delete run (run_queues d))).*2.

Lemma all_files_run run d : all_files d ≡ₚ queue_of d run ++ other_files run d.
Proof.
  unfold all_files, other_files, queue_of. destruct (run_queues d !! run) as [q|] eqn:E; cbn.
  - rewrite <- (insert_delete_id _ _ _ E) at 1. rewrite map_to_list_insert by apply lookup_delete_eq. done.
  - by rewrite delete_id.
Qed.
Lemma other_files_eq run d d' :
  (∀ r, r ≠ run → run_queues d' !! r = run_queues d !! r) → other_files run d' = other_files run d.
Proof.
  intros H. unfold other_files. do 3 f_equal. apply map_eq. intros r.
  destruct (decide (r = run)) as [->|Hr]; [by rewrite !lookup_delete_eq|].
  rewrite !lookup_delete_ne by done. by apply H.
Qed.

Lemma all_files_nil d : all_files d = [] ↔ ∀ run, queue_of d run = [].
Proof.
  split; intros H.
  - intros run. pose proof (all_files_run run d) as Hrun. rewrite H in Hrun.
    symmetry in Hrun. apply Permutation_nil_r, app_eq_nil in Hrun. apply Hrun.
  - unfold all_files. apply concat_nil_Forall, Forall_fmap, Forall_forall.
    intros [run q] Hq%elem_of_map_to_list. specialize (H run). unfold queue_of in H. cbn in *.
    by rewrite Hq in H.
Qed.

(** ** One file leaves a run's queue *)
(** [job] is taken from the queue of [run], where no file is better than it; the
    other queues and the files known to be pending stay as they are. *)
Record popped (run : N) (job : pending_file) (d d' : mirror) : Prop := {
  popped_once : queue_of d run ≡ₚ job :: queue_of d' run;
  popped_best : best_of run (queue_of d run) job;
  popped_others : ∀ r, r ≠ run → run_queues d' !! r = run_queues d !! r;
  popped_active : active_run_id d' = Some run;
  popped_pending : pending d' = pending d
}.

Lemma popped_all run job d d' : popped run job d d' → all_files d ≡ₚ job :: all_files d'.
Proof.
  intros [Hperm _ Hothers _ _].
  by rewrite (all_files_run run d), (all_files_run run d'), (other_files_eq run d d' Hothers), Hperm.
Qed.

Lemma pick_from_run_spec run d :
  match pick_from_run run d with
  | (d', None) => d' = d ∧ queue_of d run = []
  | (d', Some job) =>
      popped run job d d' ∧ tpc_copied_bytes d' = tpc_copied_bytes d ∧ tof_copied_bytes d' = tof_copied_bytes d
  end.
Proof.
  unfold pick_from_run. destruct (queue_of d run) as [|f files] eqn:Q; [done|].
  pose proof (best_index_top run f files) as H.
  destruct (best_index run (f :: files) 0 0 f) as [k job]. destruct H as [Hk Hbest].
  split; [|done]. split; [..|done|done].
  - rewrite Q. rewrite (delete_Permutation _ _ _ Hk) at 1. apply Permutation_cons; [done|].
    unfold queue_of. destruct (delete k (f :: files)) eqn:E; cbn.
    + by rewrite lookup_delete_eq.
    + by rewrite lookup_insert_eq.
  - by rewrite Q.
  - intros r Hr. cbn. destruct (delete k (f :: files)); cbn.
    + by rewrite lookup_delete_ne by done.
    + by rewrite lookup_insert_ne by done.
Qed.

Lemma elem_of_has_files p d r : r ∈ has_files p d ↔ p r = true ∧ queue_of d r ≠ [].
Proof.
  unfold has_files, queue_of. rewrite list_elem_of_fmap. split.
  - intros [[k q] [-> H]]. rewrite list_elem_of_filter, elem_of_map_to_list in H. cbn in *.
    destruct H as [[Hp Hq] H]. by rewrite H.
  - intros [Hp Hq]. destruct (run_queues d !! r) as [q|] eqn:E; [|done].
    exists (r, q). by rewrite list_elem_of_filter, elem_of_map_to_list.
Qed.

Lemma first_run_spec p d :
  match first_run p d with
  | None => ∀ r, p r = true → queue_of d r = []
  | Some run => p run = true ∧ queue_of d run ≠ [] ∧ ∀ r, p r = true → queue_of d r ≠ [] → (run <= r)%N
  end.
Proof.
  unfold first_run. pose proof (elem_of_has_files p d) as H.
  set (min := foldr _ _ _). 
  assert (match min with None => has_files p d = [] | Some m => m ∈ has_files p d ∧ ∀ r, r ∈ has_files p d → (m <= r)%N end) as Hmin.
  { subst min. clear H. induction (has_files p d) as [|k ks IH]; cbn; [done|].
    destruct (foldr _ _ ks) as [m|].
    - destruct IH as [Hm Hall]. split.
      + destruct (N.min_spec k m) as [[_ ->]|[_ ->]]; set_solver.
      + intros r [->|Hr]%elem_of_cons; [lia|]. specialize (Hall _ Hr). lia.
    - subst. split; [set_solver|]. intros r Hr. rewrite list_elem_of_singleton in Hr. lia. }
  destruct min as [m|].
  - destruct Hmin as [Hm Hall]. apply H in Hm as [Hp Hq]. split_and!; try done.
    intros r Hr Hq'. apply Hall, H. done.
  - intros r Hp. destruct (queue_of d r) eqn:E; [done|]. exfalso.
    assert (r ∈ has_files p d) as Hin by (apply H; by rewrite E). rewrite Hmin in Hin. set_solver.
Qed.

(** The run that [pick_active] takes: the active one, else the first one allowed. *)
Definition chosen (p : N → bool) (d : mirror) (run : N) : Prop :=
  p run = true ∧ queue_of d run ≠ [] ∧
  (active_run_id d = Some run ∨
   (∀ a, active_run_id d = Some a → p a = true → queue_of d a = []) ∧
   (∀ r, p r = true → queue_of d r ≠ [] → (run <= r)%N)).

(** What a pick from the runs [p] allows gives. *)
Definition picks (p : N → bool) (d : mirror) (out : mirror * option pending_file) : Prop :=
  match out with
  | (d', None) => (∀ r, p r = true → queue_of d r = [])
                  ∧ run_queues d' = run_queues d ∧ pending d' = pending d
  | (d', Some job) => ∃ run, chosen p d run ∧ popped run job d d'
  end
  ∧ tpc_copied_bytes out.1 = tpc_copied_bytes d ∧ tof_copied_bytes out.1 = tof_copied_bytes d.

Lemma pick_from_run_picks p d run : chosen p d run → picks p d (pick_from_run run d).
Proof.
  intros Hrun. pose proof (pick_from_run_spec run d) as H. destruct (pick_from_run run d) as [d' [job|]].
  - destruct H as (Hpop & Htpc & Htof). split; [|done]. by exists run.
  - destruct Hrun as (_ & Hq & _). by destruct H.
Qed.
Lemma pick_first_picks p d :
  (∀ a, active_run_id d = Some a → p a = true → queue_of d a = []) → picks p d (pick_first p d).
Proof.
  intros Hactive. unfold pick_first. pose proof (first_run_spec p d) as H. destruct (first_run p d) as [run|].
  - apply pick_from_run_picks. destruct H as (? & ? & ?). split_and!; try done. by right.
  - done.
Qed.
Lemma pick_active_picks p d : picks p d (pick_active p d).
Proof.
  unfold pick_active. destruct (active_run_id d) as [a|] eqn:A; [|apply pick_first_picks; by rewrite A].
  destruct (p a) eqn:Hp; [|apply pick_first_picks; rewrite A; intros ? [= <-]; congruence].
  pose proof (pick_from_run_picks p d a) as H. pose proof (pick_from_run_spec a d) as H'.
  destruct (pick_from_run a d) as [d' [job|]].
  - apply H. destruct H' as ([Hperm _ _ _ _] & _). split_and!; [done| |by left].
    intros Hq. rewrite Hq in Hperm. by apply Permutation_nil_cons in Hperm.
  - apply pick_first_picks. rewrite A. intros ? [= <-] _. apply H'.
Qed.
(** Without an active run to prefer, forgetting it changes no pick. *)
Lemma picks_forget p d out :
  (∀ a, active_run_id d = Some a → p a = true → queue_of d a = []) →
  picks p (d <| active_run_id := None |>) out → picks p d out.
Proof.
  intros Hactive [H Hbytes]. split; [|done]. destruct out as [d' [job|]]; [|done].
  destruct H as (run & (Hp & Hq & Hwhich) & [Hperm Hbest Hothers Hact Hpend]).
  exists run. split; [|by split]. split_and!; [done..|]. right. split; [done|].
  by destruct Hwhich as [[=]|[_ ?]].
Qed.
Lemma pick_any_picks d :
  picks (λ _, true) d
    (match active_run_id d with
     | Some run =>
         match pick_from_run run d with
         | (d, Some job) => (d, Some job)
         | (d, None) => pick_first (λ _, true) (d <| active_run_id := None |>)
         end
     | None => pick_first (λ _, true) d
     end).
Proof.
  pose proof (pick_active_picks (λ _, true) d) as H. unfold pick_active in H.
  destruct (active_run_id d) as [a|] eqn:A; [|done].
  pose proof (pick_from_run_spec a d) as H'. destruct (pick_from_run a d) as [d' [job|]]; [done|].
  destruct H' as [-> Hq]. apply picks_forget.
  - rewrite A. by intros ? [= <-].
  - by apply pick_first_picks.
Qed.

Lemma has_tpc_spec d : has_tpc d = true ↔ ∃ r, is_tpc r = true ∧ queue_of d r ≠ [].
Proof.
  unfold has_tpc. rewrite bool_decide_eq_true. setoid_rewrite <- elem_of_has_files. split.
  - intros H. destruct (has_files is_tpc d) as [|r rs]; [done|]. exists r. set_solver.
  - intros [r Hr] H. rewrite H in Hr. set_solver.
Qed.

Lemma HasPending_spec d : HasPending d = false ↔ all_files d = [].
Proof.
  unfold HasPending. rewrite bool_decide_eq_false, all_files_nil. split.
  - intros H run. destruct (queue_of d run) eqn:E; [done|]. exfalso. apply H. intros Hnil.
    assert (run ∈ has_files (λ _, true) d) as Hin by (apply elem_of_has_files; by rewrite E).
    rewrite Hnil in Hin. set_solver.
  - intros H Hne. destruct (has_files _ d) as [|run runs] eqn:E; [done|].
    assert (run ∈ has_files (λ _, true) d) as [_ Hq]%elem_of_has_files by (rewrite E; by left).
    by apply Hq.
Qed.

(** The runs whose turn it is: while TPC and TOF files both wait, the side with
    fewer bytes copied since then; any run otherwise. *)
Definition both_pending (d : mirror) : bool := has_tpc d && has_tof d.
Definition turn (d : mirror) (run : N) : bool :=
  if both_pending d then
    if (tof_copied_bytes d <=? tpc_copied_bytes d)%N then (run =? kTofRunId)%N else is_tpc run
  else true.

Lemma PopNext_picks d :
  picks (turn d) (if both_pending d then d else reset_bytes d) (PopNext d).
Proof.
  unfold PopNext, turn, both_pending.
  destruct (has_tpc d) eqn:T, (has_tof d) eqn:F; cbn [negb orb andb]; try exact (pick_any_picks (reset_bytes d)).
  destruct (_ <=? _)%N; [|apply pick_active_picks].
  apply pick_from_run_picks. apply bool_decide_eq_true in F. split_and!; [done..|].
  destruct (decide (active_run_id d = Some kTofRunId)) as [|Hne]; [by left|right]. split.
  - intros a Ha ->%N.eqb_eq. done.
  - by intros r ->%N.eqb_eq.
Qed.

Lemma PopNext_None d : (PopNext d).2 = None → all_files d = [].
Proof.
  intros E. destruct (PopNext_picks d) as [H _]. destruct (PopNext d) as [d' [job|]]; [done|].
  destruct H as [H _]. apply all_files_nil. unfold turn in H.
  destruct (both_pending d) eqn:B; [exfalso|by intros r; apply H].
  apply andb_true_iff in B as [[r Hr]%has_tpc_spec F%bool_decide_eq_true].
  destruct (_ <=? _)%N; [by apply F, H|]. destruct Hr as [Hr Hq]. by apply Hq, H.
Qed.

(** C15. The worker's next file: none exactly when no run has files waiting;
    otherwise a file of the run whose turn it is, taken from its queue once, no
    file of that queue being better, and the other queues and the pending set
    untouched. While TPC and TOF files both wait the side with fewer bytes copied
    has its turn and the counts are kept; otherwise they start again from 0. The
    run copied last keeps its turn until it has no files, then it is the smallest
    run with files. *)
Theorem PopNext_spec (d : mirror) :
  let bytes d' := (tpc_copied_bytes d', tof_copied_bytes d') in
  bytes (PopNext d).1 = (if both_pending d then bytes d else (0%N, 0%N)) ∧
  match PopNext d with
  | (d', None) => (∀ run, queue_of d run = []) ∧ run_queues d' = run_queues d ∧ pending d' = pending d
  | (d', Some job) => ∃ run, chosen (turn d) d run ∧ popped run job d d'
  end.
Proof.
  intros bytes. pose proof (PopNext_None d) as Hnone. pose proof (PopNext_picks d) as [H [Htpc Htof]]. unfold bytes. rewrite Htpc, Htof.
  destruct (both_pending d) eqn:B; (split; [done|]); destruct (PopNext d) as [d' [job|]]; cbn in Hnone.
  - done.
  - split; [by apply all_files_nil, Hnone|apply H].
  - destruct H as (run & Hrun & [? ? ? ? ?]). exists run. split; [exact Hrun|by split].
  - split; [by apply all_files_nil, Hnone|apply H].
Qed.

(** ** The mirror at work *)
(** The daemon with the file its worker is copying: files arrive while it copies. *)
Inductive mirror_step : mirror * option pending_file → mirror * option pending_file → Prop :=
  | step_enqueue o min_mtime path d job : mirror_step (d, job) (Enqueue o min_mtime path d, job)
  | step_pop d : mirror_step (d, None) (PopNext d)
  | step_save o d job : mirror_step (d, Some job) (SaveStateEntry o (p_path job) d, Some job)
  | step_finish d job copied : mirror_step (d, Some job) (finish_job job copied d, None).

Definition paths (d : mirror) (job : option pending_file) : list string :=
  p_path <$> (all_files d ++ option_list job).
Record queue_inv (d : mirror) (job : option pending_file) : Prop := {
  inv_once : NoDup (paths d job);
  inv_pending : ∀ path, path ∈ pending d ↔ path ∈ paths d job;
  inv_run : ∀ run f, f ∈ queue_of d run → run_id (p_meta f) = run
}.

Lemma queue_inv_new : queue_inv new_mirror None.
Proof.
  split; unfold paths, all_files; cbn; rewrite ?map_to_list_empty; cbn.
  - constructor.
  - set_solver.
  - intros run f. unfold queue_of. cbn. rewrite lookup_empty. cbn. set_solver.
Qed.
Lemma queue_inv_perm d d' job job' :
  paths d' job' ≡ₚ paths d job → pending d' = pending d →
  (∀ run f, f ∈ queue_of d' run → f ∈ queue_of d run) → queue_inv d job → queue_inv d' job'.
Proof.
  intros Hperm Hpend Hq [Honce Hp Hr]. split.
  - by rewrite Hperm.
  - intros path. by rewrite Hpend, Hperm.
  - intros run f Hf. by apply Hr, Hq.
Qed.

(** A file put on the queue of its run. *)
Record enqueued (path : string) (f : pending_file) (d d' : mirror) : Prop := {
  enq_path : p_path f = path;
  enq_new : path ∉ pending d;
  enq_pending : pending d' = {[path]} ∪ pending d;
  enq_queue : queue_of d' (run_id (p_meta f)) = (queue_of d (run_id (p_meta f)) ++ [f])%list;
  enq_others : ∀ r, r ≠ run_id (p_meta f) → run_queues d' !! r = run_queues d !! r
}.
Lemma make_pending_path o min_mtime path f : make_pending o min_mtime path = Some f → p_path f = path.
Proof.
  unfold make_pending. destruct (negb _); [done|]. intros E.
  repeat (apply bind_Some in E as (? & _ & E)). destruct (_ || _); [done|]. by injection E as <-.
Qed.
Lemma Enqueue_cases o min_mtime path d :
  Enqueue o min_mtime path d = d ∨
  ∃ f, make_pending o min_mtime path = Some f ∧ enqueued path f d (Enqueue o min_mtime path d).
Proof.
  unfold Enqueue. destruct (make_pending o min_mtime path) as [f|] eqn:E; [|by left].
  case_decide; [by left|]. right. exists f. split; [done|]. split; [by eapply make_pending_path|done|done|..].
  - unfold queue_of. cbn. by rewrite lookup_insert_eq.
  - intros run Hrun. cbn. by rewrite lookup_insert_ne by done.
Qed.
Lemma enqueued_all path f d d' : enqueued path f d d' → all_files d' ≡ₚ f :: all_files d.
Proof.
  intros [_ _ _ Hq Hothers].
  rewrite (all_files_run (run_id (p_meta f)) d'), (all_files_run (run_id (p_meta f)) d), Hq.
  rewrite (other_files_eq _ d d' Hothers). by rewrite <- !Permutation_middle, app_nil_r.
Qed.

(** A file that was found to need a copy. *)
Definition made (min_mtime : Z) (f : pending_file) : Prop := ∃ o, make_pending o min_mtime (p_path f) = Some f.
Lemma Enqueue_made o min_mtime path d f :
  f ∈ all_files (Enqueue o min_mtime path d) → f ∈ all_files d ∨ make_pending o min_mtime (p_path f) = Some f.
Proof.
  destruct (Enqueue_cases o min_mtime path d) as [->|(g & E & Hg)]; [by left|].
  rewrite (enqueued_all _ _ _ _ Hg), elem_of_cons. intros [->|?]; [|by left]. right. by rewrite (make_pending_path _ _ _ _ E).
Qed.
Lemma Enqueue_keeps o min_mtime path d f : f ∈ all_files d → f ∈ all_files (Enqueue o min_mtime path d).
Proof.
  intros Hf. destruct (Enqueue_cases o min_mtime path d) as [->|(g & _ & Hg)]; [done|].
  rewrite (enqueued_all _ _ _ _ Hg). by right.
Qed.

Lemma queue_inv_enqueue o min_mtime path d job :
  queue_inv d job → queue_inv (Enqueue o min_mtime path d) job.
Proof.
  intros Hinv. destruct (Enqueue_cases o min_mtime path d) as [->|(f & _ & Henq)]; [done|].
  revert Henq. generalize (Enqueue o min_mtime path d). intros d' Henq. destruct Hinv as [Honce Hp Hr].
  assert (paths d' job ≡ₚ path :: paths d job) as Hpaths.
  { unfold paths. rewrite (enqueued_all _ _ _ _ Henq). cbn. by rewrite (enq_path _ _ _ _ Henq). }
  destruct Henq as [_ Hnew Hpend Hq Hothers]. split.
  - rewrite Hpaths. apply NoDup_cons. by rewrite <- Hp.
  - intros p. rewrite Hpaths, elem_of_cons, <- Hp, Hpend. set_solver.
  - intros run g. destruct (decide (run = run_id (p_meta f))) as [->|Hrun].
    + rewrite Hq, elem_of_app, list_elem_of_singleton. intros [Hg| ->]; [by apply Hr|done].
    + unfold queue_of. rewrite Hothers by done. apply Hr.
Qed.
Lemma queue_inv_pop d : queue_inv d None → queue_inv (PopNext d).1 (PopNext d).2.
Proof.
  intros Hinv. destruct (PopNext_picks d) as [H _]. set (d0 := if both_pending d then d else _) in H.
  assert (queue_inv d0 None) as Hinv0 by (subst d0; destruct (both_pending d); [done|by destruct Hinv; split]).
  clearbody d0. destruct (PopNext d) as [d' [job|]]; cbn.
  - destruct H as (run & _ & Hpop). pose proof (popped_all _ _ _ _ Hpop) as Hperm.
    destruct Hpop as [Hq _ Hothers _ Hpend]. apply (queue_inv_perm d0 d' None (Some job)); [|done| |done].
    + unfold paths. rewrite Hperm. cbn. by rewrite app_nil_r, <- Permutation_cons_append.
    + intros r f. destruct (decide (r = run)) as [->|Hr].
      * rewrite Hq. by right.
      * unfold queue_of. by rewrite Hothers.
  - destruct H as (_ & Hq & Hpend). apply (queue_inv_perm d0 d' None None); [|done| |done].
    + unfold paths, all_files. by rewrite Hq.
    + unfold queue_of. by rewrite Hq.
Qed.
Lemma finish_job_files job copied d :
  run_queues (finish_job job copied d) = run_queues d ∧ active_run_id (finish_job job copied d) = active_run_id d
  ∧ pending (finish_job job copied d) = pending d ∖ {[p_path job]}.
Proof. unfold finish_job. destruct copied; [destruct (_ =? _)%N|]; done. Qed.
Lemma queue_inv_finish d job copied : queue_inv d (Some job) → queue_inv (finish_job job copied d) None.
Proof.
  intros [Honce Hp Hr]. destruct (finish_job_files job copied d) as (Hq & _ & Hpend).
  assert (paths d (Some job) ≡ₚ p_path job :: paths (finish_job job copied d) None) as Hpaths.
  { unfold paths, all_files. rewrite Hq. rewrite !fmap_app. cbn. by rewrite app_nil_r, Permutation_app_comm. }
  rewrite Hpaths, NoDup_cons in Honce. destruct Honce as [Hnew Honce]. split; [done| |].
  - intros path. rewrite Hpend, elem_of_difference, Hp, Hpaths. set_solver.
  - unfold queue_of. by rewrite Hq.
Qed.

(** C16. Whatever files arrive while the worker copies: a file is waiting in one
    queue or being copied, at most once in all; the pending set is exactly those
    files; each file waits in the queue of its run. *)
Theorem mirror_queue_invariant (d : mirror) (job : option pending_file) :
  rtc mirror_step (new_mirror, None) (d, job) → queue_inv d job.
Proof.
  intros H. remember (new_mirror, None) as s eqn:Es. remember (d, job) as s' eqn:Es'.
  cut (queue_inv s'.1 s'.2); [by subst|]. assert (queue_inv s.1 s.2) as Hinv by (subst; apply queue_inv_new).
  clear Es Es'. induction H as [|s1 s2 s3 Hstep _ IH]; [done|]. apply IH. clear IH.
  destruct Hstep; cbn in *.
  - by apply queue_inv_enqueue.
  - by apply queue_inv_pop.
  - unfold SaveStateEntry. destruct (StatFile _ _); [by destruct Hinv; split|done].
  - by apply queue_inv_finish.
Qed.

(** ** A run of the queue *)
Local Open Scope string_scope.
Definition demo_stat_os : os := Os (os_getenv demo_os) (os_statvfs demo_os) (os_access_rwx demo_os) (os_access_exists demo_os)
  (λ path, if existsb (String.eqb path) [demo_src; "/mnt/ssd1/tof_data/a.dat"]
           then Some (StatInfo 100 7 true false) else None).
Definition demo_queue : mirror :=
  Enqueue demo_stat_os 0 demo_src (Enqueue demo_stat_os 0 "/mnt/ssd1/tof_data/a.dat" (Enqueue demo_stat_os 0 demo_src new_mirror)).
(** Each file is queued once; with as much copied of both the TOF file is first. *)
Example demo_queue_paths :
  p_path <$> all_files demo_queue = ["/mnt/ssd1/tof_data/a.dat"; demo_src]
  ∨ p_path <$> all_files demo_queue = [demo_src; "/mnt/ssd1/tof_data/a.dat"].
Proof. vm_compute. auto. Qed.
Example demo_queue_first : p_path <$> (PopNext demo_queue).2 = Some "/mnt/ssd1/tof_data/a.dat".
Proof. vm_compute. reflexivity. Qed.
Example demo_queue_second :
  p_path <$> (PopNext (finish_job (default (PendingFile "" "" default_meta 0 0) (PopNext demo_queue).2) true (PopNext demo_queue).1)).2
  = Some demo_src.
Proof. vm_compute. reflexivity. Qed.
Local Close Scope string_scope.

Lemma mirror_queue_invariant_witness :
  (PopNext demo_queue).2 ≠ None ∧ queue_inv (PopNext demo_queue).1 (PopNext demo_queue).2.
Proof.
  split; [by vm_compute|]. apply mirror_queue_invariant. unfold demo_queue.
  do 3 (eapply rtc_l; [apply step_enqueue|]). rewrite <- surjective_pairing. apply rtc_once, step_pop.
Defined.
