(* ===== verification/MirrorState.v ===== *)
(** * The mirror's state file and settings (src/daemon/mirror_engine.cpp)

    What was copied is kept across restarts in a text file, one line for each copy:
    the path, the size and the time stamp. [LoadState] reads it with the stream
    operators of the C++ library, modelled here; [SaveStateEntry] appends to it.
    The settings come from the environment and from the rate file. *)
From Stdlib Require Import Ascii String Lia ZArith NArith.
From stdpp Require Import base tactics list numbers option strings gmap sets.
From S2P Require Import Prelude CppString StorageUtils MirrorMeta MirrorQueue.
Local Open Scope string_scope.

(** ** Reading with [std::getline] and [>>] *)
Definition tab : ascii := "009"%char.

(** The lines of a stream; the last one may lack its newline. *)
Fixpoint getlines (s : string) : list string :=
  match s with
  | EmptyString => []
  | String c s =>
      if Ascii.eqb c newline then "" :: getlines s
      else match getlines s with
           | [] => [String c ""]
           | l :: ls => String c l :: ls
           end
  end.

(** [stream >> word] *)
Fixpoint span_word (s : string) : string * string :=
  match s with
  | String a s' => if is_space a then ("", s) else let '(w, r) := span_word s' in (String a w, r)
  | EmptyString => ("", "")
  end.
Definition extract_word (s : string) : option (string * string) :=
  let '(w, r) := span_word (skip_spaces s) in if string_empty w then None else Some (w, r).

(** [stream >> n] for [uint64_t n]: a minus sign negates modulo 2^64. *)
Definition extract_u64 (s : string) : option (N * string) :=
  '(neg, v, r) ← read_number s;
  if (ULLONG_MAX <? v)%N then None
  else Some (if neg : bool then ((2 ^ 64 - v) mod 2 ^ 64)%N else v, r).
(** [stream >> n] for [int64_t n] *)
Definition extract_i64 (s : string) : option (Z * string) :=
  '(neg, v, r) ← read_number s;
  let z := if neg : bool then (- Z.of_N v)%Z else Z.of_N v in
  if decide (- 2 ^ 63 ≤ z < 2 ^ 63)%Z then Some (z, r) else None.

(** ** The file *)
Definition parse_line (line : string) : option (string * file_stat) :=
  match line with
  | EmptyString => None
  | String c _ =>
      if Ascii.eqb c "#" then None
      else
        '(path, r) ← extract_word line;
        '(size, r) ← extract_u64 r;
        '(mtime, _) ← extract_i64 r;
        Some (path, FileStat size mtime)
  end.
Definition load_lines (ls : list string) (state : gmap string file_stat) : gmap string file_stat :=
  foldl (λ state line, match parse_line line with
                       | Some (path, stat) => <[path := stat]> state
                       | None => state
                       end) state ls.
(** [content]: the file, or None when it cannot be opened. *)
Definition LoadState (content : option string) (d : mirror) : mirror :=
  match content with
  | None => d
  | Some s => d <| state_ ::= load_lines (getlines s) |>
  end.

Definition entry (path : string) (stat : file_stat) : string :=
  path ++ String tab (to_string (fs_size stat) ++ String tab (print_i64 (fs_mtime stat) ++ String newline "")).
(** [SaveStateEntry] with the file: opened for appending, or not. *)
Definition SaveStateEntry_file (o : os) (opened : bool) (src_path : string) (st : mirror * option string) :
    mirror * option string :=
  match StatFile o src_path with
  | None => st
  | Some stat =>
      (SaveStateEntry o src_path st.1,
       if opened then Some (default "" st.2 ++ entry src_path stat) else st.2)
  end.

(** ** The settings *)
Definition non_empty (v : option string) : option string :=
  match v with Some s => if string_empty s then None else Some s | None => None end.
Definition StateFilePath (o : os) : string :=
  default "/var/lib/grams_mirror/state.tsv" (non_empty (os_getenv o "DATA_MIRROR_STATE_FILE")).
Definition RateFilePath (o : os) : string :=
  default "/var/lib/grams_mirror/max_mbps" (non_empty (os_getenv o "DATA_MIRROR_RATE_FILE")).

(** [strtoll(s, &end, 10)]; None when [end == s]. *)
Definition strtoll (s : string) : option Z :=
  '(neg, v, _) ← read_number s;
  let z := if neg : bool then (- Z.of_N v)%Z else Z.of_N v in
  Some (Z.max (- 2 ^ 63) (Z.min z (2 ^ 63 - 1))).

Section settings.
(** [strptime] with a format, the whole string, then [mktime]: the local time zone. *)
Context (local_time : string → string → option Z).

Definition ParseMinMtimeFromEnv (o : os) : Z :=
  match non_empty (os_getenv o "DATA_MIRROR_MIN_MTIME") ≫= strtoll with
  | Some parsed => parsed
  | None =>
      match non_empty (os_getenv o "DATA_MIRROR_MIN_DATE") with
      | None => 0
      | Some env =>
          let t := match local_time "%Y-%m-%dT%H:%M:%S" env with
                   | Some t => Some t
                   | None => match local_time "%Y-%m-%d %H:%M:%S" env with
                             | Some t => Some t
                             | None => local_time "%Y-%m-%d" env
                             end
                   end in
          match t with
          | None => 0
          | Some t => if (t <? 0)%Z then 0 else t
          end
      end
  end%Z.

(** The globals: the rate and the oldest time stamp to copy. *)
Record globals := Globals { g_max_bytes_per_sec : N; g_min_mtime : Z }.
Definition InitGlobals (o : os) (max_mbytes_per_sec : N) : globals := {|
  g_max_bytes_per_sec := if (0 <? max_mbytes_per_sec)%N then u64N (max_mbytes_per_sec * 1024 * 1024)
                         else MirrorMaxBytesPerSec o;
  g_min_mtime := ParseMinMtimeFromEnv o
|}.
End settings.

(** The static variables of [CurrentMaxBytesPerSec]; the clock in milliseconds. *)
Record rate := Rate { last_read : Z; cached : N }.
#[export] Instance rate_eta : RecordEta rate := λ r, Rate (last_read r) (cached r).
Definition CurrentMaxBytesPerSec (g : globals) (now : Z) (rate_file : option string) (r : rate) : rate * N :=
  if (cached r =? 0)%N || (1000 <=? now - last_read r)%Z then
    let limit := match rate_file ≫= extract_u64 with
                 | Some (mbps, _) => u64N (mbps * 1024 * 1024)
                 | None => g_max_bytes_per_sec g
                 end in
    (Rate now limit, limit)
  else (r, cached r).

(** ** What is written reads back *)
Fixpoint has_space (s : string) : bool :=
  match s with EmptyString => false | String a s => is_space a || has_space s end.
(** Paths the format can hold: no white space, and not taken for a comment. *)
Definition plain_path (p : string) : Prop := p ≠ "" ∧ has_space p = false ∧ char_at p 0 ≠ Some "#"%char.
(** Time stamps of [int64_t]. *)
Definition stat_fits (stat : file_stat) : Prop := (fs_size stat < 2 ^ 64)%N ∧ (- 2 ^ 63 ≤ fs_mtime stat < 2 ^ 63)%Z.

Definition starts_blank (s : string) : Prop := match s with EmptyString => True | String a _ => is_space a = true end.

Lemma span_word_append p rest : has_space p = false → starts_blank rest → span_word (p ++ rest) = (p, rest).
Proof.
  induction p as [|a p IH]; cbn; intros Hp Hr.
  - destruct rest as [|b rest]; [done|]. cbn. by rewrite Hr.
  - apply orb_false_iff in Hp as [-> Hp]. by rewrite IH.
Qed.
Lemma skip_spaces_word p rest : p ≠ "" → has_space p = false → skip_spaces (p ++ rest) = p ++ rest.
Proof. destruct p as [|a p]; [done|]. cbn. intros _ [-> _]%orb_false_iff. done. Qed.
Lemma extract_word_append p rest :
  plain_path p → starts_blank rest → extract_word (p ++ rest) = Some (p, rest).
Proof.
  intros (Hne & Hsp & _) Hr. unfold extract_word. rewrite skip_spaces_word, span_word_append by done.
  destruct (string_empty p) eqn:E; [by apply string_empty_true in E|done].
Qed.

Lemma digit_plain a : is_digit a = true → is_space a = false ∧ Ascii.eqb a "-" = false ∧ Ascii.eqb a "+" = false.
Proof.
  unfold is_digit, is_space. intros [H1%N.leb_le H2%N.leb_le]%andb_true_iff. split_and!.
  - apply orb_false_iff. split; [apply N.eqb_neq; lia|]. apply andb_false_iff. right. apply N.leb_gt. lia.
  - apply Ascii.eqb_neq. intros ->. change (N_of_ascii "-") with 45%N in *. lia.
  - apply Ascii.eqb_neq. intros ->. change (N_of_ascii "+") with 43%N in *. lia.
Qed.
Lemma to_string_head n : ∃ a s, to_string n = String a s ∧ is_digit a = true.
Proof.
  pose proof (to_string_nonempty n) as Hl. pose proof (span_digits_to_string n "" I) as Hs.
  rewrite append_nil_r in Hs. destruct (to_string n) as [|a s]; simpl in *; [lia|].
  exists a, s. split; [done|]. by destruct (is_digit a).
Qed.
Lemma blank_ends_number rest : starts_blank rest →
  match rest with String a _ => is_digit a = false | EmptyString => True end.
Proof.
  destruct rest as [|a rest]; [done|]. cbn. intros Ha. destruct (is_digit a) eqn:E; [|done].
  apply digit_plain in E as (E & _). congruence.
Qed.

Lemma read_number_u n rest :
  starts_blank rest → read_number (String tab (to_string n ++ rest)) = Some (false, n, rest).
Proof.
  intros Hr%blank_ends_number. pose proof (span_digits_to_string n rest Hr) as Hs.
  pose proof (to_string_nonempty n) as Hl.
  destruct (to_string_head n) as (a & s & E & Ha). rewrite E in *.
  apply digit_plain in Ha as (Hsp & Hm & Hp). unfold read_number. cbn [skip_spaces String.append] in *.
  change (is_space tab) with true. cbn [String.append]. rewrite Hsp, Hm, Hp, Hs. done.
Qed.
Lemma read_number_neg n rest :
  starts_blank rest → read_number (String tab (String "-" (to_string n ++ rest))) = Some (true, n, rest).
Proof.
  intros Hr%blank_ends_number. pose proof (span_digits_to_string n rest Hr) as Hs.
  pose proof (to_string_nonempty n) as Hl. unfold read_number. cbn [skip_spaces].
  change (is_space tab) with true. change (is_space "-") with false. cbn [Ascii.eqb Bool.eqb].
  rewrite Hs. destruct (String.length (to_string n)); [lia|done].
Qed.

Lemma extract_u64_print n rest :
  (n < 2 ^ 64)%N → starts_blank rest → extract_u64 (String tab (to_string n ++ rest)) = Some (n, rest).
Proof.
  intros Hn Hr. unfold extract_u64. rewrite read_number_u by done. cbn.
  unfold ULLONG_MAX. destruct (N.ltb_spec (2 ^ 64 - 1) n); [lia|done].
Qed.
Lemma extract_i64_print z rest :
  (- 2 ^ 63 ≤ z < 2 ^ 63)%Z → starts_blank rest → extract_i64 (String tab (print_i64 z ++ rest)) = Some (z, rest).
Proof.
  intros Hz Hr. unfold extract_i64, print_i64. destruct (Z.ltb_spec z 0).
  - cbn [String.append]. rewrite read_number_neg by done. cbn -[Z.pow]. rewrite decide_True by lia.
    do 2 f_equal. lia.
  - rewrite read_number_u by done. cbn -[Z.pow]. rewrite decide_True by lia. do 2 f_equal. lia.
Qed.

(** The line of an entry, without its newline. *)
Definition entry_line (path : string) (stat : file_stat) : string :=
  path ++ String tab (to_string (fs_size stat) ++ String tab (print_i64 (fs_mtime stat))).
Lemma entry_newline path stat : entry path stat = entry_line path stat ++ String newline "".
Proof. unfold entry, entry_line. rewrite !append_assoc. cbn. by rewrite !append_assoc. Qed.

Lemma parse_entry path stat :
  plain_path path → stat_fits stat → parse_line (entry_line path stat) = Some (path, stat).
Proof.
  intros Hp [Hs Hm]. unfold entry_line.
  assert (parse_line (path ++ String tab (to_string (fs_size stat) ++ String tab (print_i64 (fs_mtime stat)))) =
    '(path, r) ← extract_word (path ++ String tab (to_string (fs_size stat) ++ String tab (print_i64 (fs_mtime stat))));
    '(size, r) ← extract_u64 r; '(mtime, _) ← extract_i64 r; Some (path, FileStat size mtime)) as ->.
  { destruct Hp as (Hne & _ & Hc). destruct path as [|c path]; [done|]. cbn [String.append parse_line].
    destruct (Ascii.eqb_spec c "#"); [|done]. subst. by destruct Hc. }
  rewrite extract_word_append by done. cbn [mbind option_bind].
  rewrite extract_u64_print by done. cbn [mbind option_bind].
  pose proof (extract_i64_print (fs_mtime stat) "" Hm I) as E. rewrite append_nil_r in E. rewrite E.
  by destruct stat.
Qed.

(** *** Lines *)
Lemma getlines_append f rest :
  getlines (f ++ String newline rest) = (getlines (f ++ String newline "") ++ getlines rest)%list.
Proof.
  induction f as [|c f IH]; [done|]. cbn. rewrite IH. destruct (Ascii.eqb c newline); [done|].
  by destruct (getlines (f ++ String newline "")) eqn:E; [destruct f as [|b f]; cbn in E; repeat case_match|].
Qed.
Lemma getlines_line l rest : string_has newline l = false → getlines (l ++ String newline rest) = l :: getlines rest.
Proof.
  induction l as [|c l IH]; cbn; [done|]. intros [Hc Hl]%orb_false_iff.
  rewrite Hc, IH by done. done.
Qed.

(** Every line has its newline: what [SaveStateEntry] leaves. *)
Definition terminated (file : string) : Prop := file = "" ∨ ∃ f, file = f ++ String newline "".

Lemma getlines_terminated file rest :
  terminated file → getlines (file ++ rest) = (getlines file ++ getlines rest)%list.
Proof. intros [->|[f ->]]; [done|]. rewrite append_assoc. apply getlines_append. Qed.
Lemma no_space_no_newline p : has_space p = false → string_has newline p = false.
Proof.
  induction p as [|a p IH]; [done|]. cbn. intros [Ha Hp]%orb_false_iff. rewrite IH by done.
  destruct (Ascii.eqb_spec a newline); [by subst|done].
Qed.
Lemma print_i64_no_newline z : string_has newline (print_i64 z) = false.
Proof. unfold print_i64. case_match; cbn; by apply to_string_digits. Qed.
Lemma entry_line_no_newline path stat : plain_path path → string_has newline (entry_line path stat) = false.
Proof.
  intros (_ & Hp & _). unfold entry_line. rewrite string_has_append, no_space_no_newline by done.
  cbn [string_has orb]. rewrite string_has_append, to_string_digits by done. apply print_i64_no_newline.
Qed.

Lemma load_entry file path stat :
  terminated file → plain_path path → stat_fits stat →
  load_lines (getlines (file ++ entry path stat)) ∅ = <[path := stat]> (load_lines (getlines file) ∅) ∧
  terminated (file ++ entry path stat).
Proof.
  intros Hf Hp Hs. rewrite entry_newline. split.
  - rewrite getlines_terminated by done. rewrite getlines_line by by apply entry_line_no_newline. cbn.
    unfold load_lines at 1. rewrite foldl_app. cbn. by rewrite parse_entry.
  - right. eexists. by rewrite <-append_assoc.
Qed.

(** A sequence of copies recorded, each with what [stat] answers then. *)
Definition record_all (saves : list (os * string)) (st : mirror * option string) : mirror * option string :=
  foldl (λ st save, SaveStateEntry_file save.1 true save.2 st) st saves.
Definition recordable (save : os * string) : Prop :=
  plain_path save.2 ∧ ∀ stat, StatFile save.1 save.2 = Some stat → stat_fits stat.
(** The file says what the daemon remembers. *)
Definition in_step (st : mirror * option string) : Prop :=
  terminated (default "" st.2) ∧ state_ st.1 = load_lines (getlines (default "" st.2)) ∅.

Lemma record_in_step save st : recordable save → in_step st → in_step (SaveStateEntry_file save.1 true save.2 st).
Proof.
  intros [Hp Hs] [Ht He]. unfold SaveStateEntry_file, SaveStateEntry.
  destruct (StatFile save.1 save.2) as [stat|] eqn:E; [|done].
  destruct (load_entry (default "" st.2) save.2 stat) as [Hl Ht']; auto.
  split; [exact Ht'|].
  change (<[save.2 := stat]> (state_ st.1) = load_lines (getlines (default "" st.2 ++ entry save.2 stat)) ∅).
  by rewrite Hl, He.
Qed.
Lemma record_all_in_step saves st : Forall recordable saves → in_step st → in_step (record_all saves st).
Proof.
  revert st. induction saves as [|save saves IH]; intros st Hall Hst; [done|].
  apply Forall_cons in Hall as [Hs Hall]. apply IH; [done|]. by apply record_in_step.
Qed.
Lemma LoadState_in_step content : terminated (default "" content) → in_step (LoadState content new_mirror, content).
Proof. intros Ht. split; [done|]. by destruct content. Qed.

Lemma reload_state content saves :
  terminated (default "" content) → Forall recordable saves →
  let '(d, content') := record_all saves (LoadState content new_mirror, content) in
  state_ (LoadState content' new_mirror) = state_ d.
Proof.
  intros Ht Hall. pose proof (record_all_in_step _ _ Hall (LoadState_in_step content Ht)) as [_ He].
  destruct (record_all saves _) as [d content']. cbn [fst snd] in He. rewrite He. by destruct content'.
Qed.

(** C18. The state file round-trips: from a start on a file whose lines are whole, through any
    sequence of copies recorded of files that have a plain path, without blanks and without a #
    in front ([blank_path_forgotten] shows another), and a size and a time in the 64-bit range,
    a restarted mirror reads back exactly what the running one remembers, so it takes the same
    files as synced. *)
Theorem state_file_roundtrip content saves :
  terminated (default "" content) → Forall recordable saves →
  let '(d, content') := record_all saves (LoadState content new_mirror, content) in
  state_ (LoadState content' new_mirror) = state_ d ∧
  ∀ o path, IsSynced o path (LoadState content' new_mirror) = IsSynced o path d.
Proof.
  intros Ht Hall. pose proof (reload_state content saves Ht Hall) as E.
  destruct (record_all saves _) as [d content']. split; [done|]. intros o path. unfold IsSynced. by rewrite E.
Qed.

(** Three copies recorded on an older file, one of them again after it changed. *)
Definition stat_os (size : N) (mtime : Z) : os := Os (λ _, None) (λ _ _, inr 0%Z) (λ _, true) (λ _, true)
  (λ _, Some (StatInfo size mtime true false)).
Definition demo_saves : list (os * string) :=
  [(stat_os 100 7, "/d/readout_data/a.dat"); (stat_os 5 (-3), "/d/logs/b.log"); (stat_os 120 9, "/d/readout_data/a.dat")].
Definition demo_state_file : string := "# mirrored" ++ String newline ("/d/c.dat" ++ String tab "4 5" ++ String newline "").

Lemma state_file_roundtrip_witness :
  let '(d, content') := record_all demo_saves (LoadState (Some demo_state_file) new_mirror, Some demo_state_file) in
  IsSynced (stat_os 120 9) "/d/readout_data/a.dat" d = true ∧
  IsSynced (stat_os 120 9) "/d/readout_data/a.dat" (LoadState content' new_mirror) = true ∧
  state_ (LoadState content' new_mirror) !! "/d/c.dat" = Some (FileStat 4 5).
Proof.
  assert (∀ size mtime path, plain_path path → (u64N size < 2 ^ 64)%N → (- 2 ^ 63 ≤ mtime < 2 ^ 63)%Z →
    recordable (stat_os size mtime, path)) as Hrec.
  { intros size mtime path Hp Hs Hm. split; [exact Hp|]. intros stat [= <-]. by split. }
  assert (Forall recordable demo_saves) as Hall.
  { unfold demo_saves. apply Forall_cons_2; [|apply Forall_cons_2; [|apply Forall_cons_2; [|apply Forall_nil_2]]];
      apply Hrec; try (vm_compute; reflexivity); try lia; split_and!; vm_compute; congruence. }
  pose proof (state_file_roundtrip (Some demo_state_file) demo_saves) as H.
  destruct (record_all _ _) as [d content'] eqn:E.
  destruct H as [He Hs]; [right; by exists ("# mirrored" ++ String newline ("/d/c.dat" ++ String tab "4 5"))|exact Hall|].
  rewrite Hs, He. vm_compute in E. injection E as <- _. vm_compute. auto.
Defined.

(** A path with a blank in it is not read back. *)
Example blank_path_forgotten :
  let '(d, content) := record_all [(stat_os 5 7, "/d/logs/a b.log")] (new_mirror, None) in
  IsSynced (stat_os 5 7) "/d/logs/a b.log" d = true ∧
  IsSynced (stat_os 5 7) "/d/logs/a b.log" (LoadState content new_mirror) = false.
Proof. vm_compute. auto. Qed.
