(* ===== verification/MirrorWatch.v ===== *)
(** * How files reach the mirror: [ScanBacklog], [RunInotify], [Run]
    (src/daemon/mirror_engine.cpp)

    At the start the daemon reads its state file and walks the watched directories
    of every data disk; then it follows the events of inotify. Both hand paths to
    [Enqueue]. The recursion of both walks is bounded by the length of a path. *)
From Stdlib Require Import Ascii String Lia ZArith NArith.
From stdpp Require Import base tactics list numbers option strings gmap sets.
From S2P Require Import Prelude CppString StorageUtils MirrorMeta MirrorQueue MirrorState.
Local Open Scope string_scope.

Definition kWatchSubdirs : list string :=
  ["readout_data"; "trigger_data"; "pps_data"; "config_logs"; "logs"; "tof_data"].

(** [name[0] == '.'] *)
Definition hidden (name : string) : bool :=
  match name with String c _ => Ascii.eqb c "." | EmptyString => false end.
Definition child (dir name : string) : string := dir ++ "/" ++ name.

(** No system call takes a longer path. *)
Definition PATH_MAX : nat := N.to_nat 4096.

(** ** [ScanDirectory] and [ScanBacklog] *)
Section scan.
(** The file system: [stat], [opendir] with [readdir], [access(R_OK)]. *)
Context (o : os) (readdir : string → option (list string)) (readable : string → bool) (min_mtime : Z).

(** [fuel] bounds the depth; running out of it is no result. *)
Fixpoint scan (fuel : nat) (path : string) (d : mirror) : option mirror :=
  match fuel with
  | O => None
  | S fuel =>
      match os_stat o path with
      | None => Some d
      | Some info =>
          if st_isreg info then Some (if IsSynced o path d then d else Enqueue o min_mtime path d)
          else if negb (st_isdir info) then Some d
          else match readdir path with
               | None => Some d
               | Some names =>
                   foldl (λ r name, d ← r; if hidden name then Some d else scan fuel (child path name) d)
                     (Some d) names
               end
      end
  end.
Definition ScanDirectory (dir_path : string) (d : mirror) : option mirror :=
  if readable dir_path then scan (S PATH_MAX) dir_path d else Some d.

(** The watched directories, in the order of the scan. *)
Definition watch_roots : list string :=
  subdir ← kWatchSubdirs; nvme_root ← GetNvmeCandidatesFromEnv o; [child nvme_root subdir].
Definition ScanBacklog (d : mirror) : option mirror :=
  foldl (λ r dir, d ← r; ScanDirectory dir d) (Some d) watch_roots.
End scan.

(** ** [RunInotify] *)
Definition IN_CLOSE_WRITE : Z := 0x8.
Definition IN_MOVED_TO : Z := 0x80.
Definition IN_CREATE : Z := 0x100.
Definition IN_ISDIR : Z := 0x40000000.
Definition has_bits (mask bits : Z) : bool := negb (Z.land mask bits =? 0)%Z.

Record inotify_event := InotifyEvent { ev_wd : Z; ev_mask : Z; ev_name : string }.
(** What a [read] of the inotify descriptor gives. *)
Inductive read_result := ReadInterrupted | ReadFailed | ReadEvents (evs : list inotify_event).

(** The answers to the thread's n-th look at the system. *)
Record watch_world := WatchWorld {
  ww_os : nat → os;
  ww_readdir : nat → string → option (list string);
  ww_add : nat → string → option Z           (** inotify_add_watch *)
}.
Record watcher := Watcher {
  ww_tick : nat;
  watch_dirs : gmap Z string;
  ww_queue : mirror;
  handed : list string                       (** ghost: the paths given to [Enqueue] *)
}.
#[export] Instance watcher_eta : RecordEta watcher := λ s,
  Watcher (ww_tick s) (watch_dirs s) (ww_queue s) (handed s).

Section watch.
Context (w : watch_world) (min_mtime : Z).
Implicit Types s : watcher.

Definition now {A} (f : watch_world → nat → A) s : A * watcher := (f w (ww_tick s), s <| ww_tick ::= S |>).

Fixpoint add_watch (fuel : nat) (dir : string) (recurse : bool) s : option watcher :=
  match fuel with
  | O => None
  | S fuel =>
      let '(wd, s) := now (λ w t, ww_add w t dir) s in
      match wd with
      | None => Some s
      | Some wd =>
          let s := s <| watch_dirs ::= <[wd := dir]> |> in
          if negb recurse then Some s
          else
            let '(listing, s) := now (λ w t, ww_readdir w t dir) s in
            match listing with
            | None => Some s
            | Some names =>
                foldl (λ r name,
                  s ← r;
                  if hidden name then Some s
                  else
                    let '(info, s) := now (λ w t, os_stat (ww_os w t) (child dir name)) s in
                    if match info with Some i => st_isdir i | None => false end
                    then add_watch fuel (child dir name) true s else Some s) (Some s) names
            end
      end
  end.
Definition add_watches (dirs : list (string * bool)) s : option watcher :=
  foldl (λ r dir, s ← r; add_watch (S PATH_MAX) dir.1 dir.2 s) (Some s) dirs.

Definition recursive (subdir : string) : bool := String.eqb subdir "tof_data".
Definition watched_dirs (o : os) : list (string * bool) :=
  subdir ← kWatchSubdirs; nvme_root ← GetNvmeCandidatesFromEnv o; [(child nvme_root subdir, recursive subdir)].
Definition recursive_roots (o : os) : list (string * bool) := filter (λ d, d.2 = true) (watched_dirs o).

Definition hand_over (path : string) s : watcher :=
  let '(o, s) := now (λ w t, ww_os w t) s in
  s <| ww_queue ::= Enqueue o min_mtime path |> <| handed ::= λ l, (l ++ [path])%list |>.

Definition handle_event (ev : inotify_event) s : option watcher :=
  if string_empty (ev_name ev) || hidden (ev_name ev) then Some s
  else match watch_dirs s !! ev_wd ev with
       | None => Some s
       | Some dir =>
           let full := child dir (ev_name ev) in
           let '(info, s) := now (λ w t, os_stat (ww_os w t) full) s in
           let is_dir := has_bits (ev_mask ev) IN_ISDIR ||
                         match info with Some i => st_isdir i | None => false end in
           if is_dir then
             if has_bits (ev_mask ev) (Z.lor IN_CREATE IN_MOVED_TO) && IsTofPath full
             then add_watch (S PATH_MAX) full true s else Some s
           else if has_bits (ev_mask ev) (Z.lor IN_CLOSE_WRITE IN_MOVED_TO) then Some (hand_over full s)
           else Some s
       end.

(** One turn of the loop; a failed read (no event) looks for new TOF directories. *)
Definition handle_read (o : os) (r : read_result) s : option watcher :=
  match r with
  | ReadInterrupted => Some s
  | ReadFailed => add_watches (recursive_roots o) s
  | ReadEvents evs => foldl (λ r ev, s ← r; handle_event ev s) (Some s) evs
  end.
(** [reads]: what is read until [g_running] falls; [opened]: inotify_init1. *)
Definition RunInotify (o : os) (opened : bool) (reads : list read_result) s : option watcher :=
  if negb opened then Some s
  else
    s ← add_watches (watched_dirs o) s;
    foldl (λ r read, s ← r; handle_read o read s) (Some s) reads.
End watch.

(** ** [Run]: the state file and the backlog, before the threads start *)
Definition Run_start (o : os) (readdir : string → option (list string)) (readable : string → bool)
    (min_mtime : Z) (content : option string) : option mirror :=
  ScanBacklog o readdir readable min_mtime (LoadState content new_mirror).

(** ** What the scan puts on the queue *)
Lemma length_child dir name : (String.length dir < String.length (child dir name))%nat.
Proof. unfold child. rewrite !length_append. cbn. lia. Qed.

Section scanned.
Context (o : os) (readdir : string → option (list string)) (readable : string → bool) (min_mtime : Z).
Hypothesis Hpath : ∀ p, (PATH_MAX ≤ String.length p)%nat → os_stat o p = None.
Implicit Types (P Q : string → Prop) (d : mirror).

(** A regular file below a directory, no name on the way hidden. *)
Inductive visible : string → string → Prop :=
  | visible_file path info :
      os_stat o path = Some info → st_isreg info = true → visible path path
  | visible_dir path info names name f :
      os_stat o path = Some info → st_isreg info = false → st_isdir info = true →
      readdir path = Some names → name ∈ names → hidden name = false →
      visible (child path name) f → visible path f.

(** From [d] to [d'] exactly the files of [P] were put on the queue, if they are
    not synced and there is something to copy. *)
Definition wanted d (f : string) : Prop := IsSynced o f d = false ∧ is_Some (make_pending o min_mtime f).
Record scanned P d d' : Prop := Scanned {
  sc_pending f : f ∈ pending d' ↔ f ∈ pending d ∨ P f ∧ wanted d f;
  sc_state : state_ d' = state_ d;
  sc_inv job : queue_inv d job → queue_inv d' job;
  sc_made f : f ∈ all_files d' → f ∈ all_files d ∨ make_pending o min_mtime (p_path f) = Some f
}.

Lemma wanted_state d d' f : state_ d' = state_ d → wanted d' f ↔ wanted d f.
Proof. unfold wanted, IsSynced. by intros ->. Qed.
Lemma scanned_refl P d : (∀ f, ¬ P f) → scanned P d d.
Proof. intros HP. split; [|done|done|by left]. intros f. naive_solver. Qed.
Lemma scanned_app P Q d d1 d2 : scanned P d d1 → scanned Q d1 d2 → scanned (λ f, P f ∨ Q f) d d2.
Proof.
  intros [H1 E1 I1 M1] [H2 E2 I2 M2]. split; [|congruence|auto|intros f [Hf|?]%M2; auto].
  intros f. rewrite H2, H1, (wanted_state _ _ _ E1). tauto.
Qed.
Lemma scanned_iff P Q d d' : (∀ f, P f ↔ Q f) → scanned P d d' → scanned Q d d'.
Proof. intros HPQ [H1 E1 I1 M1]. split; [|done..]. intros f. by rewrite H1, HPQ. Qed.

Lemma Enqueue_pending path d f :
  f ∈ pending (Enqueue o min_mtime path d) ↔
    f ∈ pending d ∨ f = path ∧ is_Some (make_pending o min_mtime path).
Proof.
  unfold Enqueue. destruct (make_pending o min_mtime path) as [p|] eqn:E.
  - case_decide; cbn; [|set_solver]. split; [by left|]. by intros [?|[-> _]].
  - split; [by left|]. by intros [?|[_ [? ?]]].
Qed.
Lemma Enqueue_state path d : state_ (Enqueue o min_mtime path d) = state_ d.
Proof. unfold Enqueue. repeat case_match; done. Qed.

Lemma scanned_enqueue path d :
  scanned (λ f, f = path) d (if IsSynced o path d then d else Enqueue o min_mtime path d).
Proof.
  destruct (IsSynced o path d) eqn:E.
  - split; [|done|done|by left]. intros f. unfold wanted. split; [by left|]. intros [?|(-> & Hs & _)]; congruence.
  - split; [|apply Enqueue_state|intros; by apply queue_inv_enqueue|apply Enqueue_made].
    intros f. rewrite Enqueue_pending. unfold wanted. naive_solver.
Qed.

(** Walks over a list. *)
Lemma scanned_fold {A} (F : A → mirror → option mirror) (P : A → string → Prop) (xs : list A) d :
  (∀ x d, x ∈ xs → ∃ d', F x d = Some d' ∧ scanned (P x) d d') →
  ∃ d', foldl (λ r x, d ← r; F x d) (Some d) xs = Some d' ∧ scanned (λ f, ∃ x, x ∈ xs ∧ P x f) d d'.
Proof.
  revert d. induction xs as [|x xs IH]; intros d HF; cbn.
  - exists d. split; [done|]. apply scanned_refl. intros f (x & Hx & _). by apply not_elem_of_nil in Hx.
  - destruct (HF x d) as (d1 & -> & H1); [by left|].
    destruct (IH d1) as (d2 & -> & H2); [intros y d' Hy; apply HF; by right|].
    exists d2. split; [done|]. eapply scanned_iff; [|exact (scanned_app _ _ _ _ _ H1 H2)].
    intros f. cbn. setoid_rewrite elem_of_cons. naive_solver.
Qed.

Lemma scan_spec fuel path d :
  (0 < fuel)%nat → (PATH_MAX < fuel + String.length path)%nat →
  ∃ d', scan o readdir min_mtime fuel path d = Some d' ∧ scanned (visible path) d d'.
Proof.
  revert path d. induction fuel as [|fuel IH]; intros path d Hpos Hfuel; [lia|]. cbn [scan].
  destruct (os_stat o path) as [info|] eqn:Hstat.
  2: { exists d. split; [done|]. apply scanned_refl. intros f Hf. inversion Hf; congruence. }
  destruct (st_isreg info) eqn:Hreg.
  { eexists. split; [done|]. eapply scanned_iff; [|apply scanned_enqueue].
    intros f. split; [intros ->; by eapply visible_file|]. inversion 1; congruence. }
  destruct (st_isdir info) eqn:Hdir; cbn [negb].
  2: { exists d. split; [done|]. apply scanned_refl. intros f Hf. inversion Hf; congruence. }
  destruct (readdir path) as [names|] eqn:Hls.
  2: { exists d. split; [done|]. apply scanned_refl. intros f Hf. inversion Hf; congruence. }
  destruct (decide (PATH_MAX ≤ String.length path)%nat) as [Hlong|Hshort];
    [by rewrite Hpath in Hstat|].
  destruct (scanned_fold (λ name d, if hidden name then Some d else scan o readdir min_mtime fuel (child path name) d)
    (λ name f, hidden name = false ∧ visible (child path name) f) names d) as (d' & Heq & Hd').
  { intros name d1 _. destruct (hidden name).
    - exists d1. split; [done|]. apply scanned_refl. by intros f [? _].
    - pose proof (length_child path name). destruct (IH (child path name) d1) as (d2 & Heq & Hd2); [lia..|].
      exists d2. split; [done|]. eapply scanned_iff; [|exact Hd2]. naive_solver. }
  exists d'. split; [exact Heq|]. eapply scanned_iff; [|exact Hd']. intros f. split.
  - intros (name & Hin & Hh & Hv). by eapply visible_dir.
  - inversion 1; simplify_eq; [congruence|]. eauto.
Qed.

(** A file below a watched directory of a data disk. *)
Definition backlog (f : string) : Prop :=
  ∃ dir, dir ∈ watch_roots o ∧ readable dir = true ∧ visible dir f.

Lemma ScanBacklog_scanned d :
  ∃ d', ScanBacklog o readdir readable min_mtime d = Some d' ∧ scanned backlog d d'.
Proof.
  destruct (scanned_fold (ScanDirectory o readdir readable min_mtime)
    (λ dir f, readable dir = true ∧ visible dir f) (watch_roots o) d) as (d' & Heq & Hd').
  { intros dir d1 _. unfold ScanDirectory. destruct (readable dir).
    - destruct (scan_spec (S PATH_MAX) dir d1) as (d2 & Heq & Hd2);
        [apply Nat.lt_0_succ|apply Nat.lt_lt_add_r, Nat.lt_succ_diag_r|]. exists d2. split; [exact Heq|].
      eapply scanned_iff; [|exact Hd2]. intros f.
      split; [intros Hv; split; [reflexivity|exact Hv]|intros [_ Hv]; exact Hv].
    - exists d1. split; [done|]. apply scanned_refl. by intros f [? _]. }
  exists d'. split; [exact Heq|]. eapply scanned_iff; [|exact Hd']. intros f. unfold backlog. naive_solver.
Qed.
End scanned.

(** ** What inotify hands over *)
Section watched.
Context (w : watch_world) (min_mtime : Z) (o : os).
Hypothesis Hpath : ∀ t p, (PATH_MAX ≤ String.length p)%nat → ww_add w t p = None.
(** A watch descriptor names one directory. *)
Hypothesis Hwd : ∀ t t' d d' wd, ww_add w t d = Some wd → ww_add w t' d' = Some wd → d = d'.
Implicit Types s : watcher.

(** The directories of the list, and those below them on a way of visible names. *)
Inductive watchable : string → Prop :=
  | watchable_root dir : dir ∈ (watched_dirs o).*1 → watchable dir
  | watchable_child dir name : watchable dir → hidden name = false → watchable (child dir name).
Definition watched_file (path : string) : Prop :=
  ∃ dir name, path = child dir name ∧ watchable dir ∧ name ≠ "" ∧ hidden name = false.

Record watch_ok s : Prop := WatchOk {
  wo_dirs wd dir : watch_dirs s !! wd = Some dir → watchable dir ∧ ∃ t, ww_add w t dir = Some wd;
  wo_handed path : path ∈ handed s → watched_file path
}.
(** Watches are only added, and paths only handed over. *)
Definition grows s s' : Prop :=
  watch_ok s → watch_ok s' ∧
    (∀ wd dir, watch_dirs s !! wd = Some dir → watch_dirs s' !! wd = Some dir) ∧
    (∀ path, path ∈ handed s → path ∈ handed s').

Lemma grows_refl s s' : watch_dirs s' = watch_dirs s → handed s' = handed s → grows s s'.
Proof. intros Hd Hh [H1 H2]. split; [split|split]; rewrite ?Hd, ?Hh; done. Qed.
Lemma grows_trans s1 s2 s3 : grows s1 s2 → grows s2 s3 → grows s1 s3.
Proof. intros H12 H23 H1. destruct (H12 H1) as (H2 & ? & ?), (H23 H2) as (? & ? & ?). naive_solver. Qed.

Lemma grows_fold {A} (F : A → watcher → option watcher) (xs : list A) s :
  (∀ x s, x ∈ xs → watch_ok s → ∃ s', F x s = Some s' ∧ grows s s') → watch_ok s →
  ∃ s', foldl (λ r x, s ← r; F x s) (Some s) xs = Some s' ∧ grows s s'.
Proof.
  revert s. induction xs as [|x xs IH]; intros s HF Hs; cbn; [exists s; split; [done|by apply grows_refl]|].
  destruct (HF x s) as (s1 & -> & Hg); [by left|done|].
  destruct (IH s1) as (s2 & -> & Hg2); [intros y s' Hy; apply HF; by right|by apply Hg|].
  exists s2. split; [done|]. by eapply grows_trans.
Qed.

Lemma grows_insert t s wd dir :
  watchable dir → ww_add w t dir = Some wd → grows s (s <| watch_dirs ::= <[wd := dir]> |>).
Proof.
  intros Hdir Hadd [Hd Hh]. split; [split; cbn|split; cbn]; [| done| |done].
  - intros wd' dir'. destruct (decide (wd' = wd)) as [->|Hne].
    + rewrite lookup_insert_eq. intros [= <-]. eauto.
    + rewrite lookup_insert_ne by done. apply Hd.
  - intros wd' dir' Hl. destruct (decide (wd' = wd)) as [->|Hne]; [|by rewrite lookup_insert_ne].
    rewrite lookup_insert_eq. destruct (Hd _ _ Hl) as [_ [t' Ht']]. f_equal. by eapply Hwd.
Qed.

Lemma add_watch_ok fuel dir recurse s :
  (0 < fuel)%nat → (PATH_MAX < fuel + String.length dir)%nat → watchable dir → watch_ok s →
  ∃ s', add_watch w fuel dir recurse s = Some s' ∧ grows s s' ∧
    ∀ wd, (∀ t, ww_add w t dir = Some wd) → watch_dirs s' !! wd = Some dir.
Proof.
  revert dir recurse s. induction fuel as [|fuel IH]; intros dir recurse s Hpos Hfuel Hdir Hs; [lia|].
  cbn [add_watch now]. destruct (ww_add w (ww_tick s) dir) as [wd|] eqn:Hadd.
  2: { eexists. split; [done|]. split; [by apply grows_refl|]. intros wd Hall. congruence. }
  set (s1 := _ <| watch_dirs ::= _ |>).
  assert (grows s s1) as Hg1.
  { eapply grows_trans; [apply (grows_refl _ (s <| ww_tick ::= S |>)); done|]. by eapply grows_insert. }
  assert (∀ wd', (∀ t, ww_add w t dir = Some wd') → watch_dirs s1 !! wd' = Some dir) as Hroot.
  { intros wd' Hall. rewrite Hall in Hadd. simplify_eq. cbn. by rewrite lookup_insert_eq. }
  destruct recurse; cbn [negb]; [|by eexists]. destruct (ww_readdir w (ww_tick s1) dir) as [names|].
  2: { eexists. split; [done|]. split; [|done]. eapply grows_trans; [exact Hg1|by apply grows_refl]. }
  set (s2 := s1 <| ww_tick ::= S |>).
  assert (watch_ok s2) as Hs2 by (destruct (Hg1 Hs) as [[] _]; by split).
  destruct (decide (PATH_MAX ≤ String.length dir)%nat) as [Hlong|Hshort]; [by rewrite Hpath in Hadd|].
  destruct (grows_fold (λ name s, if hidden name then Some s
    else let '(info, s) := now w (λ w t, os_stat (ww_os w t) (child dir name)) s in
         if match info with Some i => st_isdir i | None => false end
         then add_watch w fuel (child dir name) true s else Some s) names s2) as (s3 & Heq & Hg3); [|done|].
  - intros name s' _ Hs'. destruct (hidden name) eqn:Hh.
    { exists s'. split; [done|by apply grows_refl]. }
    cbn [now]. set (s'' := s' <| ww_tick ::= S |>). destruct (match _ with Some i => st_isdir i | None => false end).
    2: { eexists. split; [done|by apply grows_refl]. }
    pose proof (length_child dir name).
    destruct (IH (child dir name) true s'') as (s4 & Heq & Hg & _); [lia|lia|by apply watchable_child| |].
    { destruct Hs'. by split. }
    exists s4. split; [exact Heq|]. eapply grows_trans; [by apply (grows_refl s' s'')|exact Hg].
  - exists s3. split; [exact Heq|]. split.
    + eapply grows_trans; [exact Hg1|]. eapply grows_trans; [by apply (grows_refl s1 s2)|exact Hg3].
    + intros wd' Hall. apply Hg3; [done|]. by apply Hroot.
Qed.
Lemma add_watches_ok dirs s :
  Forall (λ d, watchable d.1) dirs → watch_ok s →
  ∃ s', add_watches w dirs s = Some s' ∧ grows s s' ∧
    ∀ dir wd, dir ∈ dirs.*1 → (∀ t, ww_add w t dir = Some wd) → watch_dirs s' !! wd = Some dir.
Proof.
  unfold add_watches. revert s. induction dirs as [|[dir b] dirs IH]; intros s Hall Hs; cbn [foldl].
  { exists s. split; [done|]. split; [by apply grows_refl|]. intros dir wd Hin. by apply not_elem_of_nil in Hin. }
  apply Forall_cons in Hall as [Hdir Hall].
  destruct (add_watch_ok (S PATH_MAX) dir b s) as (s1 & Heq & Hg & Hroot);
    [apply Nat.lt_0_succ|apply Nat.lt_lt_add_r, Nat.lt_succ_diag_r|done|done|].
  cbn [mbind option_bind fst snd]. rewrite Heq.
  destruct (Hg Hs) as (Hs1 & _). destruct (IH s1 Hall Hs1) as (s2 & Heq2 & Hg2 & Hroots).
  exists s2. split; [exact Heq2|]. split; [by eapply grows_trans|].
  intros dir' wd Hin Hadd. apply elem_of_cons in Hin as [->|Hin]; [|by apply Hroots].
  apply Hg2; [done|]. by apply Hroot.
Qed.

Lemma watched_dirs_watchable : Forall (λ d, watchable d.1) (watched_dirs o).
Proof.
  apply Forall_forall. intros d Hd. apply watchable_root. apply list_elem_of_fmap. by exists d.
Qed.
Lemma recursive_roots_watchable : Forall (λ d, watchable d.1) (recursive_roots o).
Proof.
  apply Forall_forall. intros d [_ Hd]%list_elem_of_filter.
  apply (proj1 (Forall_forall _ _) watched_dirs_watchable _ Hd).
Qed.

Lemma grows_hand_over dir name s :
  watchable dir → name ≠ "" → hidden name = false →
  grows s (hand_over w min_mtime (child dir name) s) ∧
  child dir name ∈ handed (hand_over w min_mtime (child dir name) s).
Proof.
  intros Hdir Hne Hh. unfold hand_over. cbn [now]. split; [|cbn; apply elem_of_app; right; by apply list_elem_of_singleton].
  intros [Hd Hp]. split; [split; cbn; [done|]|split; cbn; [done|]].
  - intros path [Hin|Hin%list_elem_of_singleton]%elem_of_app; [by apply Hp|]. exists dir, name. by split_and!.
  - intros path Hin. apply elem_of_app. by left.
Qed.

(** A file was closed or moved into place. *)
Definition file_event (ev : inotify_event) : Prop :=
  ev_name ev ≠ "" ∧ hidden (ev_name ev) = false ∧
  has_bits (ev_mask ev) IN_ISDIR = false ∧ has_bits (ev_mask ev) (Z.lor IN_CLOSE_WRITE IN_MOVED_TO) = true.
Definition never_dir (path : string) : Prop :=
  ∀ t info, os_stat (ww_os w t) path = Some info → st_isdir info = false.

Lemma handle_event_ok ev s :
  watch_ok s → ∃ s', handle_event w min_mtime ev s = Some s' ∧ grows s s' ∧
    ∀ dir, watch_dirs s !! ev_wd ev = Some dir → file_event ev → never_dir (child dir (ev_name ev)) →
      child dir (ev_name ev) ∈ handed s'.
Proof.
  intros Hs. unfold handle_event.
  destruct (string_empty (ev_name ev)) eqn:Hne; cbn [orb].
  { apply string_empty_true in Hne. exists s. split; [done|]. split; [by apply grows_refl|]. by intros dir _ [? _]. }
  apply string_empty_false in Hne. destruct (hidden (ev_name ev)) eqn:Hh.
  { exists s. split; [done|]. split; [by apply grows_refl|]. intros dir _ (_ & ? & _). congruence. }
  destruct (watch_dirs s !! ev_wd ev) as [dir|] eqn:Hdir.
  2: { exists s. split; [done|]. split; [by apply grows_refl|]. done. }
  cbn [now]. set (s1 := s <| ww_tick ::= S |>).
  assert (watch_ok s1) as Hs1 by (destruct Hs; by split).
  assert (grows s s1) as Hg by (by apply grows_refl).
  destruct (wo_dirs _ Hs _ _ Hdir) as [Hdw _].
  destruct (has_bits (ev_mask ev) IN_ISDIR || _) eqn:Hisdir.
  - assert (∀ dir', Some dir = Some dir' → file_event ev → never_dir (child dir' (ev_name ev)) → False) as Hno.
    { intros dir' [= <-] (_ & _ & Hd & _) Hnever. rewrite Hd in Hisdir. cbn in Hisdir.
      destruct (os_stat _ _) as [i|] eqn:E; [|done]. apply Hnever in E. congruence. }
    destruct (has_bits (ev_mask ev) (Z.lor IN_CREATE IN_MOVED_TO) && _).
    + destruct (add_watch_ok (S PATH_MAX) (child dir (ev_name ev)) true s1) as (s2 & Heq & Hg2 & _);
        [apply Nat.lt_0_succ|apply Nat.lt_lt_add_r, Nat.lt_succ_diag_r|by apply watchable_child|done|].
      exists s2. split; [exact Heq|]. split; [by eapply grows_trans|].
      intros dir' E Hf Hn. exfalso. by eapply Hno.
    + exists s1. split; [done|]. split; [done|]. intros dir' E Hf Hn. exfalso. by eapply Hno.
  - destruct (has_bits (ev_mask ev) (Z.lor IN_CLOSE_WRITE IN_MOVED_TO)) eqn:Hclosed.
    + destruct (grows_hand_over dir (ev_name ev) s1 Hdw Hne Hh) as [Hg2 Hin].
      eexists. split; [done|]. split; [by eapply grows_trans|]. by intros dir' [= <-] _ _.
    + exists s1. split; [done|]. split; [done|]. intros dir' _ (_ & _ & _ & ?). congruence.
Qed.

Lemma handle_events_ok evs s :
  watch_ok s → ∃ s', foldl (λ r ev, s ← r; handle_event w min_mtime ev s) (Some s) evs = Some s' ∧ grows s s' ∧
    ∀ ev dir, ev ∈ evs → watch_dirs s !! ev_wd ev = Some dir → file_event ev →
      never_dir (child dir (ev_name ev)) → child dir (ev_name ev) ∈ handed s'.
Proof.
  revert s. induction evs as [|ev evs IH]; intros s Hs; cbn [foldl].
  { exists s. split; [done|]. split; [by apply grows_refl|]. intros ev dir Hin. by apply not_elem_of_nil in Hin. }
  cbn [mbind option_bind]. destruct (handle_event_ok ev s Hs) as (s1 & -> & Hg & Hev).
  destruct (Hg Hs) as (Hs1 & Hdirs & _). destruct (IH s1 Hs1) as (s2 & Heq & Hg2 & Hevs).
  exists s2. split; [exact Heq|]. split; [by eapply grows_trans|].
  intros ev' dir [->|Hin]%elem_of_cons Hdir Hf Hn.
  - apply Hg2; [done|]. by apply Hev.
  - apply Hevs; auto.
Qed.

(** The events of a whole run. *)
Lemma handle_reads_ok reads s :
  watch_ok s →
  ∃ s', foldl (λ r read, s ← r; handle_read w min_mtime o read s) (Some s) reads = Some s' ∧ grows s s' ∧
    ∀ evs ev dir, ReadEvents evs ∈ reads → ev ∈ evs → watch_dirs s !! ev_wd ev = Some dir → file_event ev →
      never_dir (child dir (ev_name ev)) → child dir (ev_name ev) ∈ handed s'.
Proof.
  revert s. induction reads as [|read reads IH]; intros s Hs; cbn [foldl].
  { exists s. split; [done|]. split; [by apply grows_refl|]. intros evs ev dir Hin. by apply not_elem_of_nil in Hin. }
  cbn [mbind option_bind].
  assert (∃ s1, handle_read w min_mtime o read s = Some s1 ∧ grows s s1 ∧
    ∀ evs ev dir, read = ReadEvents evs → ev ∈ evs → watch_dirs s !! ev_wd ev = Some dir → file_event ev →
      never_dir (child dir (ev_name ev)) → child dir (ev_name ev) ∈ handed s1) as (s1 & -> & Hg & Hev).
  { destruct read as [| |evs]; cbn [handle_read].
    - exists s. split; [done|]. split; [by apply grows_refl|]. done.
    - destruct (add_watches_ok (recursive_roots o) s recursive_roots_watchable Hs) as (s1 & Heq & Hg & _).
      exists s1. by split_and!.
    - destruct (handle_events_ok evs s Hs) as (s1 & Heq & Hg & Hevs). exists s1. split; [done|]. split; [done|].
      intros evs' ev dir [= <-]. apply Hevs. }
  destruct (Hg Hs) as (Hs1 & Hdirs & _). destruct (IH s1 Hs1) as (s2 & Heq & Hg2 & Hevs).
  exists s2. split; [exact Heq|]. split; [by eapply grows_trans|].
  intros evs ev dir [<-|Hin]%elem_of_cons Hin' Hdir Hf Hn.
  - apply Hg2; [done|]. by eapply Hev.
  - eapply Hevs; eauto.
Qed.
End watched.

Definition new_watcher (d : mirror) : watcher := Watcher 0 ∅ d [].

(** C17. After a restart the mirror takes up exactly the work that is left: it
    waits for the visible regular files below the watched directories of the data
    disks that the previous process had not recorded as they are now, when there
    is a disk with room and a copy is needed, each once and in the queue of its
    run. The scan returns however deep the directories are. *)
Theorem restart_resumes o readdir readable min_mtime content saves :
  (∀ p, (PATH_MAX ≤ String.length p)%nat → os_stat o p = None) →
  terminated (default "" content) → Forall recordable saves →
  let '(previous, content') := record_all saves (LoadState content new_mirror, content) in
  ∃ d, Run_start o readdir readable min_mtime content' = Some d ∧ queue_inv d None ∧
    ∀ f, f ∈ pending d ↔ backlog o readdir readable f ∧ IsSynced o f previous = false
                         ∧ is_Some (make_pending o min_mtime f).
Proof.
  intros Hpath Ht Hall. pose proof (reload_state content saves Ht Hall) as Hstate.
  destruct (record_all saves _) as [previous content'].
  destruct (ScanBacklog_scanned o readdir readable min_mtime Hpath (LoadState content' new_mirror))
    as (d & Heq & [Hp _ Hinv _]).
  exists d. split; [exact Heq|]. split.
  - apply Hinv. pose proof queue_inv_new as [H1 H2 H3]. destruct content'; by split.
  - intros f. rewrite Hp. unfold wanted, IsSynced. rewrite Hstate.
    assert (pending (LoadState content' new_mirror) = ∅) as -> by (by destruct content').
    split; [intros [Hf|H]; [by apply not_elem_of_empty in Hf|exact H]|intros H; right; exact H].
Qed.

(** C19. The inotify thread returns, and every path it hands to [Enqueue] is a
    visible name in a watched directory or in one reached from it by visible
    names; no close or move event of a file in a watched directory is dropped,
    whatever else the events do. *)
Theorem RunInotify_hands_over w min_mtime o reads d :
  (∀ t p, (PATH_MAX ≤ String.length p)%nat → ww_add w t p = None) →
  (∀ t t' d d' wd, ww_add w t d = Some wd → ww_add w t' d' = Some wd → d = d') →
  ∃ s, RunInotify w min_mtime o true reads (new_watcher d) = Some s ∧
    (∀ path, path ∈ handed s → watched_file o path) ∧
    ∀ evs ev dir, ReadEvents evs ∈ reads → ev ∈ evs → file_event ev →
      dir ∈ (watched_dirs o).*1 → (∀ t, ww_add w t dir = Some (ev_wd ev)) →
      never_dir w (child dir (ev_name ev)) → child dir (ev_name ev) ∈ handed s.
Proof.
  intros Hpath Hwd. unfold RunInotify. cbn [negb].
  assert (watch_ok w o (new_watcher d)) as H0.
  { split; cbn; [|intros path Hin; by apply not_elem_of_nil in Hin]. intros wd dir. by rewrite lookup_empty. }
  destruct (add_watches_ok w o Hpath Hwd (watched_dirs o) (new_watcher d) (watched_dirs_watchable o) H0)
    as (s1 & -> & Hg & Hroots).
  destruct (Hg H0) as (Hs1 & _). cbn [mbind option_bind].
  destruct (handle_reads_ok w min_mtime o Hpath Hwd reads s1 Hs1) as (s2 & Heq & Hg2 & Hevs).
  exists s2. split; [exact Heq|]. split; [intros path; by apply Hg2|].
  intros evs ev dir Hin Hin' Hf Hdir Hadd Hn. eapply Hevs; eauto.
Qed.

(** ** A restart and some events, evaluated *)
Definition demo_dir : string := "/mnt/ssd1/readout_data".
Definition demo_old : string := child demo_dir "pGRAMS_bin_7_0.dat".
Definition demo_new : string := child demo_dir "pGRAMS_bin_7_1.dat".
Definition watch_os : os := Os (os_getenv demo_os) (os_statvfs demo_os) (os_access_rwx demo_os) (os_access_exists demo_os)
  (λ p, if String.eqb p demo_dir then Some (StatInfo 0 0 false true)
        else if String.eqb p demo_old then Some (StatInfo 100 7 true false)
        else if String.eqb p demo_new then Some (StatInfo 200 9 true false) else None).
Definition watch_ls (p : string) : option (list string) :=
  if String.eqb p demo_dir then Some ["."; ".."; "pGRAMS_bin_7_0.dat"; "pGRAMS_bin_7_1.dat"] else None.

Lemma short_path s : (String.length s <=? 100)%nat = true → (PATH_MAX ≤ String.length s)%nat → False.
Proof. intros Hs%Nat.leb_le Hp. unfold PATH_MAX in Hp. lia. Qed.
Lemma watch_os_path p : (PATH_MAX ≤ String.length p)%nat → os_stat watch_os p = None.
Proof.
  intros Hp. unfold watch_os. cbn [os_stat].
  destruct (String.eqb_spec p demo_dir) as [->|_]; [by destruct (short_path demo_dir eq_refl Hp)|].
  destruct (String.eqb_spec p demo_old) as [->|_]; [by destruct (short_path demo_old eq_refl Hp)|].
  destruct (String.eqb_spec p demo_new) as [->|_]; [by destruct (short_path demo_new eq_refl Hp)|done].
Qed.

Lemma demo_recordable : Forall recordable [(watch_os, demo_old)].
Proof.
  apply Forall_cons_2; [|apply Forall_nil_2]. split; [split_and!; vm_compute; congruence|].
  intros stat Hs. vm_compute in Hs. injection Hs as <-. split; [vm_compute; reflexivity|cbn; lia].
Qed.

Lemma restart_resumes_witness :
  let '(previous, content) := record_all [(watch_os, demo_old)] (new_mirror, None) in
  ∃ d, Run_start watch_os watch_ls (λ _, true) 0 content = Some d ∧ queue_inv d None ∧
    demo_new ∈ pending d ∧ demo_old ∉ pending d.
Proof.
  pose proof (restart_resumes watch_os watch_ls (λ _, true) 0 None [(watch_os, demo_old)] watch_os_path
    (or_introl eq_refl) demo_recordable) as H.
  cbn [LoadState] in H. destruct (record_all _ _) as [previous content] eqn:E.
  destruct H as (d & Hd & Hinv & Hp). exists d. split; [exact Hd|]. split; [exact Hinv|].
  rewrite !Hp. vm_compute in E. injection E as <- _. split.
  - split; [|by vm_compute; eauto]. exists demo_dir. split; [by apply (bool_decide_unpack _)|].
    split; [done|]. eapply (visible_dir _ _ _ _ _ "pGRAMS_bin_7_1.dat"); try reflexivity.
    + by apply (bool_decide_unpack _).
    + by eapply visible_file.
  - intros (_ & Hs & _). by vm_compute in Hs.
Defined.

Definition demo_watch : watch_world := WatchWorld (λ _, watch_os) (λ _, watch_ls)
  (λ _ p, if String.eqb p demo_dir then Some 1%Z else None).
Definition demo_reads : list read_result :=
  [ReadFailed; ReadEvents [InotifyEvent 1 IN_CREATE "pGRAMS_bin_7_1.dat"; InotifyEvent 2 IN_CLOSE_WRITE "other.dat"];
   ReadEvents [InotifyEvent 1 IN_CLOSE_WRITE "pGRAMS_bin_7_1.dat"]].

Lemma RunInotify_hands_over_witness :
  ∃ s, RunInotify demo_watch 0 demo_os true demo_reads (new_watcher new_mirror) = Some s ∧ demo_new ∈ handed s.
Proof.
  destruct (RunInotify_hands_over demo_watch 0 demo_os demo_reads new_mirror) as (s & Hs & _ & Hall).
  - intros t p Hp. unfold demo_watch. cbn [ww_add].
    destruct (String.eqb_spec p demo_dir) as [->|_]; [by destruct (short_path demo_dir eq_refl Hp)|done].
  - intros t t' d d' wd. unfold demo_watch. cbn [ww_add].
    destruct (String.eqb_spec d demo_dir), (String.eqb_spec d' demo_dir); congruence.
  - exists s. split; [exact Hs|].
    apply (Hall [InotifyEvent 1 IN_CLOSE_WRITE "pGRAMS_bin_7_1.dat"] (InotifyEvent 1 IN_CLOSE_WRITE "pGRAMS_bin_7_1.dat") demo_dir).
    + right; right; left.
    + left.
    + by vm_compute.
    + by apply (bool_decide_unpack _).
    + done.
    + intros t info Hi. vm_compute in Hi. by injection Hi as <-.
Defined.

(** A file that is already in a new directory when its watch is added gets no event
    and is not handed over: it waits for the next restart. *)
Definition tof_root : string := "/mnt/ssd1/tof_data".
Definition tof_watch : watch_world := WatchWorld
  (λ _, Os (os_getenv demo_os) (os_statvfs demo_os) (os_access_rwx demo_os) (os_access_exists demo_os)
     (λ p, if String.eqb p (child tof_root "stg0") then Some (StatInfo 0 0 false true)
           else if String.eqb p (child (child tof_root "stg0") "a.bin") then Some (StatInfo 5 5 true false) else None))
  (λ _ p, if String.eqb p (child tof_root "stg0") then Some ["a.bin"] else None)
  (λ _ p, if String.eqb p tof_root then Some 1%Z else if String.eqb p (child tof_root "stg0") then Some 2%Z else None).
Example new_directory_missed :
  match RunInotify tof_watch 0 demo_os true [ReadEvents [InotifyEvent 1 (Z.lor IN_CREATE IN_ISDIR) "stg0"]]
    (new_watcher new_mirror) with
  | Some s => watch_dirs s !! 2%Z = Some (child tof_root "stg0") ∧ handed s = []
  | None => False
  end.
Proof. vm_compute. auto. Qed.
