(* ===== verification/MirrorCopy.v ===== *)
(** * The mirror's copy: [CopyFile], [EnsureParentDirs], [RunWorker]
    (src/daemon/mirror_engine.cpp)

    A file is copied to [<dst>.mirror_partial], which then replaces the destination.
    A [kernel] gives what the system calls answer; the file system of the
    destination keeps every state it went through. Sleeping to hold the rate
    ([ApplyRateLimit]), [fsync], [posix_fadvise] and [close] change no state here. *)
From Stdlib Require Import Ascii String Strings.Byte Lia ZArith NArith.
From stdpp Require Import base tactics list numbers option strings gmap sets.
From S2P Require Import Prelude CppString StorageUtils Threads Config DataHandler MirrorMeta MirrorQueue.

(** What [read] and [write] return: an error, [EINTR] or a count. *)
Inductive result := Failed | Interrupted | Count (n : nat).
Record file := File { contents : list byte; mtime : Z }.

(** The answers to the n-th call. The source may still be written while it is read. *)
Record kernel := Kernel {
  k_running : nat → bool;                 (** g_running *)
  k_os : nat → os;                        (** what stat sees besides the copies *)
  k_now : nat → Z;                        (** the time stamp of a write *)
  k_source : string → nat → list byte;    (** the bytes of a file being mirrored *)
  k_open_source : nat → bool;
  k_mkdir : nat → string → bool;          (** created, or there already *)
  k_create : nat → string → bool;
  k_copy_range : nat → nat;               (** 0: an error, or nothing copied *)
  k_read : nat → result;
  k_write : nat → result;
  k_rename : nat → bool;
  k_unlink : nat → bool;
  k_utimens : nat → bool
}.

Record copier := Copier {
  tick : nat;
  files : gmap string file;
  made_dirs : list string;
  offset : nat;                           (** of in_fd *)
  past : list (gmap string file)          (** the states of the file system so far *)
}.
#[export] Instance copier_eta : RecordEta copier := λ s,
  Copier (tick s) (files s) (made_dirs s) (offset s) (past s).

Section copy.
Context (k : kernel).
Notation io := (st_err copier).

Definition look {A} (f : kernel → nat → A) : io A := λ s, (s <| tick ::= S |>, Some (f k (tick s))).
Definition change (f : gmap string file → gmap string file) : io () := λ s,
  (s <| files ::= f |> <| past ::= λ l, l ++ [f (files s)] |>, Some ()).

(** What stat answers: the copies, then the rest of the file system. *)
Definition overlay (fs : gmap string file) (o : os) : os :=
  Os (os_getenv o) (os_statvfs o) (os_access_rwx o) (os_access_exists o)
     (λ path, match fs !! path with
              | Some f => Some (StatInfo (N.of_nat (length (contents f))) (mtime f) true false)
              | None => os_stat o path
              end).
Definition look_os : io os := λ s, (s <| tick ::= S |>, Some (overlay (files s) (k_os k (tick s)))).

(** ** [EnsureParentDirs] *)
Fixpoint dirs_loop (built dir : string) : list string :=
  match dir with
  | EmptyString => if string_empty built then [] else [built]
  | String c dir =>
      (if Ascii.eqb c slash && negb (string_empty built) then [built] else [])
      ++ dirs_loop (built +:+ String c EmptyString) dir
  end.
(** The directories made, in order. *)
Definition parent_dirs (file_path : string) : list string :=
  match find_last_of slash file_path with
  | None => []
  | Some pos => dirs_loop "" (take_string pos file_path)
  end.
Fixpoint make_dirs (dirs : list string) : io bool :=
  match dirs with
  | [] => st_ret true
  | dir :: dirs =>
      ok <~ look (λ k t, k_mkdir k t dir) ;;
      if negb ok then st_ret false
      else st_modify (λ s, s <| made_dirs ::= λ l, l ++ [dir] |>) ;;~ make_dirs dirs
  end.
Definition EnsureParentDirs (file_path : string) : io bool := make_dirs (parent_dirs file_path).

(** ** [CopyFile] *)
Definition block : nat := N.to_nat (1024 * 1024).
Definition partial_of (dst_path : string) : string := dst_path +:+ ".mirror_partial".

Definition append (path : string) (bs : list byte) : io () := λ s,
  change (alter (λ f, File (contents f ++ bs) (k_now k (tick s))) path) s.
Definition unlink (path : string) : io () :=
  ok <~ look k_unlink ;; if ok : bool then change (delete path) else st_ret ().
(** At most [n] bytes of the source from the offset on, which moves past them. *)
Definition take_source (src_path : string) (n : nat) : io (list byte) := λ s,
  let bs := take (n `min` block) (drop (offset s) (k_source k src_path (tick s))) in
  (s <| offset ::= λ o, o + length bs |>, Some bs).

Fixpoint write_all (out : string) (buffer : list byte) (fuel : nat) : io bool :=
  match buffer with
  | [] => st_ret true
  | _ =>
      match fuel with
      | O => st_get None
      | S fuel =>
          written <~ look k_write ;;
          match written with
          | Failed => st_ret false
          | Interrupted => write_all out buffer fuel
          | Count n => append out (take n buffer) ;;~ write_all out (drop n buffer) fuel
          end
      end
  end.

(** A pass of the copying loop: go on, or leave it with [copy_ok]. *)
Definition copy_pass (src_path out : string) (fuel : nat) : io (option bool) :=
  n <~ look k_copy_range ;;
  copied <~ take_source src_path n ;;
  match copied with
  | _ :: _ => append out copied ;;~ st_ret None
  | [] =>
      read_bytes <~ look k_read ;;
      match read_bytes with
      | Failed => st_ret (Some false)
      | Interrupted => st_ret None
      | Count n =>
          buffer <~ take_source src_path (1 `max` n) ;;
          match buffer with
          | [] => st_ret (Some true)
          | _ => ok <~ write_all out buffer fuel ;; st_ret (if ok : bool then None else Some false)
          end
      end
  end.
Fixpoint copy_loop (src_path out : string) (write_fuel fuel : nat) : io bool :=
  match fuel with
  | O => st_get None
  | S fuel =>
      running <~ look k_running ;;
      if negb running then st_ret true
      else
        r <~ copy_pass src_path out write_fuel ;;
        match r with
        | None => copy_loop src_path out write_fuel fuel
        | Some copy_ok => st_ret copy_ok
        end
  end.

(** The copy is complete: it takes the place of the destination, with the time
    stamp the source had at the start. *)
Definition publish (src_stat : file_stat) (dst_path : string) : io bool :=
  renamed <~ look k_rename ;;
  if negb renamed then unlink (partial_of dst_path) ;;~ st_ret false
  else
    change (λ fs, match fs !! partial_of dst_path with
                  | Some f => <[dst_path := f]> (delete (partial_of dst_path) fs)
                  | None => fs
                  end) ;;~
    ok <~ look k_utimens ;;
    (if ok : bool then change (alter (λ f, File (contents f) (fs_mtime src_stat)) dst_path) else st_ret ()) ;;~
    st_ret true.

Definition CopyFile (src_path dst_path : string) (fuel : nat) : io bool :=
  o <~ look_os ;;
  match StatFile o src_path with
  | None => st_ret false
  | Some src_stat =>
      opened <~ look k_open_source ;;
      if negb opened then st_ret false
      else
        st_modify (λ s, s <| offset := 0 |>) ;;~
        ready <~ EnsureParentDirs dst_path ;;
        if negb ready then st_ret false
        else
          let tmp_path := partial_of dst_path in
          created <~ look (λ k t, k_create k t tmp_path) ;;
          if negb created then st_ret false
          else
            now <~ look k_now ;;
            change <[tmp_path := File [] now]> ;;~
            copy_ok <~ copy_loop src_path tmp_path fuel fuel ;;
            running <~ look k_running ;;
            if negb copy_ok || negb running then unlink tmp_path ;;~ st_ret false
            else publish src_stat dst_path
  end.
End copy.

(** ** The directories above a file *)
Lemma dirs_loop_spec (built dir a rest : string) :
  a ≠ ""%string → (String.length built ≤ String.length a)%nat → built +:+ dir = a +:+ rest →
  (rest = ""%string ∨ ∃ rest', rest = String slash rest') → a ∈ dirs_loop built dir.
Proof.
  revert built. induction dir as [|c dir IH]; intros built Ha Hlen Heq Hrest; cbn.
  - rewrite append_nil_r in Heq. subst built. destruct rest as [|c rest].
    + rewrite append_nil_r in *. destruct a; [done|]. by left.
    + rewrite length_append in Hlen. cbn in Hlen. lia.
  - apply elem_of_app. destruct (decide (String.length built = String.length a)) as [E|E].
    + destruct (append_inj _ _ _ _ E Heq) as [-> <-]. left.
      destruct Hrest as [[=]|[rest' [= -> ->]]]. destruct a; [done|]. by left.
    + right. apply IH; [done| |by rewrite append_assoc|done].
      rewrite length_append. cbn. lia.
Qed.
(** Every directory on the way to a file is made. *)
Lemma parent_dirs_spec (file_path a name : string) :
  a ≠ ""%string → file_path = (a +:+ String slash name) → a ∈ parent_dirs file_path.
Proof.
  intros Ha ->. unfold parent_dirs. destruct (find_last_of slash _) as [pos|] eqn:E.
  - apply find_last_of_split in E as (t & u & Et & <- & Hu). rewrite Et, take_string_append.
    destruct (append_before_last _ _ _ _ _ Hu (eq_sym Et)) as (rest & -> & Hrest).
    apply dirs_loop_spec with rest; [done|cbn; lia|done..].
  - by apply find_last_of_some in E.
Qed.

(** ** A copy in progress *)
Section copy_proofs.
Context (k : kernel) (src_path dst_path : string) (s0 : copier) (quiet limit : nat).
(** A source is only appended to, up to [limit] bytes; from [quiet] on no call
    is interrupted and a write writes something; the daemon is not restarted. *)
Record well_behaved : Prop := {
  source_grows : ∀ path t t', t ≤ t' → k_source k path t `prefix_of` k_source k path t';
  source_bounded : ∀ path t, length (k_source k path t) ≤ limit;
  calls_quiet : ∀ t, quiet ≤ t → k_read k t ≠ Interrupted ∧ k_write k t ≠ Interrupted ∧ k_write k t ≠ Count 0;
  running_stops : ∀ t t', t ≤ t' → k_running k t' = true → k_running k t = true
}.
Hypothesis Hk : well_behaved.
(** No call of the copy fails, and its source stays a regular file. *)
Record faultless : Prop := {
  fine_source : ∀ t, is_Some (StatFile (k_os k t) src_path);
  fine_open : ∀ t, k_open_source k t = true;
  fine_mkdir : ∀ t dir, k_mkdir k t dir = true;
  fine_create : ∀ t path, k_create k t path = true;
  fine_read : ∀ t, k_read k t ≠ Failed;
  fine_write : ∀ t, k_write k t ≠ Failed;
  fine_rename : ∀ t, k_rename k t = true
}.
Notation tmp := (partial_of dst_path).
Notation ends := (Threads.ends tick).

(** Only the partial file differs from the file system at the start. *)
Definition only_partial (fs : gmap string file) : Prop := ∀ path, path ≠ tmp → fs !! path = files s0 !! path.
Record unpublished (s : copier) : Prop := {
  unpub_tick : tick s0 ≤ tick s;
  unpub_now : only_partial (files s);
  unpub_past : ∃ states, past s = past s0 ++ states ∧ Forall only_partial states ∧ files s ∈ files s0 :: states
}.
(** The partial file and then [buffer] are the first [n] bytes of the source. *)
Record copying (n : nat) (buffer : list byte) (s : copier) : Prop := {
  copy_offset : offset s = n;
  copy_unpub : unpublished s;
  copy_dirs : ∀ dir, dir ∈ parent_dirs dst_path → dir ∈ made_dirs s;
  copy_data : ∃ bs m, files s !! tmp = Some (File bs m) ∧ length (bs ++ buffer) = n
                      ∧ bs ++ buffer `prefix_of` k_source k src_path (tick s)
}.
(** The partial file is the source as it was at some time of the copy. *)
Definition complete (s : copier) : Prop :=
  ∃ t m, tick s0 ≤ t ≤ tick s ∧ files s !! tmp = Some (File (k_source k src_path t) m).

Lemma unpublished_tick s : unpublished s → unpublished (s <| tick ::= S |>).
Proof. intros [? ? ?]. split; cbn; [lia|done..]. Qed.
Lemma unpublished_change f s :
  unpublished s → (only_partial (files s) → only_partial (f (files s))) →
  unpublished (s <| files ::= f |> <| past ::= λ l, l ++ [f (files s)] |>).
Proof.
  intros [? Hnow (states & Hpast & Hall & _)] Hf. split; cbn; [done|by apply Hf|].
  exists (states ++ [f (files s)]). rewrite Hpast, app_assoc. split; [done|]. split; [|set_solver].
  apply Forall_app. repeat constructor; [done|by apply Hf].
Qed.
Lemma copying_tick n buffer s : copying n buffer s → copying n buffer (s <| tick ::= S |>).
Proof.
  intros [? ? ? (bs & m & ? & ? & ?)]. split; cbn; [done|by apply unpublished_tick|done|].
  exists bs, m. split_and!; [done..|]. etrans; [done|]. apply (source_grows Hk). lia.
Qed.
Lemma copying_limit n buffer s : copying n buffer s → n ≤ limit.
Proof.
  intros [_ _ _ (bs & m & _ & <- & Hpre)]. apply prefix_length in Hpre.
  pose proof (source_bounded Hk src_path (tick s)). lia.
Qed.

Lemma copying_append n cs buffer s :
  copying n (cs ++ buffer) s →
  ∃ s', append k tmp cs s = (s', Some ()) ∧ tick s' = tick s ∧ copying n buffer s'.
Proof.
  intros [? ? ? (bs & m & Hf & Hlen & Hpre)]. eexists. split; [reflexivity|]. split; [done|].
  split; cbn; [done| |done|].
  - refine (unpublished_change (alter (λ f, File (contents f ++ cs) (k_now k (tick s))) tmp) s _ _); [done|].
    intros H path Hpath. rewrite lookup_alter_ne by done. by apply H.
  - exists (bs ++ cs), (k_now k (tick s)). rewrite lookup_alter_eq, Hf, <- app_assoc. done.
Qed.

(** What a step that may give up leaves; it gives up on a failed call only. *)
Definition kept (ok : bool) (P : copier → Prop) (s : copier) : Prop :=
  if ok then P s else unpublished s ∧ ¬ faultless.

Lemma write_all_ends buffer fuel n :
  ends (write_all k tmp buffer fuel)
       (λ s, copying n buffer s ∧ (quiet - tick s) + length buffer ≤ fuel)
       (λ ok, kept ok (copying n [])).
Proof.
  revert buffer. induction fuel as [|fuel IH]; intros buffer s [Hs Hfuel];
    (destruct buffer as [|b buffer]; [by exists s, true|]); cbn [write_all]; [cbn in Hfuel; lia|].
  unfold st_bind at 1, look.
  set (s1 := s <| tick ::= S |>). assert (copying n (b :: buffer) s1) as Hs1 by by apply copying_tick.
  assert (tick s1 = S (tick s)) as Ht1 by done. assert (tick s < quiet → quiet - tick s1 < quiet - tick s) by lia.
  pose proof (calls_quiet Hk (tick s)) as Hq.
  destruct (k_write k (tick s)) as [| |w] eqn:Hw0.
  - exists s1, false. split; [done|]. split; [lia|]. split; [apply Hs1|]. intros Hfine. by apply (fine_write Hfine (tick s)).
  - destruct (IH (b :: buffer) s1) as (s2 & ok & E & Ht & H2).
    { split; [done|]. destruct (decide (tick s < quiet)); [lia|]. by destruct Hq as (_ & Hw & _); [lia|]. }
    exists s2, ok. split; [done|]. split; [lia|done].
  - rewrite <- (take_drop w (b :: buffer)) in Hs1.
    destruct (copying_append _ _ _ _ Hs1) as (s2 & E2 & Ht2 & Hs2). unfold st_bind. rewrite E2.
    destruct (IH (drop w (b :: buffer)) s2) as (s3 & ok & E & Ht & H3).
    { split; [done|]. rewrite length_drop. destruct (decide (tick s < quiet)); [lia|].
      destruct Hq as (_ & _ & Hw); [lia|]. destruct w; [done|]. cbn in Hfuel |- *. lia. }
    exists s3, ok. split; [done|]. split; [lia|done].
Qed.

(** A read moves past the bytes it returns; it returns none at the end only. *)
Lemma take_source_ok n cap s :
  copying n [] s →
  ∃ s' cs, take_source k src_path cap s = (s', Some cs) ∧ tick s' = tick s ∧ files s' = files s
           ∧ copying (n + length cs) cs s' ∧ (cs = [] → 0 < cap → complete s').
Proof.
  intros [Hoff [? ? ?] ? (bs & m & Hf & Hlen & Hpre)]. eexists _, _. split; [reflexivity|].
  rewrite app_nil_r in *. destruct Hpre as [rest Hsrc].
  assert (drop (offset s) (k_source k src_path (tick s)) = rest) as -> by (by rewrite Hsrc, Hoff, <- Hlen, drop_app_length).
  split_and!; [done|done| |].
  - split; cbn; [by rewrite Hoff|by split|done|]. exists bs, m. rewrite Hf, length_app, Hlen. split_and!; [done..|].
    rewrite Hsrc. apply prefix_app. apply prefix_take.
  - intros Hnil Hcap. exists (tick s), m. split; [cbn; lia|]. cbn. rewrite Hf, Hsrc.
    destruct rest; [by rewrite app_nil_r|]. destruct cap; [lia|].
    assert (0 < block) as Hblock by (unfold block; lia). destruct block; [lia|]. done.
Qed.

(** What is left to do, in calls that may be interrupted and in bytes. *)
Definition work (n : nat) (s : copier) : nat := (quiet - tick s) + (limit - n).
Lemma copy_pass_ok wf n s :
  copying n [] s → quiet + limit ≤ wf →
  ∃ s' r, copy_pass k src_path tmp wf s = (s', Some r) ∧ tick s ≤ tick s' ∧
          match r with
          | None => ∃ n', copying n' [] s' ∧ work n' s' < work n s
          | Some ok => kept ok (λ s, copying n [] s ∧ complete s) s'
          end.
Proof.
  intros Hs Hwf. unfold copy_pass. unfold st_bind at 1, look at 1. set (s1 := s <| tick ::= S |>).
  assert (copying n [] s1) as Hs1 by by apply copying_tick.
  destruct (take_source_ok n (k_copy_range k (tick s)) s1 Hs1) as (s2 & cs & E2 & Ht2 & Hf2 & Hs2 & _).
  unfold st_bind at 1. rewrite E2. pose proof (copying_limit _ _ _ Hs2). unfold work.
  destruct cs as [|c cs].
  - cbn in Hs2. rewrite Nat.add_0_r in Hs2. unfold st_bind at 1, look.
    set (s3 := s2 <| tick ::= S |>). assert (copying n [] s3) as Hs3 by by apply copying_tick.
    assert (tick s3 = S (S (tick s))) as Ht3 by (cbn; by rewrite Ht2).
    destruct (k_read k (tick s2)) as [| |r] eqn:Hr.
    + exists s3, (Some false). split; [done|]. split; [lia|]. split; [apply Hs3|]. intros Hfine. by apply (fine_read Hfine (tick s2)).
    + exists s3, None. split; [done|]. split; [lia|]. exists n. split; [done|].
      destruct (decide (tick s2 < quiet)); [cbn in Ht2; lia|].
      by destruct (calls_quiet Hk (tick s2)) as (? & _); [lia|].
    + destruct (take_source_ok n (1 `max` r) s3 Hs3) as (s4 & buffer & E4 & Ht4 & Hf4 & Hs4 & Hend).
      unfold st_bind at 1. rewrite E4. destruct buffer as [|b buffer].
      * exists s4, (Some true). split; [done|]. split; [lia|]. cbn in Hs4. rewrite Nat.add_0_r in Hs4.
        split; [done|]. apply Hend; [done|lia].
      * pose proof (copying_limit _ _ _ Hs4). destruct (write_all_ends (b :: buffer) wf (n + length (b :: buffer)) s4) as (s5 & ok & E5 & Ht5 & H5).
        { split; [exact Hs4|]. cbn in *. lia. }
        unfold st_bind. rewrite E5. destruct ok; (eexists s5, _; split; [done|]; split; [lia|]); [|done].
        exists (n + length (b :: buffer)). split; [done|]. cbn in *. lia.
  - destruct (copying_append (n + length (c :: cs)) (c :: cs) [] s2) as (s3 & E3 & Ht3 & Hs3); [by rewrite app_nil_r|].
    unfold st_bind. rewrite E3. exists s3, None. split; [done|]. cbn in Ht2. split; [lia|].
    exists (n + length (c :: cs)). split; [done|]. cbn in *. lia.
Qed.
Lemma copy_loop_ok wf fuel n s :
  copying n [] s → quiet + limit ≤ wf → work n s < fuel →
  ∃ s' ok, copy_loop k src_path tmp wf fuel s = (s', Some ok) ∧ tick s ≤ tick s' ∧
           kept ok (λ s, (∃ n, copying n [] s) ∧ (complete s ∨ k_running k (tick s) = false)) s'.
Proof.
  revert n s. induction fuel as [|fuel IH]; intros n s Hs Hwf Hfuel; [lia|]. cbn [copy_loop].
  unfold st_bind at 1, look. set (s1 := s <| tick ::= S |>).
  assert (copying n [] s1) as Hs1 by by apply copying_tick.
  destruct (k_running k (tick s)) eqn:Hrun; cbn [negb].
  - destruct (copy_pass_ok wf n s1 Hs1 Hwf) as (s2 & r & E2 & Ht2 & H2). unfold st_bind. rewrite E2.
    cbn in Ht2. destruct r as [ok|].
    + exists s2, ok. split; [done|]. split; [lia|]. destruct ok; [|done]. split; [|by left; apply H2]. exists n. apply H2.
    + destruct H2 as (n' & Hs2 & Hwork). destruct (IH n' s2 Hs2 Hwf) as (s3 & ok & E3 & Ht3 & H3).
      { unfold work in *. cbn in *. lia. }
      exists s3, ok. split; [done|]. split; [lia|done].
  - exists s1, true. split; [done|]. split; [cbn; lia|]. split; [by exists n|]. right.
    destruct (k_running k (tick s1)) eqn:E; [|done].
    rewrite (running_stops Hk (tick s) (tick s1)) in Hrun; [done|cbn; lia|done].
Qed.

Lemma make_dirs_ok dirs s :
  unpublished s →
  ∃ s' ok, make_dirs k dirs s = (s', Some ok) ∧ tick s ≤ tick s' ∧ files s' = files s ∧ (ok = false → ¬ faultless)
           ∧ offset s' = offset s ∧ unpublished s'
           ∧ (∀ dir, dir ∈ made_dirs s ∨ ok = true ∧ dir ∈ dirs → dir ∈ made_dirs s').
Proof.
  revert s. induction dirs as [|dir dirs IH]; intros s Hs; cbn [make_dirs].
  - exists s, true. split_and!; [done..|]. set_solver.
  - unfold st_bind at 1, look. destruct (k_mkdir k (tick s) dir) eqn:Hmk; cbn [negb].
    + destruct (IH (s <| tick ::= S |> <| made_dirs ::= λ l, l ++ [dir] |>))
        as (s' & ok & E & Ht & Hf & Hp & Ho & Hs' & Hdirs).
      { apply unpublished_tick in Hs. by destruct Hs; split. }
      exists s', ok. cbn in Ht. split_and!; [done|lia|done..|].
      intros d Hd. apply Hdirs. cbn. set_solver.
    + eexists _, false. split_and!; [done|cbn; lia|done| |done|by apply unpublished_tick|cbn; set_solver].
      intros _ Hfine. by rewrite (fine_mkdir Hfine) in Hmk.
Qed.
Lemma unlink_ok s :
  unpublished s →
  ∃ s', unlink k tmp s = (s', Some ()) ∧ tick s ≤ tick s' ∧ unpublished s'
        ∧ (k_unlink k (tick s) = true → files s' !! tmp = None).
Proof.
  intros Hs. unfold unlink, st_bind, look. destruct (k_unlink k (tick s)).
  - eexists. split; [reflexivity|]. split; [cbn; lia|]. split; [|intros _; apply lookup_delete_eq].
    refine (unpublished_change (delete tmp) (s <| tick ::= S |>) _ _); [by apply unpublished_tick|].
    intros H path Hpath. rewrite lookup_delete_ne by done. by apply H.
  - eexists. split; [reflexivity|]. split; [cbn; lia|]. split; [by apply unpublished_tick|done].
Qed.

(** The destination is as it was at the start, or a whole copy; the other files
    but the partial one are as they were. *)
Definition old_or_copy (last : nat) (fs : gmap string file) : Prop :=
  (∀ path, path ≠ dst_path → path ≠ tmp → fs !! path = files s0 !! path) ∧
  (fs !! dst_path = files s0 !! dst_path ∨
   ∃ t f, tick s0 ≤ t ≤ last ∧ fs !! dst_path = Some f ∧ contents f = k_source k src_path t).
Definition start_stat : option file_stat :=
  StatFile (overlay (files s0) (k_os k (tick s0))) src_path.
(** What a copy leaves: nothing else changes, and no reader of the destination
    ever sees a part of the source. *)
Record copy_outcome (ok : bool) (s : copier) : Prop := {
  out_others : ∀ path, path ≠ dst_path → path ≠ tmp → files s !! path = files s0 !! path;
  out_atomic : ∃ states, past s = past s0 ++ states ∧ Forall (old_or_copy (tick s)) states ∧ files s ∈ files s0 :: states;
  out_copied : ok = true →
    files s !! tmp = None ∧ files s ∈ drop (length (past s0)) (past s) ∧
    (∀ dir name, dir ≠ ""%string → dst_path = (dir +:+ String slash name) → dir ∈ made_dirs s) ∧
    ∃ t f stat, tick s0 ≤ t ≤ tick s ∧ files s !! dst_path = Some f ∧ contents f = k_source k src_path t ∧
                start_stat = Some stat ∧ ((∀ t, k_utimens k t = true) → mtime f = fs_mtime stat);
  out_failed : ok = false →
    files s !! dst_path = files s0 !! dst_path ∧
    ((∀ t, k_unlink k t = true) → files s !! tmp = None ∨ files s !! tmp = files s0 !! tmp) ∧
    (faultless → k_running k (tick s) = false)
}.

Lemma partial_of_ne : dst_path ≠ tmp.
Proof.
  intros E. apply (f_equal String.length) in E. unfold partial_of in E. rewrite length_append in E. cbn in E. lia.
Qed.
Lemma unpublished_failed s :
  unpublished s →
  ((∀ t, k_unlink k t = true) → files s !! tmp = None ∨ files s !! tmp = files s0 !! tmp) →
  (faultless → k_running k (tick s) = false) → copy_outcome false s.
Proof.
  intros [Ht Hnow (states & Hpast & Hall & Hin)] Htmp. split; [..|done|].
  - intros path _. apply Hnow.
  - exists states. split; [done|]. split; [|done]. eapply Forall_impl; [exact Hall|]. intros fs Hfs.
    split; [intros path _; apply Hfs|left; apply Hfs, partial_of_ne].
  - intros _. split; [apply Hnow, partial_of_ne|done].
Qed.
Lemma stays_stopped t t' : t ≤ t' → k_running k t = false → k_running k t' = false.
Proof. intros Ht H. destruct (k_running k t') eqn:E; [|done]. by rewrite (running_stops Hk t t') in H. Qed.
Lemma abandon_ok s :
  unpublished s → (faultless → k_running k (tick s) = false) →
  ∃ s', (unlink k tmp ;;~ st_ret false) s = (s', Some false) ∧ tick s ≤ tick s' ∧ copy_outcome false s'.
Proof.
  intros Hs Hwhy. destruct (unlink_ok s Hs) as (s' & E & Ht & Hs' & Hgone). unfold st_bind. rewrite E.
  exists s'. split; [done|]. split; [done|]. apply unpublished_failed; [done| |].
  - intros H. left. by apply Hgone.
  - intros Hfine. apply (stays_stopped (tick s)); [done|by apply Hwhy].
Qed.

Lemma publish_ok n stat s :
  copying n [] s → complete s → start_stat = Some stat →
  ∃ s' ok, publish k stat dst_path s = (s', Some ok) ∧ tick s ≤ tick s' ∧ copy_outcome ok s'.
Proof.
  intros [_ Hs Hdirs _] (t & m & Ht & Hf) Hstat. unfold publish. unfold st_bind at 1, look at 1.
  destruct (k_rename k (tick s)) eqn:Hren; cbn [negb].
  2: { destruct (abandon_ok (s <| tick ::= S |>)) as (s' & E & Ht' & H');
         [by apply unpublished_tick|intros Hfine; by rewrite (fine_rename Hfine) in Hren|].
       exists s', false. split; [done|]. cbn in Ht'. split; [lia|done]. }
  unfold st_bind, change, look, st_ret. cbn. rewrite Hf. set (f := File _ _).
  assert (dst_path ≠ tmp) as Hne by apply partial_of_ne.
  destruct Hs as [Ht0 Hnow (states & Hpast & Hall & _)].
  assert (Forall (old_or_copy (S (S (tick s)))) states) as Hall'.
  { eapply Forall_impl; [exact Hall|]. intros fs Hfs. split; [intros path _; apply Hfs|left; by apply Hfs]. }
  assert (∀ path, path ≠ dst_path → path ≠ tmp → delete tmp (files s) !! path = files s0 !! path) as Hothers.
  { intros path Hd Hp. rewrite lookup_delete_ne by done. by apply Hnow. }
  assert (∀ fs (f' : file), contents f' = contents f → fs !! dst_path = Some f' →
    (∀ path, path ≠ dst_path → fs !! path = delete tmp (files s) !! path) → old_or_copy (S (S (tick s))) fs) as Hcopy.
  { intros fs f' Hc Hfs Hsame. split; [intros path Hd Hp; rewrite Hsame by done; by apply Hothers|].
    right. exists t, f'. rewrite Hc. split_and!; [lia|lia|done|done]. }
  destruct (k_utimens k (S (tick s))) eqn:Hu; (eexists _, true; split; [reflexivity|]; split; [cbn; lia|]; split; cbn; [..|done]).
  - intros path Hd Hp. rewrite lookup_alter_ne, lookup_insert_ne by done. by apply Hothers.
  - eexists. rewrite Hpast, <- !app_assoc. split; [reflexivity|]. split; [|set_solver]. apply Forall_app. split; [done|].
    apply Forall_cons_2; [|apply Forall_cons_2, Forall_nil_2];
      [apply (Hcopy _ f)|apply (Hcopy _ (File (contents f) (fs_mtime stat)))]; try done.
    + apply lookup_insert_eq.
    + intros path Hd. by apply lookup_insert_ne.
    + by rewrite lookup_alter_eq, lookup_insert_eq.
    + intros path Hd. by rewrite lookup_alter_ne, lookup_insert_ne.
  - intros _. rewrite lookup_alter_ne, lookup_insert_ne, lookup_delete_eq by done. split; [done|].
    split; [rewrite Hpast, <- !app_assoc, drop_app_length; set_solver|]. split.
    + intros dir name Hdir Hdst. by eapply Hdirs, parent_dirs_spec.
    + exists t, (File (contents f) (fs_mtime stat)), stat.
      rewrite lookup_alter_eq, lookup_insert_eq. split_and!; [lia|lia|done..].
  - intros path Hd Hp. rewrite lookup_insert_ne by done. by apply Hothers.
  - eexists. rewrite Hpast, <- !app_assoc. split; [reflexivity|]. split; [|set_solver]. apply Forall_app. split; [done|].
    apply Forall_cons_2, Forall_nil_2. apply (Hcopy _ f); [done|apply lookup_insert_eq|].
    intros path Hd. by apply lookup_insert_ne.
  - intros _. rewrite lookup_insert_ne, lookup_delete_eq by done. split; [done|].
    split; [rewrite Hpast, <- !app_assoc, drop_app_length; set_solver|]. split.
    + intros dir name Hdir Hdst. by eapply Hdirs, parent_dirs_spec.
    + exists t, f, stat. rewrite lookup_insert_eq. split_and!; [lia|lia|done..|]. intros H. by rewrite H in Hu.
Qed.

(** Giving up before the partial file is opened. *)
Lemma early_failed s : unpublished s → files s = files s0 → ¬ faultless → copy_outcome false s.
Proof. intros Hs Hf Hwhy. apply unpublished_failed; [done| |by intros ?]. intros _. right. by rewrite Hf. Qed.
(** What stat sees of a copy is a regular file. *)
Lemma overlay_regular fs o path : is_Some (StatFile o path) → is_Some (StatFile (overlay fs o) path).
Proof. unfold StatFile. cbn. by destruct (fs !! path). Qed.

Lemma copying_start s now :
  unpublished s → offset s = 0 → (∀ dir, dir ∈ parent_dirs dst_path → dir ∈ made_dirs s) →
  ∃ s', change <[tmp := File [] now]> s = (s', Some ()) ∧ tick s' = tick s ∧ copying 0 [] s'.
Proof.
  intros Hs Hoff Hdirs. eexists. split; [reflexivity|]. split; [done|]. split; cbn; [done| |done|].
  - refine (unpublished_change <[tmp := File [] now]> s _ _); [done|].
    intros H path Hpath. rewrite lookup_insert_ne by done. by apply H.
  - exists [], now. rewrite lookup_insert_eq. split_and!; [done|done|apply prefix_nil].
Qed.

Lemma CopyFile_outcome fuel :
  quiet + limit < fuel →
  ∃ s ok, CopyFile k src_path dst_path fuel s0 = (s, Some ok) ∧ tick s0 ≤ tick s ∧ copy_outcome ok s.
Proof.
  intros Hfuel. assert (unpublished s0) as H0.
  { split; [done|done|]. exists []. rewrite app_nil_r. split_and!; [done..|by left]. }
  unfold CopyFile. unfold st_bind at 1, look_os. set (s1 := s0 <| tick ::= S |>).
  assert (unpublished s1) as H1 by by apply unpublished_tick.
  fold start_stat. destruct start_stat as [stat|] eqn:Hstat.
  2: { exists s1, false. split; [done|]. split; [cbn; lia|]. apply early_failed; [done..|]. intros Hfine.
       destruct (overlay_regular (files s0) _ _ (fine_source Hfine (tick s0))) as [stat Hs]. unfold start_stat in Hstat. congruence. }
  unfold st_bind at 1, look at 1. set (s2 := s1 <| tick ::= S |>).
  assert (unpublished s2) as H2 by by apply unpublished_tick.
  destruct (k_open_source k (tick s1)) eqn:Hop; cbn [negb].
  2: { exists s2, false. split; [done|]. split; [cbn; lia|]. apply early_failed; [done..|].
       intros Hfine. by rewrite (fine_open Hfine) in Hop. }
  unfold st_bind at 1, st_modify at 1. set (s3 := s2 <| offset := 0 |>).
  assert (unpublished s3) as H3 by (by destruct H2; split).
  destruct (make_dirs_ok (parent_dirs dst_path) s3 H3) as (s4 & ready & E4 & Ht4 & Hf4 & Hwhy4 & Ho4 & H4 & Hdirs).
  unfold st_bind at 1, EnsureParentDirs. rewrite E4. cbn in Ht4, Hf4, Ho4. destruct ready; cbn [negb].
  2: { exists s4, false. split; [done|]. split; [lia|]. apply early_failed; [done..|by apply Hwhy4]. }
  unfold st_bind at 1, look at 1. set (s5 := s4 <| tick ::= S |>).
  assert (unpublished s5) as H5 by by apply unpublished_tick.
  destruct (k_create k (tick s4) tmp) eqn:Hcr; cbn [negb].
  2: { exists s5, false. split; [done|]. split; [cbn; lia|]. apply early_failed; [done..|].
       intros Hfine. by rewrite (fine_create Hfine) in Hcr. }
  unfold st_bind at 1, look at 1. set (s6 := s5 <| tick ::= S |>).
  assert (unpublished s6) as H6 by by apply unpublished_tick.
  destruct (copying_start s6 (k_now k (tick s5))) as (s7 & E7 & Ht7 & H7); [done|done|by intros; apply Hdirs; right|].
  unfold st_bind at 1. rewrite E7.
  destruct (copy_loop_ok fuel fuel 0 s7 H7) as (s8 & copy_ok & E8 & Ht8 & H8); [lia|unfold work; lia|].
  unfold st_bind at 1. rewrite E8. unfold st_bind at 1, look at 1. set (s9 := s8 <| tick ::= S |>).
  cbn in Ht7. destruct copy_ok; cbn [negb orb].
  2: { destruct H8 as [H8 Hwhy]. destruct (abandon_ok s9) as (s' & E & Ht & H'); [by apply unpublished_tick|by intros ?|].
       exists s', false. split; [done|]. cbn in Ht. split; [lia|done]. }
  destruct H8 as [[n H8] Hend]. destruct (k_running k (tick s8)) eqn:Hrun; cbn [negb].
  2: { destruct (abandon_ok s9) as (s' & E & Ht & H');
         [by apply unpublished_tick, H8|intros _; apply (stays_stopped (tick s8)); [cbn; lia|done]|].
       exists s', false. split; [done|]. cbn in Ht. split; [lia|done]. }
  destruct Hend as [(t & m & Ht & Hf)|[=]].
  destruct (publish_ok n stat s9) as (s' & ok & E & Ht' & H'); [by apply copying_tick| |done|].
  { exists t, m. split; [cbn; lia|done]. }
  exists s', ok. split; [done|]. cbn in Ht'. split; [lia|done].
Qed.
End copy_proofs.

(** C7. A copy is atomic. The condition is on the world: a source is only appended to, and
    bounded, while it is copied, and from some time on no call is interrupted, no write writes
    nothing and the daemon, once stopped, stays stopped; which calls fail, fall short or are
    interrupted before is open. Then the copy ends, and at every moment the destination is the
    file it was before or the whole source as it was at some time of the copy, and no file but
    the partial one is touched. When it returns true the destination is that copy, its
    directories were made and the partial file is gone; it has the source's time stamp if
    setting it did not fail, which the code does not look at ([unstamped_copy]). When it returns
    false the destination is as it was, and it does so only on a failed call, a source gone
    or a daemon that stops. *)
Theorem CopyFile_atomic (k : kernel) (src_path dst_path : string) (quiet limit fuel : nat) (s : copier) :
  well_behaved k quiet limit → quiet + limit < fuel →
  ∃ s' ok, CopyFile k src_path dst_path fuel s = (s', Some ok) ∧ copy_outcome k src_path dst_path s ok s'.
Proof.
  intros Hk Hfuel. destruct (CopyFile_outcome k src_path dst_path s quiet limit Hk fuel Hfuel) as (s' & ok & ? & _ & ?).
  by exists s', ok.
Qed.

(** ** A copy that is interrupted *)
Local Open Scope string_scope.
(** The first call copies two bytes, the next ones are interrupted, then a read
    gives the rest, which is written byte by byte. *)
Definition demo_source : string → nat → list byte := λ _ _, [x01; x02; x03; x04].
Definition demo_copy_kernel : kernel := {|
  k_running _ := true; k_os _ := demo_stat_os; k_now t := Z.of_nat t; k_source := demo_source;
  k_open_source _ := true; k_mkdir _ _ := true; k_create _ _ := true;
  k_copy_range t := if (t <? 12)%nat then 2 else 0;
  k_read t := if (t <? 20)%nat then Interrupted else Count 7;
  k_write t := if (t <? 24)%nat then Interrupted else Count 1;
  k_rename _ := true; k_unlink _ := true; k_utimens _ := true
|}.
Definition demo_copier : copier := Copier 0 ∅ [] 0 [].
Definition demo_dst : string := "/backup/nvme/readout_data/a".
Lemma demo_well_behaved : well_behaved demo_copy_kernel 24 4.
Proof.
  split; cbn -[Nat.ltb]; [done|intros; lia| |done].
  intros t Ht. rewrite (proj2 (Nat.ltb_ge t 20)), (proj2 (Nat.ltb_ge t 24)) by lia. done.
Qed.
Example demo_copy :
  let '(s, ok) := CopyFile demo_copy_kernel demo_src demo_dst 29 demo_copier in
  ok = Some true ∧ files s !! demo_dst = Some (File (demo_source "" 0) 7) ∧
  made_dirs s = ["/backup"; "/backup/nvme"; "/backup/nvme/readout_data"].
Proof. vm_compute. auto. Qed.
(** The time stamp cannot be set: the copy is said to be made, with the time of its last write. *)
Definition unstamped_kernel : kernel := {|
  k_running _ := true; k_os _ := demo_stat_os; k_now t := (50 + Z.of_nat t)%Z; k_source := demo_source;
  k_open_source _ := true; k_mkdir _ _ := true; k_create _ _ := true; k_copy_range t := if (t <? 12)%nat then 4 else 0;
  k_read _ := Count 7; k_write _ := Count 7; k_rename _ := true; k_unlink _ := true; k_utimens _ := false
|}.
Example unstamped_copy :
  let '(s, ok) := CopyFile unstamped_kernel demo_src demo_dst 29 demo_copier in
  ok = Some true ∧
  match files s !! demo_dst with
  | Some f => contents f = demo_source "" 0 ∧ (mtime f =? 7)%Z = false
  | None => False
  end.
Proof. vm_compute. by split_and!. Qed.
Local Close Scope string_scope.

Lemma CopyFile_atomic_witness :
  well_behaved demo_copy_kernel 24 4 ∧
  ∃ s' ok, CopyFile demo_copy_kernel demo_src demo_dst 29 demo_copier = (s', Some ok) ∧
           copy_outcome demo_copy_kernel demo_src demo_dst demo_copier ok s'.
Proof.
  split; [apply demo_well_behaved|].
  apply (CopyFile_atomic demo_copy_kernel demo_src demo_dst 24 4 29 demo_copier demo_well_behaved). lia.
Defined.
