(* ===== verification/MirrorWorker.v ===== *)
(** * The mirror's worker: [MirrorDaemon::RunWorker] (src/daemon/mirror_engine.cpp)

    The worker takes the next file, copies it when it still needs to and records
    it; with nothing to copy it waits until a file arrives or the daemon stops.
    The inotify thread puts files on the queue between its steps. *)
From Stdlib Require Import Ascii String Lia ZArith NArith.
From stdpp Require Import base tactics list numbers option strings gmap sets.
From S2P Require Import Prelude StorageUtils Threads Config DataHandler MirrorMeta MirrorQueue MirrorState MirrorWatch MirrorCopy.

Record daemon := Daemon { queues : mirror; io : copier }.
#[export] Instance daemon_eta : RecordEta daemon := λ d, Daemon (queues d) (io d).

(** What the other threads do at a moment of the worker's clock. *)
Record others := Others {
  o_arrivals : nat → list string;         (** files given to [Enqueue], if the worker lets others run then *)
  o_running : nat → bool                  (** running_, under the lock *)
}.

Section worker.
Context (k : kernel) (oth : others) (min_mtime : Z) (copy_fuel : nat).
Notation act := (st_err daemon).

Definition on_io {A} (c : st_err copier A) : act A := λ d,
  let '(s, a) := c (io d) in (d <| io := s |>, a).
Definition on_queues {A} (f : mirror → mirror * A) : act A := λ d,
  let '(m, a) := f (queues d) in (d <| queues := m |>, Some a).

(** The files the inotify thread puts on the queue meanwhile. *)
Definition arrive : act () := λ d,
  let s := io d in
  let o := overlay (files s) (k_os k (tick s)) in
  (d <| queues ::= λ m, foldl (λ m path, Enqueue o min_mtime path m) m (o_arrivals oth (tick s)) |>
     <| io ::= λ s, s <| tick ::= S |> |>, Some ()).

Definition copy_job (job : pending_file) : st_err copier bool :=
  if string_empty (p_dst_path job) then st_ret false
  else
    o <~ look_os k ;;
    if NeedsCopy o (p_path job) (p_dst_path job)
    then CopyFile k (p_path job) (p_dst_path job) copy_fuel
    else st_ret false.

(** The wait of [cv_] ends the worker only when the daemon stops and nothing is
    queued; each look at its condition is a pass of the loop. *)
Definition stop_waiting : act bool := λ d,
  (d <| io ::= λ s, s <| tick ::= S |> |>,
   Some (negb (o_running oth (tick (io d))) && negb (HasPending (queues d)))).

Definition do_job (job : pending_file) : act () :=
  copied <~ on_io (copy_job job) ;;
  (if copied : bool then
     o <~ on_io (look_os k) ;; on_queues (λ m, (SaveStateEntry o (p_path job) m, ()))
   else st_ret ()) ;;~
  arrive ;;~
  on_queues (λ m, (finish_job job copied m, ())).

Fixpoint RunWorker (fuel : nat) : act () :=
  match fuel with
  | O => st_get None
  | S fuel =>
      arrive ;;~
      job <~ on_queues PopNext ;;
      match job with
      | Some job => do_job job ;;~ RunWorker fuel
      | None =>
          arrive ;;~
          stop <~ stop_waiting ;;
          if stop then st_ret () else RunWorker fuel
      end
  end.

(** ** The worker ends *)
Context (quiet limit stop : nat).
Hypothesis Hk : well_behaved k quiet limit.
Hypothesis Hfuel : quiet + limit < copy_fuel.
Hypothesis Harrivals : ∀ t, stop ≤ t → o_arrivals oth t = [].

(** The files that still arrive after the clock [t]. *)
Definition future (t : nat) : nat := sum_list_with (λ t, length (o_arrivals oth t)) (seq t (stop - t)).
Lemma future_next t : length (o_arrivals oth t) + future (S t) = future t.
Proof.
  unfold future. destruct (decide (t < stop)) as [H|H].
  - replace (stop - t) with (S (stop - S t)) by lia. done.
  - rewrite Harrivals by lia. replace (stop - S t) with 0 by lia. by replace (stop - t) with 0 by lia.
Qed.
Lemma future_later t t' : t ≤ t' → future t' ≤ future t.
Proof. induction 1 as [|t' H IH]; [done|]. pose proof (future_next t'). lia. Qed.

(** The files to pop, now and later; the moments before the stop. *)
Definition load (d : daemon) : nat := length (all_files (queues d)) + future (tick (io d)).
Definition left_over (d : daemon) : nat := load d + (stop - tick (io d)).

Definition steady (job : option pending_file) (d : daemon) : Prop := queue_inv (queues d) job.

Lemma Enqueue_length o path m : length (all_files (Enqueue o min_mtime path m)) ≤ S (length (all_files m)).
Proof.
  destruct (Enqueue_cases o min_mtime path m) as [->|(f & _ & H)]; [lia|]. by rewrite (enqueued_all _ _ _ _ H).
Qed.
Lemma arrive_ok job d :
  steady job d →
  ∃ d', arrive d = (d', Some ()) ∧ steady job d' ∧ tick (io d') = S (tick (io d))
        ∧ load d' ≤ load d.
Proof.
  intros Hd. eexists. split; [reflexivity|]. unfold load. cbn.
  rewrite <- (future_next (tick (io d))). unfold steady in *.
  generalize (overlay (files (io d)) (k_os k (tick (io d)))). intros o.
  enough (∀ ps m, queue_inv m job →
    let m' := foldl (λ m path, Enqueue o min_mtime path m) m ps in
    queue_inv m' job ∧ length (all_files m') ≤ length (all_files m) + length ps) as H.
  { destruct (H (o_arrivals oth (tick (io d))) (queues d) Hd) as [? ?]. split_and!; [done|done|lia]. }
  clear Hd. induction ps as [|p ps IH]; intros m Hm; cbn; [split; [done|lia]|].
  destruct (IH (Enqueue o min_mtime p m)) as [? Hlen]; [by apply queue_inv_enqueue|]. split; [done|].
  pose proof (Enqueue_length o p m). lia.
Qed.
Lemma arrive_stopped d : stop ≤ tick (io d) → arrive d = (d <| io ::= λ s, s <| tick ::= S |> |>, Some ()).
Proof. intros Ht. unfold arrive. by rewrite (Harrivals _ Ht). Qed.

Lemma copy_job_ok job s : ∃ s' ok, copy_job job s = (s', Some ok) ∧ tick s ≤ tick s'.
Proof.
  unfold copy_job. destruct (string_empty _); [by exists s, false|]. unfold st_bind, look_os.
  set (s1 := s <| tick ::= S |>). assert (tick s ≤ tick s1) as Ht1 by (cbn; lia).
  destruct (NeedsCopy _ _ _); [|by exists s1, false].
  destruct (CopyFile_outcome k (p_path job) (p_dst_path job) s1 quiet limit Hk copy_fuel Hfuel)
    as (s2 & ok & E & Ht2 & _). exists s2, ok. split; [done|lia].
Qed.
Lemma do_job_ok job d :
  steady (Some job) d →
  ∃ d', do_job job d = (d', Some ()) ∧ steady None d' ∧ tick (io d) ≤ tick (io d') ∧ load d' ≤ load d.
Proof.
  intros Hd. unfold do_job. destruct (copy_job_ok job (io d)) as (s1 & ok & E1 & Ht1).
  unfold st_bind at 1, on_io at 1. rewrite E1. set (d1 := d <| io := s1 |>).
  assert (∃ d2, (if ok then o <~ on_io (look_os k) ;; on_queues (λ m, (SaveStateEntry o (p_path job) m, ()))
                 else st_ret ()) d1 = (d2, Some ())
                ∧ steady (Some job) d2 ∧ tick (io d1) ≤ tick (io d2)
                ∧ all_files (queues d2) = all_files (queues d1)) as (d2 & E2 & Hd2 & Ht2 & Hf2).
  { destruct ok; [|by exists d1]. eexists. split; [reflexivity|]. cbn. unfold SaveStateEntry.
    destruct (StatFile _ _); (split; [|by split; [lia|]]); [by destruct Hd; split|done]. }
  unfold st_bind at 1. rewrite E2.
  destruct (arrive_ok _ _ Hd2) as (d3 & E3 & Hd3 & Ht3 & Hl3). unfold st_bind. rewrite E3.
  eexists. split; [reflexivity|]. split; [by apply queue_inv_finish|].
  assert (all_files (finish_job job ok (queues d3)) = all_files (queues d3)) as Hfin
    by (unfold all_files; by destruct (finish_job_files job ok (queues d3)) as [-> _]).
  cbn -[finish_job] in *. split; [lia|]. unfold load in *. cbn -[finish_job]. rewrite Hfin.
  pose proof (future_later (tick (io d)) (tick (io d2))). rewrite Hf2 in Hl3. cbn in Hl3. lia.
Qed.

Lemma PopNext_length m :
  match PopNext m with
  | (m', Some _) => length (all_files m) = S (length (all_files m'))
  | (m', None) => all_files m = [] ∧ all_files m' = []
  end.
Proof.
  destruct (PopNext_picks m) as [H _]. set (m0 := if both_pending m then m else _) in H.
  assert (all_files m0 = all_files m) as Hm0 by (subst m0; by destruct (both_pending m)).
  pose proof (PopNext_None m) as Hnone. destruct (PopNext m) as [m' [job|]].
  - destruct H as (run & _ & Hpop). rewrite <- Hm0. by rewrite (popped_all _ _ _ _ Hpop).
  - destruct H as (_ & Hq & _). unfold all_files at 2. rewrite Hq. fold (all_files m0). rewrite Hm0. auto.
Qed.

(** With nothing queued and nothing to arrive the worker only waits. *)
Lemma RunWorker_idle fuel d :
  stop ≤ tick (io d) → all_files (queues d) = [] → all_files (queues (RunWorker fuel d).1) = [].
Proof.
  revert d. induction fuel as [|fuel IH]; intros d Ht Hd; [done|]. cbn [RunWorker].
  unfold st_bind at 1. rewrite arrive_stopped by done. unfold st_bind at 1, on_queues. cbn.
  pose proof (PopNext_length (queues d)) as Hpop. destruct (PopNext (queues d)) as [m2 [job|]]; [by rewrite Hd in Hpop|].
  unfold st_bind at 1. rewrite arrive_stopped by (cbn; lia). unfold st_bind at 1, stop_waiting. cbn.
  destruct (negb _ && negb _); [apply Hpop|]. apply IH; [cbn; lia|apply Hpop].
Qed.
(** Enough passes empty the queues, and end the worker if it is told to stop. *)
Lemma RunWorker_drains fuel d :
  steady None d → left_over d < fuel →
  ∃ d' r, RunWorker fuel d = (d', r) ∧ all_files (queues d') = [] ∧
          ((∀ t, stop ≤ t → o_running oth t = false) → r = Some () ∧ steady None d').
Proof.
  revert d. induction fuel as [|fuel IH]; intros d Hd Hlt; [lia|]. cbn [RunWorker].
  destruct (arrive_ok _ _ Hd) as (d1 & E1 & Hd1 & Ht1 & Hl1). unfold st_bind at 1. rewrite E1.
  unfold st_bind at 1, on_queues. pose proof (PopNext_length (queues d1)) as Hpop.
  pose proof (queue_inv_pop _ Hd1) as Hinv. destruct (PopNext (queues d1)) as [m2 [job|]]; cbn in Hinv.
  - set (d2 := d1 <| queues := m2 |>). destruct (do_job_ok job d2 Hinv) as (d3 & E3 & Hd3 & Ht3 & Hl3).
    unfold st_bind. rewrite E3. apply IH; [done|]. unfold left_over, load in *. cbn in *. lia.
  - destruct Hpop as [_ Hm2]. set (d2 := d1 <| queues := m2 |>).
    destruct (arrive_ok None d2 Hinv) as (d3 & E3 & Hd3 & Ht3 & Hl3). unfold st_bind at 1. rewrite E3.
    unfold st_bind at 1, stop_waiting. set (d4 := d3 <| io ::= _ |>).
    destruct (negb (o_running oth (tick (io d3))) && negb (HasPending (queues d3))) eqn:Hend.
    + exists d4, (Some ()). split; [done|]. apply andb_true_iff in Hend as [_ Hend%negb_true_iff].
      apply HasPending_spec in Hend. done.
    + destruct (decide (tick (io d) < stop)) as [Hbefore|Hafter].
      * apply IH; [done|]. pose proof (future_later (tick (io d3)) (tick (io d4))).
        unfold left_over, load in *. cbn in *. rewrite Hm2 in Hl3. cbn in Hl3. lia.
      * rewrite arrive_stopped in E3 by (cbn; lia). injection E3 as <-.
        assert (all_files (queues (RunWorker fuel d4).1) = []) as Hidle by (apply RunWorker_idle; [cbn; lia|done]).
        destruct (RunWorker fuel d4) as [d' r]. exists d', r. split; [done|]. split; [done|]. intros Hrun. exfalso.
        apply HasPending_spec in Hm2. cbn in Hend. rewrite Hrun, Hm2 in Hend by lia. done.
Qed.
End worker.

(** ** [Run]: the state file and the backlog, then the worker; the paths the inotify
    thread hands over (MirrorWatch) are its arrivals. *)
Definition Run (o : os) (readdir : string → option (list string)) (readable : string → bool) (min_mtime : Z)
    (content : option string) (k : kernel) (oth : others) (copy_fuel fuel : nat) (io : copier) :
    option (daemon * option ()) :=
  d ← Run_start o readdir readable min_mtime content;
  Some (RunWorker k oth min_mtime copy_fuel fuel (Daemon d io)).

(** Told to stop, the daemon returns, whatever the backlog was. *)
Lemma Run_returns o readdir readable min_mtime content k oth copy_fuel quiet limit stop io :
  (∀ p, PATH_MAX ≤ String.length p → os_stat o p = None) →
  well_behaved k quiet limit → quiet + limit < copy_fuel →
  (∀ t, stop ≤ t → o_running oth t = false ∧ o_arrivals oth t = []) →
  ∃ fuel d', Run o readdir readable min_mtime content k oth copy_fuel fuel io = Some (d', Some ()) ∧
    all_files (queues d') = [].
Proof.
  intros Hpath Hk Hcopy Hstop. unfold Run, Run_start.
  destruct (ScanBacklog_scanned o readdir readable min_mtime Hpath (LoadState content new_mirror))
    as (d & -> & [_ _ Hinv _]). cbn [mbind option_bind].
  assert (queue_inv d None) as Hd.
  { apply Hinv. pose proof queue_inv_new as [H1 H2 H3]. destruct content; by split. }
  destruct (RunWorker_drains k oth min_mtime copy_fuel quiet limit stop Hk Hcopy (λ t Ht, proj2 (Hstop t Ht))
    (S (left_over oth stop (Daemon d io))) (Daemon d io) Hd) as (d' & r & E & Hnil & Hr); [lia|].
  destruct Hr as [-> _]; [intros t Ht; by apply Hstop|].
  exists (S (left_over oth stop (Daemon d io))), d'. by rewrite E.
Qed.

(** C22. The worker ends once the daemon is told to stop: after finitely many
    passes, one for each file queued by then and one for each look while it
    waits, every queue is empty and no file is pending. *)
Theorem RunWorker_ends (k : kernel) (oth : others) (min_mtime : Z) (copy_fuel quiet limit stop fuel : nat) (d : daemon) :
  well_behaved k quiet limit → quiet + limit < copy_fuel →
  (∀ t, stop ≤ t → o_running oth t = false ∧ o_arrivals oth t = []) →
  queue_inv (queues d) None → left_over oth stop d < fuel →
  ∃ d', RunWorker k oth min_mtime copy_fuel fuel d = (d', Some ()) ∧
        (∀ run, queue_of (queues d') run = []) ∧ pending (queues d') = ∅.
Proof.
  intros Hk Hcopy Hstop Hd Hfuel.
  destruct (RunWorker_drains k oth min_mtime copy_fuel quiet limit stop Hk Hcopy (λ t Ht, proj2 (Hstop t Ht)) fuel d Hd Hfuel)
    as (d' & r & E & Hnil & Hr).
  destruct Hr as [-> [_ Hp _]]; [intros t Ht; by apply Hstop|]. exists d'. split; [done|]. split; [by apply all_files_nil|]. apply set_eq. intros path.
  rewrite Hp. unfold paths. rewrite Hnil. cbn. set_solver.
Qed.

(** ** The worker copies a file and ends *)
Definition demo_others : others := Others (λ t, if decide (t = 3) then [demo_src] else []) (λ t, bool_decide (t < 5)).
Definition demo_daemon : daemon := Daemon new_mirror demo_copier.
Example demo_worker :
  let '(d, r) := RunWorker demo_copy_kernel demo_others 0 29 9 demo_daemon in
  r = Some () ∧ (contents <$> (map_to_list (files (io d))).*2) = [demo_source demo_src 0] ∧
  state_ (queues d) !! demo_src = Some (FileStat 100 7).
Proof. vm_compute. auto. Qed.

Lemma RunWorker_ends_witness :
  left_over demo_others 5 demo_daemon < 9 ∧
  ∃ d', RunWorker demo_copy_kernel demo_others 0 29 9 demo_daemon = (d', Some ()) ∧
        (∀ run, queue_of (queues d') run = []) ∧ pending (queues d') = ∅.
Proof.
  assert (left_over demo_others 5 demo_daemon < 9) as Hfuel by (vm_compute; lia).
  split; [done|]. apply (RunWorker_ends _ _ _ _ 24 4 5); [apply demo_well_behaved|lia| |apply queue_inv_new|done].
  intros t Ht. unfold demo_others. cbn. rewrite bool_decide_eq_false_2, decide_False by lia. done.
Defined.
