(* ===== verification/MirrorRate.v ===== *)
(** * The mirror's rate limit: [ApplyRateLimit] (src/daemon/mirror_engine.cpp)

    After each chunk of a copy the thread sleeps as long as the bytes of the current
    window should have taken. Time is in nanoseconds, a sleep in milliseconds. *)
From Stdlib Require Import Lia ZArith SpecFloat.
From stdpp Require Import base tactics list numbers.
From S2P Require Import Prelude Doubles.
Local Open Scope Z_scope.

Record window := Window { window_start : Z; window_bytes : Z }.
#[export] Instance window_eta : RecordEta window := λ v, Window (window_start v) (window_bytes v).
(** [duration_cast<milliseconds>] *)
Definition milliseconds (ns : Z) : Z := Z.quot ns 1000000.

(** The window after the call, and the time slept. *)
Definition ApplyRateLimit (bytes_copied max_bytes_per_sec now : Z) (v : window) : window * Z :=
  if max_bytes_per_sec =? 0 then (v, 0)
  else
    let v := v <| window_bytes := u64 (window_bytes v + bytes_copied) |> in
    let elapsed := milliseconds (now - window_start v) in
    if elapsed <=? 0 then (v, 0)
    else
      let expected_ms := fdiv (fmul (double_of (window_bytes v)) (double_of 1000)) (double_of max_bytes_per_sec) in
      let slept :=
        if SFltb (double_of elapsed) expected_ms then trunc (fsub expected_ms (double_of elapsed)) else 0 in
      (if 1000 <=? elapsed then Window now 0 else v, slept).

(** The copies of a file: the bytes of each chunk and how long it took. The time
    when the last one is done, and the window. *)
Fixpoint paced (max_bytes_per_sec : Z) (copies : list (Z * Z)) (now : Z) (v : window) : Z * window :=
  match copies with
  | [] => (now, v)
  | (bytes, took) :: copies =>
      let '(v, slept) := ApplyRateLimit bytes max_bytes_per_sec (now + took) v in
      paced max_bytes_per_sec copies (now + took + slept * 1000000) v
  end.
Definition copied (copies : list (Z * Z)) : Z := foldr Z.add 0 copies.*1.

(** ** What the window holds *)
Lemma ApplyRateLimit_window bytes max now v :
  0 ≤ bytes → 0 ≤ window_bytes v → window_bytes v + bytes < 2 ^ 64 → max ≠ 0 →
  let v' := (ApplyRateLimit bytes max now v).1 in
  v' = Window now 0 ∧ 1000000000 ≤ now - window_start v ∨
  v' = Window (window_start v) (window_bytes v + bytes) ∧ now - window_start v < 1000000000.
Proof.
  intros Hb Hv Hlt Hmax. unfold ApplyRateLimit, milliseconds. destruct (Z.eqb_spec max 0) as [?|_]; [done|].
  assert (u64 (window_bytes v + bytes) = window_bytes v + bytes) as Hu by (unfold u64; rewrite Z.mod_small; lia).
  cbn [window_start window_bytes update_field]. cbn. rewrite Hu. set (t := now - window_start v).
  pose proof (Z.quot_rem' t 1000000) as Hq. pose proof (Z.rem_bound_abs t 1000000 ltac:(lia)) as Hr.
  destruct (Z.leb_spec (t ÷ 1000000) 0) as [H0|H0]; [right; split; [done|lia]|].
  pose proof (Z.rem_nonneg t 1000000 ltac:(lia)) as Hr0.
  destruct (Z.leb_spec 1000 (t ÷ 1000000)) as [H1|H1]; [left|right]; split; try done; lia.
Qed.
(** The window counts the bytes of the last chunks, those since it began. *)
Lemma paced_window max copies now v :
  max ≠ 0 → Forall (λ c, 0 ≤ c.1) copies → 0 ≤ window_bytes v → window_bytes v + copied copies < 2 ^ 64 →
  let v' := (paced max copies now v).2 in
  window_bytes v' = window_bytes v + copied copies ∨
  ∃ before last, copies = before ++ last ∧ before ≠ [] ∧ window_bytes v' = copied last.
Proof.
  intros Hmax Hc. revert now v. induction Hc as [|[bytes took] copies Hb Hc IH]; intros now v Hv Hlt; [left; cbn; lia|].
  cbn in Hb. assert (0 ≤ copied copies) as Hcp.
  { clear -Hc. unfold copied. induction Hc as [|c l Hc' Hl IH]; cbn; lia. }
  change (copied ((bytes, took) :: copies)) with (bytes + copied copies) in *. cbn [paced].
  pose proof (ApplyRateLimit_window bytes max (now + took) v Hb Hv ltac:(lia) Hmax) as Hw. cbv zeta in Hw.
  destruct (ApplyRateLimit bytes max (now + took) v) as [v1 slept]. cbn [fst] in Hw.
  set (now' := now + took + slept * 1000000).
  assert (0 ≤ window_bytes v1 ≤ window_bytes v + bytes) as Hv1 by (destruct Hw as [[-> _]|[-> _]]; cbn; lia).
  destruct (IH now' v1) as [E|(before & last & -> & Hne & E)]; [lia..| |]; rewrite E.
  - destruct Hw as [[-> _]|[-> _]]; cbn; [|left; lia]. right. by exists [(bytes, took)], copies.
  - right. by exists ((bytes, took) :: before), last.
Qed.

(** ** The rate *)
Definition MiB : Z := 1048576.
Definition ms_taken (max : Z) (copies : list (Z * Z)) : Z := milliseconds (paced max copies 0 (Window 0 0)).1.
(** Chunks of 1 MiB that take a millisecond each. *)
Definition fast_copies (n : nat) : list (Z * Z) := replicate n (MiB, 1000000).
(** The sleep that ends a window is counted again as time of the next one: at the
    lowest limit, 1 MiB/s, 60 chunks take two thirds of a minute. *)
Example limit_exceeded : ms_taken MiB (fast_copies 60) = 40020.
Proof. vm_compute. reflexivity. Qed.
(** Without a limit nothing is slept, and chunks of the first millisecond are free. *)
Example not_limited : ms_taken 0 (fast_copies 60) = 60 ∧ ms_taken MiB (replicate 60 (MiB, 1000)) = 0.
Proof. split; vm_compute; reflexivity. Qed.
