(* ===== verification/MirrorRun.v ===== *)
(** * The mirror from its start: [mirror_engine::Run] (src/daemon/mirror_engine.cpp)

    The queue, the copies and the state file put together: what the backup disks
    and the state file hold at every moment of a run, and that the files waiting
    are copied. *)
From Stdlib Require Import Ascii String Lia ZArith NArith.
From stdpp Require Import base tactics list numbers option strings gmap sets.
From S2P Require Import Prelude StorageUtils Threads Config DataHandler MirrorMeta MirrorQueue MirrorState MirrorWatch MirrorCopy MirrorWorker.

Section run.
Context (k : kernel) (oth : others) (min_mtime : Z) (copy_fuel quiet limit : nat).
Hypothesis Hk : well_behaved k quiet limit.
Hypothesis Hfuel : quiet + limit < copy_fuel.
Notation RunWorker := (RunWorker k oth min_mtime copy_fuel).
Notation made := (made min_mtime).

(** ** Where the worker is in its loop, and what every step keeps *)
Inductive phase := Idle | Copying (job : pending_file) | Copied (job : pending_file) (copied : bool).
Definition popped_phase (job : option pending_file) : phase :=
  match job with Some job => Copying job | None => Idle end.
(** The entry of the state file after a copy. *)
Definition saved (job : pending_file) (copied : bool) (m : mirror) (s : copier) : daemon :=
  if copied then Daemon (SaveStateEntry (overlay (files s) (k_os k (tick s))) (p_path job) m) (s <| tick ::= S |>)
  else Daemon m s.

Record kept_by_worker (P : phase → daemon → Prop) : Prop := {
  kept_tick ph m s : P ph (Daemon m s) → P ph (Daemon m (s <| tick ::= S |>));
  kept_enqueue ph o path m s : P ph (Daemon m s) → P ph (Daemon (Enqueue o min_mtime path m) s);
  kept_pop m s : P Idle (Daemon m s) → P (popped_phase (PopNext m).2) (Daemon (PopNext m).1 s);
  kept_copy job m s : P (Copying job) (Daemon m s) →
    ∃ s' copied, copy_job k copy_fuel job s = (s', Some copied) ∧ P (Copied job copied) (saved job copied m s');
  kept_finish job copied m s : P (Copied job copied) (Daemon m s) → P Idle (Daemon (finish_job job copied m) s)
}.

Section kept.
Context {P : phase → daemon → Prop} (HP : kept_by_worker P).
Lemma kept_arrive ph d : P ph d → P ph (arrive k oth min_mtime d).1.
Proof.
  destruct d as [m s]. intros H. apply (kept_tick _ HP). revert m H. cbn.
  generalize (overlay (files s) (k_os k (tick s))). intros o.
  induction (o_arrivals oth (tick s)) as [|path paths IH]; intros m H; [done|].
  apply IH. by apply (kept_enqueue _ HP).
Qed.
Lemma kept_job job d :
  P (Copying job) d → ∃ d', do_job k oth min_mtime copy_fuel job d = (d', Some ()) ∧ P Idle d'.
Proof.
  destruct d as [m s]. intros (s1 & copied & E & H)%(kept_copy _ HP). apply kept_arrive in H.
  unfold do_job, on_io. unfold st_bind at 1. cbn [io]. rewrite E.
  destruct copied; (eexists; split; [reflexivity|exact (kept_finish _ HP _ _ _ _ H)]).
Qed.
Lemma kept_run fuel d : P Idle d → P Idle (RunWorker fuel d).1.
Proof.
  revert d. induction fuel as [|fuel IH]; intros d Hd; [done|]. cbn [MirrorWorker.RunWorker].
  pose proof (kept_arrive _ _ Hd) as H1. unfold st_bind at 1.
  assert (arrive k oth min_mtime d = ((arrive k oth min_mtime d).1, Some ())) as -> by done.
  destruct (arrive k oth min_mtime d).1 as [m1 s1]. apply (kept_pop _ HP) in H1.
  unfold st_bind at 1, on_queues. cbn. destruct (PopNext m1) as [m2 [job|]]; cbn in H1.
  - destruct (kept_job _ _ H1) as (d3 & E3 & H3). unfold st_bind. cbn. rewrite E3. by apply IH.
  - apply kept_arrive in H1. unfold st_bind. cbn in *. apply (kept_tick _ HP) in H1.
    destruct (negb _ && negb _); [done|by apply IH].
Qed.
End kept.

Lemma copy_job_outcome job s :
  ∃ s' copied, copy_job k copy_fuel job s = (s', Some copied) ∧ tick s ≤ tick s' ∧
    (copied = false ∧ files s' = files s ∧ past s' = past s ∧
       (p_dst_path job = ""%string ∨ NeedsCopy (overlay (files s) (k_os k (tick s))) (p_path job) (p_dst_path job) = false)
     ∨ copy_outcome k (p_path job) (p_dst_path job) (s <| tick ::= S |>) copied s').
Proof.
  unfold copy_job. destruct (string_empty _) eqn:Hempty.
  { exists s, false. split_and!; [done..|]. left. apply string_empty_true in Hempty. auto. }
  unfold st_bind, look_os. destruct (NeedsCopy _ _ _) eqn:Hneeds.
  2: { eexists _, false. split; [reflexivity|]. split; [cbn; lia|]. left. auto. }
  destruct (CopyFile_outcome k (p_path job) (p_dst_path job) (s <| tick ::= S |>) quiet limit Hk copy_fuel Hfuel)
    as (s' & ok & E & Ht & H). exists s', ok. split; [exact E|]. cbn in Ht. split; [lia|]. by right.
Qed.

(** ** What is on the disks and in the state file *)
Section sound.
Context (d0 : daemon).

(** A whole copy of the source, as it was at some time of the run. *)
Definition whole (last : nat) (f : pending_file) (found : option file) : Prop :=
  ∃ t b, tick (io d0) ≤ t ≤ last ∧ found = Some b ∧ contents b = k_source k (p_path f) t.
(** Every file is the one of the start, or a whole copy of its source, or a partial
    file. *)
Definition intact (last : nat) (fs : gmap string file) : Prop :=
  ∀ path, fs !! path = files (io d0) !! path ∨
    ∃ f, made f ∧ (path = p_dst_path f ∧ whole last f (fs !! path) ∨ path = partial_of (p_dst_path f)).
(** The states of the file system since the start. *)
Definition since (s : copier) : list (gmap string file) := drop (length (past (io d0))) (past s).
Definition published (f : pending_file) (s : copier) : Prop :=
  ∃ fs, fs ∈ since s ∧ whole (tick s) f (fs !! p_dst_path f).

Record sound (ph : phase) (d : daemon) : Prop := {
  sound_tick : tick (io d0) ≤ tick (io d);
  sound_made f : f ∈ all_files (queues d) → made f;
  sound_job job : ph = Copying job ∨ (∃ ok, ph = Copied job ok) → made job;
  sound_past : past (io d) = past (io d0) ++ since (io d);
  sound_states : Forall (intact (tick (io d))) (files (io d) :: since (io d));
  sound_files : files (io d) ∈ files (io d0) :: since (io d);
  sound_state path stat : state_ (queues d) !! path = Some stat →
    state_ (queues d0) !! path = Some stat ∨ ∃ f, made f ∧ p_path f = path ∧ published f (io d)
}.

Lemma whole_later last last' f found : last ≤ last' → whole last f found → whole last' f found.
Proof. intros Hle (t & b & Ht & H). exists t, b. split; [lia|done]. Qed.
Lemma intact_later last last' fs : last ≤ last' → intact last fs → intact last' fs.
Proof.
  intros Hle H path. destruct (H path) as [?|(f & Hf & [[? Hw]|?])]; [by left|right; exists f..]; split; auto.
  left. split; [done|]. by apply (whole_later last).
Qed.
(** Another state of the file system follows the first ones. *)
Lemma since_app s s' states :
  past s = past (io d0) ++ since s → past s' = past s ++ states →
  since s' = since s ++ states ∧ past s' = past (io d0) ++ since s'.
Proof.
  intros Hs Hs'. assert (since s' = since s ++ states) as E
    by (unfold since at 1; by rewrite Hs', Hs, <- app_assoc, drop_app_length).
  split; [done|]. by rewrite Hs', Hs, E, <- app_assoc.
Qed.
Lemma published_later f s s' states :
  since s' = since s ++ states → tick s ≤ tick s' → published f s → published f s'.
Proof.
  intros E Ht (fs & Hfs & Hw). exists fs. rewrite E. split; [set_solver|by apply (whole_later (tick s))].
Qed.

(** A copy leaves every state intact that follows. *)
Lemma intact_copy job s copied s' fs :
  made job → tick (io d0) ≤ tick s → tick s ≤ tick s' → intact (tick s) (files s) →
  old_or_copy k (p_path job) (p_dst_path job) (s <| tick ::= S |>) (tick s') fs ∨
    fs = files s' ∧ copy_outcome k (p_path job) (p_dst_path job) (s <| tick ::= S |>) copied s' →
  intact (tick s') fs.
Proof.
  intros Hjob Ht0 Ht Hs Hfs path. assert (intact (tick s') (files s)) as Hs' by by apply (intact_later (tick s)).
  destruct (decide (path = partial_of (p_dst_path job))) as [->|Hp]; [right; exists job; auto|].
  assert ((∀ p, p ≠ p_dst_path job → p ≠ partial_of (p_dst_path job) → fs !! p = files s !! p) ∧
          (fs !! p_dst_path job = files s !! p_dst_path job ∨ whole (tick s') job (fs !! p_dst_path job))) as [Hothers Hdst].
  { destruct Hfs as [[Ho Hd]|[-> [Ho _ Hc Hf]]]; (split; [exact Ho|]).
    - destruct Hd as [?|(t & f & Hle & Hlook & Hcont)]; [by left|right]. exists t, f. cbn in Hle. split; [lia|done].
    - destruct copied.
      + right. destruct Hc as (_ & _ & _ & t & f & _ & Hle & Hlook & Hcont & _); [done|].
        exists t, f. cbn in Hle. split; [lia|done].
      + left. by apply Hf. }
  destruct (decide (path = p_dst_path job)) as [->|Hd]; [|rewrite Hothers by done; apply Hs'].
  destruct Hdst as [->|Hw]; [apply Hs'|]. right. exists job. auto.
Qed.

Lemma sound_start m :
  (∀ f, f ∈ all_files m → made f) → state_ m = state_ (queues d0) → sound Idle (Daemon m (io d0)).
Proof.
  intros Hm Hst. assert (since (io d0) = []) as E by (unfold since; by rewrite drop_all).
  split; cbn; rewrite ?E, ?app_nil_r; try done.
  - by intros job [[=]|[? [=]]].
  - apply Forall_cons. split; [by left|done].
  - by left.
  - rewrite Hst. auto.
Qed.
(** A state of the run is sound when only the queue changes, or the clock moves on. *)
Lemma sound_queues ph ph' m m' s :
  sound ph (Daemon m s) → (∀ f, f ∈ all_files m' → f ∈ all_files m ∨ made f) → state_ m' = state_ m →
  (∀ job, ph' = Copying job ∨ (∃ ok, ph' = Copied job ok) → made job) → sound ph' (Daemon m' s).
Proof.
  intros [? Hm ? ? ? ? Hst] Hfiles Hstate Hjob. split; cbn in *; try done.
  - intros f [Hf|Hf]%Hfiles; auto.
  - by rewrite Hstate.
Qed.
Lemma sound_later ph ph' m s s' states :
  sound ph (Daemon m s) → tick s ≤ tick s' → past s' = past s ++ states →
  Forall (intact (tick s')) (files s' :: states) → files s' ∈ files s :: states →
  (∀ job, ph' = Copying job ∨ (∃ ok, ph' = Copied job ok) → made job) → sound ph' (Daemon m s').
Proof.
  intros [Ht0 Hm _ Hp Hs Hnew Hst] Ht E Hall Hin Hjob. cbn in *. destruct (since_app _ _ _ Hp E) as [Hsince Hp'].
  apply Forall_cons in Hs as [_ Hs]. apply Forall_cons in Hall as [Hnow Hall].
  split; cbn; [lia|done|done|done| | |].
  - apply Forall_cons. split; [done|]. rewrite Hsince. apply Forall_app. split; [|done].
    eapply Forall_impl; [exact Hs|]. intros fs. by apply intact_later.
  - rewrite Hsince. apply elem_of_cons in Hin as [->|?]; set_solver.
  - intros path stat [?|(f & ? & ? & Hpub)]%Hst; [by left|right]. exists f. split_and!; [done..|].
    by eapply published_later.
Qed.

Lemma sound_ticked ph m s : sound ph (Daemon m s) → sound ph (Daemon m (s <| tick ::= S |>)).
Proof.
  intros Hs. apply (sound_later ph _ m s _ []); [done|cbn; lia|by rewrite app_nil_r| |by left|apply (sound_job _ _ Hs)].
  pose proof (sound_states _ _ Hs) as [Hnow _]%Forall_cons. cbn in *. apply Forall_cons. split; [|done].
  apply (intact_later (tick s)); [lia|done].
Qed.

Lemma PopNext_state m : state_ (PopNext m).1 = state_ m.
Proof.
  unfold PopNext, pick_tpc, pick_active, pick_first, pick_from_run. repeat case_match; simplify_eq; done.
Qed.
Lemma PopNext_files m f :
  f ∈ all_files m ↔ f ∈ all_files (PopNext m).1 ∨ (PopNext m).2 = Some f.
Proof.
  destruct (PopNext_picks m) as [H _]. set (m0 := if both_pending m then m else _) in H.
  assert (all_files m0 = all_files m) as <- by (subst m0; by destruct (both_pending m)).
  destruct (PopNext m) as [m' [job|]]; cbn.
  - destruct H as (run & _ & Hpop). rewrite (popped_all _ _ _ _ Hpop), elem_of_cons. naive_solver.
  - destruct H as (_ & Hq & _). unfold all_files. rewrite Hq. naive_solver.
Qed.

(** After a copy the run is sound, and a copy that succeeds is published. *)
Lemma sound_copy job m s :
  sound (Copying job) (Daemon m s) →
  ∃ s' copied, copy_job k copy_fuel job s = (s', Some copied) ∧ sound (Copied job copied) (Daemon m s') ∧
    tick s ≤ tick s' ∧ (∃ states, since s' = since s ++ states) ∧
    if copied then published job s' ∧ files s' ∈ since s'
    else (files s' = files s ∧ since s' = since s ∧
          (p_dst_path job = ""%string ∨ NeedsCopy (overlay (files s) (k_os k (tick s))) (p_path job) (p_dst_path job) = false))
         ∨ (faultless k (p_path job) → k_running k (tick s') = false).
Proof.
  intros Hs. pose proof (sound_job _ _ Hs job (or_introl eq_refl)) as Hjob.
  assert (∀ c job', Copied job c = Copying job' ∨ (∃ ok, Copied job c = Copied job' ok) → made job') as Hjobs
    by (intros c job' [[=]|[ok [= <- _]]]; done).
  destruct (copy_job_outcome job s) as (s' & copied & E & Ht & Hout). exists s', copied. split; [exact E|].
  pose proof (sound_states _ _ Hs) as [Hnow _]%Forall_cons. pose proof (sound_past _ _ Hs) as Hpast. cbn in Hnow, Hpast.
  destruct Hout as [(-> & Hf & Hp & Hwhy)|Hout].
  - assert (since s' = since s) as Hsince by (unfold since; by rewrite Hp).
    split; [|split; [done|split; [exists []; by rewrite app_nil_r|by left]]].
    apply (sound_later (Copying job) _ m s s' []); [done|done|by rewrite app_nil_r| |rewrite Hf; by left|apply Hjobs].
    rewrite Hf. apply Forall_cons. split; [by apply (intact_later (tick s))|done].
  - pose proof (out_atomic _ _ _ _ _ _ Hout) as (states & Hp & Hall & Hnew). cbn in Hp.
    destruct (since_app s s' states Hpast Hp) as [Hsince _]. split; [|split; [done|split; [by exists states|]]].
    + apply (sound_later (Copying job) _ m s s' states); [done|done|done| |done|apply Hjobs].
      pose proof (sound_tick _ _ Hs) as Ht0. cbn in Ht0.
      apply Forall_cons. split; [apply (intact_copy job s copied s'); auto|].
      eapply Forall_impl; [exact Hall|]. intros fs Hfs. apply (intact_copy job s copied s'); auto.
    + destruct copied; [|right; by apply (out_failed _ _ _ _ _ _ Hout)].
      destruct (out_copied _ _ _ _ _ _ Hout) as (_ & Hin & _ & t & b & _ & Hle & Hb & Hc & _); [done|].
      cbn in Hin, Hle. rewrite Hp, drop_app_length in Hin.
      assert (files s' ∈ since s') as Hin' by (rewrite Hsince; set_solver). split; [|done].
      exists (files s'). split; [done|]. exists t, b. pose proof (sound_tick _ _ Hs) as Ht0. cbn in Ht0. split; [lia|done].
Qed.
Lemma sound_saved job copied m s :
  sound (Copied job copied) (Daemon m s) → (copied = true → published job s) →
  sound (Copied job copied) (saved job copied m s).
Proof.
  intros Hs Hpub. destruct copied; [|done]. specialize (Hpub eq_refl).
  destruct (sound_ticked _ _ _ Hs) as [? ? Hjob ? ? ? Hst].
  unfold saved, SaveStateEntry. destruct (StatFile _ _) as [stat|]; [|by split].
  split; cbn in *; try done. intros path stat'.
  destruct (decide (path = p_path job)) as [->|Hne]; [|rewrite lookup_insert_ne by done; apply Hst].
  intros _. right. exists job. split; [apply Hjob; eauto|]. split; [done|].
  destruct Hpub as (fs & ? & ?). exists fs. split; [done|]. by apply (whole_later (tick s)); [cbn; lia|].
Qed.

Lemma sound_kept : kept_by_worker sound.
Proof.
  split.
  - apply sound_ticked.
  - intros ph o path m s Hs. apply (sound_queues ph _ m); [done| |apply Enqueue_state|apply (sound_job _ _ Hs)].
    intros f [?|?]%Enqueue_made; [by left|right; by exists o].
  - intros m s Hs. apply (sound_queues Idle _ m); [done| |apply PopNext_state|].
    + intros f Hf. left. apply PopNext_files. by left.
    + intros job Hjob. apply (sound_made _ _ Hs). cbn. apply PopNext_files. right.
      destruct (PopNext m).2 as [f|]; cbn in Hjob; naive_solver.
  - intros job m s (s' & copied & E & Hs' & _ & H)%sound_copy. exists s', copied. split; [done|].
    apply sound_saved; [done|]. intros ->. apply H.
  - intros job copied m s Hs. apply (sound_queues (Copied job copied) _ m); [done| | |by intros job' [[=]|[? [=]]]].
    + intros f Hf. left. unfold all_files in *. by destruct (finish_job_files job copied m) as [<- _].
    + unfold finish_job. destruct copied; [destruct (_ =? _)%N|]; done.
Qed.

(** ** The files waiting are copied *)
(** Copied whole and recorded, or found to be up to date at some moment. *)
Definition settled (f : pending_file) (d : daemon) : Prop :=
  published f (io d) ∧ is_Some (state_ (queues d) !! p_path f) ∨
  ∃ t fs, fs ∈ files (io d0) :: since (io d) ∧ NeedsCopy (overlay fs (k_os k t)) (p_path f) (p_dst_path f) = false.
(** A file of the start waits, is being copied or is settled, if the daemon runs. *)
Definition waits (f : pending_file) (ph : phase) (d : daemon) : Prop :=
  f ∈ all_files (queues d) ∨ ph = Copying f ∨ settled f d.
Record progress (fs : list pending_file) (ph : phase) (d : daemon) : Prop := {
  progress_sound : sound ph d;
  progress_files : k_running k (tick (io d)) = true → ∀ f, f ∈ fs → waits f ph d
}.

Lemma settled_later f m m' s s' states :
  since s' = since s ++ states → tick s ≤ tick s' → (∀ p, is_Some (state_ m !! p) → is_Some (state_ m' !! p)) →
  settled f (Daemon m s) → settled f (Daemon m' s').
Proof.
  intros E Ht Hst [[Hp Hs]|(t & fs & Hfs & Hn)]; [left|right]; cbn in *.
  - split; [by eapply published_later|by apply Hst].
  - exists t, fs. rewrite E. split; [set_solver|done].
Qed.
Lemma running_before s s' : tick s ≤ tick s' → k_running k (tick s') = true → k_running k (tick s) = true.
Proof. apply (running_stops _ _ _ Hk). Qed.

(** A step that changes no file and forgets no file that waits. *)
Lemma progress_step fs ph ph' m m' s s' :
  progress fs ph (Daemon m s) → sound ph' (Daemon m' s') → tick s ≤ tick s' → past s' = past s →
  (∀ p, is_Some (state_ m !! p) → is_Some (state_ m' !! p)) →
  (∀ f, f ∈ all_files m ∨ ph = Copying f → waits f ph' (Daemon m' s')) → progress fs ph' (Daemon m' s').
Proof.
  intros [_ Hp] Hs Ht Hpast Hst Hwaits. split; [done|]. cbn in *. intros Hrun f Hin.
  assert (since s' = since s) as E by (unfold since; by rewrite Hpast).
  destruct (Hp (running_before _ _ Ht Hrun) f Hin) as [Hq|[Hc|Hse]]; [by apply Hwaits; left|by apply Hwaits; right|].
  right; right. eapply (settled_later f m m' s s' []); [by rewrite app_nil_r|done..].
Qed.

Context (fs : list pending_file).
Hypothesis Hfine : ∀ f, f ∈ fs → faultless k (p_path f).
Lemma made_has_dst f : made f → p_dst_path f ≠ ""%string.
Proof.
  intros [o E]. unfold make_pending in E. destruct (negb _); [done|].
  repeat (apply bind_Some in E as (? & _ & E)). destruct (string_empty _) eqn:Hdst; cbn in E; [done|].
  destruct (negb _); [done|]. injection E as <-. cbn. intros H. apply string_empty_true in H. congruence.
Qed.
Lemma SaveStateEntry_keeps o path p m :
  is_Some (state_ m !! p) → is_Some (state_ (SaveStateEntry o path m) !! p).
Proof. unfold SaveStateEntry. destruct (StatFile _ _); [|done]. cbn. rewrite lookup_insert_is_Some'. auto. Qed.
Lemma progress_copy job m s :
  progress fs (Copying job) (Daemon m s) →
  ∃ s' copied, copy_job k copy_fuel job s = (s', Some copied) ∧ progress fs (Copied job copied) (saved job copied m s').
Proof.
  intros [Hs Hp]. destruct (sound_copy job m s Hs) as (s' & copied & E & Hs' & Ht & [states Hsince] & Hout).
  exists s', copied. split; [exact E|].
  split; [apply sound_saved; [done|]; intros ->; apply Hout|]. intros Hrun f Hf.
  assert (k_running k (tick s') = true) as Hrun'
    by (destruct copied; [by apply (running_before s' (s' <| tick ::= S |>)); [cbn; lia|]|done]).
  destruct (Hp (running_before _ _ Ht Hrun') f Hf) as [Hq|[[= ->]|Hse]].
  - left. destruct copied; [|done]. unfold saved, SaveStateEntry. by destruct (StatFile _ _).
  - right; right. destruct copied.
    + left. destruct Hout as [Hpub _]. split; [eapply (published_later _ s' _ []); [by rewrite app_nil_r|cbn; lia|done]|].
      pose proof (overlay_regular (files s') _ _ (fine_source _ _ (Hfine f Hf) (tick s'))) as [stat Hstat].
      cbn. unfold SaveStateEntry. rewrite Hstat. cbn. by rewrite lookup_insert_eq.
    + destruct Hout as [(_ & Hsame & Hwhy)|Hstop]; [|by rewrite Hstop in Hrun' by auto].
      right. exists (tick s), (files s). cbn. rewrite Hsame. split; [apply (sound_files _ _ Hs)|].
      destruct Hwhy as [Hdst|?]; [|done]. by apply made_has_dst in Hdst; [|apply (sound_job _ _ Hs); left].
  - right; right. destruct copied; (eapply settled_later; [exact Hsince| | |exact Hse]; [cbn; lia|]); [|done].
    intros p. apply SaveStateEntry_keeps.
Qed.
Lemma progress_kept : kept_by_worker (progress fs).
Proof.
  split.
  - intros ph m s H. pose proof H as [Hs _]. eapply progress_step; [exact H|by apply sound_kept|cbn; lia|done..|].
    intros f [?|?]; [by left|by right; left].
  - intros ph o path m s H. pose proof H as [Hs _].
    eapply progress_step; [exact H|by apply sound_kept|done..| |].
    + intros p. by rewrite Enqueue_state.
    + intros f [?|?]; [left; by apply Enqueue_keeps|by right; left].
  - intros m s H. pose proof H as [Hs _]. eapply progress_step; [exact H|by apply sound_kept|done..| |].
    + intros p. by rewrite PopNext_state.
    + intros f [[?|E]%PopNext_files|[=]]; [by left|]. right; left. by rewrite E.
  - intros job m s. apply progress_copy.
  - intros job copied m s H. pose proof H as [Hs _]. eapply progress_step; [exact H|by apply (kept_finish _ sound_kept)|done..| |].
    + intros p. unfold finish_job. destruct copied; [destruct (_ =? _)%N|]; done.
    + intros f [Hf|[=]]. left. cbn. unfold all_files in *. by destruct (finish_job_files job copied m) as [-> _].
Qed.
End sound.
End run.

(** ** The run *)
Section from_start.
Context (o : os) (readdir : string → option (list string)) (readable : string → bool) (min_mtime : Z)
  (content : option string) (io0 : copier).
Hypothesis Hpath : ∀ p, PATH_MAX ≤ String.length p → os_stat o p = None.
(** The state file read, before the backlog is queued. *)
Definition start : daemon := Daemon (LoadState content new_mirror) io0.

Lemma start_queues :
  ∃ m, Run_start o readdir readable min_mtime content = Some m ∧ queue_inv m None ∧
    state_ m = state_ (queues start) ∧
    (∀ f, f ∈ all_files m → make_pending o min_mtime (p_path f) = Some f) ∧
    (∀ path, backlog o readdir readable path → IsSynced o path (queues start) = false →
       ∀ f, make_pending o min_mtime path = Some f → f ∈ all_files m).
Proof.
  unfold Run_start. destruct (ScanBacklog_scanned o readdir readable min_mtime Hpath (queues start)) as (m & E & [Hp Hst Hinv Hm]).
  assert (all_files (queues start) = []) as Hnil by (unfold start; by destruct content).
  assert (queue_inv m None) as Hq.
  { apply Hinv. pose proof queue_inv_new as [H1 H2 H3]. unfold start. cbn. destruct content; by split. }
  assert (∀ f, f ∈ all_files m → make_pending o min_mtime (p_path f) = Some f) as Hfiles.
  { intros f [Hf|Hf]%Hm; [|done]. rewrite Hnil in Hf. by apply not_elem_of_nil in Hf. }
  exists m. split; [exact E|]. split_and!; [done..|]. intros path Hb Hs f Hf.
  assert (path ∈ pending m) as Hin by (apply Hp; right; split; [done|split; [done|by exists f]]).
  apply (inv_pending _ _ Hq) in Hin. unfold paths in Hin. rewrite app_nil_r in Hin.
  apply list_elem_of_fmap in Hin as (g & -> & Hg). by rewrite (Hfiles g Hg) in Hf; injection Hf as <-.
Qed.
End from_start.

(** C8. The mirror does not corrupt. The condition is that of a copy: a source is only appended
    to, up to a bound, and from some time on calls are not interrupted and writes write; which
    calls fail or fall short is open, and so is what files arrive. Then at every moment of a
    run of the daemon each file of the backup disks is the one that was there at the start, or
    a whole copy of its source as it was at some time of the run, or a partial file; and every
    entry the run adds to the state file is of a file whose whole copy was put in place. *)
Theorem Run_copies_are_whole (o : os) readdir readable min_mtime content (k : kernel) (oth : others)
    (copy_fuel quiet limit fuel : nat) (io0 : copier) :
  (∀ p, PATH_MAX ≤ String.length p → os_stat o p = None) → well_behaved k quiet limit → quiet + limit < copy_fuel →
  ∃ d r, Run o readdir readable min_mtime content k oth copy_fuel fuel io0 = Some (d, r) ∧
    let d0 := start content io0 in
    past (io d) = past io0 ++ since d0 (io d) ∧
    Forall (intact k min_mtime d0 (tick (io d))) (files (io d) :: since d0 (io d)) ∧
    ∀ path stat, state_ (queues d) !! path = Some stat →
      state_ (queues d0) !! path = Some stat ∨ ∃ f, made min_mtime f ∧ p_path f = path ∧ published k d0 f (io d).
Proof.
  intros Hpath Hk Hfuel. destruct (start_queues o readdir readable min_mtime content io0 Hpath) as (m & E & _ & Hst & Hm & _).
  pose proof (sound_kept k min_mtime copy_fuel quiet limit Hk Hfuel (start content io0)) as Hkept.
  pose proof (kept_run k oth min_mtime copy_fuel Hkept fuel (Daemon m io0)
    (sound_start k min_mtime (start content io0) m (λ f Hf, ex_intro _ o (Hm f Hf)) Hst)) as Hs.
  unfold Run. rewrite E. cbn [mbind option_bind]. destruct (RunWorker k oth min_mtime copy_fuel fuel (Daemon m io0)) as [d r].
  exists d, r. split; [done|]. destruct Hs as [_ _ _ Hpast Hstates _ Hstate]. done.
Qed.

(** C9. The backlog is copied: once no more files arrive, a daemon that still runs
    after enough passes has settled every file that was left to copy when it
    started: its whole copy was put in place and recorded, or at some moment its
    destination was found up to date. The calls may be interrupted and cut short
    but do not fail, and the sources stay. *)
Theorem Run_copies_backlog (o : os) readdir readable min_mtime content (k : kernel) (oth : others)
    (copy_fuel quiet limit last_arrival : nat) (io0 : copier) :
  (∀ p, PATH_MAX ≤ String.length p → os_stat o p = None) → well_behaved k quiet limit → quiet + limit < copy_fuel →
  (∀ t, last_arrival ≤ t → o_arrivals oth t = []) →
  (∀ path, is_Some (make_pending o min_mtime path) → faultless k path) →
  ∃ enough, ∀ fuel, enough ≤ fuel →
    ∃ d r, Run o readdir readable min_mtime content k oth copy_fuel fuel io0 = Some (d, r) ∧
      (k_running k (tick (io d)) = true → ∀ path f,
         backlog o readdir readable path → IsSynced o path (LoadState content new_mirror) = false →
         make_pending o min_mtime path = Some f → settled k (start content io0) f d).
Proof.
  intros Hpath Hk Hfuel Harr Hfine.
  destruct (start_queues o readdir readable min_mtime content io0 Hpath) as (m & E & Hq & Hst & Hm & Hall).
  set (d0 := start content io0). set (d1 := Daemon m io0). exists (S (left_over oth last_arrival d1)). intros fuel Hle.
  assert (∀ f, f ∈ all_files m → faultless k (p_path f)) as Hfiles by (intros f Hf; apply Hfine; rewrite (Hm f Hf); by exists f).
  assert (progress k min_mtime d0 (all_files m) Idle d1) as H1.
  { split; [|intros _ f Hf; by left]. apply (sound_start k min_mtime d0 m (λ f Hf, ex_intro _ o (Hm f Hf)) Hst). }
  apply (kept_run k oth min_mtime copy_fuel (progress_kept k min_mtime copy_fuel quiet limit Hk Hfuel d0 _ Hfiles) fuel) in H1.
  destruct (RunWorker_drains k oth min_mtime copy_fuel quiet limit last_arrival Hk Hfuel Harr fuel d1 Hq) as (d & r & Er & Hnil & _); [lia|].
  unfold Run. rewrite E. cbn [mbind option_bind]. exists d, r. fold d1. rewrite Er in H1 |- *. split; [done|].
  intros Hrun path f Hb Hs Hf. destruct (progress_files _ _ _ _ _ _ H1 Hrun f) as [Hin|[[=]|?]]; [by eapply Hall| |done].
  cbn in Hin. rewrite Hnil in Hin. by apply not_elem_of_nil in Hin.
Qed.

(** ** A run *)
Definition run_kernel : kernel := {|
  k_running _ := true; k_os _ := watch_os; k_now t := Z.of_nat t; k_source := demo_source;
  k_open_source _ := true; k_mkdir _ _ := true; k_create _ _ := true;
  k_copy_range t := if (t <? 12)%nat then 2 else 0;
  k_read t := if (t <? 20)%nat then Interrupted else Count 7;
  k_write t := if (t <? 24)%nat then Interrupted else Count 1;
  k_rename _ := true; k_unlink _ := true; k_utimens _ := true
|}.
Definition run_others : others := Others (λ t, if decide (t = 3) then [demo_old] else []) (λ _, true).
Lemma run_well_behaved : well_behaved run_kernel 24 4.
Proof. pose proof demo_well_behaved as [H1 H2 H3 H4]. by split. Qed.
Lemma run_faultless path : is_Some (make_pending watch_os 0 path) → faultless run_kernel path.
Proof.
  intros [f Hf]. split; cbn -[Nat.ltb]; try done.
  - intros _. unfold make_pending in Hf. cbn [negb PassesMinMtimeFilter Z.eqb] in Hf. by destruct (StatFile watch_os path).
  - intros t. by destruct (t <? 20)%nat.
  - intros t. by destruct (t <? 24)%nat.
Qed.
Definition demo_run_of (fuel : nat) : option (daemon * option ()) :=
  Run watch_os watch_ls (λ _, true) 0 None run_kernel run_others 29 fuel demo_copier.
(** Both files of the backlog are copied. *)
Example demo_run_copies :
  (λ dr, let m := queues dr.1 in (length (past (io dr.1)), state_ m !! demo_old, state_ m !! demo_new)) <$> demo_run_of 4
  = Some (13, Some (FileStat 100 7), Some (FileStat 200 9)).
Proof. vm_compute. reflexivity. Qed.

Lemma Run_copies_are_whole_witness :
  ∃ d r, demo_run_of 4 = Some (d, r) ∧ Forall (intact run_kernel 0 (start None demo_copier) (tick (io d))) (past (io d)).
Proof.
  destruct (Run_copies_are_whole watch_os watch_ls (λ _, true) 0 None run_kernel run_others 29 24 4 4 demo_copier
    watch_os_path run_well_behaved ltac:(lia)) as (d & r & E & Hp & Hall & _).
  exists d, r. split; [exact E|]. rewrite Hp. by apply Forall_cons in Hall as [_ Hall].
Defined.

Lemma demo_old_backlog : backlog watch_os watch_ls (λ _, true) demo_old.
Proof.
  exists demo_dir. split; [by apply (bool_decide_unpack _)|]. split; [done|].
  eapply (visible_dir _ _ _ _ _ "pGRAMS_bin_7_0.dat"%string); try reflexivity.
  - by apply (bool_decide_unpack _).
  - by eapply visible_file.
Qed.
Lemma Run_copies_backlog_witness :
  ∃ fuel d r f, demo_run_of fuel = Some (d, r) ∧ make_pending watch_os 0 demo_old = Some f ∧
                settled run_kernel (start None demo_copier) f d.
Proof.
  destruct (Run_copies_backlog watch_os watch_ls (λ _, true) 0 None run_kernel run_others 29 24 4 4 demo_copier
    watch_os_path run_well_behaved ltac:(lia)) as (enough & H).
  - intros t Ht. unfold run_others. cbn. by rewrite decide_False by lia.
  - apply run_faultless.
  - destruct (H enough (le_n _)) as (d & r & E & Hset).
    destruct (make_pending watch_os 0 demo_old) as [f|] eqn:Hf; [|by vm_compute in Hf].
    exists enough, d, r, f. split; [exact E|]. split; [done|].
    apply (Hset eq_refl demo_old); [apply demo_old_backlog|by vm_compute|done].
Defined.
