(* ===== verification/Journal.v ===== *)
(** * The forwarder of the journal: [JournalLogForwarder] (src/daemon/tof_daq.cpp)

    A thread reads the lines that [journalctl -f] prints into a pipe, removes the
    colours and sends them on. First what becomes of a text, then the object with
    its two threads, the worker and the one that calls [stop]: the pointer [pipe_] is
    not atomic and both of them close the stream. *)
From Stdlib Require Import Ascii String Lia ZArith NArith.
From stdpp Require Import base tactics list numbers option strings.
From S2P Require Import Prelude CppString.
Local Open Scope string_scope.
Local Open Scope nat_scope.
Implicit Types (s t text chunk line : string) (c : ascii).

(** ** Lines *)
Definition buffer_size : nat := 2048.
(** [fgets]: up to a newline, or as much as the buffer takes. *)
Fixpoint fgets_chunk (room : nat) s : string * string :=
  match room, s with
  | S room, String c s =>
      if Ascii.eqb c newline then (String c "", s)
      else let '(chunk, s) := fgets_chunk room s in (String c chunk, s)
  | _, _ => ("", s)
  end.
(** It returns without the end of the stream. *)
Fixpoint complete (room : nat) s : bool :=
  match room, s with
  | O, _ => true
  | S room, String c s => Ascii.eqb c newline || complete room s
  | S _, EmptyString => false
  end.
(** [std::string line(buffer)] ends at the first NUL. *)
Fixpoint c_str s : string :=
  match s with
  | String c s => if Ascii.eqb c zero then "" else String c (c_str s)
  | EmptyString => ""
  end.
Fixpoint pop_newline line : string :=
  match line with
  | String c "" => if Ascii.eqb c newline then "" else line
  | String c line => String c (pop_newline line)
  | EmptyString => ""
  end.

(** ** Colours *)
Definition ESC : ascii := "027"%char.
Definition is_letter c : bool :=
  let n := N_of_ascii c in ((65 <=? n) && (n <=? 90) || (97 <=? n) && (n <=? 122))%N.
(** What follows [[0-9;]*[a-zA-Z]] at the head of a text: the two sets have no
    character in common, so the match is unique. *)
Fixpoint after_codes s : option string :=
  match s with
  | String c s => if is_digit c || Ascii.eqb c ";" then after_codes s else if is_letter c then Some s else None
  | EmptyString => None
  end.
Definition after_ansi s : option string :=
  match s with
  | String c (String c' s) => if Ascii.eqb c ESC && Ascii.eqb c' "[" then after_codes s else None
  | _ => None
  end.
(** [std::regex_replace(line, ansi_regex, "")] *)
Fixpoint replace_ansi (fuel : nat) s : string :=
  match fuel, s with
  | S fuel, String c s' =>
      match after_ansi s with
      | Some rest => replace_ansi fuel rest
      | None => String c (replace_ansi fuel s')
      end
  | _, _ => ""
  end.
Definition strip_ansi s : string := replace_ansi (String.length s) s.

(** ** What is sent *)
Record log_data := LogData { ld_run_number : Z; ld_timestamp_ms : Z; ld_level : Z; ld_component : string; ld_message : string }.
(** The n-th line read: is the client connected, and what time is it. *)
Record journal_world := JournalWorld {
  popen_ok : bool;
  connected : nat → bool;
  now_ms : nat → Z
}.
Definition log_line (w : journal_world) (n : nat) chunk : list log_data :=
  let line := pop_newline (c_str chunk) in
  if String.eqb line "" then []
  else if connected w n then [LogData 0 (now_ms w n) 2 "JOURNAL" (strip_ansi line)] else [].
Definition log_lines (w : journal_world) (chunks : list string) : list log_data := concat (imap (log_line w) chunks).
Arguments log_lines : simpl never.

(** ** The threads *)
Inductive stream := Unopened | Opened | Closed.
Inductive worker_phase :=
  | Opens                                 (** [pipe_ = popen(...)] *)
  | Tests                                 (** [while (running_ && ...] *)
  | Reads                                 (** calls [fgets] *)
  | Gets                                  (** in [fgets], which locks the stream *)
  | Sends (chunk : string)
  | Leaves                                (** [if (pipe_)] *)
  | Closes                                (** [pclose(pipe_)] *)
  | Reaps                                 (** in [pclose]: waits for the command *)
  | Forgets                               (** [pipe_ = nullptr] *)
  | Returned.
Inductive stop_phase :=
  | NotCalled | StopTests | StopClears | StopLooks | StopCloses | StopReaps | StopForgets | StopJoins | Stopped.
Record forwarder := Forwarder {
  running : bool;
  pipe : bool;                            (** [pipe_] is not null *)
  file : stream;
  worker : worker_phase;
  stopper : stop_phase;
  journal : string;                       (** printed and not read *)
  exited : bool;                          (** journalctl *)
  sent : list log_data;
  taken : list string;                    (** the history: what was read *)
  printed : string                        (** and printed *)
}.
#[export] Instance forwarder_eta : RecordEta forwarder := λ f,
  Forwarder (running f) (pipe f) (file f) (worker f) (stopper f) (journal f) (exited f) (sent f) (taken f) (printed f).
(** After [start]. *)
Definition started : forwarder := Forwarder true false Unopened Opens NotCalled "" false [] [] "".

(** A turn may have to wait, or is undefined: a use of the stream after it was
    closed, or of a null pointer. *)
Inductive outcome := Waits | Undefined | Next (f : forwarder).
Inductive turn := Worker | Stopper | CallStop | Prints (text : string) | Exits.
Section forwarder.
Context (w : journal_world).
Implicit Type f : forwarder.

Definition usable f : bool := pipe f && match file f with Opened => true | _ => false end.
Definition fgets f : outcome :=
  if complete (buffer_size - 1) (journal f) || exited f && negb (String.eqb (journal f) "") then
    let '(chunk, rest) := fgets_chunk (buffer_size - 1) (journal f) in
    Next (f <| worker := Sends chunk |> <| journal := rest |> <| taken ::= λ l, (l ++ [chunk])%list |>)
  else if exited f then Next (f <| worker := Leaves |>) else Waits.
Definition worker_turn f : outcome :=
  match worker f with
  | Opens =>
      Next (if popen_ok w then f <| pipe := true |> <| file := Opened |> <| worker := Tests |> else f <| worker := Returned |>)
  | Tests => Next (f <| worker := if running f then Reads else Leaves |>)
  | Reads => if usable f then Next (f <| worker := Gets |>) else Undefined
  | Gets => fgets f
  | Sends chunk => Next (f <| sent ::= λ l, (l ++ log_line w (pred (length (taken f))) chunk)%list |> <| worker := Tests |>)
  | Leaves => Next (f <| worker := if pipe f then Closes else Returned |>)
  | Closes => if usable f then Next (f <| file := Closed |> <| worker := Reaps |>) else Undefined
  | Reaps => if exited f then Next (f <| worker := Forgets |>) else Waits
  | Forgets => Next (f <| pipe := false |> <| worker := Returned |>)
  | Returned => Waits
  end.
(** [stop]; the worker was started, so it is joined. *)
Definition stop_turn f : outcome :=
  match stopper f with
  | StopTests => Next (f <| stopper := if running f then StopClears else Stopped |>)
  | StopClears => Next (f <| running := false |> <| stopper := StopLooks |>)
  | StopLooks => Next (f <| stopper := if pipe f then StopCloses else StopJoins |>)
  | StopCloses =>
      if usable f then
        match worker f with Gets => Waits | _ => Next (f <| file := Closed |> <| stopper := StopReaps |>) end
      else Undefined
  | StopReaps => if exited f then Next (f <| stopper := StopForgets |>) else Waits
  | StopForgets => Next (f <| pipe := false |> <| stopper := StopJoins |>)
  | StopJoins => match worker f with Returned => Next (f <| stopper := Stopped |>) | _ => Waits end
  | NotCalled | Stopped => Waits
  end.
Definition take_turn (x : turn) f : outcome :=
  match x with
  | Worker => worker_turn f
  | Stopper => stop_turn f
  | CallStop => match stopper f with NotCalled | Stopped => Next (f <| stopper := StopTests |>) | _ => Waits end
  | Prints text =>
      if exited f then Waits else Next (f <| journal ::= λ s, s ++ text |> <| printed ::= λ s, s ++ text |>)
  | Exits => Next (f <| exited := true |>)
  end.
(** Who has to wait gives the turn away. *)
Fixpoint run_forwarder (turns : list turn) f : option forwarder :=
  match turns with
  | [] => Some f
  | x :: turns =>
      match take_turn x f with
      | Next f => run_forwarder turns f
      | Waits => run_forwarder turns f
      | Undefined => None
      end
  end.
End forwarder.

(** A text, line by line. *)
Fixpoint chunks_aux (fuel : nat) s : list string :=
  match fuel, s with
  | S fuel, String _ _ => let '(chunk, s) := fgets_chunk (buffer_size - 1) s in chunk :: chunks_aux fuel s
  | _, _ => []
  end.
Definition chunks s : list string := chunks_aux (String.length s) s.
Arguments chunks : simpl never.
Definition forwards (w : journal_world) s : list log_data := log_lines w (chunks s).

Definition demo_world : journal_world := JournalWorld true (λ _, true) (λ _, 0%Z).
Definition nl : string := String newline "".
Definition red s : string := String ESC ("[0;31m" ++ s ++ String ESC "[0m").
Example forwards_lines :
  ld_message <$> forwards demo_world (red "no data" ++ nl ++ nl ++ "a [1] b" ++ nl) = ["no data"; "a [1] b"].
Proof. reflexivity. Qed.
(** One pass leaves the sequence that removing another one makes. *)
Example strip_leaves_sequence : strip_ansi (String ESC (String ESC "[0m[0m")) = String ESC "[0m".
Proof. reflexivity. Qed.
(** Stopped while it is between its test and [fgets], the worker reads a stream
    that was closed. *)
Example read_after_close :
  run_forwarder demo_world ([Worker; Worker; CallStop] ++ replicate 4 Stopper ++ [Worker]) started = None.
Proof. reflexivity. Qed.
(** Stopped while it leaves its loop, the stream is closed twice. *)
Example closed_twice :
  run_forwarder demo_world (replicate 3 Worker ++ [Exits; Worker; Worker; CallStop] ++ replicate 3 Stopper ++ [Worker; Stopper]) started = None.
Proof. reflexivity. Qed.

(** ** Colours are removed, the rest is kept *)
Lemma after_codes_shorter s rest : after_codes s = Some rest → String.length rest < String.length s.
Proof.
  induction s as [|c s IH]; [done|]. cbn. destruct (_ || _); [intros ?%IH; lia|]. destruct (is_letter c); [|done]. intros [= ->]. lia.
Qed.
Lemma after_ansi_shorter s rest : after_ansi s = Some rest → String.length rest < String.length s.
Proof. destruct s as [|c [|c' s]]; try done. cbn. case_match; [|done]. intros ?%after_codes_shorter. lia. Qed.
Lemma replace_ansi_fuel fuel s : String.length s ≤ fuel → replace_ansi fuel s = strip_ansi s.
Proof.
  assert (∀ n m s, String.length s ≤ n → String.length s ≤ m → replace_ansi n s = replace_ansi m s) as H; [|intros; by apply H].
  clear. induction n as [|n IH]; intros [|m] [|c s] Hn Hm; cbn [replace_ansi String.length] in *; try done; try lia.
  destruct (after_ansi (String c s)) as [rest|] eqn:E; [|f_equal; apply IH; lia].
  apply after_ansi_shorter in E. cbn [String.length] in E. apply IH; lia.
Qed.
Lemma strip_ansi_plain s : string_has ESC s = false → strip_ansi s = s.
Proof.
  unfold strip_ansi. induction s as [|c s IH]; [done|]. cbn [string_has replace_ansi String.length].
  intros [Hc Hs]%orb_false_iff. replace (after_ansi (String c s)) with (@None string); [by rewrite IH|].
  destruct s as [|c' s]; [done|]. cbn. by rewrite Hc.
Qed.
Fixpoint all_codes s : bool :=
  match s with String c s => (is_digit c || Ascii.eqb c ";") && all_codes s | EmptyString => true end.
Lemma strip_ansi_code codes c s :
  all_codes codes = true → is_digit c || Ascii.eqb c ";" = false → is_letter c = true →
  strip_ansi (String ESC (String "[" (codes ++ String c s))) = strip_ansi s.
Proof.
  intros Hcodes Hc Hl. set (code := String ESC _). assert (after_ansi code = Some s) as E.
  { cbn. clear -Hcodes Hc Hl. induction codes as [|d codes IH]; cbn in *; [by rewrite Hc, Hl|]. apply andb_true_iff in Hcodes as [-> Hcodes]. by apply IH. }
  pose proof (after_ansi_shorter _ _ E) as Hlt. unfold strip_ansi at 1. change (String.length code) with (S (pred (String.length code))).
  cbn [replace_ansi]. change (String ESC (String "[" (codes ++ String c s))) with code. rewrite E. apply replace_ansi_fuel. lia.
Qed.

(** ** A text is read line by line, however it arrives *)
Definition joined (l : list string) : string := foldr String.append "" l.
Arguments joined : simpl never.
Lemma joined_snoc l s : joined (l ++ [s])%list = joined l ++ s.
Proof. unfold joined. induction l as [|t l IH]; cbn; [apply append_nil_r|]. by rewrite IH, append_assoc. Qed.
Lemma fgets_chunk_join room s : let '(chunk, rest) := fgets_chunk room s in s = chunk ++ rest.
Proof.
  revert s. induction room as [|room IH]; intros [|c s]; try done. cbn. destruct (Ascii.eqb c newline); [done|].
  specialize (IH s). destruct (fgets_chunk room s). by rewrite IH at 1.
Qed.
Lemma fgets_chunk_complete room s t :
  complete room s = true → let '(chunk, _) := fgets_chunk room s in fgets_chunk room (chunk ++ t) = (chunk, t).
Proof.
  revert s. induction room as [|room IH]; intros [|c s]; try done. cbn. destruct (Ascii.eqb c newline) eqn:E; cbn; [by rewrite E|].
  intros Hs. specialize (IH s Hs). destruct (fgets_chunk room s). cbn. by rewrite E, IH.
Qed.
Lemma fgets_chunk_incomplete room s : complete room s = false → fgets_chunk room s = (s, "").
Proof.
  revert s. induction room as [|room IH]; intros [|c s]; try done. cbn. destruct (Ascii.eqb c newline); [done|]. cbn.
  intros Hs. by rewrite (IH s Hs).
Qed.
Lemma fgets_chunk_nonempty room c s : room ≠ 0 → ∃ c' chunk rest, fgets_chunk room (String c s) = (String c' chunk, rest).
Proof.
  destruct room as [|room]; [done|]. intros _. cbn. destruct (Ascii.eqb c newline); [by eexists _, _, _|].
  destruct (fgets_chunk room s). by eexists _, _, _.
Qed.
Lemma room_positive : buffer_size - 1 ≠ 0.
Proof. unfold buffer_size. lia. Qed.
Lemma chunks_fuel fuel s : String.length s ≤ fuel → chunks_aux fuel s = chunks s.
Proof.
  assert (∀ n m s, String.length s ≤ n → String.length s ≤ m → chunks_aux n s = chunks_aux m s) as H; [|intros; by apply H].
  clear. induction n as [|n IH]; intros [|m] [|c s] Hn Hm; cbn [chunks_aux String.length] in *; try done; try lia.
  pose proof (fgets_chunk_join (buffer_size - 1) (String c s)) as Hj.
  destruct (fgets_chunk_nonempty _ c s room_positive) as (c' & chunk & rest & E). rewrite E in Hj |- *. f_equal.
  apply (f_equal String.length) in Hj. cbn in Hj. rewrite length_append in Hj. apply IH; lia.
Qed.
Lemma chunks_cons s chunk rest : s ≠ "" → fgets_chunk (buffer_size - 1) s = (chunk, rest) → chunks s = chunk :: chunks rest.
Proof.
  intros Hs E. destruct s as [|c s]; [done|]. unfold chunks at 1. cbn [String.length chunks_aux]. rewrite E. f_equal. apply chunks_fuel.
  pose proof (fgets_chunk_join (buffer_size - 1) (String c s)) as Hj.
  destruct (fgets_chunk_nonempty _ c s room_positive) as (c' & chunk' & rest' & E'). rewrite E' in E, Hj. injection E as <- <-.
  apply (f_equal String.length) in Hj. cbn in Hj. rewrite length_append in Hj. lia.
Qed.
(** What [fgets] returns is the first chunk of any text it may begin. *)
Lemma chunks_read (ended : bool) s chunk rest t :
  complete (buffer_size - 1) s || ended && negb (String.eqb s "") = true → fgets_chunk (buffer_size - 1) s = (chunk, rest) →
  (ended = true → t = rest) → chunks (chunk ++ t) = chunk :: chunks t.
Proof.
  intros Hs E Ht. assert (s ≠ "") as Hne.
  { intros ->. unfold buffer_size in Hs. cbn in Hs. by rewrite andb_false_r in Hs. }
  pose proof room_positive as Hroom. destruct s as [|c s]; [done|].
  destruct (fgets_chunk_nonempty _ c s Hroom) as (c' & chunk' & rest' & E'). rewrite E' in E. injection E as <- <-.
  apply chunks_cons; [done|]. destruct (complete (buffer_size - 1) (String c s)) eqn:Hc.
  - pose proof (fgets_chunk_complete _ _ t Hc) as Hcut. by rewrite E' in Hcut.
  - pose proof (fgets_chunk_incomplete _ _ Hc) as Hall. rewrite E' in Hall. injection Hall as -> -> ->.
    cbn [orb] in Hs. apply andb_true_iff in Hs as [He _]. by rewrite (Ht He), append_nil_r, E'.
Qed.

(** ** What the two threads do *)
Section forwarder_facts.
Context (w : journal_world).
Implicit Type f : forwarder.

Lemma log_lines_snoc l chunk : log_lines w (l ++ [chunk])%list = (log_lines w l ++ log_line w (length l) chunk)%list.
Proof. unfold log_lines. rewrite imap_app, concat_app. cbn. by rewrite Nat.add_0_r, app_nil_r. Qed.

Definition to_send f : list log_data :=
  match worker f with Sends chunk => log_line w (pred (length (taken f))) chunk | _ => [] end.
Definition has_left f : bool := match worker f with Leaves | Closes | Reaps | Forgets | Returned => true | _ => false end.
Definition no_pipe f : bool := match worker f with Opens | Returned => true | _ => false end.
Record sound f : Prop := {
  so_text : joined (taken f) ++ journal f = printed f;
  so_chunks : ∀ t, (exited f = true → t = journal f) → chunks (joined (taken f) ++ t) = (taken f ++ chunks t)%list;
  so_sent : (sent f ++ to_send f)%list = log_lines w (taken f);
  so_left : has_left f = true → running f = false ∨ (exited f = true ∧ journal f = "") ∨ popen_ok w = false;
  so_pipe : no_pipe f = true → pipe f = false
}.
Lemma started_sound : sound started.
Proof. by split. Qed.

(** A turn of which only the control changes. *)
Definition same_text f f' : Prop :=
  taken f' = taken f ∧ journal f' = journal f ∧ printed f' = printed f ∧ exited f' = exited f ∧
  (sent f' ++ to_send f')%list = (sent f ++ to_send f)%list.
Lemma sound_same f f' : sound f → same_text f f' →
  (has_left f' = true → running f' = false ∨ (exited f = true ∧ journal f = "") ∨ popen_ok w = false) →
  (no_pipe f' = true → pipe f' = false) → sound f'.
Proof.
  intros [T C S L P] (Et & Ej & Ep & Ee & Es) HL HP. split; rewrite ?Et, ?Ej, ?Ep, ?Ee, ?Es; done.
Qed.
Lemma fgets_sound f f' : sound f → worker f = Gets → fgets f = Next f' → sound f'.
Proof.
  intros Hf Hw. pose proof Hf as [T C S L P]. unfold fgets. destruct (_ || _) eqn:Hready.
  2: { destruct (exited f) eqn:He; [|done]. intros [= <-]. apply (sound_same f _ Hf); cbn; [|intros _; right; left|done].
       - unfold same_text, to_send. by rewrite Hw.
       - split; [done|]. apply orb_false_iff in Hready as [_ Hempty]. cbn in Hempty. apply negb_false_iff in Hempty.
         by apply String.eqb_eq in Hempty. }
  destruct (fgets_chunk _ _) as [chunk rest] eqn:E. intros [= <-].
  pose proof (fgets_chunk_join (buffer_size - 1) (journal f)) as Hj. rewrite E in Hj.
  split; cbn.
  - by rewrite joined_snoc, append_assoc, <- Hj.
  - intros t Ht. rewrite joined_snoc, append_assoc, C; [|intros He; by rewrite (Ht He)].
    rewrite (chunks_read _ _ _ _ t Hready E Ht). by rewrite <- app_assoc.
  - unfold to_send in *. cbn. rewrite Hw, app_nil_r in S. rewrite S, log_lines_snoc, length_app, Nat.add_1_r. done.
  - done.
  - done.
Qed.
Lemma worker_sound f f' : sound f → worker_turn w f = Next f' → sound f'.
Proof.
  intros Hf. pose proof Hf as [T C S L P]. unfold worker_turn. destruct (worker f) eqn:Hw; try done.
  1: destruct (popen_ok w) eqn:Ho. 5: by apply fgets_sound.
  all: try (case_match; try done).
  all: intros [= <-]; apply (sound_same f _ Hf); cbn; try (by unfold same_text, to_send; rewrite Hw);
    unfold has_left, no_pipe in *; rewrite ?Hw in *; cbn in *; try done; auto.
  - unfold same_text, to_send. rewrite Hw. cbn. by rewrite app_nil_r.
  - intros _. destruct (L eq_refl) as [?|[[? ?]|?]]; auto.
Qed.
Lemma stop_sound f f' : sound f → stop_turn f = Next f' → sound f'.
Proof.
  intros Hf. unfold stop_turn. destruct (stopper f); try done; repeat case_match; try done;
    intros [= <-]; apply (sound_same f _ Hf); try done; cbn; auto; exact (so_left _ Hf) || exact (so_pipe _ Hf).
Qed.
Lemma turn_sound x f f' : sound f → take_turn w x f = Next f' → sound f'.
Proof.
  intros Hf. pose proof Hf as [T C S L P]. destruct x as [| | |text|]; cbn [take_turn].
  - by apply worker_sound.
  - by apply stop_sound.
  - destruct (stopper f); try done; intros [= <-]; by apply (sound_same f _ Hf).
  - destruct (exited f) eqn:He; [done|]. intros [= <-]. split; cbn; try done.
    + by rewrite <- T, append_assoc.
    + intros t _. by apply C.
    + intros Hl. destruct (L Hl) as [?|[[? _]|?]]; auto; congruence.
  - intros [= <-]. split; cbn; try done; [auto|]. intros Hl. destruct (L Hl) as [?|[[_ ?]|?]]; auto.
Qed.
Lemma run_sound turns f f' : sound f → run_forwarder w turns f = Some f' → sound f'.
Proof.
  revert f. induction turns as [|x turns IH]; intros f Hf; cbn [run_forwarder]; [by intros [= <-]|].
  destruct (take_turn w x f) eqn:E; [by apply IH|done|]. apply IH. by eapply turn_sound.
Qed.

(** Whatever the order of the turns, what was sent are the first lines of what the
    journal printed, in order, once each; all of them once the worker has returned
    without being stopped. *)
Lemma forwards_in_order turns f :
  run_forwarder w turns started = Some f →
  sent f `prefix_of` forwards w (printed f) ∧
  (worker f = Returned → running f = true → popen_ok w = true → sent f = forwards w (printed f)).
Proof.
  intros H%run_sound; [|apply started_sound]. destruct H as [T C S L P].
  assert (chunks (printed f) = (taken f ++ chunks (journal f))%list) as Hall by (rewrite <- T; by apply C). split.
  - exists (to_send f ++ concat (imap (λ i, log_line w (length (taken f) + i)) (chunks (journal f))))%list.
    unfold forwards. rewrite Hall, app_assoc, S. unfold log_lines. by rewrite imap_app, concat_app.
  - intros Hw Hr Ho. unfold has_left, to_send in *. rewrite Hw in *. rewrite app_nil_r in S.
    destruct (L eq_refl) as [?|[[_ He]|?]]; [congruence| |congruence].
    unfold forwards. by rewrite Hall, He, S, app_nil_r.
Qed.
End forwarder_facts.

(** ** [stop] ends once journalctl does *)
Section forwarder_stops.
Context (w : journal_world).
Implicit Type f : forwarder.

(** The steps each thread has left once [running_] is cleared. *)
Definition worker_left f : nat :=
  match worker f with
  | Returned => 0 | Forgets => 1 | Reaps => 2 | Closes => 3 | Leaves => 4 | Tests => 5 | Sends _ | Opens => 6 | Gets => 7 | Reads => 8
  end.
Definition stop_left f : nat :=
  match stopper f with
  | NotCalled | Stopped => 0 | StopJoins => 1 | StopForgets => 2 | StopReaps => 3 | StopCloses => 4 | StopLooks => 5
  | StopClears => 6 | StopTests => 7
  end.
Record told f : Prop := {
  told_running : running f = false;
  told_exited : exited f = true;
  told_called : stopper f ≠ NotCalled
}.
Lemma fgets_proceeds f : told f → worker f = Gets →
  ∃ f', fgets f = Next f' ∧ told f' ∧ worker_left f' < 7 ∧ stop_left f' = stop_left f.
Proof.
  intros [Hr He Hc] Hw. unfold fgets. rewrite He. destruct (_ || _).
  - destruct (fgets_chunk _ _) as [chunk rest]. eexists. split; [reflexivity|]. split; [by split|]. cbn. split; [lia|done].
  - eexists. split; [reflexivity|]. split; [by split|]. cbn. split; [lia|done].
Qed.
(** A turn of the worker brings it closer to its end, unless it is there. *)
Lemma worker_proceeds f : told f →
  match worker_turn w f with
  | Waits => worker f = Returned
  | Undefined => True
  | Next f' => told f' ∧ worker_left f' < worker_left f ∧ stop_left f' = stop_left f
  end.
Proof.
  intros Hf. pose proof Hf as [Hr He Hc]. unfold worker_turn. destruct (worker f) eqn:Hw; try done.
  4: { destruct (fgets_proceeds f Hf Hw) as (f' & -> & H). unfold worker_left at 2. by rewrite Hw. }
  all: rewrite ?Hr, ?He; unfold worker_left; rewrite Hw; destruct (usable f), (pipe f), (popen_ok w); cbn; repeat split; cbn; auto; lia.
Qed.
(** [stop] waits for the worker at most. *)
Lemma stop_proceeds f : told f →
  match stop_turn f with
  | Waits => stopper f = Stopped ∨ worker f ≠ Returned
  | Undefined => True
  | Next f' => told f' ∧ stop_left f' < stop_left f ∧ worker_left f' = worker_left f
  end.
Proof.
  intros [Hr He Hc]. unfold stop_turn. destruct (stopper f) eqn:Hs; try done; try (by left);
    rewrite ?Hr, ?He; unfold stop_left; rewrite Hs; destruct (usable f), (pipe f); destruct (worker f) eqn:Hw; cbn; try (by right); repeat split; cbn; auto; lia.
Qed.
Lemma run_app turns turns' f : run_forwarder w (turns ++ turns') f = run_forwarder w turns f ≫= run_forwarder w turns'.
Proof. revert f. induction turns as [|x turns IH]; intros f; [done|]. cbn [app run_forwarder]. by destruct (take_turn w x f). Qed.
Definition round : list turn := [Worker; Stopper].
Definition rounds (n : nat) : list turn := concat (replicate n round).
Lemma round_proceeds f f' :
  told f → run_forwarder w round f = Some f' →
  told f' ∧ (stopper f' = Stopped ∨ worker_left f' + stop_left f' < worker_left f + stop_left f).
Proof.
  intros Hf. cbn [round run_forwarder take_turn]. pose proof (worker_proceeds f Hf) as Hwork.
  destruct (worker_turn w f) as [| |f1]; try done.
  - pose proof (stop_proceeds f Hf) as Hstop. destruct (stop_turn f) as [| |f2]; try done; intros [= <-].
    + split; [done|]. left. by destruct Hstop.
    + destruct Hstop as (? & ? & ?). split; [done|]. right. lia.
  - destruct Hwork as (Hf1 & ? & ?). pose proof (stop_proceeds f1 Hf1) as Hstop.
    destruct (stop_turn f1) as [| |f2]; try done; intros [= <-].
    + split; [done|]. right. lia.
    + destruct Hstop as (? & ? & ?). split; [done|]. right. lia.
Qed.
Lemma round_stays f f' : told f → stopper f = Stopped → run_forwarder w round f = Some f' → stopper f' = Stopped.
Proof.
  intros Hf Hs. cbn [round run_forwarder take_turn]. destruct (worker_turn w f) as [| |f1] eqn:E; try done.
  - unfold stop_turn. rewrite Hs. by intros [= <-].
  - assert (stopper f1 = Stopped) as Hs1.
    { revert E. unfold worker_turn, fgets. repeat case_match; try done; intros [= <-]; cbn; congruence. }
    unfold stop_turn. rewrite Hs1. by intros [= <-].
Qed.
(** Once [running_] is cleared and journalctl has exited, 15 rounds are enough for
    [stop] to return, if the two threads do not both use the stream. *)
Lemma stop_ends n f f' :
  told f → 15 ≤ n → run_forwarder w (rounds n) f = Some f' → stopper f' = Stopped.
Proof.
  intros Hf Hn. assert (worker_left f + stop_left f ≤ n) as Hleft.
  { etransitivity; [|exact Hn]. unfold worker_left, stop_left. destruct (worker f), (stopper f); lia. }
  clear Hn. assert (stopper f = Stopped ∨ worker_left f + stop_left f ≤ n) as H by by right. clear Hleft.
  revert f Hf H. induction n as [|n IH]; intros f Hf H.
  - intros [= <-]. destruct H as [|H]; [done|]. unfold stop_left in H. pose proof (told_called _ Hf). destruct (stopper f); first [done|lia|congruence].
  - change (rounds (S n)) with (round ++ rounds n)%list. rewrite run_app. destruct (run_forwarder w round f) as [f1|] eqn:E; [|done].
    cbn [mbind option_bind]. destruct (round_proceeds _ _ Hf E) as (Hf1 & H1). apply IH; [done|].
    destruct H as [Hs|H]; [left; exact (round_stays f f1 Hf Hs E)|]. destruct H1; [by left|right; lia].
Qed.
(** Called after the journal ended and the worker returned, [stop] returns at once. *)
Lemma stop_after_end turns f :
  run_forwarder w turns started = Some f → worker f = Returned → stopper f = NotCalled →
  ∃ f', run_forwarder w (CallStop :: replicate 4 Stopper) f = Some f' ∧ stopper f' = Stopped ∧ sent f' = sent f.
Proof.
  intros H%run_sound Hw Hs; [|apply started_sound]. assert (pipe f = false) as Hp by (apply (so_pipe _ _ H); unfold no_pipe; by rewrite Hw).
  cbn [replicate run_forwarder take_turn]. rewrite Hs. unfold stop_turn. cbn.
  destruct (running f); cbn; rewrite ?Hp; cbn; rewrite ?Hw; by eexists.
Qed.
End forwarder_stops.
