(* ===== verification/Services.v ===== *)
(** * The life of a DAQ thread, and the services built around one
    (src/daemon/tpc_daq.cpp, data_monitor.cpp, data_mirror.cpp, hub_ip.h)

    A thread constructs the object it serves, initialises it, runs it and destroys
    it; its owner keeps the thread and the pointer, and stops the object through
    the pointer. The two interleave: a schedule says whose turn it is. *)
From Stdlib Require Import Ascii String Lia ZArith NArith.
From stdpp Require Import base tactics list numbers option strings.
From S2P Require Import Prelude CppString StorageUtils Threads MirrorState.

(** ** The thread *)
Inductive daq_phase :=
  | NoThread                               (** not joinable *)
  | Starting                               (** the object is being constructed *)
  | Constructed                            (** the pointer is set; in [Init] *)
  | Initialized                            (** about to call [Run] *)
  | Running                                (** in the loop [while (is_running_)] *)
  | Returned                               (** about to reset the pointer *)
  | Finished.                              (** the function has returned *)
#[export] Instance daq_phase_eq_dec : EqDecision daq_phase.
Proof. solve_decision. Defined.

Record daq := Daq {
  daq_ptr : bool;                          (** the pointer holds an object *)
  is_running_ : bool;                      (** the object's flag *)
  phase : daq_phase;
  in_run : bool                            (** the object holds a joinable thread: a run is on *)
}.
#[export] Instance daq_eta : RecordEta daq := λ d, Daq (daq_ptr d) (is_running_ d) (phase d) (in_run d).
Definition new_daq : daq := {| daq_ptr := false; is_running_ := false; phase := NoThread; in_run := false |}.

(** What a step of the thread meets: success, [Init] false (that of [Controller] is always
    true), an exception, a command of the hub (or an automatic stop) after which a run
    is on or not (Controller says when). *)
Inductive answer := Goes | Refuses | Throws | Commanded (run : bool).
(** What else a turn does: the exception handler around the whole is reached; the
    destructor of the object finds its data thread joinable: [std::terminate]. *)
Inductive incident := Quiet | Caught | Terminates.

(** [Controller] has an [Init] and its [Run] raises the flag first; the class of the
    data monitor is in a submodule, so [raises_flag] is open for it. *)
Record daq_kind := DaqKind { has_init : bool; raises_flag : bool }.
Definition controller_kind : daq_kind := {| has_init := true; raises_flag := true |}.

(** A turn of [TpcRunController] or [RunTpcMonitorController]. None: it cannot move. *)
Definition thread_turn (k : daq_kind) (a : answer) (d : daq) : option (daq * incident) :=
  match phase d, a with
  | NoThread, _ | Finished, _ => None
  | Running, Commanded run => Some (d <| in_run := run |>, Quiet)
  | _, Commanded _ => None
  | Starting, Goes =>
      Some (d <| daq_ptr := true |> <| is_running_ := true |> <| phase := Constructed |> <| in_run := false |>, Quiet)
  | Starting, _ => Some (d <| phase := Finished |>, Caught)
  | Constructed, _ =>
      if has_init k then
        match a with
        | Refuses => Some (d <| phase := Returned |>, Quiet)
        | Throws => Some (d <| phase := Returned |>, Caught)
        | _ => Some (d <| phase := Initialized |>, Quiet)
        end
      else Some (d <| phase := Initialized |>, Quiet)
  | Initialized, _ =>
      Some (d <| is_running_ ::= λ f, if raises_flag k then true else f |> <| phase := Running |>, Quiet)
  | Running, Goes => if is_running_ d then None else Some (d <| phase := Returned |>, Quiet)
  | Running, _ => Some (d <| phase := Returned |>, Quiet)
  | Returned, _ =>
      if in_run d then Some (d, Terminates)
      else Some (d <| daq_ptr := false |> <| phase := Finished |>, Quiet)
  end.

(** [daq_ptr->SetRunning(false)]; None: the pointer is null. *)
Definition SetRunning_false (d : daq) : option daq :=
  if daq_ptr d then Some (d <| is_running_ := false |>) else None.
Definition start_thread (d : daq) : daq := d <| phase := Starting |>.
Definition joinable (d : daq) : bool := bool_decide (phase d ≠ NoThread).
(** [thread.join()]; None: it waits. *)
Definition join (d : daq) : option daq :=
  match phase d with
  | NoThread => Some d
  | Finished => Some (d <| phase := NoThread |>)
  | _ => None
  end.

(** The pointer holds an object from its construction until the thread resets it. *)
Definition holds_object (ph : daq_phase) : bool :=
  match ph with Constructed | Initialized | Running | Returned => true | _ => false end.
Definition daq_ok (d : daq) : Prop := daq_ptr d = holds_object (phase d).
Lemma thread_turn_ok k a d d' e : daq_ok d → thread_turn k a d = Some (d', e) → daq_ok d'.
Proof.
  unfold daq_ok, thread_turn. destruct d as [p r [] run]; cbn; intros ->; repeat case_match;
    first [done | by intros [= <- <-]].
Qed.

(** ** [main] of a service: wait for a signal, stop the object, join the thread *)
Inductive main_phase :=
  | Checking                               (** about to test [g_running] *)
  | Waiting                                (** in [g_shutdown_cv.wait] *)
  | Stopping                               (** past [if (tpc_daq)], in its branch *)
  | Joining | Exited
  | Crashed                                (** a call through a null pointer *)
  | Aborted.                               (** [std::terminate] *)
Record service := Service { g_running : bool; main_at : main_phase; served : daq }.
#[export] Instance service_eta : RecordEta service :=
  λ s, Service (g_running s) (main_at s) (served s).
(** [Signal]: [SignalHandler] is run, for SIGTERM, SIGINT or SIGHUP alike. *)
Inductive service_turn := Signal | Main | Worker (a : answer).

Section service.
Context (k : daq_kind).

Definition main_turn (s : service) : option service :=
  match main_at s with
  | Checking => Some (s <| main_at := if g_running s then Waiting else Joining |>)
  | Waiting =>
      if g_running s then None
      else Some (s <| main_at := if daq_ptr (served s) then Stopping else Joining |>)
  | Stopping =>
      match SetRunning_false (served s) with
      | Some d => Some (s <| served := d |> <| main_at := Joining |>)
      | None => Some (s <| main_at := Crashed |>)
      end
  | Joining =>
      match join (served s) with
      | Some d => Some (s <| served := d <| daq_ptr := false |> |> <| main_at := Exited |>)
      | None => None
      end
  | Exited | Crashed | Aborted => None
  end.
Definition process_over (m : main_phase) : bool := match m with Crashed | Aborted => true | _ => false end.
Definition service_step (t : service_turn) (s : service) : option service :=
  if process_over (main_at s) then None
  else
    match t with
    | Signal => Some (s <| g_running := false |>)
    | Main => main_turn s
    | Worker a =>
        '(d, i) ← thread_turn k a (served s);
        Some (s <| served := d |> <| main_at ::= λ m, match i with Terminates => Aborted | _ => m end |>)
    end.
Definition run_service : list service_turn → service → service := turns service_step.
Definition started : service := {| g_running := true; main_at := Checking; served := start_thread new_daq |}.

(** Nothing fails: no exception, and [Init] succeeds. *)
Definition goes (t : service_turn) : Prop :=
  match t with Worker (Refuses | Throws) => False | _ => True end.
Definition service_agents : list (service_turn → Prop) := [eq Main; eq (Worker Goes)].

(** What is left to do, once a running object is to be stopped. *)
Definition steps_left (s : service) : option nat :=
  match g_running s, main_at s, phase (served s), is_running_ (served s), daq_ptr (served s) with
  | false, Waiting, Running, true, true => Some 5
  | false, Stopping, Running, true, true => Some 4
  | false, Joining, Running, false, true => Some 3
  | false, Joining, Returned, _, true => Some 2
  | false, Joining, Finished, _, _ => if in_run (served s) then None else Some 1
  | false, Exited, NoThread, _, _ => if in_run (served s) then None else Some 0
  | false, Aborted, Returned, _, _ => if in_run (served s) then Some 0 else None
  | _, _, _, _, _ => None
  end.

Definition stopping (s : service) : Prop := is_Some (steps_left s).
Definition left_over (s : service) : nat := default 0 (steps_left s).
Lemma stopping_turn t s :
  goes t → stopping s →
  stopping (turn service_step t s) ∧
  ((left_over (turn service_step t s) = left_over s ∧ left_over (turn service_step t s) = left_over s) ∨
   left_over (turn service_step t s) < left_over s).
Proof.
  unfold stopping, left_over, turn. intros Ht Hs. destruct s as [g mp [p r ph run]].
  destruct t as [| |[| | |b]]; try done; destruct g, mp, ph, r, p, run; cbn in *;
    try (by destruct Hs); repeat case_match; cbn; eauto with lia.
Qed.
(** Of [main] and the thread, one makes the next step. *)
Lemma stopping_agents s :
  stopping s → 0 < left_over s →
  Exists (λ P : service_turn → Prop, ∀ t s', stopping s' → left_over s' = left_over s → P t → goes t →
    left_over (turn service_step t s') < left_over s') service_agents.
Proof.
  intros _ Hpos. remember (left_over s) as n eqn:E. clear E. unfold service_agents. rewrite !Exists_cons.
  destruct (decide (n = 2 ∨ n = 3)) as [Hn|Hn]; [right; left|left]; intros t s' Hs' E <- _; revert Hs' E;
    unfold stopping, left_over, turn; destruct s' as [g mp [p r ph run]]; intros Hs' E;
    destruct g, mp, ph, r, p, run; cbn in *; try (by destruct Hs'); lia.
Qed.
Lemma stopping_rounds r sched s n :
  rounds service_agents r sched → Forall goes sched → steps_left s = Some n → n ≤ r →
  let s' := run_service sched s in
  (main_at s' = Exited ∧ in_run (served s') = false) ∨ (main_at s' = Aborted ∧ in_run (served s') = true).
Proof.
  intros Hr Hall Hs Hle.
  destruct (rounds_rank service_step service_agents goes stopping left_over left_over
    stopping_turn stopping_agents r sched s) as [[m Hm] H0]; [done|done|by exists n|unfold left_over; by rewrite Hs|].
  unfold run_service, left_over in *. rewrite Hm in H0. cbn in H0. subst m.
  revert Hm. generalize (turns service_step sched s). intros [g mp [p b ph run]].
  destruct g, mp, ph, b, p, run; cbn; auto; done.
Qed.
(** No command starts or stops a run. *)
Definition no_command (t : service_turn) : Prop := match t with Worker (Commanded _) => False | _ => True end.
Lemma no_command_run sched s b :
  Forall no_command sched → phase (served s) ≠ Starting ∧ in_run (served s) = b →
  phase (served (run_service sched s)) ≠ Starting ∧ in_run (served (run_service sched s)) = b.
Proof.
  apply (turns_preserve service_step no_command (λ s, phase (served s) ≠ Starting ∧ in_run (served s) = b)).
  clear s. intros t [g mp [p f ph run]] Ht [Hph <-]. unfold turn. destruct t as [| |[| | |c]]; try done; cbn in *;
    destruct mp, ph, run; try done; cbn; unfold thread_turn, SetRunning_false; cbn; repeat case_match; try done; by simplify_eq.
Qed.

(** Until [main] has stopped it, the flag of an object is up. *)
Definition untouched (m : main_phase) : bool :=
  match m with Checking | Waiting | Stopping => true | _ => false end.
Definition service_ok (s : service) : bool :=
  match main_at s with
  | Exited | Crashed | Aborted => true
  | m =>
      Bool.eqb (daq_ptr (served s)) (holds_object (phase (served s))) &&
      (negb (untouched m) || negb (daq_ptr (served s)) || is_running_ (served s))
  end.
Lemma service_step_ok t s : service_ok s = true → service_ok (turn service_step t s) = true.
Proof.
  unfold turn. destruct s as [g mp [p r ph run]], t as [| |a]; cbn.
  - by destruct mp.
  - by destruct g, mp, ph, p, r.
  - unfold thread_turn. destruct ph, a, mp, run; cbn; try done; by destruct p, r, (has_init k), (raises_flag k).
Qed.
Lemma run_service_ok sched s : service_ok s = true → service_ok (run_service sched s) = true.
Proof.
  apply (turns_preserve service_step (λ _, True) (λ s, service_ok s = true)); [|by apply Forall_true].
  intros. by apply service_step_ok.
Qed.
Lemma signalled_running s :
  service_ok s = true → g_running s = false → main_at s = Waiting → phase (served s) = Running →
  steps_left s = Some 5.
Proof. destruct s as [g mp [p r ph run]]; cbn; intros Hok -> -> ->. by destruct p, r. Qed.

(** [main] waits for a thread that nothing will stop. *)
Definition unstoppable (s : service) : bool :=
  match main_at s, phase (served s), is_running_ (served s) with
  | Joining, (Starting | Constructed | Initialized), _ => raises_flag k
  | Joining, Running, r => r
  | _, _, _ => false
  end.
Lemma unstoppable_step t s : goes t → unstoppable s = true → unstoppable (turn service_step t s) = true.
Proof.
  intros Ht. destruct s as [g mp [p r ph run]]. unfold unstoppable, turn.
  destruct t as [| |[| | |b]], mp, ph; try done; cbn; destruct (has_init k), (raises_flag k), r; done.
Qed.
Lemma run_service_unstoppable l s : Forall goes l → unstoppable s = true → unstoppable (run_service l s) = true.
Proof. apply (turns_preserve service_step goes (λ s, unstoppable s = true)), unstoppable_step. Qed.
End service.

(** ** The controller of the time-of-flight detector (tof_daq.cpp, daq_orchestrator.cpp)

    Its class is in a submodule: what is used is that [run] returns after [stop]. *)
Inductive tof_answer := ConfigFails | StartThrows | InitFails | TofStarts.
(** A thread the object owns: not joinable, running, its function returned. *)
Inductive thread_phase := Absent | Active | Over.
#[export] Instance thread_phase_eq_dec : EqDecision thread_phase.
Proof. solve_decision. Defined.
Record tof := Tof {
  tof_ptr : bool;
  tof_stop : bool;                         (** [tof_ptr->stop()] was called *)
  tof_thread : thread_phase
}.
#[export] Instance tof_eta : RecordEta tof := λ t, Tof (tof_ptr t) (tof_stop t) (tof_thread t).
Definition new_tof : tof := {| tof_ptr := false; tof_stop := false; tof_thread := Absent |}.

(** The boolean: [std::runtime_error] for a configuration that cannot be loaded. *)
Definition StartTofProcess (a : tof_answer) (t : tof) : tof * bool :=
  match tof_thread t, a with
  | Active, _ | Over, _ => (t, false)
  | Absent, ConfigFails => (t, true)
  | Absent, (StartThrows | InitFails) => (t <| tof_ptr := false |>, false)
  | Absent, TofStarts => (Tof true false Active, false)
  end.
(** A turn of the thread of [run]; the boolean: an exception leaves it, and nothing
    in the thread catches it. *)
Definition tof_turn (a : answer) (t : tof) : option (tof * bool) :=
  match tof_thread t, a with
  | Active, Goes => if tof_stop t then Some (t <| tof_thread := Over |>, false) else None
  | Active, Refuses => Some (t <| tof_thread := Over |>, false)
  | Active, Throws => Some (t, true)
  | _, _ => None
  end.
Definition tof_join (t : tof) : option tof :=
  match tof_thread t with Active => None | _ => Some (t <| tof_thread := Absent |>) end.
(** The thread is there exactly as long as the pointer holds the controller. *)
Definition tof_ok (t : tof) : bool :=
  match tof_thread t with Absent => negb (tof_ptr t) | _ => tof_ptr t end.
Lemma StartTofProcess_ok a t : tof_ok t = true → tof_ok (StartTofProcess a t).1 = true.
Proof. by destruct t as [[] [] []], a. Qed.

(** [main] of tof_daq.cpp: SIGTERM, SIGINT and SIGHUP are blocked from the first line on,
    so that one sent at any time waits for [sigwait]. *)
Inductive tof_main_phase := TofBooting | TofWaiting | TofStopping | TofJoining | TofExited | TofTerminated.
Record tof_service := TofService { tof_pending : bool; tof_main : tof_main_phase; tof_proc : tof }.
#[export] Instance tof_service_eta : RecordEta tof_service :=
  λ s, TofService (tof_pending s) (tof_main s) (tof_proc s).
Inductive tof_service_turn := TofSignal | TofMain | TofWorker (a : answer).

Section tof_service.
Context (boot : tof_answer).
(** [WaitForThreadJoin] gives up after 5 s, and then waits for the joining task in the
    destructor of its future: it returns when the thread has ended. *)
Definition tof_main_turn (s : tof_service) : option tof_service :=
  match tof_main s with
  | TofBooting =>
      let '(t, threw) := StartTofProcess boot (tof_proc s) in
      Some (s <| tof_proc := t |> <| tof_main := if threw then TofStopping else TofWaiting |>)
  | TofWaiting => if tof_pending s then Some (s <| tof_main := TofStopping |>) else None
  | TofStopping =>
      if tof_ptr (tof_proc s)
      then Some (s <| tof_proc ::= (λ t, t <| tof_stop := true |>) |> <| tof_main := TofJoining |>)
      else Some (s <| tof_main := TofExited |>)
  | TofJoining =>
      t ← tof_join (tof_proc s);
      Some (s <| tof_proc := t <| tof_ptr := false |> |> <| tof_main := TofExited |>)
  | TofExited | TofTerminated => None
  end.
Definition tof_service_step (t : tof_service_turn) (s : tof_service) : option tof_service :=
  match t with
  | TofSignal => Some (s <| tof_pending := true |>)
  | TofMain => tof_main_turn s
  | TofWorker a =>
      '(p, threw) ← tof_turn a (tof_proc s);
      Some (s <| tof_proc := p |> <| tof_main ::= λ m, if threw : bool then TofTerminated else m |>)
  end.
Definition run_tof_service : list tof_service_turn → tof_service → tof_service := turns tof_service_step.
Definition tof_started : tof_service :=
  {| tof_pending := false; tof_main := TofBooting; tof_proc := new_tof |}.
End tof_service.
(** The configuration cannot be loaded: the service ends with EXIT_SUCCESS. *)
Example tof_config_failure :
  tof_main (run_tof_service ConfigFails [TofMain; TofMain] tof_started) = TofExited.
Proof. done. Qed.
(** The controller does not initialise: the service stays, with nothing to run, until a signal. *)
Example tof_init_failure :
  tof_main (run_tof_service InitFails [TofMain; TofMain; TofMain] tof_started) = TofWaiting.
Proof. done. Qed.
(** A signal sent before the controller was started is kept, and stops it. *)
Example tof_early_signal :
  tof_main (run_tof_service TofStarts [TofSignal; TofMain; TofMain; TofMain; TofWorker Goes; TofMain] tof_started)
  = TofExited.
Proof. done. Qed.

(** ** The hub's address and the arguments of the mirror daemon (hub_ip.h, data_mirror.cpp) *)
Definition HubIp (o : os) : string := default "127.0.0.1"%string (non_empty (os_getenv o "HUB_IP")).
(** What [main] does with its arguments: [Run] with a rate limit, or the usage. *)
Inductive parsed := RunWith (max_mbytes_per_sec : N) | Return (rc : Z).
Fixpoint parse_args (args : list string) (max_mbytes_per_sec : N) : parsed :=
  match args with
  | [] => RunWith max_mbytes_per_sec
  | a :: args =>
      if String.eqb a "--max-mbps" then
        match args with
        | [] => Return 1
        | n :: args => parse_args args (default 0%N (strtoull n))
        end
      else if String.eqb a "--help" || String.eqb a "-h" then Return 0
      else Return 1
  end.
Example parse_args_last : parse_args ["--max-mbps"; "80"; "--max-mbps"; "12x"]%string 0 = RunWith 12.
Proof. done. Qed.
Example parse_args_missing : parse_args ["--max-mbps"; "80"; "--max-mbps"]%string 0 = Return 1.
Proof. done. Qed.
Lemma HubIp_not_empty o : string_empty (HubIp o) = false.
Proof.
  unfold HubIp, non_empty. destruct (os_getenv o "HUB_IP") as [v|]; [|done]. by destruct (string_empty v) eqn:E.
Qed.

(** ** What a stop signal does to a service *)

(** C24. A stop signal ends a service that is up: the object is in its loop and [main] waits
    for the signal. However the turns fall after that, and whatever commands the object still
    handles, as long as nothing throws, five rounds in each of which both threads have a turn
    are enough for the process to be over. If no run is on when the object's loop ends, [main]
    has told the object to stop, joined its thread and returned; if one is on, the process was
    terminated by the object's destructor. Whether one is on does not change without a command. *)
Theorem service_stops (k : daq_kind) (before after : list service_turn) :
  let s := run_service k before started in
  main_at s = Waiting → phase (served s) = Running →
  rounds service_agents 5 after → Forall goes after →
  let s' := run_service k (Signal :: after) s in
  main_at s' = (if in_run (served s') then Aborted else Exited) ∧
  (Forall no_command after → in_run (served s') = in_run (served s)).
Proof.
  intros s Hmain Hphase Hr Hall s'. assert (Hok : service_ok s = true) by by apply run_service_ok. split.
  - assert (turn (service_step k) Signal s = s <| g_running := false |>) as Hsig
      by (unfold turn, service_step; by rewrite Hmain).
    assert (steps_left (s <| g_running := false |>) = Some 5) as H5.
    { apply signalled_running; [|done|done|done]. rewrite <-Hsig. by apply service_step_ok. }
    assert (s' = run_service k after (s <| g_running := false |>)) as -> by (rewrite <-Hsig; done).
    by destruct (stopping_rounds k 5 after _ 5 Hr Hall H5 (le_n 5)) as [[-> ->]|[-> ->]].
  - intros Hno. apply (no_command_run k (Signal :: after)); [by apply Forall_cons|].
    split; [by rewrite Hphase|done].
Qed.
(** Threads that start without trouble, then the signal, then five rounds. *)
Definition up : list service_turn := [Main; Worker Goes; Worker Goes; Worker Goes].
Definition five_rounds : list service_turn := concat (replicate 5 [Worker Goes; Main]).
Lemma goes_five_rounds : Forall goes five_rounds.
Proof. unfold five_rounds, goes. cbn. repeat (apply Forall_cons; split; [done|]). by apply Forall_nil. Qed.
Lemma rounds_five : rounds service_agents 5 five_rounds.
Proof.
  apply (rounds_concat service_agents [Worker Goes; Main] 5).
  unfold service_agents. rewrite !Forall_cons, Forall_nil, !Exists_cons. auto.
Qed.
(** Stopped outside a run the service ends, stopped in one the process is terminated. *)
Lemma service_stops_witness :
  main_at (run_service controller_kind (Signal :: five_rounds) (run_service controller_kind up started)) = Exited ∧
  main_at (run_service controller_kind (Signal :: five_rounds)
    (run_service controller_kind (up ++ [Worker (Commanded true)]) started)) = Aborted.
Proof.
  split.
  - by destruct (service_stops controller_kind up five_rounds eq_refl eq_refl rounds_five goes_five_rounds) as [-> _].
  - by destruct (service_stops controller_kind (up ++ [Worker (Commanded true)]) five_rounds
      eq_refl eq_refl rounds_five goes_five_rounds) as [-> _].
Defined.

(** A stop signal that arrives while the thread is still constructing or initialising its
    object is lost: [main] found the pointer null, or its [SetRunning(false)] is overwritten
    when [Run] raises the flag again. The object then runs, and whatever the later turns,
    with as many more signals as one likes, [main] stays in [daq_thread.join()]. *)
Theorem early_stop_is_lost (k : daq_kind) (before after : list service_turn) :
  let s := run_service k before started in
  raises_flag k = true →
  main_at s = Joining → phase (served s) ∈ [Starting; Constructed; Initialized] →
  Forall goes after →
  main_at (run_service k after s) = Joining.
Proof.
  intros s Hk Hmain Hphase Hall.
  assert (Hs : unstoppable k s = true).
  { unfold unstoppable. rewrite Hmain. rewrite !elem_of_cons, elem_of_nil in Hphase. by destruct Hphase as [-> | [-> | [-> | []]]]. }
  pose proof (run_service_unstoppable k after s Hall Hs) as Hu. unfold unstoppable in Hu.
  by destruct (main_at (run_service k after s)).
Qed.
(** The signal finds the object in [Init]. *)
Lemma early_stop_is_lost_witness :
  main_at (run_service controller_kind five_rounds
    (run_service controller_kind [Main; Worker Goes; Signal; Main; Main] started)) = Joining.
Proof.
  apply (early_stop_is_lost controller_kind [Main; Worker Goes; Signal; Main; Main] five_rounds);
    [reflexivity|reflexivity|repeat constructor|exact goes_five_rounds].
Defined.
(** The constructor throws (no configuration file): the log says so, and [main] goes on waiting,
    with nothing to serve. *)
Example failed_start_leaves_service :
  let s := run_service controller_kind [Main; Worker Throws; Main; Main; Main] started in
  main_at s = Waiting ∧ phase (served s) = Finished.
Proof. done. Qed.
(** The thread resets the pointer between [if (tpc_daq)] and the call through it. *)
Example pointer_reset_race :
  main_at (run_service controller_kind
    [Main; Worker Goes; Worker Goes; Worker Goes; Worker Throws; Signal; Main; Worker Goes; Main] started) = Crashed.
Proof. done. Qed.
