(* ===== verification/Orchestrator.v ===== *)
(** * The orchestrator: commands that start and stop the services
    (src/daemon/orchestrator.cpp)

    The hub's commands become calls to systemd, to the shell and to the file that
    names the data disk for the services that start. The calls are recorded in
    order and answered by a [machine], whose answers depend on what was called
    before. The status packets are in ComputerStatus. *)
From Stdlib Require Import Ascii String Lia ZArith NArith.
From stdpp Require Import base tactics list numbers option strings sets.
From S2P Require Import Prelude CppString StorageUtils.
Local Open Scope string_scope.

(** The commands of the hub the switch has a case for; their codes are declared
    in a submodule. *)
Inductive orc_command :=
  | ORC_Start_Computer_Status | ORC_Stop_Computer_Status | ORC_Boot_All_DAQ | ORC_Shutdown_All_DAQ
  | ORC_Boot_Tpc_Daq | ORC_Shutdown_Tpc_Daq | ORC_Boot_Tof_Daq | ORC_Shutdown_Tof_Daq
  | ORC_Exec_CPU_Restart | ORC_Exec_CPU_Shutdown | ORC_Init_PCIe_Driver | ORC_Boot_Monitor
  | ORC_Shutdown_Monitor | ORC_Start_PPS | ORC_Send_Pulse_Train | ORC_Stop_PPS
  | ORC_Restart_Orchestrator | ORC_Clear_Errors | ORC_Set_Data_SSD0 | ORC_Set_Data_SSD1
  | ORC_Start_Data_Mirroring | ORC_Stop_Data_Mirroring.
#[export] Instance orc_command_eq_dec : EqDecision orc_command.
Proof. solve_decision. Defined.
Definition all_commands : list orc_command :=
  [ORC_Start_Computer_Status; ORC_Stop_Computer_Status; ORC_Boot_All_DAQ; ORC_Shutdown_All_DAQ;
   ORC_Boot_Tpc_Daq; ORC_Shutdown_Tpc_Daq; ORC_Boot_Tof_Daq; ORC_Shutdown_Tof_Daq;
   ORC_Exec_CPU_Restart; ORC_Exec_CPU_Shutdown; ORC_Init_PCIe_Driver; ORC_Boot_Monitor;
   ORC_Shutdown_Monitor; ORC_Start_PPS; ORC_Send_Pulse_Train; ORC_Stop_PPS;
   ORC_Restart_Orchestrator; ORC_Clear_Errors; ORC_Set_Data_SSD0; ORC_Set_Data_SSD1;
   ORC_Start_Data_Mirroring; ORC_Stop_Data_Mirroring].
Class OrchestratorCodes := {
  code_of : orc_command → Z;
  COM_HeartBeat : Z;
  code_of_inj : Inj (=) (=) code_of
}.
#[export] Existing Instance code_of_inj.
(** The case a code selects; None for [default]. *)
Definition decode `{OrchestratorCodes} (code : Z) : option orc_command :=
  snd <$> list_find (λ c, code_of c = code) all_commands.

(** The error bits of [DaqCompMonitor], declared in a submodule. *)
Inductive error_bit :=
  | init_pcie | disk_free_status | reboot_computer | start_tpc_daq | start_tpc_dm
  | cpu_temp_status | disk_temp_status | memory_usage_status | cpu_usage_status.

Definition kOrchestrator : string := "orchestrator.service".
Definition kTpcDaq : string := "tpc_daq.service".
Definition kDataMonitor : string := "data_monitor.service".
Definition kTofDaq : string := "tof_daq.service".
Definition kDataMirror : string := "data_mirror.service".
Inductive unit_method := kStartUnit | kStopUnit | kRestartUnit.
#[export] Instance unit_method_eq_dec : EqDecision unit_method.
Proof. solve_decision. Defined.

(** What systemd answers: no bus, the call failed, the job was queued. *)
Inductive bus_result := NoBus | CallFailed | Queued.
#[export] Instance bus_result_eq_dec : EqDecision bus_result.
Proof. solve_decision. Defined.
#[export] Instance error_bit_eq_dec : EqDecision error_bit.
Proof. solve_decision. Defined.
Inductive action :=
  | Job (unit_name : string) (method : unit_method) (r : bus_result)
  | System (command : string) (ret : Z)
  | Conf (content : string)               (** /run_number/data_ssd.conf rewritten *)
  | ConfFailed                            (** it could not be opened *)
  | ErrorBit (b : error_bit) | ClearErrors | LastCommand (code : Z)
  | StartStatus | JoinStatus
  | CancelStatus | TermStatus | KillStatus. (** [pthread_cancel], [pthread_kill] of the status thread *)
#[export] Instance action_eq_dec : EqDecision action.
Proof. solve_decision. Defined.

Record machine := Machine {
  mc_os : list action → os;
  mc_bus : list action → bus_result;
  mc_conf_opens : list action → bool;
  mc_system : list action → string → Z;
  mc_join : list action → nat              (** waits of 5 s before the status thread is joined *)
}.

Record orchestrator := Orchestrator {
  g_running : bool;
  g_status_running : bool;
  status_thread : bool;                   (** status_thread.joinable() *)
  log : list action
}.
#[export] Instance orchestrator_eta : RecordEta orchestrator := λ s,
  Orchestrator (g_running s) (g_status_running s) (status_thread s) (log s).
Definition new_orchestrator : orchestrator :=
  {| g_running := true; g_status_running := false; status_thread := false; log := [] |}.

Section handler.
Context (mc : machine) `{OrchestratorCodes}.
Notation orc := (st_err orchestrator).

Definition act (a : action) : orc () := st_modify (λ s, s <| log ::= λ l, (l ++ [a])%list |>).
Definition os_now : orc os := λ s, (s, Some (mc_os mc (log s))).
Definition system (command : string) : orc Z := λ s,
  let ret := mc_system mc (log s) command in
  (act (System command ret) ;;~ st_ret ret) s.

Definition ControlService (unit_name : string) (method : unit_method) : orc bool := λ s,
  let r := mc_bus mc (log s) in
  (act (Job unit_name method r) ;;~ st_ret match r with Queued => true | _ => false end) s.

(** ** [storage_utils::WriteDataBaseDirConf] *)
Definition newline : string := String "010" EmptyString.
Definition conf_line (path : string) : string := "DATA_BASE_DIR=" ++ path ++ newline.
Definition WriteDataBaseDirConf (path : string) : orc bool := λ s,
  if mc_conf_opens mc (log s) then (act (Conf (conf_line path)) ;;~ st_ret true) s
  else (act ConfFailed ;;~ st_ret false) s.

Definition AutoSelectDataDir : orc bool :=
  o <~ os_now ;;
  let pick := SelectNvmeDataDir o (PickMaxFreeEnabled o) kDiskRunStartMinFreeBytes in
  if string_empty (path pick) then st_ret false
  else if negb (ok pick) then act (ErrorBit disk_free_status) ;;~ st_ret false
  else
    written <~ WriteDataBaseDirConf (path pick) ;;
    st_ret written.

Definition RebootComputer : orc () :=
  ret <~ system "systemctl reboot" ;;
  if (ret =? 0)%Z then st_ret () else act (ErrorBit reboot_computer).
Definition InitPcieDriver : orc () :=
  o <~ os_now ;;
  match os_getenv o "TPC_DAQ_BASEDIR" with
  | None => act (ErrorBit init_pcie)
  | Some readout_basedir =>
      ret <~ system (readout_basedir ++ "/scripts/setup_windriver.sh") ;;
      if (ret =? 0)%Z then st_ret () else act (ErrorBit init_pcie)
  end.

(** The file is opened, and emptied, before the variable is used; constructing a
    [std::string] from a null pointer throws. *)
Definition set_data_ssd (var : string) : orc () := λ s,
  let data_ssd := os_getenv (mc_os mc (log s)) var in
  if mc_conf_opens mc (log s) then
    match data_ssd with
    | Some dir => act (Conf (" " ++ conf_line dir)) s
    | None => (act (Conf " DATA_BASE_DIR=") ;;~ st_get None) s
    end
  else act ConfFailed s.

Definition start_status : orc () := λ s,
  if status_thread s then (s, Some ())
  else act StartStatus (s <| g_status_running := true |> <| status_thread := true |>).
(** Each wait of 5 s that times out is answered with more force: a cancellation, a SIGTERM,
    which only runs [SignalHandler], a SIGKILL, which ends the process. *)
Definition WaitForThreadJoin : orc () := λ s,
  if status_thread s then
    let late := mc_join mc (log s) in
    ((if (1 <=? late)%nat then act CancelStatus else st_ret ()) ;;~
     (if (2 <=? late)%nat then act TermStatus ;;~ st_modify (λ s, s <| g_running := false |>) else st_ret ()) ;;~
     (if (3 <=? late)%nat then act KillStatus ;;~ st_get None else st_ret ()) ;;~
     st_modify (λ s, s <| status_thread := false |>) ;;~
     act JoinStatus) s
  else (s, Some ()).
Definition stop_status : orc () :=
  st_modify (λ s, s <| g_status_running := false |>) ;;~ WaitForThreadJoin.
Definition stop_daq : orc () :=
  ControlService kTpcDaq kStopUnit ;;~
  ControlService kTofDaq kStopUnit ;;~
  ControlService kDataMonitor kStopUnit ;;~
  st_ret ().

Definition run_command (c : orc_command) : orc () :=
  match c with
  | ORC_Start_Computer_Status => start_status
  | ORC_Boot_All_DAQ =>
      selected <~ AutoSelectDataDir ;;
      (if selected : bool then
         ControlService kTpcDaq kStartUnit ;;~ ControlService kDataMonitor kStartUnit ;;~ st_ret ()
       else st_ret ()) ;;~
      ControlService kTofDaq kStartUnit ;;~ st_ret ()
  | ORC_Shutdown_All_DAQ => stop_daq
  | ORC_Boot_Tpc_Daq =>
      selected <~ AutoSelectDataDir ;;
      if selected : bool then ControlService kTpcDaq kStartUnit ;;~ st_ret () else st_ret ()
  | ORC_Shutdown_Tpc_Daq => ControlService kTpcDaq kStopUnit ;;~ st_ret ()
  | ORC_Boot_Tof_Daq => ControlService kTofDaq kStartUnit ;;~ st_ret ()
  | ORC_Shutdown_Tof_Daq => ControlService kTofDaq kStopUnit ;;~ st_ret ()
  | ORC_Stop_Computer_Status => stop_status
  | ORC_Exec_CPU_Restart => stop_daq ;;~ RebootComputer
  | ORC_Exec_CPU_Shutdown => stop_daq
  | ORC_Init_PCIe_Driver => InitPcieDriver
  | ORC_Boot_Monitor => ControlService kDataMonitor kStartUnit ;;~ st_ret ()
  | ORC_Shutdown_Monitor => ControlService kDataMonitor kStopUnit ;;~ st_ret ()
  | ORC_Start_PPS => system "ad3_ctrl 1" ;;~ system "ad3_ctrl 2" ;;~ st_ret ()
  | ORC_Send_Pulse_Train => system "ad3_ctrl 3" ;;~ st_ret ()
  | ORC_Stop_PPS => system "ad3_ctrl 4" ;;~ st_ret ()
  | ORC_Restart_Orchestrator => ControlService kOrchestrator kRestartUnit ;;~ st_ret ()
  | ORC_Clear_Errors => act ClearErrors
  | ORC_Set_Data_SSD0 => set_data_ssd "DATA_SSD0_DIR"
  | ORC_Set_Data_SSD1 => set_data_ssd "DATA_SSD1_DIR"
  | ORC_Start_Data_Mirroring => ControlService kDataMirror kStartUnit ;;~ st_ret ()
  | ORC_Stop_Data_Mirroring => ControlService kDataMirror kStopUnit ;;~ st_ret ()
  end.

Definition DAQHandler_pass (code : Z) : orc () :=
  match decode code with Some c => run_command c | None => st_ret () end ;;~
  if (code =? COM_HeartBeat)%Z then st_ret () else act (LastCommand code).
Definition shutdown : orc () :=
  st_modify (λ s, s <| g_status_running := false |>) ;;~
  stop_daq ;;~
  stop_status.
(** The commands received until [g_running] is false, then the shutdown. *)
Fixpoint DAQHandler (codes : list Z) : orc () :=
  match codes with
  | [] => shutdown
  | code :: codes =>
      DAQHandler_pass code ;;~ (λ s, if g_running s then DAQHandler codes s else shutdown s)
  end.
End handler.
Local Close Scope string_scope.

(** ** What the services are told *)
Section facts.
Context (mc : machine) `{OrchestratorCodes}.
Notation orc := (st_err orchestrator).
Open Scope list_scope.

(** The data services of the TPC are started right after the file was written with
    a disk that had the room a run needs. *)
Definition tpc_gated (l : list action) : Prop :=
  ∀ pre r post, l = pre ++ Job kTpcDaq kStartUnit r :: post →
  ∃ pre' dir, pre = pre' ++ [Conf (conf_line dir)] ∧
    dir ∈ GetNvmeCandidatesFromEnv (mc_os mc pre') ∧
    has_room (mc_os mc pre') kDiskRunStartMinFreeBytes dir.
(** Whether a status thread is there; None when one was started beside another, or
    joined without being there. *)
Definition status_threads (l : list action) : option bool :=
  foldl (λ b a, match a, b with
                | StartStatus, Some false => Some true
                | JoinStatus, Some true => Some false
                | StartStatus, _ | JoinStatus, _ => None
                | _, b => b
                end) (Some false) l.
(** The last job of a service. *)
Definition last_job (unit_name : string) (l : list action) : option unit_method :=
  last (omap (λ a, match a with Job u m _ => if decide (u = unit_name) then Some m else None | _ => None end) l).

Definition consistent (s : orchestrator) : Prop :=
  tpc_gated (log s) ∧ status_threads (log s) = Some (status_thread s).
(** Code that keeps the log consistent, also when it throws. *)
Definition keeps_consistent {A} (c : orc A) : Prop := ∀ s, consistent s → consistent (c s).1.

Lemma keeps_bind {A B} (c : orc A) (k : A → orc B) :
  keeps_consistent c → (∀ a, keeps_consistent (k a)) → keeps_consistent (st_bind c k).
Proof.
  intros Hc Hk s Hs. unfold st_bind. specialize (Hc s Hs). destruct (c s) as [s1 [a|]]; [|done]. by apply Hk.
Qed.
Lemma keeps_assoc {A B C} (c : orc A) (k : A → orc B) (h : B → orc C) :
  keeps_consistent (st_bind (st_bind c k) h) → keeps_consistent (st_bind c (λ a, st_bind (k a) h)).
Proof.
  intros Hc s Hs. specialize (Hc s Hs). revert Hc. unfold st_bind. by destruct (c s) as [s1 [a|]].
Qed.
Lemma keeps_ret {A} (a : A) : keeps_consistent (st_ret a : orc A).
Proof. by intros s Hs. Qed.
Lemma tpc_gated_snoc l a :
  tpc_gated l → (∀ r, a ≠ Job kTpcDaq kStartUnit r) → tpc_gated (l ++ [a]).
Proof.
  intros Hl Ha pre r post E. destruct post as [|b post _] using rev_ind.
  - apply app_inj_tail in E as [_ E]. by apply Ha in E.
  - rewrite app_comm_cons, app_assoc in E. apply app_inj_tail in E as [-> _]. by eapply Hl.
Qed.
(** An action that starts no gated service and no thread. *)
Definition plain (a : action) : bool :=
  match a with
  | Job u kStartUnit _ => negb (String.eqb u kTpcDaq)
  | StartStatus | JoinStatus => false
  | _ => true
  end.
Lemma status_threads_snoc l a : plain a = true → status_threads (l ++ [a]) = status_threads l.
Proof. unfold status_threads. rewrite foldl_app. cbn. by destruct a. Qed.
Lemma consistent_plain s a : plain a = true → consistent s → consistent (s <| log ::= λ l, l ++ [a] |>).
Proof.
  intros Ha [Hg Ht]. split; cbn; [|by rewrite status_threads_snoc].
  apply tpc_gated_snoc; [done|]. by intros r ->.
Qed.
Lemma keeps_act a : plain a = true → keeps_consistent (act a).
Proof. intros Ha s. by apply consistent_plain. Qed.
Lemma keeps_system c : keeps_consistent (system mc c).
Proof. intros s. by apply consistent_plain. Qed.
Lemma keeps_job u m : negb (String.eqb u kTpcDaq) || bool_decide (m ≠ kStartUnit) = true → keeps_consistent (ControlService mc u m).
Proof. intros Hum s. apply consistent_plain. cbn. destruct m; cbn in *; try done. by rewrite orb_false_r in Hum. Qed.
Lemma keeps_os : keeps_consistent (os_now mc).
Proof. by intros s Hs. Qed.

Lemma AutoSelect_cases s :
  ∃ s' b, AutoSelectDataDir mc s = (s', Some b) ∧
    if b : bool
    then ∃ dir, s' = s <| log ::= λ l, l ++ [Conf (conf_line dir)] |> ∧
           dir ∈ GetNvmeCandidatesFromEnv (mc_os mc (log s)) ∧ has_room (mc_os mc (log s)) kDiskRunStartMinFreeBytes dir
    else s' = s ∨ ∃ a, plain a = true ∧ s' = s <| log ::= λ l, l ++ [a] |>.
Proof.
  unfold AutoSelectDataDir, os_now, st_bind at 1. set (o := mc_os mc (log s)).
  pose proof (select_good o (PickMaxFreeEnabled o) kDiskRunStartMinFreeBytes) as [_ Hgood].
  set (pick := SelectNvmeDataDir _ _ _) in *. clearbody pick.
  destruct (string_empty (path pick)); [exists s, false; auto|].
  destruct (ok pick) eqn:Hok; cbn [negb].
  - destruct (Hgood eq_refl) as [Hin Hroom]. unfold st_bind, WriteDataBaseDirConf, act, st_modify, st_ret.
    destruct (mc_conf_opens mc (log s)); eexists _, _; (split; [reflexivity|]).
    + by exists (path pick).
    + right. by exists ConfFailed.
  - eexists _, false. split; [reflexivity|]. right. by exists (ErrorBit disk_free_status).
Qed.
Lemma keeps_tpc_start {A} (k k' : orc A) :
  keeps_consistent k → keeps_consistent k' →
  keeps_consistent (selected <~ AutoSelectDataDir mc ;;
    if selected : bool then ControlService mc kTpcDaq kStartUnit ;;~ k else k').
Proof.
  intros Hk Hk' s Hs. destruct (AutoSelect_cases s) as (s' & b & E & Hb). unfold st_bind at 1. rewrite E.
  destruct b.
  - destruct Hb as (dir & -> & Hin & Hroom). unfold st_bind, ControlService, act, st_modify, st_ret. apply Hk.
    destruct Hs as [Hg Ht]. split; cbn; [|unfold status_threads in *; by rewrite !foldl_app, Ht].
    intros pre r post E'. destruct post as [|a post _] using rev_ind.
    + apply app_inj_tail in E' as [<- _]. exists (log s), dir. by split_and!.
    + rewrite app_comm_cons, app_assoc in E'. apply app_inj_tail in E' as [E' _].
      apply (tpc_gated_snoc _ (Conf (conf_line dir))) in Hg; [|done]. by apply (Hg pre r post).
  - apply Hk'. destruct Hb as [->|(a & Ha & ->)]; [done|by apply consistent_plain].
Qed.

Lemma keeps_stop_daq : keeps_consistent (stop_daq mc).
Proof. unfold stop_daq. repeat (apply keeps_bind; [by apply keeps_job|intros ?]). apply keeps_ret. Qed.
Lemma keeps_start_status : keeps_consistent start_status.
Proof.
  intros s [Hg Ht]. unfold start_status. destruct (status_thread s) eqn:E; [split; cbn; [done|by rewrite E]|].
  split; cbn; [by apply tpc_gated_snoc|]. unfold status_threads in *. by rewrite foldl_app, Ht.
Qed.
(** What is done before the status thread is joined. *)
Definition escalation (late : nat) : list action := take late [CancelStatus; TermStatus; KillStatus].
Lemma WaitForThreadJoin_spec s :
  WaitForThreadJoin mc s =
  if status_thread s then
    let late := mc_join mc (log s) in
    (Orchestrator (g_running s && (late <? 2)) (g_status_running s) (3 <=? late)
       (log s ++ escalation late ++ if 3 <=? late then [] else [JoinStatus]),
     if 3 <=? late then None else Some ())
  else (s, Some ()).
Proof.
  unfold WaitForThreadJoin. destruct s as [g gs [] l]; [|done].
  destruct (mc_join _ _) as [|[|[|n]]]; unfold st_bind, act, st_modify, st_get, st_ret, escalation; cbn;
    by rewrite ?andb_true_r, ?andb_false_r, <-?app_assoc, ?take_nil.
Qed.
Lemma keeps_escalation late s : consistent s → consistent (s <| log ::= λ l, l ++ escalation late |>).
Proof.
  assert (Forall (λ a, plain a = true) (escalation late)) as Hp by (apply Forall_take; by repeat constructor).
  revert s. induction Hp as [|a l Ha Hp IH]; intros s Hs; cbn; [rewrite app_nil_r; by destruct s|].
  specialize (IH _ (consistent_plain s a Ha Hs)). cbn in IH. by rewrite <-app_assoc in IH.
Qed.
Lemma keeps_WaitForThreadJoin : keeps_consistent (WaitForThreadJoin mc).
Proof.
  intros s Hs. rewrite WaitForThreadJoin_spec. destruct (status_thread s) eqn:E; [|done]. cbn zeta.
  set (late := mc_join mc (log s)). destruct (keeps_escalation late s Hs) as [Hg Ht].
  change (log (s <| log ::= λ l, l ++ escalation late |>)) with (log s ++ escalation late) in Hg, Ht.
  change (status_thread (s <| log ::= λ l, l ++ escalation late |>)) with (status_thread s) in Ht. rewrite E in Ht.
  unfold consistent. cbn [fst log status_thread]. rewrite app_assoc. destruct (3 <=? late); rewrite ?app_nil_r; [done|].
  split; [by apply tpc_gated_snoc|]. unfold status_threads in *. by rewrite foldl_app, Ht.
Qed.
Lemma keeps_stop_status : keeps_consistent (stop_status mc).
Proof. apply keeps_bind; [by intros s Hs|intros _; apply keeps_WaitForThreadJoin]. Qed.
Lemma keeps_set_data_ssd var : keeps_consistent (set_data_ssd mc var).
Proof.
  intros s Hs. unfold set_data_ssd. destruct (mc_conf_opens mc (log s)); [|by apply consistent_plain].
  destruct (os_getenv _ var) as [dir|].
  - by refine (consistent_plain s (Conf (" " ++ conf_line dir)%string) _ _).
  - by refine (consistent_plain s (Conf " DATA_BASE_DIR=") _ _).
Qed.
#[local] Hint Resolve keeps_ret keeps_system keeps_os keeps_stop_daq keeps_start_status keeps_stop_status keeps_set_data_ssd : readout.
#[local] Hint Extern 1 (keeps_consistent (ControlService _ _ _)) => by apply keeps_job : readout.
#[local] Hint Extern 1 (keeps_consistent (act _)) => by apply keeps_act : readout.

Lemma keeps_run_command c : keeps_consistent (run_command mc c).
Proof.
  destruct c; cbn [run_command]; unfold RebootComputer, InitPcieDriver; eauto with readout.
  all: try (repeat (apply keeps_bind; [by eauto with readout|intros ?]); repeat case_match; by eauto with readout).
  - apply keeps_assoc, keeps_bind; [|intros ?; apply keeps_bind; [by apply keeps_job|intros ?; apply keeps_ret]].
    apply keeps_tpc_start; [|apply keeps_ret]. apply keeps_bind; [by apply keeps_job|intros ?; apply keeps_ret].
  - apply keeps_tpc_start; apply keeps_ret.
  - apply keeps_bind; [apply keeps_os|intros o]. destruct (os_getenv o _); [|eauto with readout].
    apply keeps_bind; [apply keeps_system|intros ret]. destruct (ret =? 0)%Z; eauto with readout.
Qed.
Lemma keeps_pass code : keeps_consistent (DAQHandler_pass mc code).
Proof.
  unfold DAQHandler_pass. apply keeps_bind; [destruct (decode code); eauto using keeps_run_command with readout|].
  intros _. destruct (_ =? _)%Z; eauto with readout.
Qed.
Lemma keeps_shutdown : keeps_consistent (shutdown mc).
Proof.
  unfold shutdown. apply keeps_bind; [intros s Hs; exact Hs|intros _].
  apply keeps_bind; [apply keeps_stop_daq|intros _; apply keeps_stop_status].
Qed.
Lemma keeps_handler codes : keeps_consistent (DAQHandler mc codes).
Proof.
  induction codes as [|code codes IH]; [apply keeps_shutdown|]. apply keeps_bind; [apply keeps_pass|].
  intros _ s Hs. destruct (g_running s); [by apply IH|by apply keeps_shutdown].
Qed.

(** ** The shutdown *)
Lemma last_job_snoc u a l :
  last_job u (l ++ [a]) =
  match a with Job v m _ => if decide (v = u) then Some m else last_job u l | _ => last_job u l end.
Proof.
  unfold last_job. rewrite omap_app. cbn. destruct a; cbn; rewrite ?app_nil_r; try done.
  case_decide; cbn; [by rewrite last_snoc|by rewrite app_nil_r].
Qed.
(** A status thread that is still not joined after 15 s: the process is killed. *)
Definition killed (s s' : orchestrator) : Prop :=
  status_thread s = true ∧ 3 ≤ mc_join mc (log s) ∧ log s' = log s ++ [CancelStatus; TermStatus; KillStatus].
Lemma last_job_app u l l' :
  Forall (λ a, match a with Job _ _ _ => False | _ => True end) l' → last_job u (l ++ l') = last_job u l.
Proof.
  revert l. induction l' as [|a l' IH]; intros l Hl; [by rewrite app_nil_r|]. apply Forall_cons_1 in Hl as [Ha Hl].
  rewrite cons_middle, app_assoc, IH, last_job_snoc by done. by destruct a.
Qed.
Lemma stop_status_spec s :
  let '(s', r) := stop_status mc s in
  match r with
  | Some _ =>
      status_thread s' = false ∧ g_status_running s' = false ∧ ∀ u, last_job u (log s') = last_job u (log s)
  | None => ∃ s0, killed s0 s'
  end.
Proof.
  unfold stop_status, st_bind, st_modify. rewrite WaitForThreadJoin_spec. cbn.
  destruct (status_thread s) eqn:E; [|by cbn]. cbn zeta. set (late := mc_join mc (log s)).
  assert (∀ u l', Forall (λ a, match a with Job _ _ _ => False | _ => True end) l' →
    last_job u (log s ++ l') = last_job u (log s)) as Hlast by (intros; by apply last_job_app).
  destruct late as [|[|[|n]]] eqn:Hl; unfold escalation; cbn -[last_job].
  1-3: split; [done|]; split; [done|]; intros u; apply Hlast; by repeat constructor.
  exists s. unfold killed. fold late. rewrite Hl, take_nil. split; [done|]. split; [lia|done].
Qed.
Lemma stop_daq_spec s :
  let s' := (stop_daq mc s).1 in
  (stop_daq mc s).2 = Some () ∧
  Forall (λ u, last_job u (log s') = Some kStopUnit) [kTpcDaq; kTofDaq; kDataMonitor].
Proof. split; [done|]. cbn [log]. repeat constructor; cbn -[last_job]; by rewrite !last_job_snoc. Qed.
Lemma shutdown_spec s :
  let '(s', r) := shutdown mc s in
  match r with
  | Some _ =>
      status_thread s' = false ∧ g_status_running s' = false ∧
      Forall (λ u, last_job u (log s') = Some kStopUnit) [kTpcDaq; kTofDaq; kDataMonitor]
  | None => ∃ s0, killed s0 s'
  end.
Proof.
  unfold shutdown, st_bind, st_modify. pose proof (stop_daq_spec (s <| g_status_running := false |>)) as [E Hj].
  destruct (stop_daq mc _) as [s1 r1]; cbn in E, Hj. subst r1. pose proof (stop_status_spec s1) as H1.
  destruct (stop_status mc s1) as [s2 [[]|]]; [|done]. destruct H1 as (-> & -> & Hlast). split_and!; [done..|].
  eapply Forall_impl; [exact Hj|]. intros u Hu. cbn beta in *. by rewrite Hlast.
Qed.

(** The one exception a command throws: the disk's variable is not set, and the
    file, already emptied, is left without a disk. *)
Definition ends_daemon (c : orc_command) (s s' : orchestrator) : Prop :=
  (∃ var, (c, var) ∈ [(ORC_Set_Data_SSD0, "DATA_SSD0_DIR"%string); (ORC_Set_Data_SSD1, "DATA_SSD1_DIR"%string)] ∧
          os_getenv (mc_os mc (log s)) var = None) ∧
  log s' = log s ++ [Conf " DATA_BASE_DIR="].
Lemma run_command_throws c s s' :
  run_command mc c s = (s', None) → ends_daemon c s s' ∨ ∃ s0, killed s0 s'.
Proof.
  assert (∀ var, set_data_ssd mc var s = (s', None) →
    os_getenv (mc_os mc (log s)) var = None ∧ log s' = log s ++ [Conf " DATA_BASE_DIR="]) as Hset.
  { intros var. unfold set_data_ssd. destruct (mc_conf_opens mc (log s)); [|done].
    destruct (os_getenv _ var); [done|]. unfold st_bind, act, st_modify, st_get. by intros [= <-]. }
  destruct c; cbn [run_command]; try done.
  - unfold start_status. by destruct (status_thread s).
  - intros E. right. pose proof (stop_status_spec s) as Hs. by rewrite E in Hs.
  - destruct (AutoSelect_cases s) as (s1 & b & E & _). unfold st_bind at 1. rewrite E. by destruct b.
  - destruct (AutoSelect_cases s) as (s1 & b & E & _). unfold st_bind at 1. rewrite E. by destruct b.
  - unfold stop_daq, RebootComputer, system, ControlService, st_bind, act, st_modify, st_ret. cbn.
    by destruct (_ =? 0)%Z.
  - unfold InitPcieDriver, os_now, system, st_bind, act, st_modify, st_ret.
    destruct (os_getenv _ _); [|done]. cbn. by destruct (_ =? 0)%Z.
  - intros E%Hset. left. split; [|apply E]. eexists. split; [by left|apply E].
  - intros E%Hset. left. split; [|apply E]. eexists. split; [by right; left|apply E].
Qed.

(** C23. The orchestrator over any commands, whatever the machine answers. The TPC
    read-out is only ever started right after the data disk file was written with
    a candidate disk that had 5 GiB free; there is never a second status thread,
    and none is joined that was not started. When it is told to stop it ends with
    no status thread and with a stop as the last job of each data service. It can end
    otherwise in two ways: by the uncaught exception of a command that names a disk
    whose variable is not set, which leaves the disk file without a disk, and by the
    SIGKILL it sends itself for a status thread it could not join in 15 s. *)
Theorem DAQHandler_safe (codes : list Z) :
  let '(s, r) := DAQHandler mc codes new_orchestrator in
  tpc_gated (log s) ∧ status_threads (log s) = Some (status_thread s) ∧
  match r with
  | Some _ =>
      status_thread s = false ∧ g_status_running s = false ∧
      Forall (λ u, last_job u (log s) = Some kStopUnit) [kTpcDaq; kTofDaq; kDataMonitor]
  | None =>
      (∃ code c s0, code ∈ codes ∧ decode code = Some c ∧ ends_daemon c s0 s) ∨ ∃ s0, killed s0 s
  end.
Proof.
  assert (consistent new_orchestrator) as Hnew.
  { split; [|done]. intros pre r post E. by destruct pre. }
  revert Hnew. generalize new_orchestrator. induction codes as [|code codes IH]; intros s Hs.
  - cbn [DAQHandler]. pose proof (keeps_shutdown s Hs) as [Hg Ht]. pose proof (shutdown_spec s) as Hsh.
    destruct (shutdown mc s) as [s' [[]|]]; (split; [exact Hg|]; split; [exact Ht|]; first [exact Hsh|right; exact Hsh]).
  - cbn [DAQHandler]. pose proof (keeps_pass code s Hs) as Hs1. unfold st_bind.
    destruct (DAQHandler_pass mc code s) as [s1 [[]|]] eqn:E; cbn in Hs1.
    + destruct (g_running s1).
      * specialize (IH s1 Hs1). destruct (DAQHandler mc codes s1) as [s2 [u|]]; [done|].
        destruct IH as (? & ? & [(code' & c & s0 & Hin & Hrest)|?]); (split_and!; [done..|]); [left|by right].
        exists code', c, s0. split; [by right|done].
      * pose proof (keeps_shutdown s1 Hs1) as [Hg Ht]. pose proof (shutdown_spec s1) as Hsh.
        destruct (shutdown mc s1) as [s' [[]|]]; (split; [exact Hg|]; split; [exact Ht|]; first [exact Hsh|right; exact Hsh]).
    + destruct Hs1 as [Hg Ht]. split_and!; [done..|]. revert E. unfold DAQHandler_pass, st_bind.
      destruct (decode code) as [c|] eqn:Hc; [|by destruct (_ =? _)%Z].
      destruct (run_command mc c s) as [s2 [[]|]] eqn:E2; [by destruct (_ =? _)%Z|].
      intros [= <-]. apply run_command_throws in E2 as [E2|?]; [left|by right]. exists code, c, s. by split; [left|].
Qed.

Lemma decode_code c : decode (code_of c) = Some c.
Proof.
  unfold decode. destruct (list_find _ _) as [[i c']|] eqn:E.
  - apply list_find_Some in E as (_ & E & _). by apply code_of_inj in E as ->.
  - exfalso. apply (proj1 (list_find_None _ _)) in E. rewrite Forall_forall in E. apply (E c); [|done].
    destruct c; unfold all_commands; set_solver.
Qed.
End facts.

(** ** A day *)
Definition demo_code (c : orc_command) : Z :=
  default 0%Z (Z.of_nat ∘ fst <$> list_find (λ c', c' = c) all_commands).
#[export] Instance demo_orc_codes : OrchestratorCodes.
Proof. refine {| code_of := demo_code; COM_HeartBeat := 1000 |}. intros [] [] E; by vm_compute in E. Defined.
Definition demo_machine : machine := Machine (λ _, demo_os) (λ _, Queued) (λ _, true) (λ _ _, 0%Z) (λ _, 0).
Example demo_day :
  let '(s, r) := DAQHandler demo_machine (demo_code <$> [ORC_Boot_Tpc_Daq; ORC_Start_Computer_Status]) new_orchestrator in
  r = Some () ∧ take 2 (log s) = [Conf (conf_line "/mnt/ssd1"); Job kTpcDaq kStartUnit Queued].
Proof. vm_compute. done. Qed.
(** With DATA_SSD0_DIR unset the daemon dies. *)
Example demo_unset_disk :
  (DAQHandler demo_machine [demo_code ORC_Set_Data_SSD0; demo_code ORC_Boot_All_DAQ] new_orchestrator).2 = None.
Proof. vm_compute. done. Qed.
(** A status thread that hangs for 10 s: the SIGTERM sent to it ends the daemon. *)
Example demo_stuck_status :
  let mc := Machine (λ _, demo_os) (λ _, Queued) (λ _, true) (λ _ _, 0%Z) (λ _, 2) in
  let '(s, r) := DAQHandler mc (demo_code <$> [ORC_Start_Computer_Status; ORC_Stop_Computer_Status; ORC_Boot_Tof_Daq])
                   new_orchestrator in
  r = Some () ∧ bool_decide (Job kTofDaq kStartUnit Queued ∈ log s) = false.
Proof. vm_compute. done. Qed.
