(* ===== verification/DaqOrchestrator.v ===== *)
(** * The orchestrator that runs the DAQ in its own process
    (src/daemon/daq_orchestrator.cpp)

    [DAQHandler] starts and stops the controllers of the TPC and of its data monitor,
    each in a thread of its own (Services), the one of the time-of-flight detector and
    a status thread, and waits for each thread it stops. The threads move between
    the handler's steps: a schedule says whose turn it is. *)
From Stdlib Require Import Ascii String Lia ZArith NArith.
From stdpp Require Import base tactics list numbers option strings.
From S2P Require Import Prelude CppString StorageUtils Threads MirrorState Services Orchestrator.

(** ** The state *)
Inductive which := Tpc | Monitor.
Inductive daq_comp := bit_tpc | bit_tof | bit_tpc_monitor.

(** What a command makes the handler do, in order. *)
Inductive op :=
  | StartDaqProcess (w : which) | StopDaqProcess (w : which)
  | StartTof | StopTof
  | StartStatusThread | StatusOff | JoinStatusThread
  | SetDaqBitWord (c : daq_comp) (clear : bool)
  | Init_PCIe | Restart_CPU
  | Leave.                                 (** the locals of [DAQHandler] are destroyed *)

(** Inside [StopDaqProcess] and [StopTofProcess]. *)
Inductive stage := Next | Setting (w : which) | Joins (w : which) | Resets (w : which) | JoinsTof | ResetsTof.

Inductive outcome :=
  | Going
  | Ended                                  (** [DAQHandler] returned *)
  | NullCall                               (** a call through a null pointer *)
  | Terminated                             (** [std::terminate] *)
  | Killed.                                (** SIGKILL *)

Record daemon_state := DaemonState {
  running : bool;                          (** [g_running] *)
  status_running : bool;                   (** [g_status_running] *)
  tpc_controller_daq : daq;
  tpc_monitor_controller_daq : daq;
  g_tof : tof;
  status_worker : thread_phase;
  at_system : orchestrator;                (** the calls made, and the error bits set *)
  bit_words : list (daq_comp * bool);      (** the calls of [setDaqBitWord] *)
  reading : bool;                          (** in [ReadRecvBuffer] *)
  agenda : list op;
  doing : stage;
  waited : nat;                            (** timeouts of [WaitForThreadJoin] so far *)
  ending : outcome
}.
#[export] Instance daemon_state_eta : RecordEta daemon_state := λ s,
  DaemonState (running s) (status_running s) (tpc_controller_daq s) (tpc_monitor_controller_daq s) (g_tof s)
    (status_worker s) (at_system s) (bit_words s) (reading s) (agenda s) (doing s) (waited s) (ending s).
Definition proc (w : which) (s : daemon_state) : daq :=
  match w with Tpc => tpc_controller_daq s | Monitor => tpc_monitor_controller_daq s end.
Definition set_proc (w : which) (d : daq) (s : daemon_state) : daemon_state :=
  match w with
  | Tpc => s <| tpc_controller_daq := d |>
  | Monitor => s <| tpc_monitor_controller_daq := d |>
  end.
Definition booted : daemon_state := {|
  running := true; status_running := false; tpc_controller_daq := new_daq; tpc_monitor_controller_daq := new_daq;
  g_tof := new_tof; status_worker := Absent; at_system := new_orchestrator; bit_words := [];
  reading := false; agenda := []; doing := Next; waited := 0; ending := Going
|}.

(** ** Commands; a case whose lines are commented out does nothing. *)
Definition command_ops (c : orc_command) : list op :=
  match c with
  | ORC_Start_Computer_Status => [StartStatusThread]
  | ORC_Boot_All_DAQ | ORC_Shutdown_All_DAQ | ORC_Exec_CPU_Shutdown => []
  | ORC_Boot_Tpc_Daq => [StartDaqProcess Tpc; SetDaqBitWord bit_tpc false]
  | ORC_Shutdown_Tpc_Daq => [StopDaqProcess Tpc; SetDaqBitWord bit_tpc true]
  | ORC_Boot_Tof_Daq => [StartTof; SetDaqBitWord bit_tof false]
  | ORC_Shutdown_Tof_Daq => [StopTof; SetDaqBitWord bit_tof true]
  | ORC_Stop_Computer_Status => [StatusOff; JoinStatusThread]
  | ORC_Exec_CPU_Restart => [Restart_CPU]
  | ORC_Init_PCIe_Driver => [Init_PCIe]
  | ORC_Boot_Monitor => [StartDaqProcess Monitor; SetDaqBitWord bit_tpc_monitor false]
  | ORC_Shutdown_Monitor => [StopDaqProcess Monitor; SetDaqBitWord bit_tpc_monitor true]
  | _ => []
  end.
Definition shutdown_ops : list op :=
  [StatusOff; StopDaqProcess Tpc; StopDaqProcess Monitor; StopTof; JoinStatusThread; Leave].

Section daemon.
Context (mc : machine) `{OrchestratorCodes}.
(** Whether the [Run] of the data monitor, whose class is in a submodule, raises its flag. *)
Context (monitor_raises : bool).
Definition kind_of (w : which) : daq_kind :=
  match w with
  | Tpc => controller_kind
  | Monitor => {| has_init := false; raises_flag := monitor_raises |}
  end.
Definition start_error (w : which) : error_bit := match w with Tpc => start_tpc_daq | Monitor => start_tpc_dm end.
Definition do_system (c : st_err orchestrator ()) (s : daemon_state) : daemon_state :=
  s <| at_system := (c (at_system s)).1 |>.

(** ** The handler's steps *)
(** [~std::thread] of a thread that is still joinable terminates the program. *)
Definition leave (s : daemon_state) : outcome :=
  if joinable (proc Tpc s) || joinable (proc Monitor s) || bool_decide (tof_thread (g_tof s) ≠ Absent)
     || bool_decide (status_worker s ≠ Absent)
  then Terminated else Ended.
Definition start_op (a : tof_answer) (o : op) (s : daemon_state) : option daemon_state :=
  match o with
  | StartDaqProcess w =>
      Some (if joinable (proc w s) then s else set_proc w (start_thread (proc w s)) s)
  | StopDaqProcess w => Some (if daq_ptr (proc w s) then (s <| doing := Setting w |>) else s)
  | StartTof =>
      let '(t, threw) := StartTofProcess a (g_tof s) in
      Some (s <| g_tof := t |> <| ending := if threw then Terminated else Going |>)
  | StopTof =>
      Some (if tof_ptr (g_tof s)
            then s <| g_tof ::= (λ t, t <| tof_stop := true |>) |> <| doing := JoinsTof |> else s)
  | StartStatusThread =>
      Some (match status_worker s with
            | Absent => s <| status_running := true |> <| status_worker := Active |>
            | _ => s
            end)
  | StatusOff => Some (s <| status_running := false |>)
  | JoinStatusThread =>
      match status_worker s with Active => None | _ => Some (s <| status_worker := Absent |> <| waited := 0 |>) end
  | SetDaqBitWord c clear => Some (s <| bit_words ::= λ l, l ++ [(c, clear)] |>)
  | Init_PCIe => Some (do_system (InitPcieDriver mc) s)
  | Restart_CPU => Some (do_system (RebootComputer mc) s)
  | Leave => Some (s <| ending := leave s |>)
  end.
Definition handler_turn (a : tof_answer) (s : daemon_state) : option daemon_state :=
  match doing s with
  | Next =>
      match agenda s with
      | o :: ops => start_op a o (s <| agenda := ops |>)
      | [] =>
          if reading s then None
          else Some (if running s then s <| reading := true |> else s <| agenda := shutdown_ops |>)
      end
  | Setting w =>
      Some (match SetRunning_false (proc w s) with
            | Some d => (set_proc w d s) <| doing := Joins w |>
            | None => s <| ending := NullCall |>
            end)
  | Joins w => d ← join (proc w s); Some ((set_proc w d s) <| doing := Resets w |> <| waited := 0 |>)
  | Resets w => Some ((set_proc w ((proc w s) <| daq_ptr := false |>) s) <| doing := Next |>)
  | JoinsTof => t ← tof_join (g_tof s); Some (s <| g_tof := t |> <| doing := ResetsTof |> <| waited := 0 |>)
  | ResetsTof => Some (s <| g_tof ::= (λ t, t <| tof_ptr := false |>) |> <| doing := Next |>)
  end.

(** ** The turns of all threads *)
Inductive daemon_turn :=
  | Handler (a : tof_answer)
  | Receive (code : Z)                     (** [ReadRecvBuffer] returns *)
  | Thread (w : which) (a : answer)
  | TofThread (a : answer)
  | StatusThread
  | SignalD                                (** [SignalHandler] *)
  | Timeout                                (** 5 s in [WaitForThreadJoin] *)
  | Cancelled (w : which).                 (** a cancelled controller thread acts on it *)

(** [WaitForThreadJoin] waits for a thread. *)
Definition waits (s : daemon_state) : bool :=
  match doing s with
  | Joins w => match join (proc w s) with None => true | _ => false end
  | JoinsTof => match tof_join (g_tof s) with None => true | _ => false end
  | Next => match agenda s, status_worker s with JoinStatusThread :: _, Active => true | _, _ => false end
  | _ => false
  end.
(** After 5 s [pthread_cancel], after 10 s SIGTERM, which only runs [SignalHandler], after
    15 s SIGKILL. *)
Definition escalate (s : daemon_state) : daemon_state :=
  match waited s with
  | 0 => s <| waited := 1 |>
  | 1 => s <| waited := 2 |> <| running := false |>
  | _ => s <| ending := Killed |>
  end.
Definition daemon_step (t : daemon_turn) (s : daemon_state) : option daemon_state :=
  match ending s with
  | Going =>
      match t with
      | Handler a => handler_turn a s
      | Receive code =>
          if reading s
          then Some (s <| reading := false |> <| agenda := default [] (command_ops <$> decode code) |>)
          else None
      | Thread w a =>
          '(d, i) ← thread_turn (kind_of w) a (proc w s);
          Some (let s' := set_proc w d s in
                match i with
                | Quiet => s'
                | Caught => do_system (act (ErrorBit (start_error w))) s'
                | Terminates => s' <| ending := Terminated |>
                end)
      | TofThread a =>
          '(t, threw) ← tof_turn a (g_tof s);
          Some (s <| g_tof := t |> <| ending := if threw : bool then Terminated else Going |>)
      | StatusThread =>
          match status_worker s with
          | Active => if status_running s then None else Some (s <| status_worker := Over |>)
          | _ => None
          end
      | SignalD => Some (s <| running := false |>)
      | Timeout => if waits s then Some (escalate s) else None
      | Cancelled w =>
          (* the handlers [catch (...)] of the thread do not rethrow the cancellation *)
          match doing s, phase (proc w s) with
          | Joins w', (Starting | Constructed | Initialized | Running | Returned) =>
              match w, w', waited s with
              | Tpc, Tpc, S _ | Monitor, Monitor, S _ => Some (s <| ending := Terminated |>)
              | _, _, _ => None
              end
          | _, _ => None
          end
      end
  | _ => None
  end.
Definition run_daemon : list daemon_turn → daemon_state → daemon_state := turns daemon_step.
End daemon.

(** ** The shape of the state *)
Section facts.
Context (mc : machine) `{OrchestratorCodes} (monitor_raises : bool).
Notation step := (daemon_step mc monitor_raises).
Notation run := (run_daemon mc monitor_raises).

Lemma proc_set w d s : proc w (set_proc w d s) = d.
Proof. by destruct w. Qed.
Definition other (w : which) : which := match w with Tpc => Monitor | Monitor => Tpc end.
Lemma proc_set_other w d s : proc (other w) (set_proc w d s) = proc (other w) s.
Proof. by destruct w. Qed.

(** The pointer of each object is set exactly while its thread is between its construction
    and its destruction; the time-of-flight controller goes with its thread. *)
Definition owned (s : daemon_state) : Prop :=
  daq_ok (proc Tpc s) ∧ daq_ok (proc Monitor s) ∧
  match doing s with
  | Resets w => phase (proc w s) = NoThread ∧ tof_ok (g_tof s) = true
  | JoinsTof => tof_ok (g_tof s) = true ∧ tof_ptr (g_tof s) = true
  | ResetsTof => tof_thread (g_tof s) = Absent
  | _ => tof_ok (g_tof s) = true
  end.
Lemma owned_booted : owned booted.
Proof. done. Qed.
Lemma owned_set w d s :
  owned s → daq_ok d → (doing s = Resets w → phase d = NoThread) → owned (set_proc w d s).
Proof.
  intros (Ht & Hm & Hd) Hok Hr. destruct w; unfold owned; cbn; (split; [done|]); (split; [done|]);
    destruct (doing s) as [|w'|w'|w'| |]; try done; destruct w'; cbn in *; naive_solver.
Qed.
Lemma owned_start_op a o s s' : doing s = Next → owned s → start_op mc a o s = Some s' → owned s'.
Proof.
  intros Hn Hs. pose proof Hs as (Ht & Hm & Hd). rewrite Hn in Hd.
  destruct o; cbn [start_op]; intros E; simplify_eq; try (unfold owned; cbn; by rewrite ?Hn).
  - destruct (joinable (proc w s)) eqn:Hj; [done|]. apply owned_set; [done| |by rewrite Hn].
    assert (daq_ok (proc w s)) as Hw by by destruct w. revert Hj Hw. unfold joinable, daq_ok. cbn.
    rewrite bool_decide_eq_false. intros Hj. by rewrite (dec_stable Hj).
  - destruct (daq_ptr (proc w s)); [|done]. by unfold owned; cbn.
  - pose proof (StartTofProcess_ok a _ Hd). destruct (StartTofProcess a (g_tof s)) as [t threw]. simplify_eq.
    unfold owned; cbn. by rewrite Hn.
  - destruct (tof_ptr (g_tof s)) eqn:Hp; [|done]. unfold owned; cbn. by destruct (g_tof s) as [[] ? []].
  - destruct (status_worker s); [|done|done]. unfold owned; cbn; by rewrite Hn.
  - destruct (status_worker s); simplify_eq; unfold owned; cbn; by rewrite Hn.
Qed.
Lemma owned_handler a s s' : owned s → handler_turn mc a s = Some s' → owned s'.
Proof.
  intros Hs. pose proof Hs as (Ht & Hm & Hd). assert (∀ w, daq_ok (proc w s)) as Hw by by intros [].
  unfold handler_turn. destruct (doing s) as [|w|w|w| |] eqn:Hdo.
  - destruct (agenda s) as [|o ops].
    + destruct (reading s); [done|]. intros [= <-]. destruct (running s); unfold owned; cbn; by rewrite Hdo.
    + apply owned_start_op; [done|]. unfold owned; cbn; by rewrite Hdo.
  - unfold SetRunning_false. destruct (daq_ptr (proc w s)) eqn:Hp; intros [= <-].
    + apply (owned_set w ((proc w s) <| is_running_ := false |>)) in Hs; [|apply (Hw w)|by rewrite Hdo].
      destruct Hs as (Ht' & Hm' & Hd'). destruct w; unfold owned in *; cbn in *; by rewrite Hdo in Hd'.
    + unfold owned; cbn; by rewrite Hdo.
  - specialize (Hw w). unfold daq_ok in Hw. unfold join. intros E.
    destruct (phase (proc w s)) eqn:Hp; cbn in E; simplify_eq;
      destruct w; unfold owned, daq_ok in *; cbn in *; rewrite ?Hp, ?Hw in *; done.
  - intros [= <-]. destruct Hd as [Hp Hd]. unfold owned; unfold daq_ok; destruct w; cbn in *; by rewrite ?Hp.
  - unfold tof_join. destruct Hd as [Hd Hp]. intros E. destruct (tof_thread (g_tof s)) eqn:E'; cbn in E; simplify_eq; by unfold owned; cbn.
  - intros [= <-]. unfold owned; cbn. unfold tof_ok; cbn. by rewrite Hd.
Qed.
Lemma owned_turn t s : owned s → owned (turn step t s).
Proof.
  intros Hs. unfold turn, daemon_step. destruct (ending s); try done. pose proof Hs as (Ht & Hm & Hd).
  destruct t as [a|code|w a|a| | | |w].
  - destruct (handler_turn mc a s) as [s'|] eqn:E; [|done]. by eapply owned_handler.
  - by destruct (reading s).
  - destruct (thread_turn _ a (proc w s)) as [[d i]|] eqn:E; [|done]. cbn.
    assert (owned (set_proc w d s)) as Hs'.
    { apply owned_set; [done|eapply thread_turn_ok; [|done]; by destruct w|].
      intros Hr. rewrite Hr in Hd. destruct Hd as [Hp _]. unfold thread_turn in E. by rewrite Hp in E. }
    by destruct i, w.
  - destruct (tof_turn a (g_tof s)) as [[t threw]|] eqn:E; [|done]. unfold owned; cbn.
    revert E Hd. unfold tof_turn, tof_ok. destruct (g_tof s) as [p r []], a, (doing s); cbn; try done;
      repeat case_match; naive_solver.
  - destruct (status_worker s); try done. by destruct (status_running s).
  - done.
  - destruct (waits s); [|done]. unfold escalate. by destruct (waited s) as [|[]].
  - destruct (doing s) as [| |w'| | |]; try done. destruct (phase (proc w s)), w, w', (waited s); done.
Qed.
Lemma owned_run sched s : owned s → owned (run sched s).
Proof.
  apply (turns_preserve step (λ _, True) owned); [|by apply Forall_true]. intros. by apply owned_turn.
Qed.

(** ** A thread that ended by itself *)
Definition wedged (w : which) (s : daemon_state) : Prop :=
  owned s ∧ phase (proc w s) = Finished ∧ doing s ≠ Joins w ∧ ending s ≠ Ended.
Lemma wedged_ptr w s : wedged w s → daq_ptr (proc w s) = false.
Proof.
  intros ((Ht & Hm & _) & Hp & _). assert (daq_ok (proc w s)) as Hw by (by destruct w).
  unfold daq_ok in Hw. by rewrite Hw, Hp.
Qed.
Lemma wedged_set w w' d s :
  phase (proc w s) = Finished → (w' = w → phase d = Finished) → phase (proc w (set_proc w' d s)) = Finished.
Proof. destruct w, w'; cbn; auto. Qed.
Lemma wedged_start_op w a o s s' :
  wedged w s → doing s = Next → ending s = Going → start_op mc a o s = Some s' →
  phase (proc w s') = Finished ∧ doing s' ≠ Joins w ∧ ending s' ≠ Ended.
Proof.
  intros Hw Hn Hg. pose proof (wedged_ptr w s Hw) as Hptr. destruct Hw as (Ho & Hp & _).
  assert (∀ s, doing s = Next → ending s = Going → doing s ≠ Joins w ∧ ending s ≠ Ended) as Hgo
    by (by intros ? -> ->).
  destruct o as [w'|w'| | | | | |c b| | |]; cbn [start_op]; intros E; simplify_eq.
  - destruct (joinable (proc w' s)) eqn:Hj; [by split; [|apply Hgo]|]. split; [|by apply Hgo; destruct w'].
    apply wedged_set; [done|]. intros ->. unfold joinable in Hj. by rewrite Hp in Hj.
  - destruct (daq_ptr (proc w' s)) eqn:Hp'; [|by split; [|apply Hgo]]. by destruct w; cbn; rewrite Hg.
  - destruct (StartTofProcess a (g_tof s)) as [t []]; simplify_eq; destruct w; cbn in *; by rewrite ?Hn.
  - destruct (tof_ptr (g_tof s)); destruct w; cbn in *; by rewrite ?Hn, ?Hg.
  - destruct (status_worker s); destruct w; cbn in *; by rewrite ?Hn, ?Hg.
  - destruct w; cbn in *; by rewrite ?Hn, ?Hg.
  - destruct (status_worker s); simplify_eq; destruct w; cbn in *; by rewrite ?Hn, ?Hg.
  - destruct w; cbn in *; by rewrite ?Hn, ?Hg.
  - destruct w; cbn in *; by rewrite ?Hn, ?Hg.
  - destruct w; cbn in *; by rewrite ?Hn, ?Hg.
  - split; [by destruct w|]. split; [cbn; by rewrite Hn|]. cbn. unfold leave, joinable.
    destruct w; cbn in *; rewrite Hp; [done|]. by rewrite orb_true_r.
Qed.
Lemma wedged_handler w a s s' :
  wedged w s → ending s = Going → handler_turn mc a s = Some s' →
  phase (proc w s') = Finished ∧ doing s' ≠ Joins w ∧ ending s' ≠ Ended.
Proof.
  intros Hw Hg. pose proof (wedged_ptr w s Hw) as Hptr. pose proof Hw as (Ho & Hp & Hj & He).
  unfold handler_turn. destruct (doing s) as [|w'|w'|w'| |] eqn:Hdo.
  - destruct (agenda s) as [|o ops].
    + destruct (reading s); [done|]. intros [= <-]. destruct (running s), w; cbn in *; by rewrite Hdo, ?Hg.
    + apply wedged_start_op; [|done|done]. unfold wedged, owned in *. cbn. rewrite Hdo in *. by destruct w.
  - intros [= <-]. unfold SetRunning_false. destruct (daq_ptr (proc w' s)) eqn:Hp'.
    + destruct w, w'; cbn in *; rewrite ?Hg; try congruence; done.
    + destruct w; cbn in *; by rewrite Hdo.
  - destruct (join (proc w' s)) as [d|]; [|done]. cbn. intros [= <-].
    assert (w' ≠ w) as Hne by (by intros ->). destruct w, w'; cbn in *; rewrite ?Hg; done.
  - intros [= <-]. destruct Ho as (_ & _ & Hd). rewrite Hdo in Hd. destruct Hd as [Hp' _].
    destruct w, w'; cbn in *; rewrite ?Hg; try congruence; done.
  - destruct (tof_join (g_tof s)); [|done]. cbn. intros [= <-]. destruct w; cbn in *; by rewrite ?Hg.
  - intros [= <-]. destruct w; cbn in *; by rewrite ?Hg.
Qed.
Lemma wedged_turn w t s : wedged w s → wedged w (turn step t s).
Proof.
  intros Hw. pose proof Hw as (Ho & Hp & Hj & He). unfold wedged. split; [by apply owned_turn|].
  unfold turn, daemon_step. destruct (ending s) eqn:Hg; try (cbn; by rewrite Hg).
  destruct t as [a|code|w' a|a| | | |w'].
  - destruct (handler_turn mc a s) as [s'|] eqn:E; [by eapply wedged_handler|cbn; by rewrite Hg].
  - destruct (reading s); destruct w; cbn in *; by rewrite Hg.
  - destruct (thread_turn _ a (proc w' s)) as [[d i]|] eqn:E; cbn; [|by rewrite Hg].
    assert (w' ≠ w) as Hne. { intros ->. unfold thread_turn in E. by rewrite Hp in E. }
    destruct i, w, w'; cbn in *; by rewrite ?Hg.
  - destruct (tof_turn a (g_tof s)) as [[t threw]|]; [|cbn; by rewrite Hg]. destruct threw, w; by cbn in *.
  - destruct (status_worker s); cbn; try (by rewrite Hg). destruct (status_running s), w; cbn in *; by rewrite Hg.
  - destruct w; cbn in *; by rewrite Hg.
  - destruct (waits s); [|cbn; by rewrite Hg]. unfold escalate. destruct (waited s) as [|[]], w; cbn in *; by rewrite ?Hg.
  - destruct (doing s) as [| |w2| | |] eqn:Hdo; cbn; rewrite ?Hg, ?Hdo; try done.
    destruct (phase (proc w' s)), w', w2, (waited s), w; cbn in *; by rewrite ?Hg, ?Hdo.
Qed.
Lemma wedged_run w sched s : wedged w s → wedged w (run sched s).
Proof.
  apply (turns_preserve step (λ _, True) (wedged w)); [|by apply Forall_true]. intros. by apply wedged_turn.
Qed.

(** ** Threads that do not fail *)
Definition no_failure (t : daemon_turn) : Prop :=
  match t with Thread _ (Refuses | Throws) => False | _ => True end.
(** An object that was not told to stop has its flag up, and so is not left. *)
Definition up_ok (stopping_it : bool) (d : daq) : bool :=
  if daq_ptr d then
    (is_running_ d || stopping_it) && negb (is_running_ d && bool_decide (phase d = Returned))
  else true.
Definition joins (w : which) (s : daemon_state) : bool :=
  match doing s, w with Joins Tpc, Tpc | Joins Monitor, Monitor => true | _, _ => false end.
Definition sound (s : daemon_state) : Prop :=
  owned s ∧ (∀ w, up_ok (joins w s) (proc w s) = true) ∧
  (∀ w, doing s = Setting w → daq_ptr (proc w s) = true) ∧ ending s ≠ NullCall.
Lemma up_ok_thread w a d d' e b :
  up_ok b d = true → a ≠ Refuses → a ≠ Throws → thread_turn (kind_of monitor_raises w) a d = Some (d', e) →
  up_ok b d' = true ∧ (daq_ptr d = true → b = false → daq_ptr d' = true).
Proof.
  unfold thread_turn, up_ok. destruct d as [p r [] run], w, b, a; cbn; try done; destruct p, r, run; cbn;
    intros ? _ _ E; simplify_eq; cbn; destruct monitor_raises; done.
Qed.
Lemma sound_booted : sound booted.
Proof. split; [done|]. split; [by intros []|]. by split; [intros []|]. Qed.
Lemma sound_keep s s' :
  sound s → owned s' → doing s' = doing s → (∀ w, proc w s' = proc w s) → ending s' ≠ NullCall → sound s'.
Proof.
  intros (_ & Hu & Hp & _) Ho Hd Hw He. split; [done|]. unfold joins in *. rewrite Hd.
  split; [|split]; [|intros w; rewrite Hw; auto|done]. intros w. rewrite Hw. apply Hu.
Qed.
Lemma owned_proc w s : owned s → daq_ptr (proc w s) = holds_object (phase (proc w s)).
Proof. intros (Ht & Hm & _). by destruct w. Qed.
Lemma sound_next s s' :
  sound s → owned s' → doing s = Next → doing s' ∈ [Next; JoinsTof] → (∀ w, proc w s' = proc w s) →
  ending s' ≠ NullCall → sound s'.
Proof.
  intros (_ & Hu & _) Ho Hd Hd' Hw He. split; [done|]. rewrite !elem_of_cons, elem_of_nil in Hd'.
  split; [|split]; [|by destruct Hd' as [-> | [-> | []]]|done].
  intros w. specialize (Hu w). rewrite Hw. unfold joins in *. rewrite Hd in Hu. by destruct Hd' as [-> | [-> | []]].
Qed.
Lemma sound_start_op a o s s' :
  sound s → doing s = Next → ending s = Going → start_op mc a o s = Some s' → sound s'.
Proof.
  intros Hs Hn Hg E. pose proof Hs as (Ho & Hu & _). pose proof (owned_start_op a o s s' Hn Ho E) as Ho'.
  assert (Hkeep : doing s' ∈ [Next; JoinsTof] → (∀ w, proc w s' = proc w s) → ending s' ≠ NullCall → sound s')
    by (by apply sound_next).
  rewrite !elem_of_cons in Hkeep.
  destruct o as [w|w| | | | | |c b| | |]; cbn [start_op] in E; simplify_eq;
    try (apply Hkeep; [cbn; auto|by intros []|cbn; congruence]).
  - destruct (joinable (proc w s)) eqn:Hj; [done|]. pose proof (owned_proc w _ Ho') as Hptr.
    rewrite proc_set in Hptr. split; [done|]. split; [|split]; [|by destruct w; cbn; rewrite Hn|by destruct w; cbn; rewrite Hg].
    intros w'. specialize (Hu w'). unfold joins, up_ok in *. destruct w, w'; cbn in *; rewrite ?Hn in *; by rewrite ?Hptr.
  - destruct (daq_ptr (proc w s)) eqn:Hptr; [|done].
    split; [done|]. split; [|split]; [|by intros w' [= <-]; destruct w|cbn; congruence].
    intros w'. specialize (Hu w'). unfold joins in *. rewrite Hn in Hu. by destruct w'.
  - destruct (StartTofProcess a (g_tof s)) as [t threw]. simplify_eq. apply Hkeep; [cbn; auto|by intros []|by destruct threw].
  - destruct (tof_ptr (g_tof s)); [|done]. apply Hkeep; [cbn; auto|by intros []|cbn; congruence].
  - destruct (status_worker s); [|done|done]. apply Hkeep; [cbn; auto|by intros []|cbn; congruence].
  - destruct (status_worker s); simplify_eq; apply Hkeep; try (by intros []); cbn; auto; congruence.
  - apply Hkeep; [cbn; auto|by intros []|]. cbn. unfold leave. by case_match.
Qed.
Lemma sound_handler a s s' : sound s → ending s = Going → handler_turn mc a s = Some s' → sound s'.
Proof.
  intros Hs Hg E. pose proof Hs as (Ho & Hu & Hset & He).
  assert (owned s') as Ho' by (by eapply owned_handler). revert E. unfold handler_turn.
  destruct (doing s) as [|w|w|w| |] eqn:Hd.
  - destruct (agenda s) as [|o ops] eqn:Ha.
    + destruct (reading s); [done|]. intros [= <-].
      destruct (running s); (apply (sound_keep s); [done|done|done|by intros []|cbn; congruence]).
    + apply sound_start_op; [|done|done]. apply (sound_keep s); [done| |done|by intros []|cbn; congruence].
      clear Ho'. destruct Ho as (? & ? & ?). split; [done|]. by split.
  - unfold SetRunning_false. rewrite (Hset w eq_refl). intros [= <-].
    split; [done|]. split; [|split]; [|by destruct w|by destruct w; cbn; rewrite Hg].
    intros w'. specialize (Hu w'). unfold joins in *. rewrite Hd in Hu.
    destruct w, w'; cbn in *; unfold up_ok in *; cbn; try done; by case_match.
  - destruct (join (proc w s)) as [d|] eqn:Hj; [|done]. cbn. intros [= <-].
    pose proof (owned_proc w _ Ho') as Hptr. destruct Ho' as (_ & _ & [Hp' _]).
    split; [apply (owned_handler a s); [done|unfold handler_turn; by rewrite Hd, Hj]|].
    split; [|split]; [|by destruct w|by destruct w; cbn; rewrite Hg].
    intros w'. specialize (Hu w'). unfold joins in *. rewrite Hd in Hu.
    unfold up_ok in *. destruct w, w'; cbn in *; by rewrite ?Hptr, ?Hp'.
  - intros [= <-]. split; [done|]. split; [|split]; [|by destruct w|by destruct w; cbn; rewrite Hg].
    intros w'. specialize (Hu w'). unfold joins in *. rewrite Hd in Hu. by destruct w, w'.
  - destruct (tof_join (g_tof s)); [|done]. cbn. intros [= <-]. split; [done|].
    split; [|split]; [|done|cbn; congruence]. intros w'. specialize (Hu w'). unfold joins in *.
    rewrite Hd in Hu. by destruct w'.
  - intros [= <-]. split; [done|]. split; [|split]; [|done|cbn; congruence].
    intros w'. specialize (Hu w'). unfold joins in *. rewrite Hd in Hu. by destruct w'.
Qed.
Lemma sound_turn t s : no_failure t → sound s → sound (turn step t s).
Proof.
  intros Ht Hs. pose proof Hs as (Ho & Hu & Hset & He). pose proof (owned_turn t s Ho) as Ho'. revert Ho'.
  unfold turn, daemon_step. destruct (ending s) eqn:Hg; try done.
  assert (Hkeep : ∀ s', owned s' → doing s' = doing s → (∀ w, proc w s' = proc w s) → ending s' ≠ NullCall → sound s')
    by (intros; by apply (sound_keep s)).
  destruct t as [a|code|w a|a| | | |w]; intros Ho'.
  - destruct (handler_turn mc a s) as [s'|] eqn:E; [|done]. by eapply sound_handler.
  - revert Ho'. destruct (reading s); intros Ho'; [|done]. apply Hkeep; [done|done|by intros []|cbn; congruence].
  - revert Ho'. destruct (thread_turn _ a (proc w s)) as [[d i]|] eqn:E; intros Ho'; [|done]. cbn in Ho' |- *.
    set (s' := match i with Quiet => _ | Caught => _ | Terminates => _ end) in *.
    assert (Hd' : doing s' = doing s) by (subst s'; by destruct i, w).
    assert (He' : ending s' ≠ NullCall) by (subst s'; destruct i, w; cbn; congruence).
    assert (proc w s' = d ∧ proc (other w) s' = proc (other w) s) as [Hw1 Hw2] by (subst s'; by destruct i, w).
    clearbody s'. assert (a ≠ Refuses ∧ a ≠ Throws) as [Ha1 Ha2] by by destruct a.
    destruct (up_ok_thread w a _ _ _ _ (Hu w) Ha1 Ha2 E) as [Hup Hptr].
    split; [done|]. unfold joins in *. rewrite Hd'. split; [|split]; [| |done].
    + intros w'. specialize (Hu w'). destruct w, w'; cbn in *; congruence.
    + intros w' Hw'. pose proof (Hset w' Hw') as Hp'. rewrite Hw' in Hptr.
      destruct w, w'; cbn in *; rewrite ?Hw1, ?Hw2; auto.
  - revert Ho'. destruct (tof_turn a (g_tof s)) as [[t threw]|]; intros Ho'; [|done].
    apply Hkeep; [done|done|by intros []|by destruct threw].
  - revert Ho'. by destruct (status_worker s); try done; destruct (status_running s).
  - apply Hkeep; [done|done|by intros []|cbn; congruence].
  - revert Ho'. destruct (waits s); [|done]. unfold escalate.
    destruct (waited s) as [|[]]; intros Ho'; apply Hkeep; try done; try (by intros []); cbn; congruence.
  - revert Ho'. destruct (doing s) as [| |w'| | |] eqn:Hd; try done.
    destruct (phase (proc w s)), w, w', (waited s); intros Ho'; try done;
      (apply Hkeep; [done|done|by intros []|done]).
Qed.
Lemma sound_run sched s : Forall no_failure sched → sound s → sound (run sched s).
Proof. apply (turns_preserve step no_failure sound), sound_turn. Qed.

(** ** The shutdown: what is left to do *)
Definition up_daq (d : daq) : bool :=
  match d with Daq true true Running _ => true | _ => false end.
Definition gone_daq (d : daq) : bool :=
  match d with Daq false _ NoThread false => true | _ => false end.
Definition told_daq (d : daq) : bool :=
  match d with Daq true false (Running | Returned) _ | Daq false _ Finished false => true | _ => false end.
Definition up_tof (t : tof) : bool := match t with Tof true false Active => true | _ => false end.
Definition gone_tof (t : tof) : bool := match t with Tof false _ Absent => true | _ => false end.
Definition told_tof (t : tof) : bool := match t with Tof true true (Active | Over) => true | _ => false end.

(** The state once the first [k] steps of the shutdown were begun. *)
Definition begun (o : nat) (k : nat) : bool := o <? k.
Definition daq_at (w : which) (k : nat) (st : stage) (d : daq) : bool :=
  match st, w with
  | Setting Tpc, Tpc | Setting Monitor, Monitor => up_daq d
  | Joins Tpc, Tpc | Joins Monitor, Monitor => told_daq d
  | _, _ => gone_daq d || (negb (begun (match w with Tpc => 1 | Monitor => 2 end) k) && up_daq d)
  end.
Definition tof_at (k : nat) (st : stage) (t : tof) : bool :=
  match st with
  | JoinsTof => told_tof t
  | ResetsTof => bool_decide (tof_thread t = Absent)
  | _ => gone_tof t || (negb (begun 3 k) && up_tof t)
  end.
Definition stage_at (k : nat) (st : stage) : bool :=
  match st with
  | Next => true
  | Setting Tpc | Joins Tpc | Resets Tpc => k =? 2
  | Setting Monitor | Joins Monitor | Resets Monitor => k =? 3
  | JoinsTof | ResetsTof => k =? 4
  end.
Definition status_at (k : nat) (s : daemon_state) : bool :=
  (negb (begun 0 k) || negb (status_running s)) && (negb (begun 4 k) || bool_decide (status_worker s = Absent)).
Definition control_at (k : nat) (s : daemon_state) : Prop :=
  (ending s = Going ∧ k = 0 ∧ agenda s = [] ∧ doing s = Next) ∨
  (ending s = Going ∧ k < 6 ∧ agenda s = drop k shutdown_ops ∧ reading s = false) ∨
  (ending s = Ended ∧ k = 6 ∧ doing s = Next).
Definition closing_at (k : nat) (s : daemon_state) : Prop :=
  running s = false ∧ control_at k s ∧ stage_at k (doing s) = true ∧
  daq_at Tpc k (doing s) (proc Tpc s) = true ∧ daq_at Monitor k (doing s) (proc Monitor s) = true ∧
  tof_at k (doing s) (g_tof s) = true ∧ status_at k s = true.
Definition closing (s : daemon_state) : Prop := ∃ k, closing_at k s.

Definition op_work (o : op) : nat :=
  match o with StopDaqProcess _ => 4 | StopTof => 3 | _ => 1 end.
Definition stage_work (st : stage) : nat :=
  match st with Next => 0 | Setting _ => 3 | Joins _ | JoinsTof => 2 | Resets _ | ResetsTof => 1 end.
Definition daq_work (d : daq) : nat := match phase d with Running => 2 | Returned => 1 | _ => 0 end.
Definition thread_work (t : thread_phase) : nat := match t with Active => 1 | _ => 0 end.
Definition work (s : daemon_state) : nat :=
  match ending s with
  | Going =>
      (if agenda s is [] then (if reading s then 16 else 15) else sum_list (op_work <$> agenda s)) +
      stage_work (doing s) + daq_work (proc Tpc s) + daq_work (proc Monitor s) +
      thread_work (tof_thread (g_tof s)) + thread_work (status_worker s)
  | _ => 0
  end.

(** Nothing fails, no time-out expires, no controller handles a command, and the read the
    shutdown interrupts returns none. *)
Definition steady (t : daemon_turn) : Prop :=
  match t with
  | Thread _ a | TofThread a => a = Goes
  | Receive code => decode code = None
  | Timeout | Cancelled _ => False
  | _ => True
  end.
(** A run is on: the end of that controller terminates the daemon. *)
Definition doomed (s : daemon_state) : bool := in_run (proc Tpc s) || in_run (proc Monitor s).
Lemma closing_thread w d i s :
  closing s → ending s = Going → thread_turn (kind_of monitor_raises w) Goes (proc w s) = Some (d, i) →
  match i with
  | Quiet => (closing (set_proc w d s) ∧ doomed (set_proc w d s) = doomed s) ∧ work (set_proc w d s) < work s
  | Caught => False
  | Terminates => doomed (set_proc w d s) = true ∧ doomed s = true ∧ 0 < work s
  end.
Proof.
  intros (k & Hr & Hc & Hst & Ht & Hm & Htof & Hs) Hg E.
  assert (∃ p r ph run, proc w s = Daq p r ph run) as (p & r & ph & run & Hp) by (destruct (proc w s); eauto).
  assert (doing s = Joins w ∧
    match i with
    | Quiet => told_daq d = true ∧ in_run d = in_run (proc w s) ∧ daq_work d < daq_work (proc w s)
    | Caught => False
    | Terminates => in_run d = true ∧ in_run (proc w s) = true ∧ phase (proc w s) = Returned
    end) as (Hd & Hi).
  { assert (daq_at w k (doing s) (proc w s) = true) as Hw by (by destruct w). rewrite Hp in *.
    destruct w, (doing s) as [|[]|[]|[]| |], p, r, ph, run; cbn in *; rewrite ?andb_false_r in Hw; simplify_eq;
      split_and?; auto with lia. }
  destruct i; [|done|].
  - destruct Hi as (Htold & Hrun & Hlt). split; [split|].
    + exists k. unfold closing_at, control_at in *. rewrite Hd in *. destruct w; cbn in *; rewrite Hd in *; by split_and!.
    + unfold doomed in *. destruct w; cbn in *; by rewrite Hrun.
    + unfold work. destruct w; cbn in *; rewrite Hg; lia.
  - destruct Hi as (H1 & H2 & H3). unfold doomed. destruct w; cbn in *; rewrite ?H1, ?H2, ?orb_true_r;
      (split; [done|]; split; [done|]); unfold work; rewrite Hg; cbn; unfold daq_work; rewrite H3; lia.
Qed.
Lemma idle_ptr w k d :
  gone_daq d || (negb (begun w k) && up_daq d) = true →
  (daq_ptr d = true ∧ up_daq d = true) ∨ (daq_ptr d = false ∧ gone_daq d = true).
Proof. destruct d as [[] [] [] []]; cbn; rewrite ?andb_false_r; auto. Qed.
Lemma idle_tof_ptr k t :
  gone_tof t || (negb (begun 3 k) && up_tof t) = true →
  (tof_ptr t = true ∧ t = Tof true false Active) ∨ (tof_ptr t = false ∧ gone_tof t = true).
Proof. destruct t as [[] [] []]; cbn; rewrite ?andb_false_r; auto. Qed.
Lemma gone_tof_thread t : gone_tof t = true → tof_thread t = Absent.
Proof. by destruct t as [[] [] []]. Qed.
Lemma gone_daq_join d : gone_daq d = true → joinable d = false.
Proof. by destruct d as [[] ? [] []]. Qed.
Lemma gone_daq_run d : gone_daq d = true → in_run d = false.
Proof. by destruct d as [[] ? [] []]. Qed.
Ltac by_cases_close :=
  unfold closing_at, control_at, status_at, work in *; cbn in *;
  repeat match goal with H : ending ?s = _ |- _ => rewrite H in *; clear H end;
  repeat match goal with H : doing ?s = _ |- _ => rewrite H in *; clear H end;
  repeat match goal with H : agenda ?s = _ |- _ => rewrite H in *; clear H end;
  repeat match goal with H : tpc_controller_daq ?s = _ |- _ => rewrite H in *; clear H end;
  repeat match goal with H : tpc_monitor_controller_daq ?s = _ |- _ => rewrite H in *; clear H end;
  repeat match goal with H : g_tof ?s = _ |- _ => rewrite H in *; clear H end;
  repeat match goal with H : _ && _ = true |- _ => apply andb_true_iff in H as [? ?] end;
  cbn in *; rewrite ?andb_true_r in *;
  split; [split_and!; first
    [ done
    | right; left; split_and!; solve [done|lia]
    | right; right; done
    | repeat match goal with H : ?b = true |- context [?b] => rewrite H end; done ] | cbn in *; lia].
Lemma closing_start_op a k o s s' :
  closing_at k s → ending s = Going → doing s = Next → drop k shutdown_ops = o :: drop (S k) shutdown_ops →
  k < 6 → agenda s = drop k shutdown_ops → reading s = false →
  start_op mc a o (s <| agenda := drop (S k) shutdown_ops |>) = Some s' →
  closing_at (S k) s' ∧ work s' < work s.
Proof.
  intros (Hr & _ & _ & Ht & Hm & Htof & Hs) Hg Hd Ho Hk Ha Hrd.
  rewrite Hd in *. unfold closing_at, control_at, status_at in *. 
  destruct k as [|[|[|[|[|[|]]]]]]; [..|lia]; cbn in Ho; injection Ho as <-; cbn [start_op]; intros E.
  - simplify_eq. by_cases_close.
  - destruct (idle_ptr _ _ _ Ht) as [[Hp Hi]|[Hp Hi]]; cbn in E, Hp; rewrite Hp in E; simplify_eq; by_cases_close.
  - destruct (idle_ptr _ _ _ Hm) as [[Hp Hi]|[Hp Hi]]; cbn in E, Hp; rewrite Hp in E; simplify_eq; by_cases_close.
  - destruct (idle_tof_ptr _ _ Htof) as [[Hp Hi]|[Hp Hi]]; cbn in E, Hp; rewrite Hp in E; simplify_eq;
      [by_cases_close|by_cases_close].
  - cbn in E. destruct (status_worker s) eqn:Hw; simplify_eq; by_cases_close.
  - assert (Hl : ∀ l, leave (s <| agenda := l |>) = Ended).
    { intros l. apply andb_true_iff in Hs as [_ Hs]. cbn in Ht, Hm, Htof, Hs. rewrite orb_false_r in *.
      unfold leave. cbn. apply bool_decide_eq_true in Hs. by rewrite !gone_daq_join, gone_tof_thread, Hs. }
    rewrite Hl in E. simplify_eq. by_cases_close.
Qed.
Lemma closing_pair k s s' : closing_at k s' ∧ work s' < work s → closing s' ∧ work s' < work s.
Proof. intros [Hc Hw]. split; [by exists k|done]. Qed.
Lemma closing_handler a s s' :
  closing s → ending s = Going → handler_turn mc a s = Some s' → closing s' ∧ work s' < work s.
Proof.
  intros (k & Hs) Hg. pose proof Hs as (Hr & Hc & Hst & Ht & Hm & Htof & Hw). unfold handler_turn.
  destruct (doing s) as [|w|w|w| |] eqn:Hd.
  - destruct Hc as [(_ & -> & Ha & _)|[(_ & Hk & Ha & Hrd)|(He & _)]]; [| |congruence].
    + rewrite Ha, Hr. destruct (reading s) eqn:Hrd; [done|]. intros [= <-]. split.
      * exists 0. unfold closing_at, control_at in *. cbn. rewrite Hg, Hd. split_and!; try done. right; left. by split_and!; [|lia|..].
      * unfold work. cbn. rewrite Hg, Ha, Hrd. cbn. lia.
    + assert (∃ o, drop k shutdown_ops = o :: drop (S k) shutdown_ops) as [o Ho].
      { destruct k as [|[|[|[|[|[|]]]]]]; [by eexists..|lia]. }
      rewrite Ha, Ho. intros E. destruct (closing_start_op a k o s s') as [H1 H2]; try done. split; [by exists (S k)|done].
  - assert (proc w s = Daq true true Running (in_run (proc w s)) ∧ k = match w with Tpc => 2 | Monitor => 3 end) as [Hp ->].
    { destruct w; cbn in *; apply Nat.eqb_eq in Hst as ->; (split; [|done]);
        [clear -Ht; by destruct (tpc_controller_daq s) as [[] [] [] ?]|clear -Hm; by destruct (tpc_monitor_controller_daq s) as [[] [] [] ?]]. }
    rewrite Hp. intros [= <-]. destruct Hc as [(_ & _ & _ & Hn)|[(_ & _ & Ha & Hrd)|(He & _)]]; [congruence| |congruence].
    destruct w; cbn in Hp; [apply (closing_pair 2)|apply (closing_pair 3)]; by_cases_close.
  - assert (told_daq (proc w s) = true ∧ k = match w with Tpc => 2 | Monitor => 3 end) as [Hp ->].
    { destruct w; cbn in *; by apply Nat.eqb_eq in Hst as ->. }
    destruct (proc w s) as [[] r []] eqn:Hpw, r; cbn in Hp; try done; cbn; intros [= <-];
      (destruct Hc as [(_ & _ & _ & Hn)|[(_ & _ & Ha & Hrd)|(He & _)]]; [congruence| |congruence]);
      destruct w; cbn in Hpw; [apply (closing_pair 2)|apply (closing_pair 3)|apply (closing_pair 2)|apply (closing_pair 3)];
      by_cases_close.
  - assert (gone_daq (proc w s) = true ∧ k = match w with Tpc => 2 | Monitor => 3 end) as [Hp ->].
    { destruct w; cbn in *; apply Nat.eqb_eq in Hst as ->; cbn in *; by rewrite orb_false_r in *. }
    destruct (proc w s) as [[] r []] eqn:Hpw; cbn in Hp; try done; intros [= <-].
    destruct Hc as [(_ & _ & _ & Hn)|[(_ & _ & Ha & Hrd)|(He & _)]]; [congruence| |congruence].
    destruct w; cbn in Hpw; [apply (closing_pair 2)|apply (closing_pair 3)]; by_cases_close.
  - cbn in Hst, Htof. apply Nat.eqb_eq in Hst as ->. destruct (g_tof s) as [[] [] []] eqn:Ht'; try done.
    cbn. intros [= <-]. destruct Hc as [(_ & _ & _ & Hn)|[(_ & _ & Ha & Hrd)|(He & _)]]; [congruence| |congruence].
    apply (closing_pair 4). by_cases_close.
  - cbn in Hst, Htof. apply Nat.eqb_eq in Hst as ->. apply bool_decide_eq_true in Htof.
    destruct (g_tof s) as [p b th] eqn:Ht'. cbn in Htof. subst th.
    intros [= <-]. destruct Hc as [(_ & _ & _ & Hn)|[(_ & _ & Ha & Hrd)|(He & _)]]; [congruence| |congruence].
    apply (closing_pair 4). by_cases_close.
Qed.
(** The handler does not touch the runs. *)
Lemma handler_in_run a s s' w : handler_turn mc a s = Some s' → in_run (proc w s') = in_run (proc w s).
Proof.
  unfold handler_turn. destruct (doing s) as [|w'|w'|w'| |].
  - destruct (agenda s) as [|o ops]; [destruct (reading s); [done|]; intros [= <-]; by destruct (running s), w|].
    destruct o as [w'|w'| | | | | |c b| | |]; cbn [start_op]; intros E; simplify_eq; try by destruct w.
    + by case_match; destruct w, w'.
    + by case_match; destruct w.
    + destruct (StartTofProcess _ _); simplify_eq. by destruct w.
    + by case_match; destruct w.
    + by case_match; destruct w.
    + case_match; simplify_eq; by destruct w.
  - unfold SetRunning_false. intros [= <-]. case_match eqn:E; [|by destruct w].
    case_match; simplify_eq. by destruct w, w'.
  - unfold join. destruct (phase (proc w' s)); intros E; cbn in E; simplify_eq; by destruct w, w'.
  - intros [= <-]. by destruct w, w'.
  - destruct (tof_join (g_tof s)); intros E; cbn in E; simplify_eq. by destruct w.
  - intros [= <-]. by destruct w.
Qed.
Lemma handler_doomed a s s' : handler_turn mc a s = Some s' → doomed s' = doomed s.
Proof. intros E. unfold doomed. by rewrite !(handler_in_run _ _ _ _ E). Qed.
Lemma closing_ending s : closing s → ending s = Going ∨ ending s = Ended.
Proof. intros (k & _ & [(-> & _)|[(-> & _)|(-> & _)]] & _); auto. Qed.
Lemma closing_receive code s :
  closing s → ending s = Going → reading s = true → decode code = None →
  let s' := s <| reading := false |> <| agenda := default [] (command_ops <$> decode code) |> in
  closing s' ∧ work s' < work s.
Proof.
  intros (k & Hr & Hc & Hst & Ht & Hm & Htof & Hw) Hg Hrd Hcode s'. subst s'. rewrite Hcode.
  destruct Hc as [(_ & -> & Ha & Hd)|[(_ & _ & _ & Hrd')|(He & _)]]; [|congruence|congruence]. split.
  - exists 0. unfold closing_at, control_at in *. cbn. split_and!; first [done|by left].
  - unfold work. cbn. rewrite Hg, Hrd, Ha. lia.
Qed.
Lemma closing_tof s t :
  closing s → ending s = Going → tof_turn Goes (g_tof s) = Some (t, false) →
  let s' := s <| g_tof := t |> <| ending := Going |> in closing s' ∧ work s' < work s.
Proof.
  intros (k & Hr & Hc & Hst & Ht & Hm & Htof & Hw) Hg E s'. subst s'.
  destruct (g_tof s) as [p r th] eqn:Hts.
  assert (doing s = JoinsTof ∧ p = true ∧ r = true ∧ th = Active ∧ t = Tof true true Over)
    as (Hd & -> & -> & -> & ->).
  { destruct (doing s), p, r, th; cbn in *; rewrite ?andb_false_r in Htof; by simplify_eq. }
  split.
  - exists k. unfold closing_at, control_at in *. cbn in *. rewrite Hd, ?Hg in *. by split_and!.
  - unfold work. cbn. rewrite Hg, Hts. cbn. lia.
Qed.
Lemma closing_status s :
  closing s → ending s = Going → status_worker s = Active →
  closing (s <| status_worker := Over |>) ∧ work (s <| status_worker := Over |>) < work s.
Proof.
  intros (k & Hr & Hc & Hst & Ht & Hm & Htof & Hw) Hg Ha. split.
  - exists k. unfold closing_at, control_at, status_at in *. cbn in *. rewrite Ha in Hw. split_and!; try done.
  - unfold work. cbn. rewrite Hg, Ha. cbn. lia.
Qed.
(** On its way to an end that [b] tells. *)
Definition on_course (b : bool) (s : daemon_state) : Prop :=
  closing s ∧ doomed s = b ∨ ending s = Terminated ∧ b = true.
Lemma on_course_lower b s s' :
  closing s' ∧ work s' < work s → doomed s' = doomed s → doomed s = b →
  on_course b s' ∧ (work s' = work s ∧ s' = s ∨ work s' < work s).
Proof. intros [Hc Hw] Hd <-. split; [by left|by right]. Qed.
Lemma closing_turn b t s :
  steady t → on_course b s →
  on_course b (turn step t s) ∧
  (work (turn step t s) = work s ∧ turn step t s = s ∨ work (turn step t s) < work s).
Proof.
  intros Ht [[Hs Hb]|[Hg Hb]]; [|unfold turn, daemon_step; rewrite Hg; cbn; split; [by right|by left]].
  assert (on_course b s ∧ (work s = work s ∧ s = s ∨ work s < work s)) as Hstay by (split; [by left|auto]).
  unfold turn, daemon_step. destruct (closing_ending s Hs) as [Hg|Hg]; rewrite Hg; [|exact Hstay].
  destruct t as [a|code|w a|a| | | |w]; try done.
  - destruct (handler_turn mc a s) as [s'|] eqn:E; [|exact Hstay]. cbn [default from_option].
    apply on_course_lower; [by apply (closing_handler a)|by apply (handler_doomed a)|done].
  - destruct (reading s) eqn:Hrd; [|exact Hstay]. apply on_course_lower; [by apply closing_receive|done|done].
  - destruct a; try done. destruct (thread_turn _ Goes (proc w s)) as [[d i]|] eqn:E; [|exact Hstay].
    pose proof (closing_thread w d i s Hs Hg E) as Hi. cbn -[closing on_course]. destruct i; [|done|].
    + destruct Hi as [[Hc Hd] Hw]. by apply on_course_lower.
    + destruct Hi as (_ & Hd & Hw). split; [right; split; [done|congruence]|by right].
  - cbn in Ht. subst a. destruct (tof_turn Goes (g_tof s)) as [[t e]|] eqn:E; [|exact Hstay].
    assert (e = false) as -> by (unfold tof_turn in E; repeat case_match; by simplify_eq).
    apply on_course_lower; [by apply (closing_tof s t)|done|done].
  - destruct (status_worker s) eqn:Hw; [exact Hstay| |exact Hstay]. destruct (status_running s); [exact Hstay|].
    apply on_course_lower; [by apply closing_status|done|done].
  - pose proof Hs as (k & Hr & _). assert (Heq : s <| running := false |> = s) by (destruct s; cbn in *; by rewrite Hr).
    cbn [default from_option]. by rewrite Heq.
Qed.

(** Each thread, and the peer of the read. *)
Definition daemon_agents : list (daemon_turn → Prop) :=
  [(λ t, ∃ a, t = Handler a); (λ t, ∃ code, t = Receive code); eq (Thread Tpc Goes);
   eq (Thread Monitor Goes); eq (TofThread Goes); eq StatusThread].
(** Whoever the handler waits for can move. *)
Lemma closing_mover s :
  closing s → ending s = Going →
  (∀ a, is_Some (handler_turn mc a s)) ∨ reading s = true ∨
  (∃ w, is_Some (thread_turn (kind_of monitor_raises w) Goes (proc w s))) ∨
  (∃ t, tof_turn Goes (g_tof s) = Some (t, false)) ∨
  (status_worker s = Active ∧ status_running s = false).
Proof.
  intros (k & Hr & Hc & Hst & Ht & Hm & Htof & Hw) Hg. unfold handler_turn.
  destruct (doing s) as [|w|w|w| |] eqn:Hd.
  - destruct Hc as [(_ & -> & Ha & _)|[(_ & Hk & Ha & Hrd)|(He & _)]]; [| |congruence].
    + rewrite Ha. destruct (reading s) eqn:Hrd; [auto|]. left. intros a. by eexists.
    + destruct k as [|[|[|[|[|[|]]]]]]; [..|lia]; rewrite Ha; cbn; try (by left; eexists).
      destruct (status_worker s) eqn:Hsw; [by left; eexists| |by left; eexists].
      do 4 right. split; [done|]. unfold status_at in Hw. cbn in Hw. apply andb_true_iff in Hw as [Hw _].
      by apply negb_true_iff in Hw.
  - left. intros a. by eexists.
  - assert (told_daq (proc w s) = true) as Hp by (by destruct w).
    destruct (join (proc w s)) as [d|] eqn:Hj; [left; intros a; by eexists|]. right; right; left. exists w.
    unfold thread_turn. revert Hp Hj. unfold join. destruct (proc w s) as [[] [] [] []]; cbn; done || eauto.
  - left. intros a. by eexists.
  - cbn in Htof. destruct (g_tof s) as [[] [] []] eqn:Hts; try done; [|left; by eexists].
    right; right; right; left. by eexists.
  - left. intros a. by eexists.
Qed.
Lemma closing_agents b s :
  on_course b s → 0 < work s →
  Exists (λ P : daemon_turn → Prop, ∀ t s', on_course b s' → s' = s → P t → steady t →
    work (turn step t s') < work s') daemon_agents.
Proof.
  intros Hs Hpos. destruct Hs as [[Hs Hb]|[Hg _]]; [|unfold work in Hpos; rewrite Hg in Hpos; lia].
  destruct (closing_ending s Hs) as [Hg|Hg]; [|unfold work in Hpos; rewrite Hg in Hpos; lia].
  unfold daemon_agents. rewrite !Exists_cons.
  destruct (closing_mover s Hs Hg) as [Hh|[Hrd|[(w & [d i] & E)|[(t & E)|[Hw Hsr]]]]].
  - left. intros t ? _ -> [a ->] _. destruct (Hh a) as [s' E].
    unfold turn, daemon_step. rewrite Hg, E. by apply (closing_handler a).
  - right; left. intros t ? _ -> [code ->] Ht. unfold turn, daemon_step. rewrite Hg, Hrd. by apply closing_receive.
  - assert (work (turn step (Thread w Goes) s) < work s) as Hthread.
    { unfold turn, daemon_step. rewrite Hg, E. pose proof (closing_thread w d i s Hs Hg E) as Hi.
      destruct i; [by apply Hi|done|apply Hi]. }
    destruct w; [do 2 right; left|do 3 right; left]; by intros t ? _ -> <- _.
  - do 4 right; left. intros t' ? _ -> <- _. unfold turn, daemon_step. rewrite Hg, E. by apply closing_tof.
  - do 5 right; left. intros t' ? _ -> <- _. unfold turn, daemon_step. rewrite Hg, Hw, Hsr. by apply closing_status.
Qed.
End facts.

(** ** What the daemon promises *)
Section promises.
Context (mc : machine) `{OrchestratorCodes} (monitor_raises : bool).
Notation run := (run_daemon mc monitor_raises).

(** C26. A controller whose thread ends by itself (an exception in its constructor, say) cannot be
    started again: whatever is then commanded, in any order of the threads' turns, its thread
    stays unjoined and its pointer null, since starting wants a thread that was joined and
    stopping a pointer. And [DAQHandler] never returns: told to end, it destroys the joinable
    thread, which terminates the program. *)
Theorem ended_thread_wedges (w : which) (before after : list daemon_turn) :
  let s := run before booted in
  ending s = Going → phase (proc w s) = Finished → doing s ≠ Joins w →
  let s' := run after s in
  phase (proc w s') = Finished ∧ daq_ptr (proc w s') = false ∧ ending s' ≠ Ended.
Proof.
  intros s Hg Hp Hd s'. assert (wedged w s') as Hw.
  { apply wedged_run. split; [by apply owned_run|]. by rewrite Hg. }
  split; [by destruct Hw as (_ & ? & _)|]. split; [by apply wedged_ptr|by destruct Hw as (_ & _ & _ & ?)].
Qed.

(** C27. The type of the state, under every schedule: the pointer of a controller is set exactly
    while its thread is between constructing and destroying it, and the time-of-flight
    controller is there exactly as long as its thread, the steps of its stop apart. *)
Theorem pointers_follow_threads (sched : list daemon_turn) :
  let s := run sched booted in
  (∀ w, daq_ptr (proc w s) = holds_object (phase (proc w s))) ∧
  (doing s ≠ ResetsTof → tof_ptr (g_tof s) = bool_decide (tof_thread (g_tof s) ≠ Absent)).
Proof.
  intros s. assert (owned s) as Ho by (by apply owned_run). split; [intros w; by apply owned_proc|].
  intros Hd. destruct Ho as (_ & _ & Ho). assert (tof_ok (g_tof s) = true) as Hok.
  { destruct (doing s); [done|done|done|by destruct Ho|by destruct Ho|done]. }
  by destruct (g_tof s) as [[] ? []].
Qed.

(** As long as the controllers' threads do not fail, no call goes through a null pointer,
    whatever the commands, the order of the turns, and the time-outs: a thread that was not
    told to stop keeps its object, so that the object [StopDaqProcess] has seen is there when it
    is told to stop. *)
Theorem no_failure_no_null_call (sched : list daemon_turn) :
  Forall no_failure sched → ending (run sched booted) ≠ NullCall.
Proof.
  intros Hall. assert (sound (run sched booted)) as (_ & _ & _ & ?) by (apply sound_run; [done|apply sound_booted]).
  done.
Qed.

(** C25. Told to end between two commands, with each controller up or not started, the daemon
    ends within 22 rounds, if nothing fails, no wait times out and no controller handles
    another command, whatever else the schedule holds. If no controller has a run on,
    [DAQHandler] has stopped and joined every thread and returned; if one has, its destructor
    terminates the daemon. *)
Theorem shutdown_ends (s : daemon_state) (sched : list daemon_turn) :
  ending s = Going → running s = false → agenda s = [] → doing s = Next →
  (∀ w, up_daq (proc w s) = true ∨ gone_daq (proc w s) = true) →
  up_tof (g_tof s) = true ∨ gone_tof (g_tof s) = true →
  rounds daemon_agents 22 sched → Forall steady sched →
  let s' := run sched s in
  if in_run (proc Tpc s) || in_run (proc Monitor s) then ending s' = Terminated
  else ending s' = Ended ∧ (∀ w, gone_daq (proc w s') = true) ∧ gone_tof (g_tof s') = true ∧
       status_worker s' = Absent.
Proof.
  intros Hg Hr Ha Hd Hw Ht Hrounds Hall s'.
  assert (closing s) as Hs.
  { exists 0. unfold closing_at, control_at, status_at. rewrite Hg, Ha, Hd. cbn. split_and!; auto.
    - by destruct (Hw Tpc) as [H1|H1]; cbn in H1; rewrite H1, ?orb_true_r.
    - by destruct (Hw Monitor) as [H1|H1]; cbn in H1; rewrite H1, ?orb_true_r.
    - by destruct Ht as [H1|H1]; rewrite H1, ?orb_true_r. }
  assert (work s ≤ 22) as Hle.
  { unfold work. rewrite Hg, Ha, Hd. unfold daq_work, thread_work.
    destruct (reading s), (phase (proc Tpc s)), (phase (proc Monitor s)), (tof_thread (g_tof s)), (status_worker s); cbn; lia. }
  change (in_run (proc Tpc s) || in_run (proc Monitor s)) with (doomed s).
  destruct (rounds_rank (daemon_step mc monitor_raises) daemon_agents steady (on_course (doomed s)) work (λ s, s)
    (closing_turn mc monitor_raises (doomed s)) (closing_agents mc monitor_raises (doomed s)) 22 sched s)
    as [[[(k & _ & Hc & _ & Hc1 & Hc2 & Hc3 & Hc4) <-]|[Hend ->]] H0]; [done|done|by left|done| |exact Hend].
  change (turns _ sched s) with s' in *.
  destruct Hc as [(He & _ & Ha' & _)|[(He & Hk & Ha' & Hrd)|(He & -> & Hd')]].
  - unfold work in H0. rewrite He, Ha' in H0. destruct (reading s'); lia.
  - unfold work in H0. rewrite He, Ha' in H0. destruct k as [|[|[|[|[|[|]]]]]]; [..|lia]; cbn in H0; lia.
  - rewrite Hd' in *. unfold status_at in Hc4. cbn in Hc1, Hc2, Hc3, Hc4. rewrite orb_false_r in *.
    apply andb_true_iff in Hc4 as [_ Hc4%bool_decide_eq_true].
    unfold doomed. cbn. rewrite !gone_daq_run by done. by split_and!; [|intros []|..].
Qed.
End promises.

(** ** Examples *)
#[local] Notation demo_run := (run_daemon demo_machine true).
(** The handler reads a command and takes [n] steps. *)
Definition command (c : orc_command) (n : nat) : list daemon_turn :=
  Handler TofStarts :: Receive (demo_code c) :: replicate n (Handler TofStarts).
Definition thread_up (w : which) : list daemon_turn := replicate 3 (Thread w Goes).
Definition all_up : list daemon_turn :=
  command ORC_Boot_Tpc_Daq 2 ++ thread_up Tpc ++ command ORC_Boot_Monitor 2 ++ thread_up Monitor ++
  command ORC_Boot_Tof_Daq 2 ++ command ORC_Start_Computer_Status 1 ++ [Handler TofStarts; SignalD].
Definition shutdown_round : list daemon_turn :=
  [Handler TofStarts; Receive 999; Thread Tpc Goes; Thread Monitor Goes; TofThread Goes; StatusThread].
Lemma shutdown_rounds : rounds daemon_agents 22 (concat (replicate 22 shutdown_round)).
Proof.
  apply rounds_concat. unfold daemon_agents, shutdown_round.
  rewrite !Forall_cons, Forall_nil, !Exists_cons. split_and!; eauto 10.
Qed.
Lemma shutdown_steady : Forall steady (concat (replicate 22 shutdown_round)).
Proof. apply Forall_concat, Forall_replicate. unfold shutdown_round. rewrite !Forall_cons, Forall_nil. by split_and!. Qed.
(** Shut down outside a run and in one. *)
Definition in_a_run : list daemon_turn := all_up ++ [Thread Tpc (Commanded true)].
Lemma shutdown_ends_witness :
  ending (demo_run (concat (replicate 22 shutdown_round)) (demo_run all_up booted)) = Ended ∧
  ending (demo_run (concat (replicate 22 shutdown_round)) (demo_run in_a_run booted)) = Terminated.
Proof.
  assert (∀ w, up_daq (proc w (demo_run all_up booted)) = true) as H1 by (intros []; reflexivity).
  assert (∀ w, up_daq (proc w (demo_run in_a_run booted)) = true) as H2 by (intros []; reflexivity).
  pose proof (shutdown_ends demo_machine true (demo_run all_up booted) (concat (replicate 22 shutdown_round))
    eq_refl eq_refl eq_refl eq_refl (λ w, or_introl (H1 w)) (or_introl eq_refl) shutdown_rounds shutdown_steady) as E1.
  pose proof (shutdown_ends demo_machine true (demo_run in_a_run booted) (concat (replicate 22 shutdown_round))
    eq_refl eq_refl eq_refl eq_refl (λ w, or_introl (H2 w)) (or_introl eq_refl) shutdown_rounds shutdown_steady) as E2.
  assert (in_run (proc Tpc (demo_run all_up booted)) || in_run (proc Monitor (demo_run all_up booted)) = false) as F1
    by reflexivity.
  assert (in_run (proc Tpc (demo_run in_a_run booted)) || in_run (proc Monitor (demo_run in_a_run booted)) = true) as F2
    by reflexivity.
  cbv zeta in E1, E2. rewrite F1 in E1. rewrite F2 in E2. split; [exact (proj1 E1)|exact E2].
Defined.

(** The controller cannot be constructed; the hub boots the TPC again, shuts it down, ends the daemon. *)
Definition start_failed : list daemon_turn := command ORC_Boot_Tpc_Daq 2 ++ [Thread Tpc Throws].
Definition try_again : list daemon_turn :=
  command ORC_Boot_Tpc_Daq 2 ++ thread_up Tpc ++ command ORC_Shutdown_Tpc_Daq 2 ++
  [Handler TofStarts; SignalD; Receive 999] ++ replicate 7 (Handler TofStarts).
Lemma ended_thread_wedges_witness :
  phase (proc Tpc (demo_run try_again (demo_run start_failed booted))) = Finished.
Proof. apply (ended_thread_wedges demo_machine true Tpc start_failed try_again); [reflexivity|reflexivity|discriminate]. Defined.
Example wedged_daemon_terminates :
  ending (demo_run try_again (demo_run start_failed booted)) = Terminated.
Proof. done. Qed.
Lemma no_failure_no_null_call_witness :
  ending (demo_run (all_up ++ concat (replicate 3 shutdown_round)) booted) ≠ NullCall.
Proof.
  apply (no_failure_no_null_call demo_machine true (all_up ++ concat (replicate 3 shutdown_round))).
  repeat (apply Forall_cons; split; [done|]). by apply Forall_nil.
Defined.
(** With a failure there may be one: the thread resets the pointer after it was looked at. *)
Example stop_races_with_failure :
  ending (demo_run (command ORC_Boot_Tpc_Daq 2 ++ thread_up Tpc ++
    [Handler TofStarts; Receive (demo_code ORC_Shutdown_Tpc_Daq); Thread Tpc Throws; Handler TofStarts;
     Thread Tpc Goes; Handler TofStarts]) booted) = NullCall.
Proof. done. Qed.
(** A shutdown right after the boot does nothing: the thread has not set the pointer yet. The
    status word says the TPC is down, and its controller runs. *)
Example early_shutdown_ignored :
  let s := demo_run (command ORC_Boot_Tpc_Daq 2 ++ command ORC_Shutdown_Tpc_Daq 2 ++ thread_up Tpc) booted in
  phase (proc Tpc s) = Running ∧ last (bit_words s) = Some (bit_tpc, true).
Proof. done. Qed.
(** The time-of-flight configuration does not load: the exception leaves the thread. *)
Example tof_config_terminates :
  ending (demo_run [Handler TofStarts; Receive (demo_code ORC_Boot_Tof_Daq); Handler ConfigFails] booted) = Terminated.
Proof. done. Qed.
(** A thread that does not stop in 15 s: SIGKILL ends the whole daemon. *)
Example kill_ends_daemon :
  ending (demo_run (command ORC_Boot_Tpc_Daq 2 ++ thread_up Tpc ++ command ORC_Shutdown_Tpc_Daq 2 ++
    [Timeout; Timeout; Timeout]) booted) = Killed.
Proof. done. Qed.
(** The hub boots all: nothing starts. *)
Example boot_all_does_nothing :
  demo_run (command ORC_Boot_All_DAQ 0) booted = booted.
Proof. done. Qed.
