(* ===== verification/ComputerStatus.v ===== *)
(** * The status packets (src/daemon/orchestrator.cpp, daq_orchestrator.cpp)

    The status thread asks systemd which services are active and reads the disks,
    the load, the memory and the temperatures; what it finds goes to the setters of the
    monitor object, whose class is in a submodule, and a packet follows. The calls are
    recorded in order. Doubles are those of Doubles.v. *)
From Stdlib Require Import Ascii String Lia ZArith NArith SpecFloat.
From stdpp Require Import base tactics list numbers option strings.
From S2P Require Import Prelude CppString Doubles StorageUtils MirrorState Orchestrator.
Local Open Scope string_scope.

(** ** What the machine answers during one pass *)
Record cpu_sample := CpuSample { cpu_user : Z; cpu_nice : Z; cpu_idle : Z }.
Record mem_sample := MemSample { mem_total : Z; mem_free : Z }.
(** The answer of systemd for a service. *)
Inductive unit_state := EncodeFails | QueryFails | ActiveState (state : string).
Record sample := Sample {
  s_env : string → option string;
  s_statfs : string → option statvfs_info;
  s_sensor : string → option string;      (** the text of a sensor's file; None: not opened *)
  s_init : Z;                              (** [sg_init] *)
  s_cpu : cpu_sample + ();                 (** the first and the second sample; [inr]: null *)
  s_cpu2 : cpu_sample + ();
  s_cpu_entries : nat * nat;
  s_mem : mem_sample + ();
  s_mem_entries : nat;
  s_unit : string → unit_state;
  s_uninit : Z;                            (** what an uninitialised [int] holds *)
  s_undefined : spec_float → Z             (** a cast to [uint32_t] of what does not fit *)
}.

(** The setters called, and the packets. *)
Inductive disk := TpcDisk0 | TofDisk0 | TpcDisk1 | TofDisk1 | SysDisk.
Inductive daq_bit := tpc | tof | tpc_monitor.
Inductive report :=
  | Disk (d : disk) (gigabytes : Z)
  | DiskTemp (t : Z) | CpuTemp (t : list Z) | CpuUsage (u : Z) | MemoryUsage (u : Z)
  | DaqBit (c : daq_bit) (clear : bool)
  | Error (b : error_bit)
  | Packet.
Notation reporting := (st_err (list report)).
Definition rep (r : report) : reporting () := st_modify (λ l, (l ++ [r])%list).
(** A read through a null pointer. *)
Definition null_read {A} : reporting A := st_get None.

(** ** The temperatures *)
(** [int tempMilli; hwmon >> tempMilli;] an empty file leaves the variable as it is. *)
Definition read_int (uninitialised : Z) (s : string) : Z :=
  if string_empty (skip_spaces s) then uninitialised else
  let v := default 0%Z (strtoll s) in Z.max (- 2 ^ 31) (Z.min v (2 ^ 31 - 1)).
(** [static_cast<int>(tempMilli / 1000.0)] *)
Definition degrees (milli : Z) : Z := trunc (fdiv (double_of milli) (double_of 1000)).
Definition sensor_file (monitor : string) (i : nat) : string :=
  "/sys/class/hwmon/" ++ monitor ++ "/temp" ++ to_string (N.of_nat i) ++ "_input".
Section status.
(** [NUM_CPUS], of the networking submodule. *)
Context (num_cpus : nat).

Definition GetCoreTemp (e : sample) (core_temp : list Z) (i : nat) : reporting (list Z) :=
  match s_sensor e (sensor_file "hwmon2" (i + 1)) with
  | None => rep (Error disk_temp_status) ;;~ st_ret core_temp
  | Some text => st_ret (<[i := u32 (degrees (read_int (s_uninit e) text))]> core_temp)
  end.
Fixpoint GetCoreTemps (e : sample) (cores : list nat) (core_temp : list Z) : reporting (list Z) :=
  match cores with
  | [] => st_ret core_temp
  | i :: cores => t <~ GetCoreTemp e core_temp i ;; GetCoreTemps e cores t
  end.
Definition GetCoreDiskTemp (e : sample) : reporting () :=
  match s_sensor e (sensor_file "hwmon1" 1) with
  | None => rep (Error cpu_temp_status)
  | Some text =>
      rep (DiskTemp (degrees (read_int (s_uninit e) text))) ;;~
      core_temp <~ GetCoreTemps e (seq 0 num_cpus) (replicate num_cpus 0%Z) ;;
      rep (CpuTemp core_temp)
  end.

(** ** Memory and load *)
Definition GetMemoryStats (e : sample) : reporting () :=
  (match s_mem e with inr _ => rep (MemoryUsage 0) | inl _ => st_ret () end) ;;~
  if Nat.eqb (s_mem_entries e) 0 then st_ret ()
  else
    match s_mem e with
    | inr _ => null_read
    | inl m =>
        let used := u64 (mem_total m - mem_free m) in
        let memory_usage :=
          if (0 <? mem_total m)%Z
          then fdiv (fmul (double_of 100) (double_of used)) (double_of (mem_total m)) else double_of 0 in
        rep (MemoryUsage (to_uint32 (s_undefined e) memory_usage))
    end.
Definition busy (c : cpu_sample) : spec_float := double_of (u64 (cpu_user c + cpu_nice c)).
Definition GetCpuStats (e : sample) : reporting () :=
  match s_cpu e with
  | inr _ => rep (CpuUsage 0) ;;~ rep (Error cpu_usage_status)
  | inl c1 =>
      match s_cpu2 e with
      | inr _ => rep (CpuUsage 0) ;;~ null_read
      | inl c2 =>
          if Nat.eqb (s_cpu_entries e).1 0 then st_ret ()
          else if Nat.eqb (s_cpu_entries e).2 0 then st_ret ()
          else
            let total_diff := fsub (busy c2) (busy c1) in
            let idle_diff := fsub (double_of (cpu_idle c2)) (double_of (cpu_idle c1)) in
            let cpu_usage :=
              if positive_double (fadd total_diff total_diff)
              then fdiv (fmul (double_of 100) total_diff) (fadd total_diff idle_diff) else double_of 0 in
            rep (CpuUsage (to_uint32 (s_undefined e) cpu_usage))
      end
  end.
Definition load_and_memory (e : sample) : reporting () :=
  if (s_init e =? 0)%Z then GetCpuStats e ;;~ GetMemoryStats e
  else rep (Error cpu_usage_status) ;;~ rep (Error memory_usage_status).

(** ** The disks *)
Definition GB_divisor : Z := 1024 * 1024 * 1024.
Definition disk_free (e : sample) (d : disk) (path : string) : reporting () :=
  match s_statfs e path with
  | Some i => rep (Disk d (u64 (Z.of_N (f_bavail i) * Z.of_N (f_frsize i)) / GB_divisor))
  | None => rep (Error disk_free_status)
  end.
Definition GetComputerStatus (e : sample) : reporting () :=
  match s_env e "DATA_SSD0_DIR", s_env e "DATA_SSD1_DIR" with
  | Some data_ssd0, Some data_ssd1 =>
      disk_free e TpcDisk0 data_ssd0 ;;~ disk_free e TofDisk0 (data_ssd0 ++ "/tof_data") ;;~
      disk_free e TpcDisk1 data_ssd1 ;;~ disk_free e TofDisk1 (data_ssd1 ++ "/tof_data") ;;~
      disk_free e SysDisk "/" ;;~
      load_and_memory e ;;~ GetCoreDiskTemp e
  | _, _ => rep (Error disk_free_status)
  end.

(** ** The services *)
Definition services : list (string * daq_bit) := [(kTpcDaq, tpc); (kTofDaq, tof); (kDataMonitor, tpc_monitor)].
Definition poll_service (e : sample) (s : string * daq_bit) : reporting () :=
  match s_unit e s.1 with
  | ActiveState state => rep (DaqBit s.2 (negb (String.eqb state "active")))
  | _ => st_ret ()
  end.
Fixpoint poll_services (e : sample) (ss : list (string * daq_bit)) : reporting () :=
  match ss with
  | [] => st_ret ()
  | s :: ss => poll_service e s ;;~ poll_services e ss
  end.
Definition PollServiceState (e : sample) : reporting () := poll_services e services.

(** ** The thread: a pass for each sample taken until [g_status_running] is false *)
Definition status_pass (e : sample) : reporting () :=
  PollServiceState e ;;~ GetComputerStatus e ;;~ rep Packet.
Fixpoint status_loop (samples : list sample) : reporting () :=
  match samples with
  | [] => st_ret ()
  | e :: samples => status_pass e ;;~ status_loop samples
  end.
Definition SendStatus (bus_opens : bool) (samples : list sample) : reporting () :=
  if bus_opens then status_loop samples else st_ret ().

(** ** The older orchestrator: one data disk, and no services to poll *)
Definition GetComputerStatus_daq (e : sample) : reporting () :=
  match s_env e "DATA_BASE_DIR" with
  | Some data_basedir =>
      disk_free e TpcDisk0 data_basedir ;;~ disk_free e TofDisk0 (data_basedir ++ "/tof_data") ;;~
      disk_free e SysDisk "/" ;;~
      load_and_memory e ;;~ GetCoreDiskTemp e
  | None => rep (Error disk_free_status)
  end.
Fixpoint SendStatus_daq (samples : list sample) : reporting () :=
  match samples with
  | [] => st_ret ()
  | e :: samples => GetComputerStatus_daq e ;;~ rep Packet ;;~ SendStatus_daq samples
  end.
End status.

(** ** What a pass reports *)
Local Close Scope string_scope.
#[export] Instance disk_eq_dec : EqDecision disk.
Proof. solve_decision. Defined.
#[export] Instance daq_bit_eq_dec : EqDecision daq_bit.
Proof. solve_decision. Defined.
(** The calls of one setter, in order. *)
Definition disk_of (d : disk) (r : report) : option Z :=
  match r with Disk d' g => if decide (d' = d) then Some g else None | _ => None end.
Definition bit_of (c : daq_bit) (r : report) : option bool :=
  match r with DaqBit c' b => if decide (c' = c) then Some b else None | _ => None end.
Definition disk_temp_of (r : report) : option Z := match r with DiskTemp x => Some x | _ => None end.
Definition cpu_temp_of (r : report) : option (list Z) := match r with CpuTemp x => Some x | _ => None end.
Definition cpu_usage_of (r : report) : option Z := match r with CpuUsage x => Some x | _ => None end.
Definition memory_usage_of (r : report) : option Z := match r with MemoryUsage x => Some x | _ => None end.
Definition error_of (r : report) : option error_bit := match r with Error b => Some b | _ => None end.

Section facts.
Context (num_cpus : nat).
Local Open Scope list_scope.
Implicit Types (e : sample) (l : list report).

(** What each setter is to be given, from what the machine answered. *)
(** The bit of a service is cleared unless it is active, and left alone when systemd did
    not answer. *)
Definition service_state e (name : string) : list bool :=
  match s_unit e name with ActiveState st => [negb (String.eqb st "active")] | _ => [] end.
(** The free GiB of the file system of a path. *)
Definition free_gib e (path : string) : list Z :=
  match s_statfs e path with
  | Some i => [((Z.of_N (f_bavail i) * Z.of_N (f_frsize i)) `mod` 2 ^ 64 / 2 ^ 30)%Z]
  | None => []
  end.
Definition disk_path (ssd0 ssd1 : string) (d : disk) : string :=
  match d with
  | TpcDisk0 => ssd0 | TofDisk0 => ssd0 +:+ "/tof_data" | TpcDisk1 => ssd1 | TofDisk1 => ssd1 +:+ "/tof_data"
  | SysDisk => "/"
  end.
(** 100 busy / (busy + idle), from one sample to the next. *)
Definition cpu_percent e (c1 c2 : cpu_sample) : Z :=
  let busy c := double_of ((cpu_user c + cpu_nice c) `mod` 2 ^ 64) in
  let worked := fsub (busy c2) (busy c1) in
  let idled := fsub (double_of (cpu_idle c2)) (double_of (cpu_idle c1)) in
  to_uint32 (s_undefined e)
    (if positive_double (fadd worked worked) then fdiv (fmul (double_of 100) worked) (fadd worked idled) else double_of 0).
Definition cpu_usages e : list Z :=
  match s_cpu e, s_cpu2 e with
  | inl c1, inl c2 => if decide (0 < (s_cpu_entries e).1 ∧ 0 < (s_cpu_entries e).2) then [cpu_percent e c1 c2] else []
  | inr _, _ => [0%Z]
  | _, _ => []
  end.
(** 100 used / total. *)
Definition memory_percent e (m : mem_sample) : Z :=
  to_uint32 (s_undefined e)
    (if (0 <? mem_total m)%Z
     then fdiv (fmul (double_of 100) (double_of ((mem_total m - mem_free m) `mod` 2 ^ 64))) (double_of (mem_total m))
     else double_of 0).
Definition memory_usages e : list Z :=
  match s_mem e with
  | inl m => if decide (0 < s_mem_entries e) then [memory_percent e m] else []
  | inr _ => [0%Z]
  end.
Definition core_temperature e (i : nat) : Z :=
  match s_sensor e (sensor_file "hwmon2" (i + 1)) with
  | Some text => u32 (degrees (read_int (s_uninit e) text))
  | None => 0%Z
  end.
Definition no_sensor e (i : nat) : option error_bit :=
  match s_sensor e (sensor_file "hwmon2" (i + 1)) with Some _ => None | None => Some disk_temp_status end.
(** The error bits, in the order they are set. *)
Definition disk_errors e (path : string) : list error_bit :=
  match s_statfs e path with Some _ => [] | None => [disk_free_status] end.
Definition load_errors e : list error_bit :=
  if decide (s_init e = 0%Z)
  then match s_cpu e with inr _ => [cpu_usage_status] | inl _ => [] end
  else [cpu_usage_status; memory_usage_status].
Definition sensor_errors e : list error_bit :=
  match s_sensor e (sensor_file "hwmon1" 1) with
  | None => [cpu_temp_status]
  | Some _ =>
      omap (no_sensor e)
        (seq 0 num_cpus)
  end.
Definition all_disks : list disk := [TpcDisk0; TofDisk0; TpcDisk1; TofDisk1; SysDisk].

(** The packet of a pass tells of the machine: of the services, and of the rest when both disks
    are named, otherwise only an error. *)
Record told_of_machine e (ssd0 ssd1 : string) l : Prop := {
  told_disk d : omap (disk_of d) l = free_gib e (disk_path ssd0 ssd1 d);
  told_cpu : omap cpu_usage_of l = if decide (s_init e = 0%Z) then cpu_usages e else [];
  told_memory : omap memory_usage_of l = if decide (s_init e = 0%Z) then memory_usages e else [];
  told_disk_temp : omap disk_temp_of l =
    match s_sensor e (sensor_file "hwmon1" 1) with Some text => [degrees (read_int (s_uninit e) text)] | None => [] end;
  told_cpu_temp : omap cpu_temp_of l =
    match s_sensor e (sensor_file "hwmon1" 1) with Some _ => [map (core_temperature e) (seq 0 num_cpus)] | None => [] end;
  told_errors : omap error_of l =
    concat (map (λ d, disk_errors e (disk_path ssd0 ssd1 d)) all_disks) ++ load_errors e ++ sensor_errors e
}.
Record pass_ok e l : Prop := {
  pass_tpc : omap (bit_of tpc) l = service_state e "tpc_daq.service";
  pass_tof : omap (bit_of tof) l = service_state e "tof_daq.service";
  pass_monitor : omap (bit_of tpc_monitor) l = service_state e "data_monitor.service";
  pass_packet : ∃ before, l = before ++ [Packet] ∧ Packet ∉ before;
  pass_machine :
    match s_env e "DATA_SSD0_DIR", s_env e "DATA_SSD1_DIR" with
    | Some ssd0, Some ssd1 => told_of_machine e ssd0 ssd1 l
    | _, _ => ∃ bits, l = bits ++ [Error disk_free_status; Packet] ∧ Forall (λ r, ∃ c b, r = DaqBit c b) bits
    end
}.

(** *** What each function reports *)
(** [c] returns [a], having made the reports [ls]. *)
Definition makes {A} (c : reporting A) (ls : list report) (a : A) : Prop := ∀ l, c l = (l ++ ls, Some a).
Lemma makes_bind {A B} (c : reporting A) (k : A → reporting B) ls ls' a b :
  makes c ls a → makes (k a) ls' b → makes (st_bind c k) (ls ++ ls') b.
Proof. intros Hc Hk l. unfold st_bind. by rewrite Hc, Hk, <-app_assoc. Qed.
Lemma makes_ret {A} (a : A) : makes (st_ret a) [] a.
Proof. intros l. by rewrite app_nil_r. Qed.
Lemma makes_rep r : makes (rep r) [r] ().
Proof. done. Qed.

Definition disk_reports e d path : list report := map (Disk d) (free_gib e path) ++ map Error (disk_errors e path).
Lemma disk_free_makes e d path : makes (disk_free e d path) (disk_reports e d path) ().
Proof. intros l. unfold disk_free, disk_reports, free_gib, disk_errors. by destruct (s_statfs e path). Qed.

Lemma GetCoreTemps_makes e m k :
  makes (GetCoreTemps e (seq k m) (map (core_temperature e) (seq 0 k) ++ replicate m 0%Z))
    (map Error (omap (no_sensor e)
       (seq k m)))
    (map (core_temperature e) (seq 0 (k + m))).
Proof.
  revert k. induction m as [|m IH]; intros k; [cbn; rewrite app_nil_r, Nat.add_0_r; apply makes_ret|].
  change (seq k (S m)) with (k :: seq (S k) m). cbn [GetCoreTemps]. specialize (IH (S k)).
  set (t := map _ (seq 0 k) ++ replicate (S m) 0%Z) in *.
  assert (makes (GetCoreTemp e t k)
    (match s_sensor e (sensor_file "hwmon2" (k + 1)) with Some _ => [] | None => [Error disk_temp_status] end)
    (map (core_temperature e) (seq 0 (S k)) ++ replicate m 0%Z)) as Hone.
  { unfold GetCoreTemp, t. rewrite seq_S, map_app, <-app_assoc. cbn [map app replicate Nat.add]. unfold core_temperature at 2 4.
    destruct (s_sensor e _) as [text|].
    - intros l. unfold st_ret. rewrite app_nil_r. do 2 f_equal.
      rewrite insert_app_r_alt; rewrite length_map, length_seq; [|done]. by rewrite Nat.sub_diag.
    - apply (makes_bind _ _ [_] [] ()); [apply makes_rep|apply makes_ret]. }
  replace (k + S m) with (S k + m) by lia.
  change (omap (no_sensor e) (k :: seq (S k) m)) with
    (match no_sensor e k with Some b => b :: omap (no_sensor e) (seq (S k) m) | None => omap (no_sensor e) (seq (S k) m) end).
  replace (map Error (match no_sensor e k with Some b => _ | None => _ end)) with
    (match s_sensor e (sensor_file "hwmon2" (k + 1)) with Some _ => [] | None => [Error disk_temp_status] end ++
     map Error (omap (no_sensor e) (seq (S k) m))) by (unfold no_sensor at 2; by destruct (s_sensor e _)).
  eapply makes_bind; [exact Hone|exact IH].
Qed.
Definition sensor_reports e : list report :=
  match s_sensor e (sensor_file "hwmon1" 1) with
  | None => [Error cpu_temp_status]
  | Some text =>
      [DiskTemp (degrees (read_int (s_uninit e) text))] ++ map Error (sensor_errors e) ++
      [CpuTemp (map (core_temperature e) (seq 0 num_cpus))]
  end.
Lemma GetCoreDiskTemp_makes e : makes (GetCoreDiskTemp num_cpus e) (sensor_reports e) ().
Proof.
  unfold GetCoreDiskTemp, sensor_reports, sensor_errors. destruct (s_sensor e (sensor_file "hwmon1" 1)) as [text|]; [|apply makes_rep].
  eapply makes_bind; [apply makes_rep|]. eapply makes_bind; [apply (GetCoreTemps_makes e num_cpus 0)|apply makes_rep].
Qed.

(** The load and the memory: the second sample of the load is not tested, and a missing one
    of the memory is, but used. *)
Definition load_null (e : sample) : bool :=
  (s_init e =? 0)%Z &&
  match s_cpu e, s_cpu2 e with
  | inl _, inr _ => true
  | _, _ => match s_mem e with inr _ => negb (Nat.eqb (s_mem_entries e) 0) | inl _ => false end
  end.
Definition cpu_reports e : list report :=
  map CpuUsage (cpu_usages e) ++ match s_cpu e with inr _ => [Error cpu_usage_status] | inl _ => [] end.
Lemma GetCpuStats_makes e :
  match s_cpu e, s_cpu2 e with inl _, inr _ => False | _, _ => True end → makes (GetCpuStats e) (cpu_reports e) ().
Proof.
  unfold GetCpuStats, cpu_reports, cpu_usages, cpu_percent. destruct (s_cpu e) as [c1|[]], (s_cpu2 e) as [c2|[]]; try done; intros _.
  - destruct (s_cpu_entries e) as [[|n1] [|n2]]; cbn [fst snd Nat.eqb]; rewrite ?decide_False by lia; try apply makes_ret.
    rewrite decide_True by lia. apply makes_rep.
  - apply (makes_bind _ _ [CpuUsage 0] [_] ()); apply makes_rep.
  - apply (makes_bind _ _ [CpuUsage 0] [_] ()); apply makes_rep.
Qed.
Lemma GetMemoryStats_makes e :
  match s_mem e with inr _ => Nat.eqb (s_mem_entries e) 0 = true | inl _ => True end →
  makes (GetMemoryStats e) (map MemoryUsage (memory_usages e)) ().
Proof.
  unfold GetMemoryStats, memory_usages, memory_percent. destruct (s_mem e) as [m|[]], (s_mem_entries e) as [|n]; cbn [Nat.eqb]; intros Hn; try done.
  rewrite decide_False by lia. apply makes_ret.
Qed.
Definition load_reports e : list report :=
  if decide (s_init e = 0%Z) then cpu_reports e ++ map MemoryUsage (memory_usages e)
  else [Error cpu_usage_status; Error memory_usage_status].
Lemma load_and_memory_makes e : load_null e = false → makes (load_and_memory e) (load_reports e) ().
Proof.
  unfold load_null, load_and_memory, load_reports. destruct (Z.eqb_spec (s_init e) 0) as [Hi|Hi]; cbn [andb]; intros Hn.
  - rewrite decide_True by done. eapply makes_bind.
    + apply GetCpuStats_makes. by destruct (s_cpu e), (s_cpu2 e).
    + apply GetMemoryStats_makes. by destruct (s_mem e), (s_cpu e), (s_cpu2 e), (Nat.eqb (s_mem_entries e) 0).
  - rewrite decide_False by done. apply (makes_bind _ _ [_] [_] ()); apply makes_rep.
Qed.
Lemma load_and_memory_null e l : load_null e = true → (load_and_memory e l).2 = None.
Proof.
  unfold load_null, load_and_memory. destruct (s_init e =? 0)%Z; [|done]. cbn. intros Hn.
  unfold st_bind at 1, GetMemoryStats.
  assert (s_cpu e = inr () ∨ (∃ c2, s_cpu2 e = inl c2) ∨ (GetCpuStats e l).2 = None) as Hc.
  { unfold GetCpuStats. destruct (s_cpu e) as [?|[]], (s_cpu2 e) as [?|[]]; eauto. }
  destruct (GetCpuStats e l) as [l' [[]|]]; [|done].
  assert (∃ m, s_mem e = inr m ∧ Nat.eqb (s_mem_entries e) 0 = false) as (m & -> & E).
  { destruct Hc as [Hc|[[? Hc]|Hc]]; [rewrite Hc in Hn|rewrite Hc in Hn|done].
    - destruct (s_mem e) as [|m], (Nat.eqb _ 0); try done. by exists m.
    - destruct (s_cpu e), (s_mem e) as [|m], (Nat.eqb _ 0); try done; by exists m. }
  by rewrite E.
Qed.

(** The passes that read through a null pointer. *)
Definition null_read_in (e : sample) : bool :=
  match s_env e "DATA_SSD0_DIR", s_env e "DATA_SSD1_DIR" with
  | Some _, Some _ => load_null e
  | _, _ => false
  end.
Definition machine_reports e (ssd0 ssd1 : string) : list report :=
  concat (map (λ d, disk_reports e d (disk_path ssd0 ssd1 d)) all_disks) ++ load_reports e ++ sensor_reports e.
Lemma GetComputerStatus_makes e :
  null_read_in e = false →
  makes (GetComputerStatus num_cpus e)
    (match s_env e "DATA_SSD0_DIR", s_env e "DATA_SSD1_DIR" with
     | Some ssd0, Some ssd1 => machine_reports e ssd0 ssd1
     | _, _ => [Error disk_free_status]
     end) ().
Proof.
  unfold null_read_in, GetComputerStatus, machine_reports. intros Hn.
  destruct (s_env e "DATA_SSD0_DIR") as [ssd0|]; [|apply makes_rep]. destruct (s_env e "DATA_SSD1_DIR") as [ssd1|]; [|apply makes_rep].
  cbn [concat map all_disks disk_path]. rewrite <-!app_assoc, app_nil_l. repeat (eapply makes_bind; [apply disk_free_makes|]).
  eapply makes_bind; [by apply load_and_memory_makes|apply GetCoreDiskTemp_makes].
Qed.
Lemma disk_free_then {A} e d path (k : reporting A) l :
  ∃ l', (disk_free e d path ;;~ k) l = k l'.
Proof. unfold st_bind, disk_free. destruct (s_statfs e path); by eexists. Qed.
Lemma GetComputerStatus_null e l : null_read_in e = true → (GetComputerStatus num_cpus e l).2 = None.
Proof.
  unfold null_read_in, GetComputerStatus. intros Hn. destruct (s_env e _); [|done]. destruct (s_env e _); [|done].
  do 5 (match goal with |- context [st_bind (disk_free e ?d ?p) (λ _, ?k) ?l] =>
    destruct (disk_free_then e d p k l) as [? ->] end).
  unfold st_bind at 1. match goal with |- context [load_and_memory e ?l] =>
    pose proof (load_and_memory_null e l Hn); by destruct (load_and_memory e l) as [? [[]|]] end.
Qed.

(** The states systemd gave, in the order of the services. *)
Definition service_reports e : list report :=
  map (DaqBit tpc) (service_state e "tpc_daq.service") ++ map (DaqBit tof) (service_state e "tof_daq.service") ++
  map (DaqBit tpc_monitor) (service_state e "data_monitor.service").
Lemma PollServiceState_makes e : makes (PollServiceState e) (service_reports e) ().
Proof.
  unfold PollServiceState, service_reports, services. cbn [poll_services]. rewrite <-(app_nil_r (map (DaqBit tpc_monitor) _)).
  assert (∀ name c, makes (poll_service e (name, c)) (map (DaqBit c) (service_state e name)) ()) as H
    by (intros name c l; unfold poll_service, service_state; cbn [fst snd]; destruct (s_unit e name); cbn; by rewrite ?app_nil_r).
  repeat (eapply makes_bind; [apply H|]). apply makes_ret.
Qed.

(** *** The packet of a pass *)
Lemma omap_map {A B C} (f : B → option C) (g : A → B) (l : list A) : omap f (map g l) = omap (f ∘ g) l.
Proof. induction l as [|x l IH]; [done|]. cbn. by rewrite IH. Qed.
Lemma omap_none {A B} (f : A → option B) (l : list A) : (∀ x, f x = None) → omap f l = [].
Proof. intros Hf. induction l as [|x l IH]; [done|]. cbn. by rewrite Hf. Qed.
Lemma omap_id {A} (f : A → option A) (l : list A) : (∀ x, f x = Some x) → omap f l = l.
Proof. intros Hf. induction l as [|x l IH]; [done|]. cbn. by rewrite Hf, IH. Qed.
(** The calls of one setter in a list that is put together by [++] and [map]. *)
Ltac view :=
  repeat (rewrite !omap_app || rewrite omap_map);
  repeat match goal with
    | |- context [omap ?f ?l] =>
        first [rewrite (omap_none f l) by done | rewrite (omap_id f l) by done]
    end;
  rewrite ?app_nil_r; cbn [app].
Lemma pass_services e machine :
  (∀ c, omap (bit_of c) machine = []) →
  let l := service_reports e ++ machine in
  omap (bit_of tpc) l = service_state e "tpc_daq.service" ∧ omap (bit_of tof) l = service_state e "tof_daq.service" ∧
  omap (bit_of tpc_monitor) l = service_state e "data_monitor.service".
Proof. intros Hm l. subst l. unfold service_reports. split_and!; rewrite !omap_app, Hm; by view. Qed.
Lemma disk_view e ssd0 ssd1 {B} (f : report → option B) :
  omap f (concat (map (λ d, disk_reports e d (disk_path ssd0 ssd1 d)) all_disks)) =
  concat (map (λ d, omap f (disk_reports e d (disk_path ssd0 ssd1 d))) all_disks).
Proof. generalize all_disks. intros ds. induction ds as [|d ds IH]; [done|]. cbn. by rewrite omap_app, IH. Qed.
Lemma load_view e :
  let l := load_reports e in
  omap cpu_usage_of l = (if decide (s_init e = 0%Z) then cpu_usages e else []) ∧
  omap memory_usage_of l = (if decide (s_init e = 0%Z) then memory_usages e else []) ∧ omap error_of l = load_errors e.
Proof.
  cbv zeta. unfold load_reports, cpu_reports, load_errors. destruct (decide _); [|done].
  destruct (s_cpu e); split_and!; by view.
Qed.
Lemma sensor_view e :
  let l := sensor_reports e in
  omap disk_temp_of l =
    match s_sensor e (sensor_file "hwmon1" 1) with Some text => [degrees (read_int (s_uninit e) text)] | None => [] end ∧
  omap cpu_temp_of l =
    match s_sensor e (sensor_file "hwmon1" 1) with Some _ => [map (core_temperature e) (seq 0 num_cpus)] | None => [] end ∧
  omap error_of l = sensor_errors e.
Proof.
  cbv zeta. unfold sensor_reports. destruct (s_sensor e (sensor_file "hwmon1" 1)) as [text|] eqn:E;
    [|unfold sensor_errors; by rewrite E]. split_and!; by view.
Qed.
Lemma machine_told e ssd0 ssd1 before :
  Forall (λ r, ∃ c b, r = DaqBit c b) before →
  told_of_machine e ssd0 ssd1 (before ++ machine_reports e ssd0 ssd1 ++ [Packet]).
Proof.
  intros Hb. assert (∀ {B} (f : report → option B), (∀ c b, f (DaqBit c b) = None) → omap f before = []) as Hskip.
  { intros B f Hf. induction Hb as [|r l (c & b & ->) _ IH]; [done|]. cbn. by rewrite Hf. }
  destruct (load_view e) as (L1 & L2 & L3). destruct (sensor_view e) as (S1 & S2 & S3).
  assert (∀ {B} (f : report → option B), (∀ d g, f (Disk d g) = None) → (∀ b, f (Error b) = None) →
    omap f (concat (map (λ d, disk_reports e d (disk_path ssd0 ssd1 d)) all_disks)) = []) as Hdisks.
  { intros B f H1 H2. rewrite disk_view. assert (∀ d path, omap f (disk_reports e d path) = []) as E.
    { intros d path. unfold disk_reports. rewrite omap_app, !omap_map, (omap_none (f ∘ Error)), (omap_none (f ∘ Disk d)); [done|intros x; apply H1|intros x; apply H2]. }
    cbn [map concat all_disks]. by rewrite !E. }
  assert (∀ d, omap (disk_of d) (load_reports e) = [] ∧ omap (disk_of d) (sensor_reports e) = []) as Hnd.
  { intros d. unfold load_reports, cpu_reports, sensor_reports.
    split; [destruct (decide _); [destruct (s_cpu e)|]|destruct (s_sensor e _)]; by view. }
  assert (omap cpu_usage_of (sensor_reports e) = [] ∧ omap memory_usage_of (sensor_reports e) = [] ∧
    omap disk_temp_of (load_reports e) = [] ∧ omap cpu_temp_of (load_reports e) = []) as (N1 & N2 & N3 & N4).
  { unfold load_reports, cpu_reports, sensor_reports.
    split_and!; first [destruct (s_sensor e _); by view|destruct (decide _); [destruct (s_cpu e)|]; by view]. }
  unfold machine_reports. split; intros; rewrite !omap_app, Hskip by done.
  - destruct (Hnd d) as [-> ->]. rewrite disk_view. unfold disk_reports. cbn [map concat all_disks app].
    rewrite !app_nil_r. destruct d; by view.
  - by rewrite (Hdisks _ cpu_usage_of), L1, N1, !app_nil_r.
  - by rewrite (Hdisks _ memory_usage_of), L2, N2, !app_nil_r.
  - by rewrite (Hdisks _ disk_temp_of), N3, S1, !app_nil_r.
  - by rewrite (Hdisks _ cpu_temp_of), N4, S2, !app_nil_r.
  - rewrite disk_view, L3, S3. unfold disk_reports. cbn [map concat all_disks app]. rewrite ?app_nil_r. by view.
Qed.
Lemma status_pass_ok e l :
  null_read_in e = false → ∃ ls, status_pass num_cpus e l = (l ++ ls, Some ()) ∧ pass_ok e ls.
Proof.
  intros Hn. set (m := match s_env e "DATA_SSD0_DIR", s_env e "DATA_SSD1_DIR" with
     | Some ssd0, Some ssd1 => machine_reports e ssd0 ssd1 | _, _ => [Error disk_free_status] end).
  exists (service_reports e ++ m ++ [Packet]). split.
  { refine (makes_bind _ _ _ _ () () (PollServiceState_makes e) _ l).
    exact (makes_bind _ _ _ _ () () (GetComputerStatus_makes e Hn) (makes_rep Packet)). }
  assert (∀ r, r ∈ m → r ≠ Packet ∧ ∀ c, bit_of c r = None) as Hm.
  { intros r Hr. assert (r ∈ [Error disk_free_status] ∨ ∃ ssd0 ssd1, r ∈ machine_reports e ssd0 ssd1) as Hr'.
    { subst m. destruct (s_env e "DATA_SSD0_DIR"); [destruct (s_env e "DATA_SSD1_DIR")|]; eauto. }
    clear Hr. destruct Hr' as [->%list_elem_of_singleton|(ssd0 & ssd1 & Hr)]; [done|]. revert Hr.
    unfold machine_reports, disk_reports, load_reports, cpu_reports, sensor_reports. cbn [map concat all_disks].
    destruct (decide _), (s_cpu e), (s_sensor e _); rewrite !elem_of_app, ?list_elem_of_fmap, ?elem_of_cons, ?elem_of_nil; naive_solver. }
  assert (∀ c, omap (bit_of c) (m ++ [Packet]) = []) as Hbits.
  { intros c. rewrite omap_app, app_nil_r. clear -Hm. induction m as [|r m IH]; [done|]. cbn.
    rewrite (proj2 (Hm r (list_elem_of_here _ _)) c). apply IH. intros r' Hr'. apply Hm. by right. }
  destruct (pass_services e (m ++ [Packet]) Hbits) as (H1 & H2 & H3).
  assert (Forall (λ r, ∃ c b, r = DaqBit c b) (service_reports e)) as Hs.
  { unfold service_reports. apply Forall_forall. intros r. rewrite !elem_of_app, !list_elem_of_fmap. naive_solver. }
  split; [done..| |].
  - exists (service_reports e ++ m). rewrite <-app_assoc. split; [done|]. intros [Hr|Hr]%elem_of_app; [|by apply Hm in Hr as []].
    rewrite Forall_forall in Hs. by apply Hs in Hr as (c & b & [=]).
  - subst m. destruct (s_env e "DATA_SSD0_DIR") as [ssd0|]; [destruct (s_env e "DATA_SSD1_DIR") as [ssd1|]|];
      [by apply machine_told|by exists (service_reports e)..].
Qed.
Lemma status_pass_null e l : null_read_in e = true → (status_pass num_cpus e l).2 = None.
Proof.
  intros Hn. unfold status_pass, st_bind. rewrite (PollServiceState_makes e l).
  pose proof (GetComputerStatus_null e (l ++ service_reports e) Hn) as H.
  by destruct (GetComputerStatus num_cpus e (l ++ service_reports e)) as [? [[]|]].
Qed.
Lemma status_loop_ok samples l :
  if existsb null_read_in samples then (status_loop num_cpus samples l).2 = None
  else ∃ passes, status_loop num_cpus samples l = (l ++ concat passes, Some ()) ∧ Forall2 pass_ok samples passes.
Proof.
  revert l. induction samples as [|e samples IH]; intros l; cbn; [exists []; by rewrite app_nil_r|].
  unfold st_bind. destruct (null_read_in e) eqn:Hn; cbn.
  - pose proof (status_pass_null e l Hn). by destruct (status_pass num_cpus e l) as [? [[]|]].
  - destruct (status_pass_ok e l Hn) as (ls & -> & Hls). specialize (IH (l ++ ls)).
    destruct (existsb null_read_in samples); [done|]. destruct IH as (passes & -> & Hp).
    exists (ls :: passes). cbn. rewrite <- app_assoc. split; [done|]. by constructor.
Qed.

(** C28. The status thread, over any answers of the machine. It takes the daemon down exactly
    when a pass reads through a null pointer: the second sample of the load is missing, or the
    memory statistics are, though counted. Otherwise every pass ends with one packet, and what
    each setter was given before it is what the machine answered in that pass: for each of the
    three services whether it is active, if systemd said so; and, when both data disks are
    named, the free GiB of each of the five disks, the load, the memory used, the temperatures of
    the disk and of each core, and the error bits of what could not be read, in order; with
    a disk unnamed, one error bit. A percentage that does not fit its integer is undefined
    in C++: what is reported is then what the machine makes of the cast. *)
Theorem SendStatus_reports (samples : list sample) :
  let '(l, r) := SendStatus num_cpus true samples [] in
  (r = None ↔ Exists (λ e, null_read_in e = true) samples) ∧
  (r = Some () → ∃ passes, l = concat passes ∧ Forall2 pass_ok samples passes).
Proof.
  cbn [SendStatus]. pose proof (status_loop_ok samples []) as Hloop.
  destruct (existsb null_read_in samples) eqn:Hn.
  - destruct (status_loop num_cpus samples []) as [l r]. cbn in Hloop. subst r.
    split; [|done]. split; [|done]. intros _.
    apply existsb_exists in Hn as (e & Hin%list_elem_of_In & He). apply Exists_exists. eauto.
  - destruct Hloop as (passes & -> & Hp). split; [|by exists passes]. split; [done|].
    intros (e & Hin%list_elem_of_In & He)%Exists_exists.
    assert (existsb null_read_in samples = true) by (apply existsb_exists; eauto). congruence.
Qed.
End facts.

(** ** One pass *)
Local Open Scope string_scope.
Definition demo_sample : sample := {|
  s_env v := if String.eqb v "DATA_SSD0_DIR" then Some "/mnt/ssd0"
             else if String.eqb v "DATA_SSD1_DIR" then Some "/mnt/ssd1" else None;
  s_statfs p := if String.eqb p "/mnt/ssd1/tof_data" then None else Some (StatvfsInfo (9 * 2 ^ 18) 4096);
  s_sensor f := if String.eqb f (sensor_file "hwmon2" 2) then None else Some "47850";
  s_init := 0; s_cpu := inl (CpuSample 100 20 880); s_cpu2 := inl (CpuSample 150 30 1020);
  s_cpu_entries := (1, 1); s_mem := inl (MemSample (3 * 2 ^ 33) (2 ^ 33)); s_mem_entries := 1;
  s_undefined _ := 0%Z; s_unit u := if String.eqb u kTofDaq then QueryFails
              else ActiveState (if String.eqb u kTpcDaq then "active" else "failed");
  s_uninit := 0
|}.
Example demo_pass :
  SendStatus 3 true [demo_sample] [] =
    ([DaqBit tpc false; DaqBit tpc_monitor true; Disk TpcDisk0 9; Disk TofDisk0 9; Disk TpcDisk1 9;
      Error disk_free_status; Disk SysDisk 9; CpuUsage 30; MemoryUsage 66; DiskTemp 47;
      Error disk_temp_status; CpuTemp [47; 0; 47]%Z; Packet], Some ()).
Proof. vm_compute. done. Qed.
(** The sensor of a core that cannot be opened is reported as one of the disk, and the other
    way round; and then no core is read. *)
Example demo_no_disk_sensor :
  (GetCoreDiskTemp 3 (Sample (s_env demo_sample) (s_statfs demo_sample)
     (λ f, if String.eqb f (sensor_file "hwmon1" 1) then None else Some "47850")
     0 (inr ()) (inr ()) (0, 0) (inr ()) 0 (s_unit demo_sample) 0 (s_undefined demo_sample)) []).1 = [Error cpu_temp_status].
Proof. done. Qed.
(** One variable unset: only an error in the packet. *)
Example demo_one_disk_unset :
  (GetComputerStatus 3 (Sample (λ v, if String.eqb v "DATA_SSD0_DIR" then Some "/mnt/ssd0" else None)
     (s_statfs demo_sample) (s_sensor demo_sample) 0 (s_cpu demo_sample) (s_cpu2 demo_sample) (1, 1)
     (s_mem demo_sample) 1 (s_unit demo_sample) 0 (s_undefined demo_sample)) []).1 = [Error disk_free_status].
Proof. done. Qed.
Example demo_second_sample_missing :
  (SendStatus 3 true [Sample (s_env demo_sample) (s_statfs demo_sample) (s_sensor demo_sample)
     0 (s_cpu demo_sample) (inr ()) (1, 0) (s_mem demo_sample) 1 (s_unit demo_sample) 0 (s_undefined demo_sample)] []).2 = None.
Proof. done. Qed.
